(* ===== verification/_CoqProject ===== *)
-Q . S2P
Prelude.v
GoStrings.v
Vocabulary.v
Pipeline.v
EpochFSM.v
Dedup.v
Timeouts.v
LaneBudget.v
WriteLane.v
Registration.v
GateAuthority.v
Verdict.v
GatePolicy.v
Gate.v
ControlLoop.v
SubWorkflows.v
HostVersion.v
NativeRows.v
Execution.v
NativeProfiles.v
HostExit.v
HookEnvironment.v
NativeResponse.v
Settlement.v
LaneWire.v
HookCommand.v
DecisionLedger.v
UatPolicy.v
UatCoverage.v
SourceManifest.v
EpochDescriptor.v
OwnerDescriptors.v
JsonMembers.v
RuntimeDescriptor.v
OwnerDocuments.v
SessionEvidence.v
SessionRows.v
SessionStore.v
SessionReplay.v
SessionWorld.v
AuditWriter.v
AuditTrail.v
AuditSessions.v
SchemaMigrate.v
IdConvert.v
IdCutover.v
