(* ===== verification/Prelude.v ===== *)
(** * Pasture: the protocol core, its engine, write lane, gates, hook, sessions, audit trail and store

    Pasture runs a multi-agent development protocol.  An epoch moves through
    twelve phases; agents cast review votes; a durable engine applies phase
    advances, records an audit trail and runs reviews and work slices as
    sub-workflows; a serialized lane commits every durable record; a policy gate
    decides what a hosted agent may do; and a hook command, started by the agent's
    host for every lifecycle event, records the event and tells the host whether
    to go on.  A cache of the sessions seen so far is kept beside the journal of
    those events.  An audit trail in the same file says who did what, and the file
    itself is upgraded, step by step, and cut over once to a new identity format.  This library models those parts and proves what makes them
    correct.

    ** The parts and how they interact

    - [Vocabulary] (pkg/protocol/types.go, enums.go, signals.go, constants.go):
      phases, roles, axes, votes, events, signals.  Go's string enumerations
      are open, so they are strings with a membership test.
    - [GoStrings] (Go's strings, strconv and encodings): TrimSpace, Split, Join,
      ParseUint, decimal and hexadecimal text, variable-length integers and sorting, for
      the parsers and the encodings.
    - [Pipeline] (types.go): phase numbering and the phase parser.
    - [EpochFSM] (state_machine.go, epoch_state.go): the epoch state machine:
      the transition table, the consensus and blocker gates, votes, blockers,
      history.  [fsm_step] closes the exported operations into a step relation.
    - [Dedup] (dedup.go, constants.go): deduplication keys and workflow names.
    - [Timeouts] (internal/timeouts): the timeout hierarchy and its overrides.
    - [LaneBudget], [WriteLane] (internal/writelane): the lane's budgets, its
      admission, its commit goroutine as a step relation [run_step], and the
      batch commit with its index arithmetic.
    - [Registration] (internal/lifecycle/registration): the event manifests of
      four pinned hosts.
    - [GateAuthority] (internal/lifecycle/gateauthority): who may do what in
      which phase, and the classification of every registered event.
    - [Verdict] (internal/lifecycle/waist/decision.go): decisions, their
      constructor and their JSON form.
    - [GatePolicy] (internal/lifecycle/gatepolicy): the decision procedure.
    - [Gate] (internal/lifecycle/gate): write intents, warrants and the commit
      surfaces' authorization.
    - [ControlLoop] (internal/engine/control.go, workflow.go): the two drivers
      of an epoch over an interface [EngineEnv] to the durable runtime, the
      projection table and the audit trail.
    - [SubWorkflows] (internal/engine/review.go, slice.go, activities.go): vote
      collection and slice execution over the same interface.
    - [HostVersion] (internal/runtime/version.go): host versions, version
      constraints, capability version ranges.
    - [NativeRows], [NativeProfiles] (internal/runtime/lifecycle.go,
      lifecycle_profiles*.go): what each host does with each of its events, the
      checks a row must pass, the four pinned tables, and the failure policy the
      hook looks up.
    - [Execution] (internal/lifecycle/execution): which provider, model and role
      an event is attributed to, settled from three sources.
    - [HostExit] (internal/lifecycle/hostexit): the exit statuses of the hook and
      the mapping of an internal fault to what the host receives.
    - [HookEnvironment] (cmd/pasture/hook_environment.go): the hook's variables.
    - [NativeResponse] (internal/lifecycle/nativeresponse, backend, and
      [prepareDelivery] of internal/handlers): the encoding of a verdict for a
      host, and its downgrade where the host cannot be refused.
    - [Settlement] (internal/lifecycle/receipt/settlement.go): the fence between
      the deadline of a hook and the append of its event.
    - [LaneWire] (internal/lifecycle/lanewire, laneclient, laneserve): the frames
      of the write lane's socket and both ends of its conversation.
    - [HookCommand] (cmd/pasture/hook_lifecycle.go, hook_lifecycle_lane.go): one
      invocation of the hook; its worker and its deadline are the step relation
      [hook_step].
    - [DecisionLedger] (internal/tasks/decision_ledger.go): typed decision
      descriptors, the catalog, canonical stored encodings.
    - [UatPolicy] (internal/tasks/uat_policy.go, policy_set.go,
      interaction_mode.go, afk_ratify.go): acceptance payloads, the production
      policy set, interaction modes, deferral and ratification of a plan while
      the user is away.
    - [UatCoverage] (internal/tasks/uat_coverage.go): what an implementation
      acceptance must resolve, and the digest that binds it.
    - [SourceManifest], [EpochDescriptor], [OwnerDescriptors],
      [RuntimeDescriptor] (internal/lifecycle/definitions/epoch.go, schema.go,
      retention.go, interpreter.go, runtime.go): the descriptors in which each
      owner of the lifecycle writes its part of the protocol down, as compiled
      and as validated when one is read back.
    - [JsonMembers] (definitions/document.go): the check for duplicate members.
    - [OwnerDocuments] (definitions/document.go, active.go, compat.go): the
      documents around the descriptors: decoding, construction, the set of one
      contract, updates of the source inventory.
    - [SessionEvidence] (internal/lifecycle/ingress, registration, projection,
      receipt; internal/tasks/session_state.go, session_state_rebuild.go): what an
      event says about its session, read live from its payload, stored by the
      receipt and read back by the replay.
    - [SessionRows] (internal/tasks): a row of the session cache and the three
      statements that write one, as functions of the old row.
    - [SessionStore] (internal/tasks/session_claim.go, session_state.go,
      session_api_store.go, open_unified.go): the session tables with their
      constraints and trigger; the claim, the tail of an event, bind and unbind.
    - [SessionReplay] (internal/tasks/session_state_rebuild.go, session_infer.go,
      internal/lifecycle/projection/fact_pages.go): the paged scan of the journal,
      the derivation of bindings from ownership, the publication and the refresh.
    - [SessionWorld]: the processes around one store as the step relation
      [wstep], one transaction a step, and the invariant [world_ok].
    - [AuditWriter] (internal/audit/write_retry.go): one atomic write of the audit
      trail: attempts, backoff, rollback, release of the connection, outcome.
    - [AuditTrail], [AuditSessions] (internal/audit/sqlite.go, query.go,
      memory.go): the events and the session entries in the tables and in the
      in-memory trail.
    - [SchemaMigrate] (internal/audit/schema_meta.go, migrate.go, open_retry.go,
      plan.go, migrate_v1_v2.go): the version rows, the migrator under its locks,
      the dry run's plan.
    - [IdConvert] (internal/idmigrate/idmigrate.go, pasture.go, preview.go): the
      retired identity form, its conversion in columns, arrays and documents, and
      the dry run.
    - [IdCutover] (internal/idmigrate/cutover_state.go, idmigrate.go, inventory.go,
      backup.go, pipeline.go, refusal.go; the frontends in internal/tasks and
      internal/handlers): the state machine of a store, its archive, its
      conversion in one transaction, and who may start it.

    [ControlLoop] drives [EpochFSM] with signals, names its emissions through
    [Dedup] and keeps the projection current; [SubWorkflows] collects the votes
    that [EpochFSM] gates on; [GatePolicy] consults the tables of
    [GateAuthority] and answers with the decisions of [Verdict].  [HookCommand]
    looks its failure policy up in [NativeProfiles], reads [HookEnvironment],
    asks a daemon through [LaneWire] or writes through [Settlement], and answers
    with [HostExit]; the verdicts of [GatePolicy] reach a host through
    [NativeResponse].  [UatPolicy]
    drafts through the catalog of [DecisionLedger], and [UatCoverage] hashes the
    payloads it validates.  [OwnerDocuments] decodes through [JsonMembers] and
    validates with the descriptors; what [EpochDescriptor] writes down is what
    [EpochFSM] executes.  The rows of [SessionStore] are those of [SessionRows];
    both read [SessionEvidence], the tail from the payload and [SessionReplay]
    from the journal, and [SessionWorld] shows that the two agree.  [AuditTrail]
    and [AuditSessions] write through [AuditWriter], each with the statements of its
    own transaction; [SchemaMigrate] waits for its lock with the backoff of that
    writer.  [IdCutover] archives the store, raises it with [SchemaMigrate] to the
    version below its own ceiling, converts it with [IdConvert] and applies the
    remaining steps inside the same transaction; [IdConvert] rewrites the states of
    [EpochFSM] and reads payloads as the values of [JsonMembers].

    ** Conventions

    A function that returns [(T, error)] is a function into [result E T] (this
    file) whose error type names the failures and carries the data their
    messages are formatted from.  [int] and [int64] are integers with [wrap64]
    written at every operation that can overflow; a queue or table the source
    keeps in SQL or in the durable runtime is a field of an interface class,
    and what is used of it is a named hypothesis ([MailboxLaws],
    [settle_honest], [step_faithful], [JsonRecord], [Json], [HeaderCodec],
    [JsonDecoder], [DocumentCodec], [PayloadCodec], [EvidenceReader] with
    [reader_ok], [ExecutionCodec], [Ownership], [PayloadJson], [StepBody],
    [IdentityParser], [StringArrays], [EpochCodec], [Owner] with [CutoverLaws]) with an instance that shows it can hold; the
    order in which Go iterates a map is [MapRange].  A write to a nil map is [None] or [Panicked].
    A database refuses a statement by the oracle [fails], which names the
    statement, and a transaction that does not commit returns its old store.
    Concurrency is a step relation whose steps are the critical sections of
    the source; the adversary chooses their interleaving.

    ** Loops and fuel

    [Pipeline.parse_fuel] recurses on a string that loses a byte per call;
    [parse_terminates] shows the length is enough.  The unbounded loops of the
    drivers ([control_loop], [drain_votes], [review_loop]) take fuel and return
    [OutOfFuel] when it ends; [drain_votes_exact] and [review_completes] show
    that one more than the queued messages is enough, [scripted_workflow_total]
    needs none, and [close_drains] bounds the steps of a closed lane.  The
    control workflow itself waits for signals for ever, so its theorem is about
    every state it can stop in.

    The retries of [AuditWriter] are given 37 turns and those of [SchemaMigrate] 22:
    the delays double up to their maximum, and so many of them exceed the budget
    ([audit_write_ends], [migrate_returns]).  The names of an archive are tried once
    more than there are files ([first_name_ends]).

    The hook needs no fuel: [hook_terminates] bounds its steps by a rank.
    [walk] over the tokens of a document is given twice their number, which
    [uniqueMembers_exact] shows is enough.  The scan of a journal is given one
    step more than the journal of its first page has rows, which [scan_pinned]
    shows is enough however the journal grows; the refresh has the eight attempts
    of the source.

    ** What the theorems show

    - The hook: it answers once, and when its receipt was acknowledged the answer is
      the recorded outcome; an append may fail after it has committed, and then the
      answer is a fault that does not claim nothing was recorded
      ([hook_answers_once]); every answer is the acknowledged receipt's outcome, the
      outcome in the daemon's response or a fault, with a declared exit status
      ([hook_answer_origin]); it ends ([hook_terminates]) and its
      deadline does not wait for the worker ([hook_deadline_answers]); every
      failure before the work answers the host ([prepare_answers]); a host is
      blocked by a fault only under the operator's exact opt-in and on a row that
      cites its refusal ([ForFault_spec], [LookupLifecycleFailure_sound],
      [HookEnvironment_exact]); the verdict that is recorded is the one the host
      is told ([prepareDelivery_honest], [policy_verdict_delivered]); a lane that
      is reported unavailable was sent no work ([Consult_unavailable_safe]) and a
      conversation delivers both messages intact ([lane_conversation]);
      attribution settles by fixed rules into records that validate
      ([Normalize_settles], [Normalize_valid]).
    - The epoch: offered transitions are the valid ones ([available_iff_valid]);
      an advance is decided by the calls made since the phase was entered: the last
      vote on each axis and the unresolved blockers ([Advance_spec]); no gated advance without
      consensus or with an open blocker ([gated_advance_safe]); the invariant of
      every reachable state ([reachable_inv]); completion visits the twelve
      phases in order ([complete_visits_pipeline]) and stays possible
      ([epoch_can_complete]).
    - The lane: no admitted record is lost, repeated or overtaken within the
      queue and batch bounds ([lane_no_loss]); a nil report means durable
      ([commitRecords_honest]); close drains ([close_drains]); budgets
      ([BudgetFromProfile_spec]).
    - The drivers: safety of the control workflow, exact consumption of votes,
      termination of the scripted one, honesty of slices, soundness and
      completion of reviews.
    - The gates: writes need a warrant of their class ([Authorize_gated]); the
      decision procedure refines its numbered rules, does not depend on the
      order of assignments and denies only on evidence; the tables are total.
    - Acceptance: the required decisions are exactly the unresolved ones; the
      digest's bytes determine the decision and nothing else, so verification
      fails as soon as it changes; payload validation is characterised; a
      deferral is ratifiable only under the mode entry it was anchored to;
      drafts decode to what was drafted, and stored rows decode canonically.
    - Definition documents: the transitions, gates and revise rule the epoch
      descriptor writes down are those the state machine enforces
      ([descriptor_governs]), though its phase inventory lists two more
      ([inventory_beyond_table], [inventory_refused]); each validator accepts
      exactly the well-formed descriptors ([validateEpochSpecification_exact],
      [descriptors_exact], [runtime_catalog_exact]); the duplicate check is
      exact ([uniqueMembers_exact]); a decoded document is canonical, addressed
      by its digest and cannot be activated ([decoded_never_activates]); the set
      of a contract is never refused once its documents are built
      ([ActiveForContract_exact]); a committed document is superseded in place
      only by a rebuild of it ([CompatibleSourceInventoryUpdate_sound]).
    - Sessions: what the receipt stores of a transition is what the replay reads
      ([receipt_replayed]); delivery order and repetition do not matter to a row
      ([live_is_replay], [redelivery_silent]); the first claim wins across
      processes ([first_claim_wins]); a fault of the cache does not reach the claim
      ([tail_isolated]); bind and unbind are exact ([Bind_exact], [Unbind_exact]);
      the scan is a snapshot ([scan_pinned]), the inference its rule
      ([inference_exact]) and a publication settles ([publication_settles]).  In
      every interleaving the cache shows what is certified and nothing beyond the
      journal ([cache_invariant]), holds the evidence columns and
      the executions of a replay once certified ([certified_is_replay]; the times
      first_seen, last_seen and updated_at are not claimed), keeps explicit bindings above derived ones
      ([explicit_rules]) and forgets nothing ([sessions_never_go_back]); a refresh
      is a run of those steps from the store it began on, on its error branches too
      ([refresh_refines]), and certifies the cache when nobody disturbs it
      ([refresh_certifies]).
    - The audit trail: a write takes effect at most once and its outcome is true
      ([audit_write_once]), it ends ([audit_write_ends]), and its connection is
      restored or retired ([connection_accounted]); an event is exactly one row more
      than the others wrote, or the row that had its key ([event_recorded_once]), and a batch whole or not at all
      ([session_batch_atomic]); the tables answer as the lists do ([query_exact],
      [trails_agree], [session_entries_agree]), but for the deduplication key, which
      is not returned, and the role of a built-in automaton, which a query by role
      does not find ([automaton_role_not_found]).
    - The store: what a migration leaves is reached by the others' writes and by each
      schema step once, at its own version ([steps_run_once]), every call returns ([migrate_returns]) and the plan is what
      is applied ([plan_is_applied]); a schema that a newer build installs during the
      wait is missed ([newer_schema_missed]).  A retired identity converts exactly
      ([identity_conversion]), a column and an epoch document likewise whatever the
      order ([convertIdentityColumn_exact], [convertEpochState_exact]), and the dry
      run announces the columns that are rewritten, with their distinct values, those
      of the library included ([preview_parity]; an array in two rows is announced
      once, [array_announced_by_value]).  The cutover leaves the store untouched or
      with every declared identity converted, marker and receipt included
      ([convert_atomic]), and never loses a store ([cutover_backed]).
    - Versions: precedence is a total preorder, parsing and printing are
      inverse, constraints are intervals, ranges intersect exactly when they
      share a version, exact ranges are exact below saturation.
    - Identifiers, timeouts, parsers and JSON: round trips, injectivity, order
      preservation, and the inputs on which they fail ([parse_number_mod64],
      [dedup_key_alias], [queued_votes_lost]).

    ** Not modelled

    The other SQL stores, sockets, processes, the command line, code
    generation, the installer and the web interface are input and output around
    these parts.  Crash recovery belongs to the durable runtime: a step is a
    parameter.  Wall-clock time is an argument.  Of the lane the hold timer is a
    step that may fire at any moment, and so is the deadline of the hook.  Of the
    hook, the evaluation of the event is an arbitrary step that may append once;
    the fault record file, the capture sink, the version query of the host, the
    election of the lane's socket and the decoding of host payloads are left out.
    Of the definition documents the generators of the embedded bodies and the
    compiled operation bindings are left out.  Of the sessions the HTTP interface
    and the listing of the cache are left out, and contexts are an oracle of
    expiry.  Of the audit trail the test seams of its writer are left out, of the
    migrations the bodies of the steps after the first, of the dry run its blockers
    and its preserved labels, and of the cutover the proof the command makes by
    reopening the store.  The journal of [HookCommand] holds what was appended,
    acknowledged or not.  A file, an archive and a transaction are values; that
    SQLite copies and commits them whole is assumed.  Messages of errors are data, not text, except in [Gate], where refusals carry
    their text, and in [HostExit], where the diagnostic does.

    ** Plan

    Left: the activation of definitions (internal/lifecycle/receipt) and its
    evaluator (internal/lifecycle/activation), the review projection of
    internal/tasks, the guarded push (internal/effects), and the bounded reader and
    cursors of the lifecycle model. *)

From Stdlib Require Import ZArith Lia Ascii String.
From stdpp Require Import base tactics list strings gmap pretty.

(** * Results of fallible Go functions

    A Go function that returns [(T, error)] becomes a function into
    [result E T]; the error type names the distinct failures and carries the
    data the message is formatted from. *)
Inductive result (E A : Type) : Type :=
  | Ok (a : A)
  | Err (e : E).
Arguments Ok {E A} a.
Arguments Err {E A} e.

#[export] Instance result_ret {E} : MRet (result E) := fun _ a => Ok a.
#[export] Instance result_bind {E} : MBind (result E) :=
  fun _ _ f r => match r with Ok a => f a | Err e => Err e end.
#[export] Instance result_eq_dec {E A} `{EqDecision E, EqDecision A} :
  EqDecision (result E A).
Proof. solve_decision. Defined.

Definition is_ok {E A} (r : result E A) : bool :=
  match r with Ok _ => true | Err _ => false end.

(** * Machine integers

    Go's [int] and [int64] are 64-bit two's complement and wrap around;
    [uint64] wraps modulo 2^64. *)
Definition max_int64 : Z := 2 ^ 63 - 1.
Definition min_int64 : Z := - 2 ^ 63.
Definition max_uint64 : Z := 2 ^ 64 - 1.

Definition wrap64 (z : Z) : Z := (z + 2 ^ 63) `mod` 2 ^ 64 - 2 ^ 63.
Definition in_int64 (z : Z) : Prop := (min_int64 <= z <= max_int64)%Z.

Lemma wrap64_range z : in_int64 (wrap64 z).
Proof.
  unfold in_int64, wrap64, min_int64, max_int64.
  pose proof (Z.mod_pos_bound (z + 2 ^ 63) (2 ^ 64) ltac:(lia)). lia.
Qed.

Lemma wrap64_id z : in_int64 z -> wrap64 z = z.
Proof.
  unfold in_int64, wrap64, min_int64, max_int64. intros Hz.
  rewrite Z.mod_small; lia.
Qed.

Lemma wrap64_wrap_mul_add a k x : wrap64 (wrap64 a * k + x) = wrap64 (a * k + x).
Proof.
  unfold wrap64. f_equal.
  replace (((a + 2 ^ 63) `mod` 2 ^ 64 - 2 ^ 63) * k + x + 2 ^ 63)%Z
    with ((a + 2 ^ 63) `mod` 2 ^ 64 * k + (- 2 ^ 63 * k + x + 2 ^ 63))%Z by lia.
  replace (a * k + x + 2 ^ 63)%Z
    with ((a + 2 ^ 63) * k + (- 2 ^ 63 * k + x + 2 ^ 63))%Z by lia.
  rewrite Z.add_mod, Z.mul_mod_idemp_l, <- Z.add_mod by lia. done.
Qed.

Lemma wrap64_wrap_add a x : wrap64 (wrap64 a + x) = wrap64 (a + x).
Proof. pose proof (wrap64_wrap_mul_add a 1 x) as H. by rewrite !Z.mul_1_r in H. Qed.

(** * Switches over string-valued enumerations

    Go's string enumerations are open types: any string inhabits them, and a
    [switch] over the constants decides membership. [one_of s l] is that
    switch. *)
Definition one_of (s : string) (l : list string) : bool := existsb (String.eqb s) l.

Lemma one_of_spec s l : one_of s l = true <-> s ∈ l.
Proof.
  unfold one_of. rewrite existsb_exists. setoid_rewrite String.eqb_eq.
  rewrite list_elem_of_In. split; [intros (x&?&->); done|eauto].
Qed.

Lemma one_of_incl l k : forallb (fun s => one_of s k) l = true -> forall s, s ∈ l -> s ∈ k.
Proof.
  intros H s Hs%list_elem_of_In. apply one_of_spec. by apply (proj1 (forallb_forall _ _) H).
Qed.

(** * Strings assembled with separators

    Keys and identifiers are built by concatenation around a separator; the
    parts are recovered from the last separator on. *)
Lemma bytes_app a b :
  list_ascii_of_string (String.append a b)
  = (list_ascii_of_string a ++ list_ascii_of_string b)%list.
Proof. induction a as [|c a IH]; [done|]. simpl. by rewrite IH. Qed.

Lemma bytes_inj a b : list_ascii_of_string a = list_ascii_of_string b -> a = b.
Proof.
  intros H. by rewrite <- (string_of_list_ascii_of_string a), H,
    string_of_list_ascii_of_string.
Qed.

Lemma string_length_app a b :
  String.length (String.append a b) = (String.length a + String.length b)%nat.
Proof. induction a as [|c a IH]; [done|]. simpl. by rewrite IH. Qed.

Lemma app_last_sep {A} (sep : A) a b c d :
  sep ∉ b -> sep ∉ d -> (a ++ sep :: b = c ++ sep :: d)%list -> a = c /\ b = d.
Proof.
  intros Hb Hd. revert c. induction a as [|x a IH]; intros [|y c] H; simpl in H.
  - by injection H as ->.
  - injection H as Hx H. exfalso. apply Hb. rewrite H. apply elem_of_app. right. by left.
  - injection H as Hx H. exfalso. apply Hd. rewrite <- H. apply elem_of_app. right. by left.
  - injection H as -> H. destruct (IH c H). by subst.
Qed.

(** Decimal digits, what [%d] prints of a non-negative number. *)
Definition is_decimal (c : ascii) : Prop :=
  (48 <= Ascii.N_of_ascii c <= 57)%N.

Lemma pretty_N_go_decimal x s :
  Forall is_decimal (list_ascii_of_string s) ->
  Forall is_decimal (list_ascii_of_string (pretty_N_go x s)).
Proof.
  revert s. induction (N.lt_wf_0 x) as [x _ IH]; intros s Hs.
  destruct (decide (x = 0)%N) as [->|Hx]; [by rewrite pretty_N_go_0|].
  rewrite pretty_N_go_step by lia. apply IH; [apply N.div_lt; lia|].
  simpl. constructor; [|done]. unfold is_decimal, pretty_N_char. by repeat case_match.
Qed.

Lemma pretty_N_decimal (n : N) : Forall is_decimal (list_ascii_of_string (pretty n)).
Proof.
  unfold pretty, pretty_N. case_decide; [|by apply pretty_N_go_decimal].
  repeat constructor; done.
Qed.

(** * Three-way comparisons

    Go compares with functions into -1, 0 and 1; a lawful one is a total
    preorder.  Comparing field by field and comparing element by element keep
    the laws. *)
Class Comparator {A} (cmp : A -> A -> Z) : Prop := {
  cmp_sign a b : (cmp a b = -1 \/ cmp a b = 0 \/ cmp a b = 1)%Z;
  cmp_opp a b : (cmp b a = - cmp a b)%Z;
  cmp_trans a b c : (cmp a b <= 0 -> cmp b c <= 0 -> cmp a c <= 0)%Z;
}.

Definition cmp_lex {A} (c1 c2 : A -> A -> Z) (a b : A) : Z :=
  let c := c1 a b in if negb (c =? 0)%Z then c else c2 a b.

Fixpoint cmp_list {A} (cmp : A -> A -> Z) (a b : list A) : Z :=
  match a, b with
  | [], [] => 0
  | [], _ :: _ => -1
  | _ :: _, [] => 1
  | x :: a', y :: b' => let c := cmp x y in if negb (c =? 0)%Z then c else cmp_list cmp a' b'
  end.

Ltac split_compare :=
  repeat match goal with
  | |- context [Z.ltb ?x ?y] => destruct (Z.ltb_spec x y)
  | |- context [Z.eqb ?x ?y] => destruct (Z.eqb_spec x y)
  end; simpl in *; try lia.

#[export] Instance comparator_pull {A B} (f : A -> B) (cmp : B -> B -> Z) `{!Comparator cmp} :
  Comparator (fun x y => cmp (f x) (f y)).
Proof. split; intros; [apply cmp_sign|apply cmp_opp|by eapply cmp_trans]. Qed.

#[export] Instance cmp_lex_comparator {A} (c1 c2 : A -> A -> Z)
    `{!Comparator c1, !Comparator c2} : Comparator (cmp_lex c1 c2).
Proof.
  split.
  - intros a b. unfold cmp_lex. pose proof (cmp_sign (cmp:=c1) a b). split_compare. apply cmp_sign.
  - intros a b. unfold cmp_lex. rewrite (cmp_opp (cmp:=c1) a b). split_compare. apply cmp_opp.
  - intros a b c. unfold cmp_lex.
    pose proof (cmp_trans (cmp:=c1) a b c). pose proof (cmp_trans (cmp:=c1) b c a).
    pose proof (cmp_trans (cmp:=c1) c a b). pose proof (cmp_trans (cmp:=c2) a b c).
    pose proof (cmp_opp (cmp:=c1) a b). pose proof (cmp_opp (cmp:=c1) b c).
    pose proof (cmp_opp (cmp:=c1) a c). split_compare.
Qed.

Lemma cmp_list_laws {A} (cmp : A -> A -> Z) `{!Comparator cmp} a :
  forall b, ((cmp_list cmp a b = -1 \/ cmp_list cmp a b = 0 \/ cmp_list cmp a b = 1) /\
    cmp_list cmp b a = - cmp_list cmp a b /\
    forall c, cmp_list cmp a b <= 0 -> cmp_list cmp b c <= 0 -> cmp_list cmp a c <= 0)%Z.
Proof.
  induction a as [|x a IH]; intros [|y b]; simpl; [split_and!; auto; intros [|z c]; lia..|].
  destruct (IH b) as (Hs & Ho & Ht). pose proof (cmp_sign (cmp:=cmp) x y). rewrite (cmp_opp (cmp:=cmp) x y).
  split_and!; [split_compare..|].
  intros [|z c]; [lia|]. specialize (Ht c).
  pose proof (cmp_trans (cmp:=cmp) x y z). pose proof (cmp_trans (cmp:=cmp) y z x). pose proof (cmp_trans (cmp:=cmp) z x y).
  pose proof (cmp_opp (cmp:=cmp) x y). pose proof (cmp_opp (cmp:=cmp) y z). pose proof (cmp_opp (cmp:=cmp) x z). split_compare.
Qed.

#[export] Instance cmp_list_comparator {A} (cmp : A -> A -> Z) `{!Comparator cmp} :
  Comparator (cmp_list cmp).
Proof. split; intros; edestruct (cmp_list_laws cmp a b) as (? & ? & ?); eauto. Qed.

Lemma exists_elem_cons {A} (P : A -> Prop) x l :
  (exists y, y ∈ x :: l /\ P y) <-> P x \/ exists y, y ∈ l /\ P y.
Proof.
  split.
  - intros (y & [->|Hy]%elem_of_cons & HP); [by left|right; eauto].
  - intros [HP|(y & Hy & HP)]; eexists; (split; [|exact HP]); [left|by right].
Qed.

Lemma exists_elem_nil {A} (P : A -> Prop) : (exists y, y ∈ [] /\ P y) <-> False.
Proof. split; [|done]. intros (y & Hy & _). by apply not_elem_of_nil in Hy. Qed.

Lemma filter_filter {A} (p q : A -> bool) l :
  List.filter p (List.filter q l) = List.filter (fun x => q x && p x) l.
Proof. induction l as [|x l IH]; simpl; [done|]. destruct (q x); simpl; by rewrite IH. Qed.

(** The library's hint database: the facts that close the common cases. *)
Create HintDb pasture discriminated.
#[export] Hint Resolve wrap64_range wrap64_id : pasture.

(** [crush] splits the boolean connectives and matches of an executable
    definition and closes what is left by computation or arithmetic. *)
Ltac crush :=
  repeat (simplify_eq/= || case_match || case_decide || case_bool_decide);
  try done; try congruence; try lia; auto with pasture.

(** [by_cases l] reduces a goal about a member of a literal list to the
    members. *)
Ltac elim_members H :=
  repeat rewrite elem_of_cons in H; destruct_or? H;
  try (exfalso; exact (not_elem_of_nil _ H)); subst.
