(* ===== verification/GoStrings.v ===== *)
(** GoStrings: the functions of Go's [strings] and [strconv] packages the
    program parses with, over byte strings.

    A Go string is a sequence of bytes.  [TrimSpace] strips the UTF-8 encodings
    of the runes [unicode.IsSpace] accepts; an encoded rune is the first (last)
    rune of a string exactly when its bytes are a prefix (suffix) of it. *)

From Stdlib Require Import ZArith Lia Ascii String.
From stdpp Require Import base tactics list strings pretty sorting.
From S2P Require Import Prelude.
Local Open Scope string_scope.
Local Open Scope list_scope.

(** ** Byte strings *)
Abbreviation bytes := (list ascii) (only parsing).
Abbreviation to_bytes := list_ascii_of_string (only parsing).
Abbreviation of_bytes := string_of_list_ascii (only parsing).
Definition hex (l : list N) : bytes := ascii_of_N <$> l.

Definition byte_between (lo hi : N) (c : ascii) : bool :=
  ((lo <=? N_of_ascii c) && (N_of_ascii c <=? hi))%N.
Definition is_digit : ascii -> bool := byte_between 48 57.
Definition digit_value (c : ascii) : Z := Z.of_N (N_of_ascii c) - 48.

(** The encodings of the white-space runes of [unicode.IsSpace]. *)
Definition space_runes : list bytes :=
  hex <$> [[9]; [10]; [11]; [12]; [13]; [32];
           [0xC2; 0x85]; [0xC2; 0xA0]; [0xE1; 0x9A; 0x80];
           [0xE2; 0x80; 0x80]; [0xE2; 0x80; 0x81]; [0xE2; 0x80; 0x82];
           [0xE2; 0x80; 0x83]; [0xE2; 0x80; 0x84]; [0xE2; 0x80; 0x85];
           [0xE2; 0x80; 0x86]; [0xE2; 0x80; 0x87]; [0xE2; 0x80; 0x88];
           [0xE2; 0x80; 0x89]; [0xE2; 0x80; 0x8A]; [0xE2; 0x80; 0xA8];
           [0xE2; 0x80; 0xA9]; [0xE2; 0x80; 0xAF]; [0xE2; 0x81; 0x9F];
           [0xE3; 0x80; 0x80]]%N.

Fixpoint strip_prefix (p s : bytes) : option bytes :=
  match p, s with
  | [], _ => Some s
  | a :: p', b :: s' => if Ascii.eqb a b then strip_prefix p' s' else None
  | _ :: _, [] => None
  end.

Fixpoint strip_any (ps : list bytes) (s : bytes) : option bytes :=
  match ps with
  | [] => None
  | p :: ps' => match strip_prefix p s with Some r => Some r | None => strip_any ps' s end
  end.

(** Each iteration drops one rune of at least one byte, so the length of the
    string bounds the iterations. *)
Fixpoint trim_runes (fuel : nat) (ps : list bytes) (s : bytes) : bytes :=
  match fuel with
  | O => s
  | S f => match strip_any ps s with Some r => trim_runes f ps r | None => s end
  end.

Definition trim_left (s : bytes) : bytes := trim_runes (length s) space_runes s.
Definition trim_right (s : bytes) : bytes :=
  rev (trim_runes (length s) (@rev ascii <$> space_runes) (rev s)).
Definition TrimSpace (s : bytes) : bytes := trim_right (trim_left s).


(** ** UTF-8

    The runes of a string, or nothing when it is not well formed: overlong
    encodings, surrogates and values above U+10FFFF are refused, as
    [utf8.ValidString] refuses them. *)
Definition continuation_byte : ascii -> bool := byte_between 0x80 0xBF.
Definition low_bits (k : N) (c : ascii) : N := N.land (N_of_ascii c) (N.ones k).
Definition lead3 (a b : ascii) : bool :=
  let n := N_of_ascii a in
  if (n =? 0xE0)%N then byte_between 0xA0 0xBF b
  else if (n =? 0xED)%N then byte_between 0x80 0x9F b
  else byte_between 0xE1 0xEF a && continuation_byte b.
Definition lead4 (a b : ascii) : bool :=
  let n := N_of_ascii a in
  if (n =? 0xF0)%N then byte_between 0x90 0xBF b
  else if (n =? 0xF4)%N then byte_between 0x80 0x8F b
  else byte_between 0xF1 0xF3 a && continuation_byte b.

Fixpoint runes (s : bytes) : option (list N) :=
  match s with
  | [] => Some []
  | a :: s1 =>
      if (N_of_ascii a <? 0x80)%N then cons (N_of_ascii a) <$> runes s1
      else match s1 with
      | [] => None
      | b :: s2 =>
          if byte_between 0xC2 0xDF a && continuation_byte b
          then cons (N.shiftl (low_bits 5 a) 6 + low_bits 6 b)%N <$> runes s2
          else match s2 with
          | [] => None
          | c :: s3 =>
              if lead3 a b && continuation_byte c
              then cons (N.shiftl (low_bits 4 a) 12 + N.shiftl (low_bits 6 b) 6 + low_bits 6 c)%N
                     <$> runes s3
              else match s3 with
              | [] => None
              | d :: s4 =>
                  if lead4 a b && continuation_byte c && continuation_byte d
                  then cons (N.shiftl (low_bits 3 a) 18 + N.shiftl (low_bits 6 b) 12
                             + N.shiftl (low_bits 6 c) 6 + low_bits 6 d)%N <$> runes s4
                  else None
              end
          end
      end
  end.
Definition ValidString (s : bytes) : bool := match runes s with Some _ => true | None => false end.

(** [unicode.IsControl]: the runes of category Cc. *)
Definition IsControl (r : N) : bool := ((r <? 0x20) || ((0x7F <=? r) && (r <=? 0x9F)))%N.

(** [unicode.IsSpace]. *)
Definition IsSpace (r : N) : bool :=
  (((0x9 <=? r) && (r <=? 0xD)) || (r =? 0x20) || (r =? 0x85) || (r =? 0xA0) || (r =? 0x1680)
   || ((0x2000 <=? r) && (r <=? 0x200A)) || (r =? 0x2028) || (r =? 0x2029) || (r =? 0x202F)
   || (r =? 0x205F) || (r =? 0x3000))%N.

Definition TrimPrefix (s p : bytes) : bytes := default s (strip_prefix p s).

(** [IndexByte] with [None] for -1. *)
Fixpoint IndexByte (s : bytes) (c : ascii) : option nat :=
  match s with
  | [] => None
  | x :: s' => if Ascii.eqb x c then Some O else S <$> IndexByte s' c
  end.

(** [strings.Split] with a separator of one byte. *)
Fixpoint Split (s : bytes) (sep : ascii) : list bytes :=
  match s with
  | [] => [[]]
  | x :: s' =>
      if Ascii.eqb x sep then [] :: Split s' sep
      else match Split s' sep with
           | f :: fs => (x :: f) :: fs
           | [] => [[x]]
           end
  end.

Fixpoint Join (fs : list bytes) (sep : ascii) : bytes :=
  match fs with
  | [] => []
  | [f] => f
  | f :: fs' => f ++ sep :: Join fs' sep
  end.

(** [strings.Compare]: bytewise lexicographic. *)
Fixpoint Compare (a b : bytes) : Z :=
  match a, b with
  | [], [] => 0
  | [], _ :: _ => -1
  | _ :: _, [] => 1
  | x :: a', y :: b' =>
      if (N_of_ascii x <? N_of_ascii y)%N then -1
      else if (N_of_ascii y <? N_of_ascii x)%N then 1
      else Compare a' b'
  end.

(** [strconv.ParseUint(s, 10, 64)]: the value is meaningful on an error too,
    since callers may drop the error. *)
Inductive NumError := ErrSyntax | ErrRange.

Definition uint_cutoff : Z := max_uint64 / 10 + 1.

Fixpoint parse_uint_loop (n : Z) (s : bytes) : Z * option NumError :=
  match s with
  | [] => (n, None)
  | c :: s' =>
      if negb (is_digit c) then (0, Some ErrSyntax)
      else if uint_cutoff <=? n then (max_uint64, Some ErrRange)
      else let n := n * 10 in
           let n1 := (n + digit_value c) mod 2 ^ 64 in
           if n1 <? n then (max_uint64, Some ErrRange) else parse_uint_loop n1 s'
  end%Z.

Definition ParseUint (s : bytes) : Z * option NumError :=
  match s with [] => (0%Z, Some ErrSyntax) | _ => parse_uint_loop 0 s end.

(** [%d] of an unsigned integer. *)
Definition format_uint (n : Z) : bytes := to_bytes (pretty (Z.to_N n)).

(** Digit strings without a leading zero: what [%d] prints, and the numeral
    [0|[1-9]\d*] of the program's patterns. *)
Definition canonical (d : bytes) : bool :=
  forallb is_digit d &&
  match d with [] => false | [_] => true | c :: _ => negb (Ascii.eqb c "0"%char) end.

(** [%d] of a Go [int], and [strconv.FormatInt] in base 10. *)
Definition format_int (z : Z) : string :=
  if (z <? 0)%Z then String "-" (pretty (Z.to_N (- z))) else pretty (Z.to_N z).

(** [encoding/hex]: encoding is lower case, decoding takes both cases. *)
Definition hex_digit (n : N) : ascii := ascii_of_N (if n <? 10 then 48 + n else 87 + n)%N.

Definition HexEncode (s : bytes) : bytes :=
  s ≫= fun c => [hex_digit (N_of_ascii c / 16); hex_digit (N_of_ascii c mod 16)]%N.

Definition hex_value (c : ascii) : option N :=
  let n := N_of_ascii c in
  if byte_between 48 57 c then Some (n - 48)%N
  else if byte_between 97 102 c then Some (n - 87)%N
  else if byte_between 65 70 c then Some (n - 55)%N
  else None.

Fixpoint HexDecode (s : bytes) : option bytes :=
  match s with
  | [] => Some []
  | [_] => None
  | p :: q :: r =>
      match hex_value p, hex_value q with
      | Some a, Some b => cons (ascii_of_N (16 * a + b)) <$> HexDecode r
      | _, _ => None
      end
  end.

(** [binary.PutUvarint]: seven bits per byte, so the bit size of the number
    bounds the bytes. *)
Fixpoint put_uvarint (fuel : nat) (x : N) : bytes :=
  match fuel with
  | O => []
  | S f => if (x <? 128)%N then [ascii_of_N x]
           else ascii_of_N (128 + x mod 128) :: put_uvarint f (x / 128)
  end.

Definition PutUvarint (x : N) : bytes := put_uvarint (S (N.to_nat (N.size x))) x.

(** A field behind its length. *)
Definition delimited (f : bytes) : bytes := PutUvarint (N.of_nat (length f)) ++ f.

(** A count followed by the encodings of the elements. *)
Definition counted {A} (f : A -> bytes) (l : list A) : bytes :=
  PutUvarint (N.of_nat (length l)) ++ (l ≫= f).

(** [<] on strings, and [sort.Slice] with a less function: which permutation
    it leaves among elements that are not less than each other is unspecified,
    and the program sorts only lists whose ties are equal elements. *)
Definition string_less (a b : string) : bool := (Compare (to_bytes a) (to_bytes b) <? 0)%Z.

Definition sort_slice {A} (less : A -> A -> bool) : list A -> list A :=
  merge_sort (fun a b => less b a = false) (H := fun a b => decide (less b a = false)).

(** [strings.HasPrefix], [HasSuffix] and [Contains]. *)
Definition HasPrefix (s prefix : bytes) : bool := match strip_prefix prefix s with Some _ => true | None => false end.
Definition HasSuffix (s suffix : bytes) : bool := HasPrefix (rev s) (rev suffix).
Fixpoint ContainsSub (s sub : bytes) : bool :=
  HasPrefix s sub || match s with [] => false | _ :: s' => ContainsSub s' sub end.

(** * Theorems *)

(** ** TrimSpace *)

Lemma strip_prefix_length p s r :
  strip_prefix p s = Some r -> length s = (length p + length r)%nat.
Proof.
  revert s. induction p as [|a p IH]; intros [|b s]; simpl; try naive_solver.
  destruct (Ascii.eqb a b); [|done]. intros H%IH. lia.
Qed.

Lemma strip_any_length ps s r :
  strip_any ps s = Some r -> (length r <= length s)%nat.
Proof.
  induction ps as [|p ps IH]; simpl; [done|].
  destruct (strip_prefix p s) eqn:E; [|done].
  intros [= <-]. apply strip_prefix_length in E. lia.
Qed.

Lemma trim_runes_length fuel ps s : (length (trim_runes fuel ps s) <= length s)%nat.
Proof.
  revert s. induction fuel as [|f IH]; intros s; simpl; [done|].
  destruct (strip_any ps s) eqn:E; [|done].
  apply strip_any_length in E. specialize (IH l). lia.
Qed.

Lemma TrimSpace_length s : (length (TrimSpace s) <= length s)%nat.
Proof.
  unfold TrimSpace, trim_right, trim_left. rewrite length_rev.
  etrans; [apply trim_runes_length|]. rewrite length_rev. apply trim_runes_length.
Qed.

(** The ASCII bytes that are neither white space nor control characters. *)
Definition graphic : ascii -> bool := byte_between 33 126.

Definition spaced_heads (ps : list bytes) : bool :=
  forallb (fun p => match p with a :: _ => negb (graphic a) | [] => false end) ps.

Lemma strip_any_graphic ps s :
  spaced_heads ps = true -> forallb graphic s = true -> strip_any ps s = None.
Proof.
  intros Hp Hs. induction ps as [|[|a p] ps IH]; [done|done|].
  apply andb_prop in Hp as [Ha Hp]. cbn [strip_any strip_prefix].
  destruct s as [|c s]; [by apply IH|].
  destruct (Ascii.eqb_spec a c) as [->|]; [|by apply IH].
  apply andb_prop in Hs as [Hc _]. by rewrite Hc in Ha.
Qed.

Lemma trim_runes_graphic fuel ps s :
  spaced_heads ps = true -> forallb graphic s = true -> trim_runes fuel ps s = s.
Proof. intros. destruct fuel; [done|]. simpl. by rewrite strip_any_graphic. Qed.

Lemma forallb_rev {A} (f : A -> bool) l : forallb f (rev l) = forallb f l.
Proof.
  apply eq_bool_prop_intro. rewrite !Is_true_true, !forallb_forall.
  split; intros H x Hx; apply H; by apply in_rev; rewrite ?rev_involutive.
Qed.

Lemma TrimSpace_graphic s : forallb graphic s = true -> TrimSpace s = s.
Proof.
  intros Hs. unfold TrimSpace, trim_left. rewrite trim_runes_graphic by done.
  unfold trim_right. rewrite trim_runes_graphic; [apply rev_involutive|done|].
  by rewrite forallb_rev.
Qed.

Lemma of_to_bytes s : of_bytes (to_bytes s) = s.
Proof. apply string_of_list_ascii_of_string. Qed.
Lemma to_of_bytes s : to_bytes (of_bytes s) = s.
Proof. apply list_ascii_of_string_of_list_ascii. Qed.

Lemma length_to_bytes s : length (to_bytes s) = String.length s.
Proof. induction s; simpl; congruence. Qed.

(** The number a digit string denotes. *)
Fixpoint decimal (num : Z) (ds : bytes) : Z :=
  match ds with [] => num | c :: ds' => decimal (num * 10 + digit_value c) ds' end.

Lemma is_digit_range c : is_digit c = true <-> (0 <= digit_value c <= 9)%Z.
Proof.
  unfold is_digit, byte_between, digit_value. rewrite andb_true_iff, !N.leb_le. lia.
Qed.

Lemma decimal_app n a b : decimal n (a ++ b) = decimal (decimal n a) b.
Proof. revert n. induction a as [|c a IH]; intros n; simpl; [done|apply IH]. Qed.

Lemma decimal_mono n d : (0 <= n)%Z -> forallb is_digit d = true -> (n <= decimal n d)%Z.
Proof.
  revert n. induction d as [|c d IH]; intros n Hn; simpl; [lia|].
  intros [Hc%is_digit_range Hd]%andb_prop. etrans; [|apply IH; [lia|done]]. lia.
Qed.

(** ** Splitting and joining *)

Lemma IndexByte_None s c : IndexByte s c = None <-> c ∉ s.
Proof.
  induction s as [|x s IH]; simpl; [split; [intros _ H; inversion H|done]|].
  destruct (Ascii.eqb_spec x c) as [->|Hn].
  - split; [done|]. intros H. exfalso. apply H. by left.
  - rewrite fmap_None, IH, not_elem_of_cons. naive_solver.
Qed.

Lemma IndexByte_Some s c i :
  IndexByte s c = Some i -> s = take i s ++ c :: drop (S i) s /\ c ∉ take i s.
Proof.
  revert i. induction s as [|x s IH]; intros i; simpl; [done|].
  destruct (Ascii.eqb_spec x c) as [->|Hn].
  - intros [= <-]. split; [done|]. intros H; inversion H.
  - intros (j & Hj & ->)%fmap_Some. destruct (IH j Hj) as [H1 H2]. simpl. split.
    + by rewrite <- H1.
    + rewrite not_elem_of_cons. split; [congruence|done].
Qed.

Lemma IndexByte_app a b c : c ∉ a -> IndexByte (a ++ c :: b) c = Some (length a).
Proof.
  induction a as [|x a IH]; simpl.
  - intros _. by rewrite Ascii.eqb_refl.
  - rewrite not_elem_of_cons. intros [Hx Ha]. rewrite (IH Ha).
    destruct (Ascii.eqb_spec x c); [congruence|done].
Qed.

Lemma Split_not_nil s c : Split s c <> [].
Proof. destruct s; simpl; [done|]. case_match; [done|]. by case_match. Qed.

Lemma Join_cons f fs c : fs <> [] -> Join (f :: fs) c = f ++ c :: Join fs c.
Proof. by destruct fs. Qed.

Lemma Join_Split s c : Join (Split s c) c = s.
Proof.
  induction s as [|x s IH]; simpl; [done|].
  destruct (Ascii.eqb_spec x c) as [->|].
  - rewrite Join_cons by apply Split_not_nil. by rewrite IH.
  - destruct (Split s c) as [|f fs] eqn:E; [by destruct (Split_not_nil s c)|].
    rewrite <- IH. by destruct fs.
Qed.

Lemma Split_sep_free s c : Forall (fun f => c ∉ f) (Split s c).
Proof.
  induction s as [|x s IH]; simpl.
  - repeat constructor. intros H; inversion H.
  - destruct (Ascii.eqb_spec x c) as [->|Hn].
    + constructor; [intros H; inversion H|done].
    + destruct (Split s c) as [|f fs]; [repeat constructor|inversion_clear IH; constructor; [|done]];
        rewrite not_elem_of_cons; split; try congruence; try done. intros H'; inversion H'.
Qed.

Lemma Split_one f c : c ∉ f -> Split f c = [f].
Proof.
  induction f as [|x f IH]; simpl; [done|]. rewrite not_elem_of_cons. intros [Hx Hf].
  rewrite (IH Hf). by destruct (Ascii.eqb_spec x c).
Qed.

Lemma Split_cons f s c : c ∉ f -> Split (f ++ c :: s) c = f :: Split s c.
Proof.
  induction f as [|x f IH]; simpl; [by rewrite Ascii.eqb_refl|].
  rewrite not_elem_of_cons. intros [Hx Hf]. rewrite (IH Hf).
  by destruct (Ascii.eqb_spec x c).
Qed.

Lemma Split_Join fs c : fs <> [] -> Forall (fun f => c ∉ f) fs -> Split (Join fs c) c = fs.
Proof.
  induction fs as [|f [|g fs] IH]; intros Hne HF; [done|..]; inversion_clear HF as [|? ? Hf Hg].
  - by apply Split_one.
  - rewrite Join_cons, Split_cons by done. f_equal. by apply IH.
Qed.

(** ** Unsigned integers *)

Lemma parse_uint_loop_spec n s :
  (0 <= n <= max_uint64)%Z -> forallb is_digit s = true ->
  parse_uint_loop n s =
    if (decimal n s <=? max_uint64)%Z then (decimal n s, None) else (max_uint64, Some ErrRange).
Proof.
  revert n. induction s as [|c s IH]; intros n Hn Hs; simpl.
  - by rewrite (proj2 (Z.leb_le _ _) (proj2 Hn)).
  - simpl in Hs. apply andb_prop in Hs as [Hc Hs]. rewrite Hc. simpl.
    apply is_digit_range in Hc.
    assert (Hm := decimal_mono (n * 10 + digit_value c) s ltac:(lia) Hs).
    unfold uint_cutoff. change (max_uint64 / 10 + 1)%Z with 1844674407370955162%Z.
    unfold max_uint64 in *.
    destruct (Z.leb_spec 1844674407370955162 n).
    { by rewrite (proj2 (Z.leb_gt _ _)) by lia. }
    destruct (Z.lt_ge_cases (n * 10 + digit_value c) (2 ^ 64)).
    + rewrite Z.mod_small by lia. rewrite (proj2 (Z.ltb_ge _ _)) by lia.
      rewrite IH by (done || lia). done.
    + rewrite <- (Z.mod_unique_pos (n * 10 + digit_value c) (2 ^ 64) 1
                    (n * 10 + digit_value c - 2 ^ 64)) by lia.
      rewrite (proj2 (Z.ltb_lt _ _)) by lia. by rewrite (proj2 (Z.leb_gt _ _)) by lia.
Qed.

Lemma parse_uint_loop_syntax n s :
  forallb is_digit s = false -> (parse_uint_loop n s).2 <> None.
Proof.
  revert n. induction s as [|c s IH]; intros n; simpl; [done|].
  destruct (is_digit c); simpl; [|done]. intros Hs. repeat case_match; try done. by apply IH.
Qed.

(** [ParseUint] succeeds exactly on the non-empty digit strings whose value
    fits 64 bits, and saturates on the others. *)
Lemma ParseUint_Some s n :
  ParseUint s = (n, None) <->
  s <> [] /\ forallb is_digit s = true /\ decimal 0 s = n /\ (n <= max_uint64)%Z.
Proof.
  destruct s as [|c s]; [naive_solver|]. unfold ParseUint.
  destruct (forallb is_digit (c :: s)) eqn:E.
  - rewrite parse_uint_loop_spec by (done || by vm_compute).
    destruct (Z.leb_spec (decimal 0 (c :: s)) max_uint64); naive_solver lia.
  - pose proof (parse_uint_loop_syntax 0 _ E). destruct (parse_uint_loop _ _). naive_solver.
Qed.

Lemma pretty_char_digit c : is_digit c = true -> pretty_N_char (Z.to_N (digit_value c)) = c.
Proof. destruct c as [[] [] [] [] [] [] [] []]; vm_compute; congruence. Qed.

Lemma pretty_go_digits c d s :
  is_digit c = true -> Ascii.eqb c "0"%char = false -> forallb is_digit d = true ->
  pretty_N_go (Z.to_N (decimal 0 (c :: d))) s = of_bytes ((c :: d) ++ to_bytes s).
Proof.
  intros Hc H0. revert s.
  assert (0 < digit_value c <= 9)%Z as Hv.
  { revert Hc H0. destruct c as [[] [] [] [] [] [] [] []]; vm_compute; intuition congruence. }
  induction d as [|x d IH] using rev_ind; intros s Hd.
  - cbn [decimal]. rewrite pretty_N_go_step by lia.
    rewrite N.div_small, N.mod_small by lia. rewrite pretty_N_go_0.
    replace (0 * 10 + digit_value c)%Z with (digit_value c) by lia.
    rewrite pretty_char_digit by done. simpl. by rewrite of_to_bytes.
  - rewrite forallb_app in Hd. apply andb_prop in Hd as [Hd Hx]. simpl in Hx.
    rewrite andb_true_r in Hx. pose proof (proj1 (is_digit_range x) Hx) as Hr.
    change (c :: d ++ [x]) with ((c :: d) ++ [x]). rewrite decimal_app.
    cbn [decimal]. set (m := decimal (0 * 10 + digit_value c) d).
    assert (0 < m)%Z by (pose proof (decimal_mono (0 * 10 + digit_value c) d ltac:(lia) Hd); lia).
    rewrite pretty_N_go_step by lia.
    replace (Z.to_N (m * 10 + digit_value x)) with (10 * Z.to_N m + Z.to_N (digit_value x))%N by lia.
    rewrite <- (N.div_unique _ 10 (Z.to_N m) (Z.to_N (digit_value x))) by lia.
    rewrite <- (N.mod_unique _ 10 (Z.to_N m) (Z.to_N (digit_value x))) by lia.
    rewrite pretty_char_digit by done. rewrite (IH _ Hd). simpl. by rewrite <- app_assoc.
Qed.

Lemma format_uint_canonical d : canonical d = true -> format_uint (decimal 0 d) = d.
Proof.
  unfold canonical. intros [Hd Hl]%andb_prop. destruct d as [|c d]; [done|].
  simpl in Hd. apply andb_prop in Hd as [Hc Hd]. unfold format_uint.
  destruct (Ascii.eqb_spec c "0"%char) as [->|H0].
  { destruct d; [reflexivity|done]. }
  apply Ascii.eqb_neq in H0. unfold pretty, pretty_N.
  assert (0 < decimal 0 (c :: d))%Z.
  { assert (0 < digit_value c)%Z.
    { revert Hc H0. destruct c as [[] [] [] [] [] [] [] []]; vm_compute; intuition congruence. }
    cbn [decimal]. rewrite Z.mul_0_l, Z.add_0_l.
    pose proof (decimal_mono (digit_value c) d ltac:(lia) Hd). lia. }
  rewrite decide_False by lia. rewrite pretty_go_digits by done.
  rewrite to_of_bytes. simpl. by rewrite app_nil_r.
Qed.

Lemma format_uint_digits n : forallb is_digit (format_uint n) = true.
Proof.
  apply forallb_forall. intros c Hc%list_elem_of_In.
  pose proof (pretty_N_decimal (Z.to_N n)) as HF. rewrite Forall_forall in HF.
  specialize (HF c Hc). unfold is_decimal in HF. unfold is_digit, byte_between.
  by rewrite andb_true_iff, !N.leb_le.
Qed.

Lemma pretty_N_char_value k :
  (k < 10)%N -> is_digit (pretty_N_char k) = true /\ digit_value (pretty_N_char k) = Z.of_N k /\
    ((0 < k)%N -> Ascii.eqb (pretty_N_char k) "0"%char = false).
Proof.
  intros Hk. assert (k ∈ [0;1;2;3;4;5;6;7;8;9]%N) as Hin.
  { rewrite !elem_of_cons. lia. }
  elim_members Hin; split_and!; done.
Qed.

Lemma pretty_go_canonical n s :
  (0 < n)%N -> exists c d, pretty_N_go n s = of_bytes ((c :: d) ++ to_bytes s) /\
    Ascii.eqb c "0"%char = false /\ forallb is_digit (c :: d) = true /\
    decimal 0 (c :: d) = Z.of_N n.
Proof.
  revert s. induction (N.lt_wf_0 n) as [n _ IH]; intros s Hn.
  rewrite pretty_N_go_step by lia.
  pose proof (N.div_mod n 10 ltac:(lia)) as Hdm. pose proof (N.mod_lt n 10 ltac:(lia)) as Hlt.
  destruct (pretty_N_char_value _ Hlt) as (Hd & Hv & H0).
  destruct (N.eq_dec (n `div` 10)%N 0%N) as [E|E].
  - rewrite E, pretty_N_go_0. eexists _, []. split; [simpl; by rewrite of_to_bytes|].
    split; [apply H0; lia|]. simpl. rewrite Hd. split; [done|]. rewrite Hv. lia.
  - destruct (IH (n `div` 10)%N ltac:(apply N.div_lt; lia)
                (String (pretty_N_char (n `mod` 10)) s) ltac:(lia))
      as (c & d & -> & Hc & Hds & Hval).
    exists c, (d ++ [pretty_N_char (n `mod` 10)]). split; [|split; [done|]].
    + f_equal. simpl. by rewrite <- app_assoc.
    + change (c :: d ++ ?x) with ((c :: d) ++ x). rewrite forallb_app, decimal_app, Hds, Hval.
      cbn [forallb decimal]. rewrite Hd, Hv. split; [done|lia].
Qed.

(** [%d] and the value of a digit string are mutually inverse. *)
Lemma format_uint_value n :
  (0 <= n)%Z -> canonical (format_uint n) = true /\ decimal 0 (format_uint n) = n.
Proof.
  intros Hn. unfold format_uint, pretty, pretty_N.
  case_decide as E; [replace n with 0%Z by lia; done|].
  destruct (pretty_go_canonical (Z.to_N n) "" ltac:(lia)) as (c & d & -> & Hc & Hd & Hv).
  rewrite to_of_bytes. cbn [to_bytes list_ascii_of_string]. rewrite app_nil_r. split; [|lia].
  unfold canonical. rewrite Hd. destruct d; [done|]. by rewrite Hc.
Qed.

Lemma forallb_not_elem {A} (P : A -> bool) l x : forallb P l = true -> P x = false -> x ∉ l.
Proof.
  rewrite forallb_forall. intros H Hx Hin%list_elem_of_In. apply H in Hin. congruence.
Qed.

Lemma forallb_impl {A} (P Q : A -> bool) l :
  (forall x, P x = true -> Q x = true) -> forallb P l = true -> forallb Q l = true.
Proof. rewrite !forallb_forall. auto. Qed.

Lemma forallb_Join P fs c :
  P c = true -> Forall (fun f => forallb P f = true) fs -> forallb P (Join fs c) = true.
Proof.
  intros Hc. induction 1 as [|f [|g fs] Hf Hg IH]; [done|done|].
  rewrite Join_cons by done. rewrite forallb_app. cbn [forallb]. by rewrite Hf, Hc, IH.
Qed.

(** ** Hexadecimal text *)

Lemma hex_byte c :
  HexDecode [hex_digit (N_of_ascii c / 16); hex_digit (N_of_ascii c mod 16)]%N = Some [c].
Proof. destruct c as [[] [] [] [] [] [] [] []]; vm_compute; reflexivity. Qed.

Lemma HexDecode_HexEncode s : HexDecode (HexEncode s) = Some s.
Proof.
  induction s as [|c s IH]; [done|]. pose proof (hex_byte c) as Hc. revert Hc.
  change (HexEncode (c :: s)) with
    (hex_digit (N_of_ascii c / 16) :: hex_digit (N_of_ascii c mod 16) :: HexEncode s)%N.
  cbn [HexDecode].
  destruct (hex_value (hex_digit (N_of_ascii c / 16)%N)), (hex_value (hex_digit (N_of_ascii c mod 16)%N));
    try done.
  rewrite IH. cbn. by intros [= ->].
Qed.

(** ** Variable-length integers *)

Lemma put_uvarint_inj f : forall g x y a b,
  (x < 128 ^ N.of_nat (S f))%N -> (y < 128 ^ N.of_nat (S g))%N ->
  put_uvarint (S f) x ++ a = put_uvarint (S g) y ++ b -> x = y /\ a = b.
Proof.
  assert (Hb : forall n, (n < 256)%N -> N_of_ascii (ascii_of_N n) = n).
  { intros. by apply N_ascii_embedding. }
  assert (Hq : forall x f, (x < 128 ^ N.of_nat (S (S f)))%N ->
            (x / 128 < 128 ^ N.of_nat (S f))%N).
  { intros x f' Hx. apply N.Div0.div_lt_upper_bound. rewrite <- N.pow_succ_r'. by rewrite <- Nat2N.inj_succ. }
  assert (Hm : forall x, (0 <= x mod 128 < 128)%N).
  { intros. split; [apply N.le_0_l|by apply N.mod_lt]. }
  induction f as [|f IH]; intros g x y a b Hx Hy; cbn [put_uvarint];
    destruct (N.ltb_spec x 128), (N.ltb_spec y 128);
    try (change (128 ^ N.of_nat 1)%N with 128%N in Hx; lia);
    intros [= E1 E2]; apply (f_equal N_of_ascii) in E1; pose proof (Hm x); pose proof (Hm y);
    rewrite !Hb in E1 by lia; try (exfalso; clear Hx Hy; lia); try (split; [clear Hx Hy; lia|done]).
  destruct g as [|g]; [change (128 ^ N.of_nat 1)%N with 128%N in Hy; lia|].
  destruct (IH g (x / 128)%N (y / 128)%N a b) as [E ->]; [by apply Hq..|exact E2|].
  split; [|done]. rewrite (N.div_mod x 128), (N.div_mod y 128) by lia. lia.
Qed.

Lemma PutUvarint_inj x y a b : PutUvarint x ++ a = PutUvarint y ++ b -> x = y /\ a = b.
Proof.
  assert (H : forall n, (n < 128 ^ N.of_nat (S (N.to_nat (N.size n))))%N).
  { intros n. rewrite Nat2N.inj_succ, N2Nat.id.
    eapply N.lt_le_trans; [apply N.size_gt|].
    etrans; [apply (N.pow_le_mono_l 2 128); lia|]. apply N.pow_le_mono_r; lia. }
  apply put_uvarint_inj; apply H.
Qed.

Lemma delimited_inj f g a b : delimited f ++ a = delimited g ++ b -> f = g /\ a = b.
Proof.
  unfold delimited. rewrite <- !app_assoc. intros [Hl%Nat2N.inj H]%PutUvarint_inj.
  by apply app_inj_1.
Qed.

(** ** Ordering and sorting *)

Lemma Compare_laws a :
  forall b, ((Compare a b = -1 \/ Compare a b = 0 \/ Compare a b = 1) /\
    Compare b a = - Compare a b /\
    (forall c, Compare a b <= 0 -> Compare b c <= 0 -> Compare a c <= 0) /\
    (Compare a b = 0 <-> a = b))%Z.
Proof.
  induction a as [|x a IH]; intros [|y b]; simpl;
    [split_and!; auto; try (intros [|z c]; lia); split; (done || congruence)..|].
  destruct (IH b) as (Hs & Ho & Ht & He).
  destruct (N.ltb_spec (N_of_ascii x) (N_of_ascii y)), (N.ltb_spec (N_of_ascii y) (N_of_ascii x));
    try lia.
  1,2: split_and!; [lia..| |split; [lia|intros [= -> ->]; lia]];
    intros [|z c]; [lia|]; repeat case_match; rewrite ?N.ltb_lt, ?N.ltb_ge in *; lia.
  assert (x = y) as <-.
  { rewrite <- (ascii_N_embedding x), <- (ascii_N_embedding y). f_equal. lia. }
  split_and!; [done|done| |rewrite He; split; [by intros ->|by intros [= ->]]].
  intros [|z c]; [lia|]. specialize (Ht c). repeat case_match; lia.
Qed.

#[export] Instance Compare_comparator : Comparator Compare.
Proof. split; intros; edestruct (Compare_laws a b) as (? & ? & ? & ?); eauto. Qed.

Definition string_compare (a b : string) : Z := Compare (to_bytes a) (to_bytes b).

#[export] Instance string_compare_comparator : Comparator string_compare.
Proof. apply (comparator_pull to_bytes Compare). Qed.

Lemma string_compare_eq a b : string_compare a b = 0%Z <-> a = b.
Proof.
  unfold string_compare. destruct (Compare_laws (to_bytes a) (to_bytes b)) as (_ & _ & _ & ->).
  split; [apply bytes_inj|by intros ->].
Qed.

(** A less function that is the sign of a lawful comparison sorts. *)
Section sorting.
Context {A : Type} (cmp : A -> A -> Z) `{!Comparator cmp} (less : A -> A -> bool).
Context (less_cmp : forall a b, less a b = (cmp a b <? 0)%Z).

Let le (a b : A) : Prop := less b a = false.

Lemma not_less a b : less b a = false <-> (cmp a b <= 0)%Z.
Proof. rewrite less_cmp, Z.ltb_ge, (cmp_opp (cmp:=cmp) a b). lia. Qed.

#[local] Instance le_transitive : Transitive le.
Proof. intros a b c. unfold le. rewrite !not_less. apply cmp_trans. Qed.

#[local] Instance le_total : Total le.
Proof. intros a b. unfold le. rewrite !not_less, (cmp_opp (cmp:=cmp) a b). lia. Qed.

Lemma sort_slice_Permutation l : sort_slice less l ≡ₚ l.
Proof. apply merge_sort_Permutation. Qed.

Lemma sort_slice_sorted l : StronglySorted (fun a b => less b a = false) (sort_slice less l).
Proof. apply (StronglySorted_merge_sort le). Qed.

(** Permuted lists whose ties are equal elements sort to the same list. *)
Lemma sort_slice_unique l1 l2 :
  (forall a b, a ∈ l1 -> b ∈ l1 -> cmp a b = 0%Z -> a = b) ->
  l1 ≡ₚ l2 -> sort_slice less l1 = sort_slice less l2.
Proof.
  intros Hties HP.
  assert (HP' : sort_slice less l1 ≡ₚ sort_slice less l2) by (by rewrite !sort_slice_Permutation).
  apply (StronglySorted_unique_strong le); [|apply sort_slice_sorted..|exact HP'].
  intros a b Ha Hb. unfold le. rewrite !not_less, (cmp_opp (cmp:=cmp) a b). intros H1 H2.
  apply Hties; [by rewrite <- sort_slice_Permutation| |lia].
  by rewrite <- sort_slice_Permutation, HP'.
Qed.
End sorting.

(** ** Prefixes, suffixes and substrings *)

Lemma strip_prefix_Some p s r : strip_prefix p s = Some r <-> s = p ++ r.
Proof.
  revert s. induction p as [|a p IH]; intros s; simpl; [naive_solver|].
  destruct s as [|b s]; [naive_solver|]. destruct (Ascii.eqb_spec a b) as [->|]; [|naive_solver].
  rewrite IH. naive_solver.
Qed.

Lemma HasPrefix_spec s p : HasPrefix s p = true <-> exists r, s = p ++ r.
Proof.
  unfold HasPrefix. setoid_rewrite <- strip_prefix_Some.
  destruct (strip_prefix p s); naive_solver.
Qed.

Lemma HasSuffix_spec s p : HasSuffix s p = true <-> exists r, s = r ++ p.
Proof.
  unfold HasSuffix. rewrite HasPrefix_spec. split; intros [r Hr].
  - exists (rev r). by rewrite <- (rev_involutive s), Hr, rev_app_distr, rev_involutive.
  - exists (rev r). by rewrite Hr, rev_app_distr.
Qed.

Lemma ContainsSub_spec s p : ContainsSub s p = true <-> exists a b, s = a ++ p ++ b.
Proof.
  induction s as [|c s IH]; simpl.
  - rewrite orb_false_r, HasPrefix_spec. split; [by intros [r ->]; exists [], r|].
    intros (a & b & H). symmetry in H. apply app_eq_nil in H as [-> H].
    apply app_eq_nil in H as [-> ->]. by exists [].
  - rewrite orb_true_iff, HasPrefix_spec, IH. split.
    + intros [[r ->]|(a & b & ->)]; [by exists [], r|by exists (c :: a), b].
    + intros ([|x a] & b & H); [left; by exists b|]. injection H as -> H. right. by exists a, b.
Qed.

(** ** Hexadecimal digests *)

Definition lower_hex_digit (c : ascii) : bool := byte_between 48 57 c || byte_between 97 102 c.

Lemma HexDecode_length s d : HexDecode s = Some d -> length s = (2 * length d)%nat.
Proof.
  revert d. induction s as [s IH] using (induction_ltof1 _ (@length ascii)); unfold ltof in IH.
  intros d. destruct s as [|a [|b s]]; simpl; [by intros [= <-]|done|].
  destruct (hex_value a), (hex_value b); try done.
  destruct (HexDecode s) as [d'|] eqn:E; [|done]. intros [= <-]. apply IH in E; simpl; lia.
Qed.

Lemma HexDecode_hex s d :
  HexDecode s = Some d -> forallb (fun c => bool_decide (is_Some (hex_value c))) s = true.
Proof.
  revert d. induction s as [s IH] using (induction_ltof1 _ (@length ascii)); unfold ltof in IH.
  intros d. destruct s as [|a [|b s]]; simpl; [done..|].
  destruct (hex_value a), (hex_value b); try done.
  destruct (HexDecode s) as [d'|] eqn:E; [|done]. intros _. by eapply IH; [simpl; lia|].
Qed.

Lemma HexDecode_Some s n :
  length s = (2 * n)%nat -> forallb (fun c => bool_decide (is_Some (hex_value c))) s = true ->
  exists d, HexDecode s = Some d /\ length d = n.
Proof.
  revert s. induction n as [|n IH]; intros [|a [|b s]] Hl; try (simpl in Hl; lia); [by exists []|].
  simpl. rewrite !andb_true_iff, !bool_decide_eq_true. intros ([x ->] & [y ->] & Hs).
  destruct (IH s ltac:(simpl in Hl; lia) Hs) as (d & -> & Hd). eexists. split; [done|]. simpl. by rewrite Hd.
Qed.

(** ** Self-delimiting encodings *)

Definition self_delimiting {A} (f : A -> bytes) : Prop :=
  forall x y a b, f x ++ a = f y ++ b -> x = y /\ a = b.

Lemma counted_inj {A} (f : A -> bytes) : self_delimiting f -> self_delimiting (counted f).
Proof.
  intros Hf l1 l2 a b. unfold counted. rewrite <- !app_assoc. intros [Hl%Nat2N.inj H]%PutUvarint_inj.
  revert l2 Hl H. induction l1 as [|x l1 IH]; intros [|y l2] Hl; simpl in *; try done.
  rewrite <- !app_assoc. intros [-> H]%Hf. injection Hl as Hl.
  destruct (IH l2 Hl H) as [-> ->]. done.
Qed.

(** ** Integers *)

Lemma format_int_inj a b : format_int a = format_int b -> a = b.
Proof.
  assert (Hneg : forall n s, pretty (n : N) <> String "-" s).
  { intros n s H. pose proof (pretty_N_decimal n) as HF. rewrite H in HF.
    inversion HF as [|? ? Hc]. unfold is_decimal in Hc. vm_compute in Hc. by destruct Hc. }
  unfold format_int. destruct (Z.ltb_spec a 0), (Z.ltb_spec b 0).
  - intros [= H1%(inj pretty)]. lia.
  - by intros H1%eq_sym%Hneg.
  - by intros H1%Hneg.
  - intros H1%(inj pretty). lia.
Qed.
