(* ===== verification/Vocabulary.v ===== *)
(** Vocabulary: the closed vocabularies of pkg/protocol.

    Go declares each of them as a named string type, so any string inhabits
    it; the constants are the known members, an ordered [All...] slice lists
    them and [IsValid] is a switch over them.  Both are kept as the source
    writes them, so their agreement is a theorem. *)

From Stdlib Require Import ZArith Lia.
From stdpp Require Import base tactics list strings gmap.
From S2P Require Import Prelude.
Local Open Scope string_scope.

(** ** PhaseId (pkg/protocol/types.go) *)
Abbreviation PhaseId := string (only parsing).
Definition PhaseRequest : PhaseId := "request".
Definition PhaseElicit : PhaseId := "elicit".
Definition PhasePropose : PhaseId := "propose".
Definition PhaseReview : PhaseId := "review".
Definition PhasePlanReview : PhaseId := "plan-review".
Definition PhaseRatify : PhaseId := "ratify".
Definition PhaseHandoff : PhaseId := "handoff".
Definition PhaseImplPlan : PhaseId := "impl-plan".
Definition PhaseWorkerSlices : PhaseId := "worker-slices".
Definition PhaseCodeReview : PhaseId := "code-review".
Definition PhaseImplUAT : PhaseId := "impl-uat".
Definition PhaseLanding : PhaseId := "landing".
Definition PhaseComplete : PhaseId := "complete".

Definition AllPhaseIds : list PhaseId :=
  [PhaseRequest; PhaseElicit; PhasePropose; PhaseReview; PhasePlanReview;
   PhaseRatify; PhaseHandoff; PhaseImplPlan; PhaseWorkerSlices;
   PhaseCodeReview; PhaseImplUAT; PhaseLanding; PhaseComplete].

Definition PhaseId_IsValid (p : PhaseId) : bool :=
  one_of p [PhaseRequest; PhaseElicit; PhasePropose; PhaseReview;
            PhasePlanReview; PhaseRatify; PhaseHandoff; PhaseImplPlan;
            PhaseWorkerSlices; PhaseCodeReview; PhaseImplUAT; PhaseLanding;
            PhaseComplete].

(** ** EventType (pkg/protocol/types.go) *)
Abbreviation EventType := string (only parsing).
Definition EventPhaseTransition : EventType := "PhaseTransition".
Definition EventPhaseAdvance : EventType := "PhaseAdvance".
Definition EventVoteRecorded : EventType := "VoteRecorded".
Definition EventConstraintChecked : EventType := "ConstraintChecked".
Definition EventSliceStarted : EventType := "SliceStarted".
Definition EventSliceCompleted : EventType := "SliceCompleted".
Definition EventSessionRegistered : EventType := "SessionRegistered".
Definition EventReviewCycleStarted : EventType := "ReviewCycleStarted".
Definition EventEpochCancelled : EventType := "EpochCancelled".

Definition AllEventTypes : list EventType :=
  [EventPhaseTransition; EventPhaseAdvance; EventVoteRecorded;
   EventConstraintChecked; EventSliceStarted; EventSliceCompleted;
   EventSessionRegistered; EventReviewCycleStarted; EventEpochCancelled].

Definition EventType_IsValid (e : EventType) : bool :=
  one_of e [EventPhaseTransition; EventPhaseAdvance; EventVoteRecorded;
            EventConstraintChecked; EventSliceStarted; EventSliceCompleted;
            EventSessionRegistered; EventReviewCycleStarted;
            EventEpochCancelled].

(** ** VoteType, ReviewAxis, SeverityLevel, RoleId (pkg/protocol/enums.go) *)
Abbreviation VoteType := string (only parsing).
Definition VoteAccept : VoteType := "ACCEPT".
Definition VoteRevise : VoteType := "REVISE".
Definition AllVoteTypes : list VoteType := [VoteAccept; VoteRevise].
Definition VoteType_IsValid (v : VoteType) : bool :=
  one_of v [VoteAccept; VoteRevise].

Abbreviation ReviewAxis := string (only parsing).
Definition AxisCorrectness : ReviewAxis := "correctness".
Definition AxisTestQuality : ReviewAxis := "test_quality".
Definition AxisElegance : ReviewAxis := "elegance".
Definition AllReviewAxes : list ReviewAxis :=
  [AxisCorrectness; AxisTestQuality; AxisElegance].
Definition ReviewAxis_IsValid (a : ReviewAxis) : bool :=
  one_of a [AxisCorrectness; AxisTestQuality; AxisElegance].

Abbreviation SeverityLevel := string (only parsing).
Definition SeverityBlocker : SeverityLevel := "blocker".
Definition SeverityImportant : SeverityLevel := "important".
Definition SeverityMinor : SeverityLevel := "minor".
Definition AllSeverityLevels : list SeverityLevel :=
  [SeverityBlocker; SeverityImportant; SeverityMinor].
Definition SeverityLevel_IsValid (s : SeverityLevel) : bool :=
  one_of s [SeverityBlocker; SeverityImportant; SeverityMinor].

Abbreviation RoleId := string (only parsing).
Definition RoleEpoch : RoleId := "epoch".
Definition RoleArchitect : RoleId := "architect".
Definition RoleReviewer : RoleId := "reviewer".
Definition RoleSupervisor : RoleId := "supervisor".
Definition RoleWorker : RoleId := "worker".
Definition AllRoleIds : list RoleId :=
  [RoleEpoch; RoleArchitect; RoleReviewer; RoleSupervisor; RoleWorker].
Definition RoleId_IsValid (r : RoleId) : bool :=
  one_of r [RoleEpoch; RoleArchitect; RoleReviewer; RoleSupervisor; RoleWorker].

(** ** Signals and queries (pkg/protocol/signals.go, constants.go) *)
Abbreviation SliceExecutionMode := string (only parsing).
Definition SliceMock : SliceExecutionMode := "mock".
Definition SliceTmux : SliceExecutionMode := "tmux".
Definition SliceSubprocess : SliceExecutionMode := "subprocess".
Definition AllSliceExecutionModes : list SliceExecutionMode :=
  [SliceMock; SliceTmux; SliceSubprocess].
Definition SliceExecutionMode_IsValid (m : SliceExecutionMode) : bool :=
  one_of m [SliceMock; SliceTmux; SliceSubprocess].

Record PhaseAdvanceSignal := {
  pas_ToPhase : PhaseId;
  pas_TriggeredBy : string;
  pas_ConditionMet : string;
}.

Record ReviewVoteSignal := {
  rvs_Axis : ReviewAxis;
  rvs_Vote : VoteType;
  rvs_ReviewerId : string;
}.

Record SliceProgressSignal := {
  sps_SliceId : string;
  sps_LeafTaskId : string;
  sps_StageName : string;
  sps_Completed : bool;
}.

Record RegisterSessionSignal := {
  rss_EpochId : string;
  rss_SessionId : string;
  rss_Role : string;
  rss_ModelHarness : string;
  rss_Model : string;
}.

(** [TimeoutSeconds] is a Go [int]. *)
Record SliceStartSignal := {
  sss_Mode : SliceExecutionMode;
  sss_Command : string;
  sss_TimeoutSeconds : Z;
}.

(** [Error] is a [*string]: [None] is the nil pointer. *)
Record SliceCompleteSignal := {
  scs_Success : bool;
  scs_Output : string;
  scs_Error : option string;
}.

Abbreviation SignalTopic := string (only parsing).
Definition SignalAdvancePhase : SignalTopic := "advance_phase".
Definition SignalSubmitVote : SignalTopic := "submit_vote".
Definition SignalSliceProgress : SignalTopic := "slice_progress".
Definition SignalRegisterSession : SignalTopic := "register_session".
Definition SignalStartSlice : SignalTopic := "start_slice".
Definition SignalCompleteSlice : SignalTopic := "complete_slice".
Definition AllSignalTopics : list SignalTopic :=
  [SignalAdvancePhase; SignalSubmitVote; SignalSliceProgress;
   SignalRegisterSession; SignalStartSlice; SignalCompleteSlice].
Definition SignalTopic_IsValid (t : SignalTopic) : bool :=
  one_of t [SignalAdvancePhase; SignalSubmitVote; SignalSliceProgress;
            SignalRegisterSession; SignalStartSlice; SignalCompleteSlice].

Abbreviation QueryName := string (only parsing).
Definition QueryCurrentState : QueryName := "current_state".
Definition QueryAvailableTransitions : QueryName := "available_transitions".
Definition QueryFullState : QueryName := "full_state".
Definition QuerySliceProgressState : QueryName := "slice_progress_state".
Definition QueryActiveSessions : QueryName := "active_sessions".
Definition AllQueryNames : list QueryName :=
  [QueryCurrentState; QueryAvailableTransitions; QueryFullState;
   QuerySliceProgressState; QueryActiveSessions].
Definition QueryName_IsValid (q : QueryName) : bool :=
  one_of q [QueryCurrentState; QueryAvailableTransitions; QueryFullState;
            QuerySliceProgressState; QueryActiveSessions].
Definition ParseQueryName (s : string) : QueryName * bool :=
  (s, QueryName_IsValid s).

(** ** Theorems *)

(** A vocabulary is closed when its switch accepts exactly the members of its
    slice and the slice lists no member twice. *)
Definition closed_vocabulary (valid : string -> bool) (all : list string) : Prop :=
  NoDup all /\ forall s, valid s = true <-> s ∈ all.

Lemma closed_vocabulary_one_of l :
  bool_decide (NoDup l) = true -> closed_vocabulary (fun s => one_of s l) l.
Proof. intros H%bool_decide_eq_true. split; [done|]. intros s. apply one_of_spec. Qed.

#[export] Hint Resolve closed_vocabulary_one_of : pasture.

(** Every protocol vocabulary is closed: the [IsValid] switch of each of
    the nine string enumerations accepts exactly the members of its ordered
    [All...] slice, and no slice lists two constants with the same wire
    spelling. *)
Lemma vocabularies_closed :
  closed_vocabulary PhaseId_IsValid AllPhaseIds /\
  closed_vocabulary EventType_IsValid AllEventTypes /\
  closed_vocabulary VoteType_IsValid AllVoteTypes /\
  closed_vocabulary ReviewAxis_IsValid AllReviewAxes /\
  closed_vocabulary SeverityLevel_IsValid AllSeverityLevels /\
  closed_vocabulary RoleId_IsValid AllRoleIds /\
  closed_vocabulary SliceExecutionMode_IsValid AllSliceExecutionModes /\
  closed_vocabulary SignalTopic_IsValid AllSignalTopics /\
  closed_vocabulary QueryName_IsValid AllQueryNames.
Proof. split_and!; apply closed_vocabulary_one_of; vm_compute; reflexivity. Qed.
