(* ===== verification/Pipeline.v ===== *)
(** Pipeline: the ordered phase pipeline and the phase parser
    (pkg/protocol/types.go).

    [ToLower] lowers the
    ASCII letters and the two runes outside ASCII whose lower case is an ASCII
    letter (U+0130 and U+212A); every other rune outside ASCII lowers to a rune
    outside ASCII, which the parser only ever compares with ASCII bytes, so
    leaving its bytes in place decides every branch as the source does. *)

From Stdlib Require Import ZArith Lia Ascii String.
From stdpp Require Import base tactics list strings gmap.
From S2P Require Import Prelude GoStrings Vocabulary.
Local Open Scope string_scope.

(** ** Pipeline *)
Abbreviation Pipeline := (list PhaseId) (only parsing).

Definition DefaultPipeline : Pipeline :=
  [PhaseRequest; PhaseElicit; PhasePropose; PhaseReview; PhasePlanReview;
   PhaseRatify; PhaseHandoff; PhaseImplPlan; PhaseWorkerSlices;
   PhaseCodeReview; PhaseImplUAT; PhaseLanding].

(** [index_from i p id] is the loop of [Pipeline.Index] entered at index [i]. *)
Fixpoint index_from (i : Z) (p : Pipeline) (id : PhaseId) : Z :=
  match p with
  | [] => -1
  | phase :: rest => if String.eqb phase id then i else index_from (i + 1) rest id
  end.
Definition Index (p : Pipeline) (id : PhaseId) : Z := index_from 0 p id.
Definition Contains (p : Pipeline) (id : PhaseId) : bool := (0 <=? Index p id)%Z.
Definition PhaseNumber (p : Pipeline) (id : PhaseId) : Z :=
  let i := Index p id in if (i <? 0)%Z then -1 else (i + 1)%Z.

(** [PhaseAt] returns [("", false)] out of range: [None]. *)
Definition PhaseAt (p : Pipeline) (number : Z) : option PhaseId :=
  if (number <? 1)%Z || (Z.of_nat (length p) <? number)%Z then None
  else p !! Z.to_nat (number - 1).

Definition Next (p : Pipeline) (id : PhaseId) : PhaseId :=
  let i := Index p id in
  if (i <? 0)%Z || (Z.of_nat (length p) - 1 <=? i)%Z then PhaseComplete
  else default PhaseComplete (p !! Z.to_nat (i + 1)).

Definition lower_byte (c : ascii) : ascii :=
  if byte_between 65 90 c then ascii_of_N (N_of_ascii c + 32) else c.

Fixpoint ToLower (s : bytes) : bytes :=
  match s with
  | [] => []
  | c1 :: s1 =>
      match s1 with
      | c2 :: s2 =>
          if Ascii.eqb c1 (ascii_of_N 0xC4) && Ascii.eqb c2 (ascii_of_N 0xB0)
          then ascii_of_N 105 :: ToLower s2
          else match s2 with
               | c3 :: s3 =>
                   if Ascii.eqb c1 (ascii_of_N 0xE2) && Ascii.eqb c2 (ascii_of_N 0x84)
                      && Ascii.eqb c3 (ascii_of_N 0xAA)
                   then ascii_of_N 107 :: ToLower s3
                   else lower_byte c1 :: ToLower s1
               | [] => lower_byte c1 :: ToLower s1
               end
      | [] => lower_byte c1 :: ToLower s1
      end
  end.

(** ** ParsePhaseId *)
Inductive ParseError := ErrUnrecognizedPhase.

(** The name switch, case by case. *)
Definition phase_name_cases : list (list string * PhaseId) :=
  [(["request"], PhaseRequest);
   (["elicit"], PhaseElicit);
   (["propose"], PhasePropose);
   (["review"], PhaseReview);
   (["plan-review"; "planreview"; "plan_review"], PhasePlanReview);
   (["ratify"], PhaseRatify);
   (["handoff"], PhaseHandoff);
   (["impl-plan"; "implplan"; "impl_plan"], PhaseImplPlan);
   (["worker-slices"; "workerslices"; "worker_slices"; "slice"; "slices"],
    PhaseWorkerSlices);
   (["code-review"; "codereview"; "code_review"], PhaseCodeReview);
   (["impl-uat"; "impluat"; "impl_uat"; "uat"], PhaseImplUAT);
   (["landing"], PhaseLanding);
   (["complete"], PhaseComplete)].

Fixpoint phase_name_switch (cases : list (list string * PhaseId)) (s : string)
    : option PhaseId :=
  match cases with
  | [] => None
  | (aliases, phase) :: rest =>
      if one_of s aliases then Some phase else phase_name_switch rest s
  end.

(** The longest prefix of decimal digits and the rest. *)
Fixpoint span_digits (s : bytes) : bytes * bytes :=
  match s with
  | c :: s' =>
      if is_digit c then let '(d, r) := span_digits s' in (c :: d, r) else ([], s)
  | [] => ([], [])
  end.

(** [num = num*10 + int(ch-'0')] over a digit string, in Go's [int]. *)
Fixpoint digits_value (num : Z) (ds : bytes) : Z :=
  match ds with
  | [] => num
  | c :: ds' => digits_value (wrap64 (num * 10 + digit_value c)) ds'
  end.

Definition strip_separator (s : bytes) : bytes :=
  match s with
  | c :: s' => if Ascii.eqb c "-"%char || Ascii.eqb c "_"%char then s' else s
  | [] => []
  end.

Definition parse_number (lower : bytes) : result ParseError PhaseId :=
  if forallb is_digit lower && (0 <? length lower)%nat
  then match PhaseAt DefaultPipeline (digits_value 0 lower) with
       | Some p => Ok p
       | None => Err ErrUnrecognizedPhase
       end
  else Err ErrUnrecognizedPhase.

(** The pX branch: what follows a leading [p]. [inl suffix] is the recursive
    call of the pX-name format, [inr r] a decided outcome, where [inr None]
    falls through to the number-only format. *)
Definition parse_px (rest : bytes) : bytes + option PhaseId :=
  let '(numStr, suffix) := span_digits rest in
  match numStr with
  | [] => inr None
  | _ :: _ =>
      match strip_separator suffix with
      | c :: s' => inl (c :: s')
      | [] => inr (PhaseAt DefaultPipeline (digits_value 0 numStr))
      end
  end.

(** [None] is an exhausted fuel; [parse_fuel_enough] shows the length of the
    input is always enough. *)
Fixpoint parse_fuel (fuel : nat) (s : bytes) : option (result ParseError PhaseId) :=
  match fuel with
  | O => None
  | S f =>
      let lower := ToLower (TrimSpace s) in
      match phase_name_switch phase_name_cases (of_bytes lower) with
      | Some p => Some (Ok p)
      | None =>
          match lower with
          | c :: rest =>
              if Ascii.eqb c "p"%char
              then match parse_px rest with
                   | inl suffix => parse_fuel f suffix
                   | inr (Some p) => Some (Ok p)
                   | inr None => Some (parse_number lower)
                   end
              else Some (parse_number lower)
          | [] => Some (parse_number lower)
          end
      end
  end.

Definition ParsePhaseId (s : string) : result ParseError PhaseId :=
  default (Err ErrUnrecognizedPhase) (parse_fuel (S (String.length s)) (to_bytes s)).

(** * Theorems *)

(** ** Pipeline arithmetic *)

Lemma index_from_bounds i p id :
  (0 <= i)%Z ->
  index_from i p id = (-1)%Z \/
  (i <= index_from i p id < i + Z.of_nat (length p))%Z /\
  p !! Z.to_nat (index_from i p id - i) = Some id.
Proof.
  revert i. induction p as [|x p IH]; intros i Hi; simpl; [by left|].
  destruct (String.eqb_spec x id) as [->|].
  - right. rewrite Z.sub_diag. split; [lia|done].
  - destruct (IH (i + 1)%Z) as [?|[? Hl]]; [lia|by left|]. right. split; [lia|].
    replace (Z.to_nat (index_from (i + 1) p id - i))
      with (S (Z.to_nat (index_from (i + 1) p id - (i + 1)))) by lia. done.
Qed.

Lemma index_from_nodup i p id k :
  NoDup p -> p !! k = Some id -> index_from i p id = (i + Z.of_nat k)%Z.
Proof.
  revert i k. induction p as [|x p IH]; intros i k Hnd Hk; [done|].
  apply NoDup_cons in Hnd as [Hx Hnd]. simpl. destruct k as [|k]; simplify_eq/=.
  - rewrite String.eqb_refl. lia.
  - destruct (String.eqb_spec x id) as [->|].
    + by apply list_elem_of_lookup_2 in Hk.
    + rewrite (IH _ k) by done. lia.
Qed.

Lemma Index_lookup p id k :
  NoDup p -> p !! k = Some id -> Index p id = Z.of_nat k.
Proof. intros. unfold Index. by rewrite (index_from_nodup _ _ _ k). Qed.

Lemma Index_spec p id :
  Index p id = (-1)%Z \/
  (0 <= Index p id < Z.of_nat (length p))%Z /\ p !! Z.to_nat (Index p id) = Some id.
Proof.
  unfold Index. destruct (index_from_bounds 0 p id) as [?|[? H]]; [lia|by left|].
  right. rewrite Z.sub_0_r in H. split; [lia|done].
Qed.

Lemma PhaseAt_Some p n id :
  PhaseAt p n = Some id <->
  (1 <= n <= Z.of_nat (length p))%Z /\ p !! Z.to_nat (n - 1) = Some id.
Proof.
  unfold PhaseAt. destruct (Z.ltb_spec n 1); simpl; [naive_solver lia|].
  destruct (Z.ltb_spec (Z.of_nat (length p)) n); naive_solver lia.
Qed.

(** On a pipeline without repeated phases, [PhaseNumber] and [PhaseAt] are
    inverse: a phase is numbered [n] exactly when the pipeline holds it at the
    1-based position [n], every other phase is numbered [-1], and [Next] moves
    one position on, reaching [PhaseComplete] from the last phase and from any
    phase outside the pipeline. *)
Lemma phase_number_inverse p id n :
  NoDup p ->
  (PhaseAt p n = Some id <-> PhaseNumber p id = n /\ n <> (-1)%Z) /\
  (PhaseNumber p id = (-1)%Z <-> id ∉ p) /\
  (PhaseAt p n = Some id -> Next p id = default PhaseComplete (PhaseAt p (n + 1))) /\
  (id ∉ p -> Next p id = PhaseComplete).
Proof.
  intros Hnd. unfold PhaseNumber.
  assert (HI : forall k, p !! k = Some id -> Index p id = Z.of_nat k)
    by (intros; by apply Index_lookup).
  assert (Hin : id ∉ p <-> Index p id = (-1)%Z).
  { split.
    - destruct (Index_spec p id) as [?|[_ H]]; [done|].
      by apply list_elem_of_lookup_2 in H.
    - intros H1 [k Hk]%list_elem_of_lookup. specialize (HI k Hk). lia. }
  split_and!.
  - rewrite PhaseAt_Some. split.
    + intros [Hn Hl]. rewrite (HI _ Hl). destruct (Z.ltb_spec (Z.of_nat (Z.to_nat (n - 1))) 0); lia.
    + destruct (Index_spec p id) as [E|[Hb Hl]]; [rewrite E; simpl; lia|].
      destruct (Z.ltb_spec (Index p id) 0); [lia|]. intros [<- _].
      split; [lia|]. by replace (Index p id + 1 - 1)%Z with (Index p id) by lia.
  - rewrite Hin. destruct (Index_spec p id) as [E|[Hb _]]; [by rewrite E|].
    destruct (Z.ltb_spec (Index p id) 0); lia.
  - rewrite PhaseAt_Some. intros [Hn Hl]. unfold Next, PhaseAt. rewrite (HI _ Hl).
    destruct (Z.ltb_spec (Z.of_nat (Z.to_nat (n - 1))) 0); [lia|].
    destruct (Z.ltb_spec (n + 1) 1); [lia|]. simpl.
    replace (n + 1 - 1)%Z with (Z.of_nat (Z.to_nat (n - 1)) + 1)%Z by lia.
    destruct (Z.leb_spec (Z.of_nat (length p) - 1) (Z.of_nat (Z.to_nat (n - 1)))),
      (Z.ltb_spec (Z.of_nat (length p)) (n + 1)); lia || done.
  - rewrite Hin. unfold Next. by intros ->.
Qed.

Lemma phase_number_inverse_witness :
  NoDup DefaultPipeline /\ PhaseNumber DefaultPipeline PhaseCodeReview = 10%Z /\
  (PhaseAt DefaultPipeline 10 = Some PhaseCodeReview <->
   PhaseNumber DefaultPipeline PhaseCodeReview = 10%Z /\ 10%Z <> (-1)%Z).
Proof.
  assert (Hnd : NoDup DefaultPipeline).
  { apply (bool_decide_unpack _). vm_compute. exact I. }
  split_and!; [done|by vm_compute|].
  exact (proj1 (phase_number_inverse DefaultPipeline PhaseCodeReview 10 Hnd)).
Defined.

(** ** Termination of the parser *)

(** Induction on byte strings that follows [ToLower], which looks up to three
    bytes ahead. *)
Lemma bytes_lookahead_ind (P : bytes -> Prop) :
  P [] -> (forall c, P [c]) ->
  (forall c1 c2 s, P s -> P (c2 :: s) ->
     (forall c3 s3, s = c3 :: s3 -> P s3) -> P (c1 :: c2 :: s)) ->
  forall s, P s.
Proof.
  intros H0 H1 H2 s.
  enough (forall n s, (length s <= n)%nat -> P s) as H by (by eapply H).
  clear s. intros n. induction n as [|n IH]; intros [|c1 [|c2 s]]; simpl; intros Hl;
    auto; try lia.
  apply H2; [apply IH; simpl; lia..|].
  intros c3 s3 ->. apply IH. simpl in Hl. lia.
Qed.

Lemma ToLower_cons2 c1 c2 s :
  ToLower (c1 :: c2 :: s) =
  if Ascii.eqb c1 (ascii_of_N 0xC4) && Ascii.eqb c2 (ascii_of_N 0xB0)
  then ascii_of_N 105 :: ToLower s
  else match s with
       | c3 :: s3 =>
           if Ascii.eqb c1 (ascii_of_N 0xE2) && Ascii.eqb c2 (ascii_of_N 0x84)
              && Ascii.eqb c3 (ascii_of_N 0xAA)
           then ascii_of_N 107 :: ToLower s3
           else lower_byte c1 :: ToLower (c2 :: s)
       | [] => lower_byte c1 :: ToLower (c2 :: s)
       end.
Proof. by destruct s. Qed.

Lemma ToLower_length s : (length (ToLower s) <= length s)%nat.
Proof.
  induction s as [|c|c1 c2 s IH1 IH2 IH3] using bytes_lookahead_ind; [done|done|].
  rewrite ToLower_cons2. cbn [length] in *.
  destruct (_ && _); [cbn [length]; lia|].
  destruct s as [|c3 s3]; [cbn [length] in *; lia|].
  specialize (IH3 c3 s3 eq_refl). destruct (_ && _ && _); cbn [length] in *; lia.
Qed.

Lemma span_digits_length s :
  length s = (length (span_digits s).1 + length (span_digits s).2)%nat.
Proof.
  induction s as [|c s IH]; simpl; [done|].
  destruct (is_digit c); [|done]. destruct (span_digits s); simpl in *. lia.
Qed.

Lemma strip_separator_length s : (length (strip_separator s) <= length s)%nat.
Proof. destruct s; simpl; [done|]. case_match; simpl; lia. Qed.

Lemma parse_px_length rest suffix :
  parse_px rest = inl suffix -> (length suffix < length rest)%nat.
Proof.
  unfold parse_px. pose proof (span_digits_length rest) as Hl.
  destruct (span_digits rest) as [[|d ds] r]; [done|]. simpl in *.
  pose proof (strip_separator_length r).
  destruct (strip_separator r); [done|]. intros [= <-]. simpl in *. lia.
Qed.

Lemma parse_fuel_total n s : (length s < n)%nat -> exists r, parse_fuel n s = Some r.
Proof.
  revert s. induction n as [|n IH]; intros s Hl; [lia|]. cbn [parse_fuel].
  destruct (phase_name_switch _ _); [by eexists|].
  pose proof (ToLower_length (TrimSpace s)) as H1. pose proof (TrimSpace_length s) as H2.
  destruct (ToLower (TrimSpace s)) as [|c rest]; [by eexists|].
  destruct (Ascii.eqb c _); [|by eexists].
  destruct (parse_px rest) as [suffix|[p|]] eqn:E; [|by eexists..].
  apply parse_px_length in E. apply IH. simpl in H1. lia.
Qed.

Lemma parse_fuel_mono n m s r :
  parse_fuel n s = Some r -> (n <= m)%nat -> parse_fuel m s = Some r.
Proof.
  revert m s. induction n as [|n IH]; intros [|m] s H Hm; [done|done|lia|].
  cbn [parse_fuel] in *. destruct (phase_name_switch _ _); [done|].
  destruct (ToLower (TrimSpace s)) as [|c rest]; [done|].
  destruct (Ascii.eqb c _); [|done].
  destruct (parse_px rest) as [suffix|[p|]]; [|done..]. apply IH; [done|lia].
Qed.

(** The recursive descent of [ParsePhaseId] terminates on every input:
    each recursive call consumes at least the leading [p] and a digit, so the
    byte length of the input bounds the depth, and every fuel above it computes
    the same result. *)
Lemma parse_terminates s n :
  (String.length s < n)%nat -> parse_fuel n (to_bytes s) = Some (ParsePhaseId s).
Proof.
  intros Hn. unfold ParsePhaseId.
  destruct (parse_fuel_total (S (String.length s)) (to_bytes s)) as [r Hr];
    [rewrite length_to_bytes; lia|].
  rewrite Hr. eapply parse_fuel_mono; [done|lia].
Qed.

Lemma parse_terminates_witness :
  (String.length "p3-p4-review" < 13)%nat /\
  parse_fuel 13 (to_bytes "p3-p4-review") = Some (ParsePhaseId "p3-p4-review").
Proof. split; [simpl; lia|]. apply (parse_terminates "p3-p4-review" 13). simpl; lia. Defined.

Lemma ParsePhaseId_unfold s r :
  parse_fuel (S (String.length s)) (to_bytes s) = Some r -> ParsePhaseId s = r.
Proof. unfold ParsePhaseId. by intros ->. Qed.

(** ** Soundness of the parser *)

Lemma phase_name_switch_Some cases s p :
  phase_name_switch cases s = Some p -> exists al, (al, p) ∈ cases /\ s ∈ al.
Proof.
  induction cases as [|[al q] cases IH]; simpl; [done|].
  destruct (one_of s al) eqn:E.
  - intros [= <-]. exists al. split; [left|by apply one_of_spec].
  - intros (al' & ? & ?)%IH. exists al'. split; [by right|done].
Qed.

Lemma PhaseAt_default_valid n p :
  PhaseAt DefaultPipeline n = Some p -> p ∈ AllPhaseIds.
Proof.
  intros [_ H%list_elem_of_lookup_2]%PhaseAt_Some.
  by apply (one_of_incl DefaultPipeline).
Qed.

Lemma parse_number_sound lower p : parse_number lower = Ok p -> p ∈ AllPhaseIds.
Proof.
  unfold parse_number. case_match; [|done]. case_match; [|done].
  intros [= <-]. by eapply PhaseAt_default_valid.
Qed.

Lemma parse_fuel_sound n s p : parse_fuel n s = Some (Ok p) -> p ∈ AllPhaseIds.
Proof.
  revert s. induction n as [|n IH]; intros s; [done|]. cbn [parse_fuel].
  destruct (phase_name_switch _ _) as [q|] eqn:E.
  - intros [= <-]. apply phase_name_switch_Some in E as (al & H & _).
    apply (list_elem_of_fmap_2 snd) in H. by apply (one_of_incl phase_name_cases.*2).
  - destruct (ToLower (TrimSpace s)) as [|c rest];
      [by intros [= ?%parse_number_sound]|].
    destruct (Ascii.eqb c _); [|by intros [= ?%parse_number_sound]].
    destruct (parse_px rest) as [suffix|[q|]] eqn:E'; [by apply IH| |].
    + intros [= <-]. unfold parse_px in E'. destruct (span_digits rest) as [[|d ds] r]; [done|].
      destruct (strip_separator r); [|done]. injection E' as E'.
      by eapply PhaseAt_default_valid.
    + by intros [= ?%parse_number_sound].
Qed.

(** ** Round trips *)

(** The bytes of canonical phase spellings: digits, lower-case letters, hyphen
    and underscore. *)
Definition clean (c : ascii) : bool :=
  is_digit c || byte_between 97 122 c || Ascii.eqb c "-"%char || Ascii.eqb c "_"%char.

Lemma clean_bytes c :
  clean c = true ->
  Ascii.eqb c (ascii_of_N 0xC4) = false /\ Ascii.eqb c (ascii_of_N 0xE2) = false /\
  lower_byte c = c.
Proof.
  destruct c as [[] [] [] [] [] [] [] []]; vm_compute; intros H; try discriminate H;
    split_and!; reflexivity.
Qed.

Lemma clean_graphic s : forallb clean s = true -> forallb graphic s = true.
Proof.
  rewrite !forallb_forall. intros H c Hc. specialize (H c Hc). revert H.
  destruct c as [[] [] [] [] [] [] [] []]; vm_compute; congruence.
Qed.

Lemma TrimSpace_clean s : forallb clean s = true -> TrimSpace s = s.
Proof. intros. by apply TrimSpace_graphic, clean_graphic. Qed.

Lemma ToLower_clean s : forallb clean s = true -> ToLower s = s.
Proof.
  induction s as [|c|c1 c2 s IH1 IH2 IH3] using bytes_lookahead_ind; [done| |].
  - simpl. intros [Hc _]%andb_prop. by destruct (clean_bytes c Hc) as (_ & _ & ->).
  - intros [Hc Hs]%andb_prop. destruct (clean_bytes c1 Hc) as (E1 & E2 & E3).
    rewrite ToLower_cons2, E1, E2, E3, (IH2 Hs). by destruct s.
Qed.

(** No alias of the name switch satisfies a predicate all of them refute. *)
Lemma phase_name_switch_None (f : string -> bool) s :
  forallb (fun '(al, _) => forallb (fun a => negb (f a)) al) phase_name_cases = true ->
  f s = true -> phase_name_switch phase_name_cases s = None.
Proof.
  intros Hall Hs. destruct (phase_name_switch _ s) as [p|] eqn:E; [|done].
  apply phase_name_switch_Some in E as (al & Hal & Hin).
  rewrite forallb_forall in Hall. specialize (Hall (al, p)).
  apply list_elem_of_In in Hal. specialize (Hall Hal). simpl in Hall.
  rewrite forallb_forall in Hall. apply list_elem_of_In in Hin.
  specialize (Hall s Hin). by rewrite Hs in Hall.
Qed.

Lemma digits_clean d : forallb is_digit d = true -> forallb clean d = true.
Proof.
  induction d as [|c d IH]; [done|]. simpl. intros [Hc Hd]%andb_prop.
  rewrite IH by done. unfold clean. by rewrite Hc.
Qed.

Lemma span_digits_app d s :
  forallb is_digit d = true ->
  match s with c :: _ => is_digit c = false | [] => True end ->
  span_digits (d ++ s)%list = (d, s).
Proof.
  intros Hd Hs. induction d as [|c d IH]; simpl.
  - destruct s; [done|]. simpl. by rewrite Hs.
  - simpl in Hd. apply andb_prop in Hd as [-> Hd]. by rewrite IH.
Qed.

(** A [p] followed by a digit, and a leading digit, begin no phase name. *)
Definition p_digit (s : string) : bool :=
  match to_bytes s with c1 :: c2 :: _ => Ascii.eqb c1 "p" && is_digit c2 | _ => false end.
Definition leading_digit (s : string) : bool :=
  match to_bytes s with c :: _ => is_digit c | [] => false end.

(** One step of the parser on a clean pX input. *)
Lemma parse_fuel_px n d s :
  d <> [] -> forallb is_digit d = true -> forallb clean s = true ->
  match s with c :: _ => is_digit c = false | [] => True end ->
  parse_fuel (S n) ("p"%char :: d ++ s)%list =
  match strip_separator s with
  | c :: s' => parse_fuel n (c :: s')
  | [] => match PhaseAt DefaultPipeline (digits_value 0 d) with
          | Some p => Some (Ok p)
          | None => Some (Err ErrUnrecognizedPhase)
          end
  end.
Proof.
  intros Hne Hd Hs Hnd. cbn [parse_fuel].
  assert (Hc : forallb clean ("p"%char :: d ++ s)%list = true).
  { change (clean "p" && forallb clean (d ++ s)%list = true).
    by rewrite forallb_app, Hs, digits_clean. }
  rewrite TrimSpace_clean, ToLower_clean by done.
  rewrite (phase_name_switch_None p_digit); [|by vm_compute|].
  2:{ unfold p_digit. rewrite to_of_bytes. destruct d as [|c d]; [done|].
      cbn [app]. cbn in Hd. by destruct (is_digit c). }
  rewrite Ascii.eqb_refl. unfold parse_px. rewrite span_digits_app by done.
  destruct d as [|c d]; [done|]. destruct (strip_separator s); [|done].
  destruct (PhaseAt _ _); [done|]. done.
Qed.

Lemma phase_spelling p :
  p ∈ AllPhaseIds ->
  forallb clean (to_bytes p) = true /\
  (exists c s, to_bytes p = c :: s /\ is_digit c = false /\
     Ascii.eqb c "-" || Ascii.eqb c "_" = false) /\
  phase_name_switch phase_name_cases p = Some p.
Proof.
  intros H. unfold AllPhaseIds in H. elim_members H; vm_compute;
    (split_and!; [done|eexists _, _; by split_and!|done]).
Qed.

(** The bytes of the separators of the pX-name format. *)
Definition px_separators : list bytes := [[]; ["-"%char]; ["_"%char]].

Lemma parse_fuel_name n p : p ∈ AllPhaseIds -> parse_fuel (S n) (to_bytes p) = Some (Ok p).
Proof.
  intros (Hc & _ & Hsw)%phase_spelling. cbn [parse_fuel].
  rewrite TrimSpace_clean, ToLower_clean, of_to_bytes by done. by rewrite Hsw.
Qed.

(** The parser accepts every canonical spelling of every phase and
    nothing but known phases: a name parses to its phase; the legacy pX-name
    format, with any run of digits and an optional hyphen or underscore before
    the name, parses to the named phase; and whatever input parses, parses to
    a member of [AllPhaseIds]. *)
Theorem parse_round_trip :
  (forall p, p ∈ AllPhaseIds -> ParsePhaseId p = Ok p) /\
  (forall d sep p,
     d <> [] -> forallb is_digit d = true -> sep ∈ px_separators -> p ∈ AllPhaseIds ->
     ParsePhaseId (of_bytes ("p"%char :: d ++ sep ++ to_bytes p)%list) = Ok p) /\
  (forall s p, ParsePhaseId s = Ok p -> p ∈ AllPhaseIds).
Proof.
  split_and!.
  - intros p Hp. by apply ParsePhaseId_unfold, parse_fuel_name.
  - intros d sep p Hne Hd Hsep Hp. apply ParsePhaseId_unfold. rewrite to_of_bytes.
    destruct (phase_spelling p Hp) as (Hc & (c & s & E & Hnd & Hsp) & _).
    assert (Hsep' : forallb clean sep = true /\ strip_separator (sep ++ to_bytes p)%list = to_bytes p /\
      match (sep ++ to_bytes p)%list with c :: _ => is_digit c = false | [] => True end).
    { unfold px_separators in Hsep. elim_members Hsep; simpl; rewrite E; simpl;
        rewrite ?Hsp; by split_and!. }
    destruct Hsep' as (H1 & H2 & H3).
    rewrite parse_fuel_px; [|done|done|by rewrite forallb_app, H1, Hc|done].
    rewrite H2, E, <- E. destruct (String.length _) eqn:El.
    { exfalso. revert El. destruct d; simpl; [done|]. lia. }
    by apply parse_fuel_name.
  - intros s p. unfold ParsePhaseId.
    destruct (parse_fuel _ _) as [r|] eqn:Er; simpl; [|done].
    intros ->. by eapply parse_fuel_sound.
Qed.

Lemma parse_round_trip_witness :
  ParsePhaseId "p44_handoff" = Ok PhaseHandoff /\ ParsePhaseId PhaseImplUAT = Ok PhaseImplUAT.
Proof.
  destruct parse_round_trip as (H1 & H2 & _). split.
  - apply (H2 ["4"; "4"]%char ["_"%char] PhaseHandoff); [done|reflexivity| |];
      apply (bool_decide_unpack _); vm_compute; exact I.
  - apply H1. apply (bool_decide_unpack _). vm_compute. exact I.
Defined.

(** ** Numbers *)

Lemma digits_value_wrap num ds : digits_value (wrap64 num) ds = wrap64 (decimal num ds).
Proof.
  revert num. induction ds as [|c ds IH]; intros num; simpl; [done|].
  by rewrite wrap64_wrap_mul_add, IH.
Qed.

Definition phase_of_number (n : Z) : result ParseError PhaseId :=
  match PhaseAt DefaultPipeline n with
  | Some p => Ok p
  | None => Err ErrUnrecognizedPhase
  end.

(** The pX and the number-only formats resolve a run of digits through the
    default pipeline by its value in Go's [int], that is modulo 2^64: digit
    strings that denote a number outside 1..12 are refused only as long as the
    number does not wrap around into that range. *)
Lemma parse_number_mod64 d :
  d <> [] -> forallb is_digit d = true ->
  ParsePhaseId (of_bytes d) = phase_of_number (wrap64 (decimal 0 d)) /\
  ParsePhaseId (of_bytes ("p"%char :: d)) = phase_of_number (wrap64 (decimal 0 d)).
Proof.
  intros Hne Hd. rewrite <- digits_value_wrap, (wrap64_id 0) by (by split).
  unfold phase_of_number. split; apply ParsePhaseId_unfold; rewrite to_of_bytes.
  - cbn [parse_fuel]. rewrite TrimSpace_clean, ToLower_clean by (by apply digits_clean).
    rewrite (phase_name_switch_None leading_digit); [|by vm_compute|].
    2:{ unfold leading_digit. rewrite to_of_bytes. destruct d; [done|].
        by apply andb_prop in Hd as [-> _]. }
    unfold parse_number. rewrite Hd. destruct d as [|c d]; [done|].
    apply andb_prop in Hd as [Hc _]. cbn [length Nat.ltb Nat.leb andb].
    destruct (Ascii.eqb_spec c "p"%char) as [->|]; [done|]. by destruct (PhaseAt _ _).
  - pose proof (parse_fuel_px (String.length (of_bytes ("p"%char :: d))) d [] Hne Hd eq_refl I) as H.
    rewrite app_nil_r in H. rewrite H. cbn [strip_separator]. by destruct (PhaseAt _ _).
Qed.

(** 2^64 + 1 parses as the first phase. *)
Lemma parse_number_mod64_witness :
  ParsePhaseId "18446744073709551617" = Ok PhaseRequest /\
  ParsePhaseId "p13" = Err ErrUnrecognizedPhase.
Proof.
  split.
  - exact (proj1 (parse_number_mod64 (to_bytes "18446744073709551617")
                    ltac:(discriminate) eq_refl)).
  - exact (proj2 (parse_number_mod64 ["1"; "3"]%char ltac:(discriminate) eq_refl)).
Defined.
