(* ===== verification/EpochFSM.v ===== *)
(** EpochFSM: the 12-phase epoch state machine
    (pkg/protocol/state_machine.go, pkg/protocol/epoch_state.go).

    The machine is a record of the epoch state and the transition table; each
    method is a function that returns the state it leaves behind next to the
    method's own result. *)

From Stdlib Require Import ZArith Lia Ascii String.
From stdpp Require Import base tactics list strings gmap relations pretty.
From S2P Require Import Prelude Vocabulary Pipeline.
Local Open Scope string_scope.

(** ** State (epoch_state.go)

    Timestamps are opaque instants.  A Go map that the machine writes is an
    [option]: [None] is the nil map, whose reads are those of the empty map
    and whose writes panic. *)
Abbreviation Time := Z (only parsing).

Record TransitionRecord := {
  tr_FromPhase : PhaseId;
  tr_ToPhase : PhaseId;
  tr_Timestamp : Time;
  tr_TriggeredBy : string;
  tr_ConditionMet : string;
  tr_Success : bool;
}.

Record ReviewCycleRecord := {
  rc_SliceId : string;
  rc_Round : Z;
  rc_Votes : gmap ReviewAxis VoteType;
  rc_FindingCounts : gmap SeverityLevel Z;
  rc_Timestamp : Time;
}.

(** A missing key reads as the zero value: the empty vote, the count 0. *)
Definition IsCleanExit (r : ReviewCycleRecord) : bool :=
  forallb (fun axis => String.eqb (default EmptyString (rc_Votes r !! axis)) VoteAccept)
          AllReviewAxes
  && (default 0 (rc_FindingCounts r !! SeverityBlocker) =? 0)%Z
  && (default 0 (rc_FindingCounts r !! SeverityImportant) =? 0)%Z.

Record EpochState := mk_EpochState {
  es_EpochId : string;
  es_CurrentPhase : PhaseId;
  es_CurrentRole : RoleId;
  es_CompletedPhases : list PhaseId;
  es_ReviewVotes : option (gmap ReviewAxis VoteType);
  es_BlockerCount : Z;
  es_TransitionHistory : list TransitionRecord;
  es_ReviewCycles : gmap string (list ReviewCycleRecord);
  es_LastError : option string;
  es_ActiveSessionCount : Z;
  es_ActiveSessions : list RegisterSessionSignal;
  es_SliceProgress : list SliceProgressSignal;
}.

Definition votes_of (st : EpochState) : gmap ReviewAxis VoteType :=
  default ∅ (es_ReviewVotes st).

(** ** Transition table *)
Record PhaseSpec := { Transitions : list PhaseId }.

Definition PhaseSpecs : gmap PhaseId PhaseSpec :=
  list_to_map
    [(PhaseRequest, {| Transitions := [PhaseElicit] |});
     (PhaseElicit, {| Transitions := [PhasePropose] |});
     (PhasePropose, {| Transitions := [PhaseReview] |});
     (PhaseReview, {| Transitions := [PhasePlanReview; PhasePropose] |});
     (PhasePlanReview, {| Transitions := [PhaseRatify] |});
     (PhaseRatify, {| Transitions := [PhaseHandoff] |});
     (PhaseHandoff, {| Transitions := [PhaseImplPlan] |});
     (PhaseImplPlan, {| Transitions := [PhaseWorkerSlices] |});
     (PhaseWorkerSlices, {| Transitions := [PhaseCodeReview] |});
     (PhaseCodeReview, {| Transitions := [PhaseImplUAT; PhaseWorkerSlices] |});
     (PhaseImplUAT, {| Transitions := [PhaseLanding] |});
     (PhaseLanding, {| Transitions := [PhaseComplete] |})].

Definition consensusGated : gset (PhaseId * PhaseId) :=
  {[ (PhaseReview, PhasePlanReview); (PhaseCodeReview, PhaseImplUAT) ]}.
Definition blockerGated : gset (PhaseId * PhaseId) :=
  {[ (PhaseCodeReview, PhaseImplUAT) ]}.
Definition reviseDrivesBackPhases : gset PhaseId :=
  {[ PhaseReview; PhaseCodeReview ]}.

(** ** EpochStateMachine *)
Record EpochStateMachine := mk_sm {
  sm_state : EpochState;
  sm_specs : gmap PhaseId PhaseSpec;
}.

(** [specs = None] is the nil map, which selects the canonical table. *)
Definition NewEpochStateMachine (epochId : string)
    (specs : option (gmap PhaseId PhaseSpec)) : EpochStateMachine :=
  {| sm_state :=
       {| es_EpochId := epochId;
          es_CurrentPhase := PhaseRequest;
          es_CurrentRole := RoleEpoch;
          es_CompletedPhases := [];
          es_ReviewVotes := Some ∅;
          es_BlockerCount := 0;
          es_TransitionHistory := [];
          es_ReviewCycles := ∅;
          es_LastError := None;
          es_ActiveSessionCount := 0;
          es_ActiveSessions := [];
          es_SliceProgress := [] |};
     sm_specs := default PhaseSpecs specs |}.

(** Field updates of the adopted state. *)
Definition set_votes (st : EpochState) v : EpochState :=
  mk_EpochState (es_EpochId st) (es_CurrentPhase st) (es_CurrentRole st)
    (es_CompletedPhases st) v (es_BlockerCount st) (es_TransitionHistory st)
    (es_ReviewCycles st) (es_LastError st) (es_ActiveSessionCount st)
    (es_ActiveSessions st) (es_SliceProgress st).
Definition set_blockers (st : EpochState) n : EpochState :=
  mk_EpochState (es_EpochId st) (es_CurrentPhase st) (es_CurrentRole st)
    (es_CompletedPhases st) (es_ReviewVotes st) n (es_TransitionHistory st)
    (es_ReviewCycles st) (es_LastError st) (es_ActiveSessionCount st)
    (es_ActiveSessions st) (es_SliceProgress st).
Definition set_phase (st : EpochState) completed current : EpochState :=
  mk_EpochState (es_EpochId st) current (es_CurrentRole st)
    completed (es_ReviewVotes st) (es_BlockerCount st) (es_TransitionHistory st)
    (es_ReviewCycles st) (es_LastError st) (es_ActiveSessionCount st)
    (es_ActiveSessions st) (es_SliceProgress st).
Definition set_history (st : EpochState) h e : EpochState :=
  mk_EpochState (es_EpochId st) (es_CurrentPhase st) (es_CurrentRole st)
    (es_CompletedPhases st) (es_ReviewVotes st) (es_BlockerCount st) h
    (es_ReviewCycles st) e (es_ActiveSessionCount st)
    (es_ActiveSessions st) (es_SliceProgress st).

Definition NewEpochStateMachineFromState (state : EpochState)
    (specs : option (gmap PhaseId PhaseSpec)) : EpochStateMachine :=
  {| sm_state := match es_ReviewVotes state with
                 | None => set_votes state (Some ∅)
                 | Some _ => state
                 end;
     sm_specs := default PhaseSpecs specs |}.

Definition HasConsensus (sm : EpochStateMachine) : bool :=
  forallb (fun ax => match votes_of (sm_state sm) !! ax with
                     | Some v => String.eqb v VoteAccept
                     | None => false
                     end) AllReviewAxes.

Definition hasAnyRevise (sm : EpochStateMachine) : bool :=
  existsb (fun '(_, v) => String.eqb v VoteRevise)
          (map_to_list (votes_of (sm_state sm))).

Definition is_consensusGated (from to : PhaseId) : bool :=
  bool_decide ((from, to) ∈ consensusGated).
Definition is_blockerGated (from to : PhaseId) : bool :=
  bool_decide ((from, to) ∈ blockerGated).

Definition AvailableTransitions (sm : EpochStateMachine) : list PhaseId :=
  let current := es_CurrentPhase (sm_state sm) in
  if String.eqb current PhaseComplete then []
  else match sm_specs sm !! current with
  | None => []
  | Some spec =>
      let all := Transitions spec in
      if bool_decide (current ∈ reviseDrivesBackPhases) && hasAnyRevise sm then
        List.filter (fun to => negb (is_consensusGated current to)
                               && negb (is_blockerGated current to)) all
      else
        let filtered :=
          List.filter (fun to => negb (is_consensusGated current to
                                       && negb (HasConsensus sm))) all in
        if (0 <? es_BlockerCount (sm_state sm))%Z then
          List.filter (fun to => negb (is_blockerGated current to)) filtered
        else filtered
  end.

(** A violation carries what its message is formatted from; the [%v] lists are
    built by iterating a map, so they are sets. *)
Inductive Violation :=
  | AlreadyComplete
  | NoSpec (current : PhaseId)
  | NotInTable (current to : PhaseId) (targets : gset PhaseId)
  | ConsensusRequired (current to : PhaseId) (accepted : gset ReviewAxis)
  | BlockerGate (current to : PhaseId) (unresolved : Z).

Definition accepted_axes (votes : gmap ReviewAxis VoteType) : gset ReviewAxis :=
  dom (filter (fun p => p.2 = VoteAccept) votes).

Definition ValidateAdvance (sm : EpochStateMachine) (toPhase : PhaseId) : list Violation :=
  let current := es_CurrentPhase (sm_state sm) in
  if String.eqb current PhaseComplete then [AlreadyComplete]
  else match sm_specs sm !! current with
  | None => [NoSpec current]
  | Some spec =>
      let validTargets : gset PhaseId := list_to_set (Transitions spec) in
      if negb (bool_decide (toPhase ∈ validTargets))
      then [NotInTable current toPhase validTargets]
      else
        (if is_consensusGated current toPhase && negb (HasConsensus sm)
         then [ConsensusRequired current toPhase
                 (accepted_axes (votes_of (sm_state sm)))]
         else [])
        ++ (if is_blockerGated current toPhase
               && (0 <? es_BlockerCount (sm_state sm))%Z
            then [BlockerGate current toPhase (es_BlockerCount (sm_state sm))]
            else [])
  end%list.

Definition Advance (sm : EpochStateMachine) (toPhase : PhaseId)
    (triggeredBy conditionMet : string) (timestamp : Time)
    : EpochStateMachine * result (list Violation) TransitionRecord :=
  match ValidateAdvance sm toPhase with
  | (_ :: _) as violations => (sm, Err violations)
  | [] =>
      let st := sm_state sm in
      let record := {| tr_FromPhase := es_CurrentPhase st;
                       tr_ToPhase := toPhase;
                       tr_Timestamp := timestamp;
                       tr_TriggeredBy := triggeredBy;
                       tr_ConditionMet := conditionMet;
                       tr_Success := true |} in
      let st1 := set_phase st (es_CompletedPhases st ++ [es_CurrentPhase st])%list
                           toPhase in
      let st2 := set_history st1 (es_TransitionHistory st ++ [record])%list None in
      (mk_sm (set_votes st2 (Some ∅)) (sm_specs sm), Ok record)
  end.

Inductive VoteError := InvalidReviewAxis (axis : ReviewAxis).

(** [None] is the run-time panic of a write to a nil map. *)
Definition RecordVote (sm : EpochStateMachine) (axis : ReviewAxis) (vote : VoteType)
    : option (EpochStateMachine * option VoteError) :=
  if negb (ReviewAxis_IsValid axis) then Some (sm, Some (InvalidReviewAxis axis))
  else match es_ReviewVotes (sm_state sm) with
  | None => None
  | Some votes =>
      Some (mk_sm (set_votes (sm_state sm) (Some (<[axis := vote]> votes))) (sm_specs sm),
            None)
  end.

Definition RecordBlocker (sm : EpochStateMachine) (resolved : bool) : EpochStateMachine :=
  let n := es_BlockerCount (sm_state sm) in
  if resolved then
    if (0 <? n)%Z then mk_sm (set_blockers (sm_state sm) (wrap64 (n - 1))) (sm_specs sm)
    else sm
  else mk_sm (set_blockers (sm_state sm) (wrap64 (n + 1))) (sm_specs sm).

(** [errMsg] is [err.Error()]. *)
Definition RecordFailedTransition (sm : EpochStateMachine) (fromPhase toPhase : PhaseId)
    (timestamp : Time) (triggeredBy errMsg : string) : EpochStateMachine :=
  let st := sm_state sm in
  let failedRecord := {| tr_FromPhase := fromPhase;
                         tr_ToPhase := toPhase;
                         tr_Timestamp := timestamp;
                         tr_TriggeredBy := triggeredBy;
                         tr_ConditionMet := "FAILED: " ++ errMsg;
                         tr_Success := false |} in
  mk_sm (set_history st (es_TransitionHistory st ++ [failedRecord])%list (Some errMsg))
        (sm_specs sm).

(** [TransitionError.Error], over the rendering of one violation. *)
Definition join_violations (render : Violation -> string) (vs : list Violation) : string :=
  match vs with
  | [] => EmptyString
  | v :: rest => render v ++ String.concat EmptyString ((fun w => "; " ++ render w) <$> rest)
  end.
Definition TransitionError_Error (render : Violation -> string) (vs : list Violation)
    : string :=
  match vs with
  | [v] => render v
  | _ => pretty (length vs) ++ " transition violations: " ++ join_violations render vs
  end.

(** * Theorems *)

(** ** The gates *)

(** Votes are cast on known axes only, and the vote map is writable: what the
    constructors and the methods establish. *)
Definition votes_wf (sm : EpochStateMachine) : Prop :=
  exists votes, es_ReviewVotes (sm_state sm) = Some votes /\
    forall ax, is_Some (votes !! ax) -> ax ∈ AllReviewAxes.

Lemma hasAnyRevise_spec sm :
  hasAnyRevise sm = true <->
  exists ax, votes_of (sm_state sm) !! ax = Some VoteRevise.
Proof.
  unfold hasAnyRevise. rewrite existsb_exists. split.
  - intros ([ax v] & Hin & E%String.eqb_eq). subst. exists ax.
    apply list_elem_of_In in Hin. by apply elem_of_map_to_list in Hin.
  - intros [ax H]. exists (ax, VoteRevise). split; [|apply String.eqb_refl].
    by apply list_elem_of_In, elem_of_map_to_list.
Qed.

Lemma HasConsensus_spec sm :
  HasConsensus sm = true <->
  forall ax, ax ∈ AllReviewAxes -> votes_of (sm_state sm) !! ax = Some VoteAccept.
Proof.
  unfold HasConsensus. rewrite forallb_forall. setoid_rewrite <- list_elem_of_In.
  split; intros H ax Hax; specialize (H ax Hax).
  - destruct (_ !! ax); [|done]. apply String.eqb_eq in H. by subst.
  - by rewrite H.
Qed.

Lemma revise_no_consensus sm :
  votes_wf sm -> hasAnyRevise sm = true -> HasConsensus sm = false.
Proof.
  intros (votes & Hv & Hax) [ax Hr]%hasAnyRevise_spec.
  apply not_true_is_false. rewrite HasConsensus_spec. intros Hc.
  unfold votes_of in *. rewrite Hv in *. simpl in *.
  specialize (Hc ax (Hax ax (mk_is_Some _ _ Hr))). rewrite Hr in Hc. discriminate Hc.
Qed.

Lemma blockerGated_consensusGated from to :
  is_blockerGated from to = true -> is_consensusGated from to = true.
Proof.
  unfold is_blockerGated, is_consensusGated. rewrite !bool_decide_eq_true.
  unfold blockerGated, consensusGated. set_solver.
Qed.

Lemma consensusGated_review from to :
  is_consensusGated from to = true -> from ∈ reviseDrivesBackPhases.
Proof.
  unfold is_consensusGated. rewrite bool_decide_eq_true.
  unfold consensusGated, reviseDrivesBackPhases. set_solver.
Qed.

Lemma guard_nil (b c : bool) (x : Violation) :
  (if b && negb c then [x] else []) = [] <-> (b = true -> c = true).
Proof. destruct b, c; simpl; naive_solver. Qed.

Lemma guard_pos_nil (b : bool) n (x : Violation) :
  (if b && (0 <? n)%Z then [x] else []) = [] <-> (b = true -> (n <= 0)%Z).
Proof. destruct b, (Z.ltb_spec 0 n); simpl; naive_solver lia. Qed.

(** What [ValidateAdvance] accepts, in one line. *)
Lemma ValidateAdvance_nil sm to :
  ValidateAdvance sm to = [] <->
  es_CurrentPhase (sm_state sm) <> PhaseComplete /\
  (exists spec, sm_specs sm !! es_CurrentPhase (sm_state sm) = Some spec /\
                to ∈ Transitions spec) /\
  (is_consensusGated (es_CurrentPhase (sm_state sm)) to = true ->
     HasConsensus sm = true) /\
  (is_blockerGated (es_CurrentPhase (sm_state sm)) to = true ->
     (es_BlockerCount (sm_state sm) <= 0)%Z).
Proof.
  unfold ValidateAdvance. set (cur := es_CurrentPhase _).
  destruct (String.eqb_spec cur PhaseComplete); [naive_solver|].
  destruct (sm_specs sm !! cur) as [spec|]; [|naive_solver].
  case_bool_decide as Hin; rewrite elem_of_list_to_set in Hin; simpl; [|naive_solver].
  split.
  - intros [H1 H2]%app_eq_nil. split_and!; eauto.
    + exact (proj1 (guard_nil _ _ _) H1).
    + exact (proj1 (guard_pos_nil _ _ _) H2).
  - intros (_ & _ & H1 & H2). by rewrite (proj2 (guard_nil _ _ _) H1), (proj2 (guard_pos_nil _ _ _) H2).
Qed.

Lemma elem_of_filterb {A} (f : A -> bool) x l : x ∈ List.filter f l <-> f x = true /\ x ∈ l.
Proof. rewrite !list_elem_of_In, filter_In. naive_solver. Qed.

(** C1: the two views of the gates agree. On every machine whose votes are on
    known axes, whatever its transition table, a phase is listed by
    [AvailableTransitions] exactly when [ValidateAdvance] finds no violation
    for it: the REVISE, consensus and blocker filters of the first are the
    checks of the second. *)
Theorem available_iff_valid sm to :
  votes_wf sm ->
  to ∈ AvailableTransitions sm <-> ValidateAdvance sm to = [].
Proof.
  intros Hwf. rewrite ValidateAdvance_nil. unfold AvailableTransitions.
  set (cur := es_CurrentPhase _).
  destruct (String.eqb_spec cur PhaseComplete) as [|Hc].
  { split; [by intros ?%not_elem_of_nil|naive_solver]. }
  destruct (sm_specs sm !! cur) as [spec|];
    [|split; [by intros ?%not_elem_of_nil|naive_solver]].
  pose proof (blockerGated_consensusGated cur to) as Hbc.
  destruct (bool_decide (cur ∈ _) && hasAnyRevise sm) eqn:Hrev.
  - apply andb_prop in Hrev as [_ Hrev]. rewrite (revise_no_consensus sm Hwf Hrev).
    rewrite elem_of_filterb.
    destruct (is_consensusGated cur to), (is_blockerGated cur to); naive_solver.
  - destruct (Z.ltb_spec 0 (es_BlockerCount (sm_state sm)));
      rewrite !elem_of_filterb;
      destruct (is_consensusGated cur to), (is_blockerGated cur to), (HasConsensus sm);
      naive_solver lia.
Qed.

Lemma available_iff_valid_witness :
  votes_wf (NewEpochStateMachine "e" None) /\
  (PhaseElicit ∈ AvailableTransitions (NewEpochStateMachine "e" None) <->
   ValidateAdvance (NewEpochStateMachine "e" None) PhaseElicit = []).
Proof.
  assert (H : votes_wf (NewEpochStateMachine "e" None))
    by (exists ∅; split; [reflexivity|by intros ax [v Hv]]).
  split; [exact H|exact (available_iff_valid _ PhaseElicit H)].
Defined.

Lemma Advance_eqn sm to by_ cond ts :
  let st := sm_state sm in
  let '(sm', r) := Advance sm to by_ cond ts in
  match r with
  | Err violations =>
      violations = ValidateAdvance sm to /\ violations <> [] /\ sm' = sm
  | Ok record =>
      ValidateAdvance sm to = [] /\
      record = {| tr_FromPhase := es_CurrentPhase st; tr_ToPhase := to;
                  tr_Timestamp := ts; tr_TriggeredBy := by_;
                  tr_ConditionMet := cond; tr_Success := true |} /\
      sm' = {| sm_state :=
                 {| es_EpochId := es_EpochId st;
                    es_CurrentPhase := to;
                    es_CurrentRole := es_CurrentRole st;
                    es_CompletedPhases := es_CompletedPhases st ++ [es_CurrentPhase st];
                    es_ReviewVotes := Some ∅;
                    es_BlockerCount := es_BlockerCount st;
                    es_TransitionHistory := es_TransitionHistory st ++ [record];
                    es_ReviewCycles := es_ReviewCycles st;
                    es_LastError := None;
                    es_ActiveSessionCount := es_ActiveSessionCount st;
                    es_ActiveSessions := es_ActiveSessions st;
                    es_SliceProgress := es_SliceProgress st |};
               sm_specs := sm_specs sm |}
  end.
Proof.
  unfold Advance. destruct (ValidateAdvance sm to) eqn:E; simpl; [by split_and!|].
  by split_and!.
Qed.

(** C3: the gates hold on every successful advance, from any state: leaving
    plan review or code review forward needs an ACCEPT on each of the three
    axes, and leaving code review forward needs that no blocker is left. *)
Theorem gated_advance_safe sm to by_ cond ts record :
  (Advance sm to by_ cond ts).2 = Ok record ->
  ((tr_FromPhase record, tr_ToPhase record) = (PhaseReview, PhasePlanReview) \/
   (tr_FromPhase record, tr_ToPhase record) = (PhaseCodeReview, PhaseImplUAT) ->
   forall ax, ax ∈ AllReviewAxes -> votes_of (sm_state sm) !! ax = Some VoteAccept) /\
  ((tr_FromPhase record, tr_ToPhase record) = (PhaseCodeReview, PhaseImplUAT) ->
   (es_BlockerCount (sm_state sm) <= 0)%Z).
Proof.
  pose proof (Advance_eqn sm to by_ cond ts) as H. cbv zeta in H.
  destruct (Advance sm to by_ cond ts) as [sm' r]. simpl. intros ->.
  destruct H as (HV & -> & _). simpl.
  apply ValidateAdvance_nil in HV as (_ & _ & HC & HB).
  split.
  - intros H. apply HasConsensus_spec, HC.
    destruct H as [H|H]; injection H as -> ->; by vm_compute.
  - intros H. apply HB. injection H as -> ->. by vm_compute.
Qed.

(** ** Reachable machines *)

(** One method call by any caller of the machine. *)
Inductive fsm_step : EpochStateMachine -> EpochStateMachine -> Prop :=
  | step_vote sm axis vote sm' e :
      RecordVote sm axis vote = Some (sm', e) -> fsm_step sm sm'
  | step_blocker sm resolved : fsm_step sm (RecordBlocker sm resolved)
  | step_advance sm to by_ cond ts : fsm_step sm (Advance sm to by_ cond ts).1
  | step_failed sm from to ts by_ msg :
      fsm_step sm (RecordFailedTransition sm from to ts by_ msg).

Definition reachable (epochId : string) (sm : EpochStateMachine) : Prop :=
  rtc fsm_step (NewEpochStateMachine epochId None) sm.

(** [edge a b]: the canonical table allows the move from [a] to [b]. *)
Definition edge (a b : PhaseId) : Prop :=
  exists spec, PhaseSpecs !! a = Some spec /\ b ∈ Transitions spec.

(** [path a l b]: moving along edges from [a] to [b] leaves the phases [l]. *)
Inductive path : PhaseId -> list PhaseId -> PhaseId -> Prop :=
  | path_nil a : path a [] a
  | path_cons a b l c : edge a b -> path b l c -> path a (a :: l) c.

Lemma path_snoc a l b c : path a l b -> edge b c -> path a (l ++ [b]) c.
Proof. induction 1; simpl; eauto using path. Qed.

Definition successes (st : EpochState) : list TransitionRecord :=
  List.filter tr_Success (es_TransitionHistory st).

(** What every reachable machine satisfies: it runs the canonical table; its
    votes are on known axes in a writable map; its blocker count fits its type;
    the completed phases are a path of the table from the first phase to the
    current one; and the successful history records are the edges of that path,
    in order. *)
Record fsm_inv (sm : EpochStateMachine) : Prop := {
  inv_specs : sm_specs sm = PhaseSpecs;
  inv_votes : votes_wf sm;
  inv_blockers : in_int64 (es_BlockerCount (sm_state sm));
  inv_path : path PhaseRequest (es_CompletedPhases (sm_state sm))
                  (es_CurrentPhase (sm_state sm));
  inv_from : tr_FromPhase <$> successes (sm_state sm) = es_CompletedPhases (sm_state sm);
  inv_to : PhaseRequest :: (tr_ToPhase <$> successes (sm_state sm)) =
           (es_CompletedPhases (sm_state sm) ++ [es_CurrentPhase (sm_state sm)])%list;
}.

Lemma inv_new id : fsm_inv (NewEpochStateMachine id None).
Proof.
  split; simpl; try done.
  - exists ∅. split; [done|]. by intros ax [v Hv].
  - constructor.
Qed.

Lemma RecordVote_inv sm axis vote sm' e :
  fsm_inv sm -> RecordVote sm axis vote = Some (sm', e) -> fsm_inv sm'.
Proof.
  intros Hinv. destruct (inv_votes _ Hinv) as (votes & Hv & Hax). unfold RecordVote.
  rewrite Hv. destruct (ReviewAxis_IsValid axis) eqn:Ha; simpl; [|naive_solver].
  intros [= <- <-]. destruct Hinv. split; try done. simpl.
  exists (<[axis:=vote]> votes). split; [done|]. intros ax.
  destruct (decide (ax = axis)) as [->|].
  - intros _. by apply one_of_spec.
  - rewrite lookup_insert_ne by done. apply Hax.
Qed.

Lemma RecordBlocker_inv sm resolved : fsm_inv sm -> fsm_inv (RecordBlocker sm resolved).
Proof.
  intros []. unfold RecordBlocker. destruct resolved; [destruct (_ <? _)%Z|];
    split; simpl; auto using wrap64_range.
Qed.

Lemma Advance_inv sm to by_ cond ts : fsm_inv sm -> fsm_inv (Advance sm to by_ cond ts).1.
Proof.
  intros Hinv. pose proof (Advance_eqn sm to by_ cond ts) as H. cbv zeta in H.
  destruct (Advance sm to by_ cond ts) as [sm' [record|vs]]; [|by destruct H as (_ & _ & ->)].
  destruct H as (HV & -> & ->). destruct Hinv as [Hs _ Hb Hp Hf Ht].
  apply ValidateAdvance_nil in HV as (_ & Hedge & _). rewrite Hs in Hedge.
  unfold successes in *. split; unfold successes; simpl in *; try done.
  - exists ∅. split; [done|]. by intros ax [v Hv].
  - by apply path_snoc.
  - rewrite List.filter_app, fmap_app, Hf. done.
  - rewrite List.filter_app, fmap_app, app_comm_cons, Ht. done.
Qed.

Lemma RecordFailedTransition_inv sm from to ts by_ msg :
  fsm_inv sm -> fsm_inv (RecordFailedTransition sm from to ts by_ msg).
Proof.
  intros []. unfold successes in *. split; unfold successes; simpl; try done;
    rewrite List.filter_app, app_nil_r; done.
Qed.

Lemma fsm_step_inv sm sm' : fsm_step sm sm' -> fsm_inv sm -> fsm_inv sm'.
Proof.
  intros []; eauto using RecordVote_inv, RecordBlocker_inv, Advance_inv,
    RecordFailedTransition_inv.
Qed.

Lemma reachable_fsm_inv id sm : reachable id sm -> fsm_inv sm.
Proof.
  intros H. unfold reachable in H. remember (NewEpochStateMachine id None) as sm0 eqn:E.
  assert (H0 : fsm_inv sm0) by (rewrite E; apply inv_new). clear E.
  induction H; eauto using fsm_step_inv.
Qed.

(** ** The ledger of calls

    What a caller that wrote down every call it made would know of the machine
    without reading its state. *)
Inductive fsm_call :=
  | CallVote (axis : ReviewAxis) (vote : VoteType)
  | CallBlocker (resolved : bool)
  | CallAdvance (to : PhaseId) (by_ cond : string) (ts : Time)
  | CallFailed (from to : PhaseId) (ts : Time) (by_ msg : string).

Definition do_call (sm : EpochStateMachine) (c : fsm_call) : EpochStateMachine :=
  match c with
  | CallVote axis vote => match RecordVote sm axis vote with Some (sm', _) => sm' | None => sm end
  | CallBlocker resolved => RecordBlocker sm resolved
  | CallAdvance to by_ cond ts => (Advance sm to by_ cond ts).1
  | CallFailed from to ts by_ msg => RecordFailedTransition sm from to ts by_ msg
  end.

Lemma do_calls_reachable id cs : reachable id (foldl do_call (NewEpochStateMachine id None) cs).
Proof.
  unfold reachable. generalize (NewEpochStateMachine id None).
  induction cs as [|c cs IH]; intros sm; simpl; [apply rtc_refl|].
  etrans; [|apply IH]. destruct c; simpl.
  - destruct (RecordVote sm axis vote) as [[sm' e]|] eqn:E; [|apply rtc_refl].
    eapply rtc_once, step_vote, E.
  - apply rtc_once, step_blocker.
  - apply rtc_once, step_advance.
  - apply rtc_once, step_failed.
Qed.

(** The last vote the ledger holds for an axis. *)
Definition last_vote (axis : ReviewAxis) (cs : list fsm_call) : option VoteType :=
  foldl (fun v c => match c with
                    | CallVote axis' vote => if String.eqb axis' axis then Some vote else v
                    | _ => v
                    end) None cs.

(** The blockers raised and not yet resolved; a resolution with none open is
    void. *)
Definition open_blockers (cs : list fsm_call) : Z :=
  foldl (fun n c => match c with
                    | CallBlocker true => Z.max 0 (n - 1)
                    | CallBlocker false => n + 1
                    | _ => n
                    end)%Z 0%Z cs.

(** The ledger ends where a phase was entered: it is empty, or its last call
    is an advance that the machine accepted. *)
Definition entered (id : string) (cs : list fsm_call) : Prop :=
  cs = [] \/
  exists cs0 to by_ cond ts record,
    cs = (cs0 ++ [CallAdvance to by_ cond ts])%list /\
    (Advance (foldl do_call (NewEpochStateMachine id None) cs0) to by_ cond ts).2 = Ok record.

Lemma do_call_completed sm c :
  es_CompletedPhases (sm_state (do_call sm c)) = es_CompletedPhases (sm_state sm) \/
  (exists to by_ cond ts, c = CallAdvance to by_ cond ts) /\
  es_CompletedPhases (sm_state (do_call sm c)) =
    (es_CompletedPhases (sm_state sm) ++ [es_CurrentPhase (sm_state sm)])%list.
Proof.
  destruct c; simpl.
  - left. unfold RecordVote. destruct (negb _); [done|]. by destruct (es_ReviewVotes _).
  - left. unfold RecordBlocker. destruct resolved; [|done]. by destruct (_ <? _)%Z.
  - pose proof (Advance_eqn sm to by_ cond ts) as H. cbv zeta in H.
    destruct (Advance sm to by_ cond ts) as [sm' [r|vs]]; simpl.
    + destruct H as (_ & _ & ->). right. eauto 10.
    + left. by destruct H as (_ & _ & ->).
  - by left.
Qed.

Lemma do_calls_completed sm cs :
  es_CompletedPhases (sm_state sm) `prefix_of`
  es_CompletedPhases (sm_state (foldl do_call sm cs)).
Proof.
  revert sm. induction cs as [|c cs IH]; intros sm; simpl; [done|].
  etrans; [|apply IH].
  destruct (do_call_completed sm c) as [->|[_ ->]]; [done|by apply prefix_app_r].
Qed.

(** Two calls of the same length of completed phases: no advance was accepted
    between them. *)
Lemma quiet_snoc sm cs c :
  es_CompletedPhases (sm_state (foldl do_call sm (cs ++ [c]))) = es_CompletedPhases (sm_state sm) ->
  es_CompletedPhases (sm_state (foldl do_call sm cs)) = es_CompletedPhases (sm_state sm) /\
  es_CompletedPhases (sm_state (do_call (foldl do_call sm cs) c)) =
    es_CompletedPhases (sm_state (foldl do_call sm cs)).
Proof.
  rewrite foldl_app. simpl. intros E.
  pose proof (do_calls_completed sm cs) as [k Hk].
  destruct (do_call_completed (foldl do_call sm cs) c) as [Ec|[_ Ec]].
  - split; [congruence|done].
  - exfalso. rewrite Ec, Hk, <- app_assoc in E.
    apply (f_equal length) in E. rewrite !length_app in E. simpl in E. lia.
Qed.

Lemma do_calls_inv sm cs : fsm_inv sm -> fsm_inv (foldl do_call sm cs).
Proof.
  revert sm. induction cs as [|c cs IH]; intros sm Hinv; simpl; [done|]. apply IH.
  destruct c; simpl.
  - destruct (RecordVote sm axis vote) as [[sm' e]|] eqn:E; [|done]. by eapply RecordVote_inv.
  - by apply RecordBlocker_inv.
  - by apply Advance_inv.
  - by apply RecordFailedTransition_inv.
Qed.

(** A call that completes no phase writes the ledger's vote or none. *)
Lemma do_call_votes sm c axis :
  fsm_inv sm -> axis ∈ AllReviewAxes ->
  es_CompletedPhases (sm_state (do_call sm c)) = es_CompletedPhases (sm_state sm) ->
  votes_of (sm_state (do_call sm c)) !! axis =
  match c with
  | CallVote axis' vote =>
      if String.eqb axis' axis then Some vote else votes_of (sm_state sm) !! axis
  | _ => votes_of (sm_state sm) !! axis
  end.
Proof.
  intros Hinv Hax E. destruct (inv_votes _ Hinv) as (votes & Hv & _). destruct c; simpl in *.
  - unfold RecordVote, votes_of. rewrite Hv. destruct (String.eqb_spec axis0 axis) as [->|Hne].
    + apply one_of_spec in Hax. unfold ReviewAxis_IsValid, AllReviewAxes in *. rewrite Hax. simpl.
      by rewrite lookup_insert_eq.
    + destruct (ReviewAxis_IsValid axis0); simpl; rewrite ?Hv; [|done]. simpl.
      by rewrite lookup_insert_ne.
  - unfold RecordBlocker. destruct resolved; [|done]. by destruct (_ <? _)%Z.
  - pose proof (Advance_eqn sm to by_ cond ts) as H. cbv zeta in H.
    destruct (Advance sm to by_ cond ts) as [sm' [r|vs]]; simpl in *.
    + destruct H as (_ & _ & ->). simpl in E. apply (f_equal length) in E.
      rewrite length_app in E. simpl in E. lia.
    + by destruct H as (_ & _ & ->).
  - done.
Qed.

Lemma calls_votes sm cs axis :
  fsm_inv sm -> axis ∈ AllReviewAxes ->
  es_CompletedPhases (sm_state (foldl do_call sm cs)) = es_CompletedPhases (sm_state sm) ->
  votes_of (sm_state (foldl do_call sm cs)) !! axis =
  match last_vote axis cs with Some v => Some v | None => votes_of (sm_state sm) !! axis end.
Proof.
  intros Hinv Hax. induction cs as [|c cs IH] using rev_ind; [done|].
  intros [E Ec]%quiet_snoc. rewrite foldl_app. simpl.
  rewrite do_call_votes; [|by apply do_calls_inv|done|done].
  unfold last_vote. rewrite foldl_app. simpl. fold (last_vote axis cs). rewrite IH by done.
  destruct c; try done. by destruct (String.eqb _ _).
Qed.

Lemma calls_blockers id cs :
  (Z.of_nat (length cs) < 2 ^ 63)%Z ->
  es_BlockerCount (sm_state (foldl do_call (NewEpochStateMachine id None) cs)) = open_blockers cs /\
  (0 <= open_blockers cs <= Z.of_nat (length cs))%Z.
Proof.
  induction cs as [|c cs IH] using rev_ind; [done|]. rewrite length_app. simpl. intros Hlen.
  destruct IH as [E Hr]; [lia|]. rewrite foldl_app. unfold open_blockers. rewrite foldl_app. simpl.
  fold (open_blockers cs). set (sm := foldl _ _ cs) in *. destruct c; simpl.
  - split; [|lia]. rewrite <- E. unfold RecordVote. destruct (negb _); [done|].
    by destruct (es_ReviewVotes _).
  - unfold RecordBlocker. rewrite E. destruct resolved; simpl.
    + destruct (Z.ltb_spec 0 (open_blockers cs)); simpl; [rewrite wrap64_id|]; unfold in_int64, min_int64, max_int64; lia.
    + rewrite wrap64_id; unfold in_int64, min_int64, max_int64; lia.
  - split; [|lia]. rewrite <- E. pose proof (Advance_eqn sm to by_ cond ts) as H. cbv zeta in H.
    destruct (Advance sm to by_ cond ts) as [sm' [r|vs]]; by destruct H as (_ & _ & ->).
  - split; [exact E|lia].
Qed.

Lemma entered_votes id cs :
  entered id cs -> votes_of (sm_state (foldl do_call (NewEpochStateMachine id None) cs)) = ∅.
Proof.
  intros [->|(cs0 & to & by_ & cond & ts & record & -> & Hok)]; [done|].
  rewrite foldl_app. simpl. set (sm := foldl _ _ cs0) in *.
  pose proof (Advance_eqn sm to by_ cond ts) as H. cbv zeta in H.
  destruct (Advance sm to by_ cond ts) as [sm' r]. simpl in *. subst.
  by destruct H as (_ & _ & ->).
Qed.


(** C4: the machine's invariant holds in every state its callers can reach,
    through any sequence of votes, blockers, advances and failed-transition
    records: the completed phases are a path of the transition table, the
    successful history records are exactly its edges, votes stay on known axes
    and no write ever meets a nil map. *)
Theorem reachable_inv id sm : reachable id sm -> fsm_inv sm.
Proof. apply reachable_fsm_inv. Qed.

Lemma reachable_inv_witness :
  reachable "e" (Advance (NewEpochStateMachine "e" None) PhaseElicit "w" "c" 7).1 /\
  fsm_inv (Advance (NewEpochStateMachine "e" None) PhaseElicit "w" "c" 7).1.
Proof.
  assert (H : reachable "e" (Advance (NewEpochStateMachine "e" None) PhaseElicit "w" "c" 7).1)
    by (apply rtc_once, step_advance).
  split; [exact H|exact (reachable_inv "e" _ H)].
Defined.

(** A machine standing in code review with three ACCEPT votes. *)
Definition accepted_votes : gmap ReviewAxis VoteType :=
  <[AxisCorrectness := VoteAccept]> (<[AxisTestQuality := VoteAccept]>
    (<[AxisElegance := VoteAccept]> ∅)).
Definition machine_at (p : PhaseId) (votes : gmap ReviewAxis VoteType) : EpochStateMachine :=
  let sm := NewEpochStateMachine "e" None in
  mk_sm (set_votes (set_phase (sm_state sm) [] p) (Some votes)) (sm_specs sm).

Lemma gated_advance_safe_witness :
  let sm := machine_at PhaseCodeReview accepted_votes in
  let record := {| tr_FromPhase := PhaseCodeReview; tr_ToPhase := PhaseImplUAT;
                   tr_Timestamp := 7; tr_TriggeredBy := "r"; tr_ConditionMet := "c";
                   tr_Success := true |} in
  (Advance sm PhaseImplUAT "r" "c" 7).2 = Ok record /\ (es_BlockerCount (sm_state sm) <= 0)%Z.
Proof.
  assert (H : (Advance (machine_at PhaseCodeReview accepted_votes) PhaseImplUAT "r" "c" 7).2
    = Ok {| tr_FromPhase := PhaseCodeReview; tr_ToPhase := PhaseImplUAT;
            tr_Timestamp := 7; tr_TriggeredBy := "r"; tr_ConditionMet := "c";
            tr_Success := true |}) by (vm_compute; reflexivity).
  split; [exact H|]. exact (proj2 (gated_advance_safe _ _ _ _ _ _ H) eq_refl).
Defined.

(** ** No phase is skipped *)

(** The position of a phase in the lifecycle, counting [complete] as the
    thirteenth. *)
Definition rank (p : PhaseId) : nat := Z.to_nat (Index AllPhaseIds p).

Definition edges : list (PhaseId * PhaseId) :=
  '(a, spec) ← map_to_list PhaseSpecs; (fun b => (a, b)) <$> Transitions spec.

Lemma edge_edges a b : edge a b -> (a, b) ∈ edges.
Proof.
  intros (spec & H & Hb). unfold edges. apply list_elem_of_bind. exists (a, spec).
  split; [by apply (list_elem_of_fmap_2 (fun b => (a, b)))|by apply elem_of_map_to_list].
Qed.

Lemma forall_edges (P : PhaseId * PhaseId -> bool) a b :
  forallb P edges = true -> edge a b -> P (a, b) = true.
Proof.
  intros H Hab%edge_edges%list_elem_of_In. generalize dependent edges. intros l H Hab.
  rewrite forallb_forall in H. exact (H _ Hab).
Qed.

(** Along an edge the position grows by one at most, and both ends are
    phases of the lifecycle. *)
Lemma edge_rank a b :
  edge a b -> (rank b <= S (rank a))%nat /\ AllPhaseIds !! rank a = Some a.
Proof.
  intros H.
  apply (forall_edges (fun '(a, b) => (rank b <=? S (rank a))%nat
    && bool_decide (AllPhaseIds !! rank a = Some a))) in H; [|by vm_compute].
  apply andb_prop in H as [?%Nat.leb_le ?%bool_decide_eq_true]. done.
Qed.

Lemma edge_not_complete b : ~ edge PhaseComplete b.
Proof.
  intros H. apply (forall_edges (fun '(a, _) => negb (String.eqb a PhaseComplete))) in H;
    [done|by vm_compute].
Qed.

Lemma path_sublist a l :
  path a l PhaseComplete -> drop (rank a) DefaultPipeline `sublist_of` l.
Proof.
  intros H. remember PhaseComplete as c eqn:E. induction H as [a|a b l c Hab Hp IH]; subst.
  - by vm_compute.
  - specialize (IH eq_refl). destruct (edge_rank a b Hab) as [Hr Hl].
    assert (Hk : DefaultPipeline !! rank a = Some a).
    { change AllPhaseIds with (DefaultPipeline ++ [PhaseComplete])%list in Hl.
      apply lookup_app_Some in Hl as [?|[_ Hl]]; [done|]. exfalso.
      apply list_lookup_singleton_Some in Hl as [_ <-]. by apply (edge_not_complete b). }
    destruct (decide (rank b = S (rank a))) as [Eb|Nb].
    + rewrite (drop_S _ _ _ Hk). rewrite Eb in IH. by apply sublist_skip.
    + apply sublist_cons. etrans; [|exact IH].
      replace (rank a) with (rank b + (rank a - rank b))%nat by lia.
      rewrite <- drop_drop. apply sublist_drop.
Qed.

(** C5: no epoch skips a phase. In every reachable machine that stands at
    [complete], the twelve phases of the default pipeline have all been
    completed, each after the ones before it. *)
Theorem complete_visits_pipeline id sm :
  reachable id sm -> es_CurrentPhase (sm_state sm) = PhaseComplete ->
  DefaultPipeline `sublist_of` es_CompletedPhases (sm_state sm).
Proof.
  intros [_ _ _ Hp _ _]%reachable_fsm_inv Hc. rewrite Hc in Hp.
  by apply path_sublist in Hp.
Qed.

(** ** What an advance depends on *)

(** What the ledger grants: the move is in the transition table, the review
    gates have an ACCEPT as the last vote of each axis since the phase was
    entered, and leaving code review forward has no blocker open. *)
Definition granted (from to : PhaseId) (before since : list fsm_call) : Prop :=
  edge from to /\
  ((from, to) = (PhaseReview, PhasePlanReview) \/ (from, to) = (PhaseCodeReview, PhaseImplUAT) ->
   forall ax, ax ∈ AllReviewAxes -> last_vote ax since = Some VoteAccept) /\
  ((from, to) = (PhaseCodeReview, PhaseImplUAT) -> open_blockers (before ++ since) = 0%Z).

(** What a refusal tells is the ledger's too: the axes listed as accepted are
    those whose last vote is an ACCEPT, the count is that of the open
    blockers. *)
Definition refusal_true (v : Violation) (before since : list fsm_call) : Prop :=
  match v with
  | ConsensusRequired _ _ accepted =>
      forall ax, ax ∈ AllReviewAxes -> ax ∈ accepted <-> last_vote ax since = Some VoteAccept
  | BlockerGate _ _ unresolved =>
      unresolved = open_blockers (before ++ since) /\ (0 < unresolved)%Z
  | _ => True
  end.

Lemma edge_gates from to :
  (is_consensusGated from to = true <->
   (from, to) = (PhaseReview, PhasePlanReview) \/ (from, to) = (PhaseCodeReview, PhaseImplUAT)) /\
  (is_blockerGated from to = true <-> (from, to) = (PhaseCodeReview, PhaseImplUAT)).
Proof.
  unfold is_consensusGated, is_blockerGated, consensusGated, blockerGated.
  rewrite !bool_decide_eq_true. set_solver.
Qed.

Lemma ValidateAdvance_granted sm to before since :
  fsm_inv sm ->
  (forall ax, ax ∈ AllReviewAxes -> votes_of (sm_state sm) !! ax = last_vote ax since) ->
  es_BlockerCount (sm_state sm) = open_blockers (before ++ since) ->
  (0 <= open_blockers (before ++ since))%Z ->
  ValidateAdvance sm to = [] <-> granted (es_CurrentPhase (sm_state sm)) to before since.
Proof.
  intros Hinv HV HB Hpos. rewrite ValidateAdvance_nil, (inv_specs _ Hinv), HB, HasConsensus_spec.
  destruct (edge_gates (es_CurrentPhase (sm_state sm)) to) as [-> ->].
  unfold granted. split.
  - intros (_ & He & HC & HBl). split_and!; [done| |intros E; specialize (HBl E); lia].
    intros E ax Hax. rewrite <- HV by done. by apply HC.
  - intros (He & HC & HBl). split_and!; [|done| |intros E; rewrite HBl by done; lia].
    + intros Ec. rewrite Ec in He. by eapply edge_not_complete.
    + intros E ax Hax. rewrite HV by done. by apply HC.
Qed.

Lemma ValidateAdvance_refusals sm to before since v :
  (forall ax, ax ∈ AllReviewAxes -> votes_of (sm_state sm) !! ax = last_vote ax since) ->
  es_BlockerCount (sm_state sm) = open_blockers (before ++ since) ->
  v ∈ ValidateAdvance sm to -> refusal_true v before since.
Proof.
  intros HV HB. unfold ValidateAdvance.
  destruct (String.eqb _ _); [by intros ->%list_elem_of_singleton|].
  destruct (_ !! _); [|by intros ->%list_elem_of_singleton].
  destruct (negb _); [by intros ->%list_elem_of_singleton|].
  rewrite elem_of_app. intros [H|H].
  - destruct (_ && _); [|by apply not_elem_of_nil in H].
    apply list_elem_of_singleton in H as ->. intros ax Hax. rewrite <- HV by done.
    unfold accepted_axes. rewrite elem_of_dom. unfold is_Some.
    setoid_rewrite map_lookup_filter_Some. naive_solver.
  - destruct (_ && (0 <? _)%Z) eqn:E; [|by apply not_elem_of_nil in H].
    apply list_elem_of_singleton in H as ->. apply andb_prop in E as [_ E%Z.ltb_lt].
    by split.
Qed.

(** C2: an advance is decided by what was said to the machine since it entered
    its phase. Take any sequence of calls, cut where the current phase was
    entered (the start, or an advance the machine accepted): asked to move
    next, the machine accepts exactly when the transition table has the move,
    when, at the two review gates, the last vote on every axis since the cut
    is an ACCEPT, and when, out of code review, every blocker raised in the
    whole ledger is resolved. Votes cast before the cut count for nothing. On acceptance
    the phase left is the one completed phase more, and the one record more of
    the history names the move; on refusal the machine is as it was, and the
    accepted axes and the blocker count in the error are the ledger's. *)
Theorem Advance_spec id before since to by_ cond ts :
  let entry := foldl do_call (NewEpochStateMachine id None) before in
  let sm := foldl do_call entry since in
  let from := es_CurrentPhase (sm_state sm) in
  entered id before ->
  es_CompletedPhases (sm_state sm) = es_CompletedPhases (sm_state entry) ->
  (Z.of_nat (length before + length since) < 2 ^ 63)%Z ->
  match Advance sm to by_ cond ts with
  | (sm', Ok record) =>
      granted from to before since /\
      es_CurrentPhase (sm_state sm') = to /\
      es_CompletedPhases (sm_state sm') = (es_CompletedPhases (sm_state sm) ++ [from])%list /\
      es_TransitionHistory (sm_state sm') = (es_TransitionHistory (sm_state sm) ++ [record])%list /\
      (tr_FromPhase record, tr_ToPhase record, tr_Timestamp record) = (from, to, ts) /\
      tr_Success record = true
  | (sm', Err violations) =>
      ~ granted from to before since /\ sm' = sm /\
      (forall v, v ∈ violations -> refusal_true v before since)
  end.
Proof.
  intros entry sm from Hentry Hquiet Hlen.
  assert (Hinv : fsm_inv entry) by (eapply reachable_fsm_inv, do_calls_reachable).
  assert (HV : forall ax, ax ∈ AllReviewAxes -> votes_of (sm_state sm) !! ax = last_vote ax since).
  { intros ax Hax. unfold sm. rewrite calls_votes by done. unfold entry.
    rewrite (entered_votes id before Hentry), lookup_empty. by destruct (last_vote _ _). }
  destruct (calls_blockers id (before ++ since)) as [HB Hpos]; [by rewrite length_app|].
  rewrite foldl_app in HB. fold entry sm in HB.
  pose proof (ValidateAdvance_granted sm to before since (do_calls_inv _ _ Hinv) HV HB (proj1 Hpos)) as HG.
  pose proof (Advance_eqn sm to by_ cond ts) as H. cbv zeta in H. fold from in HG.
  destruct (Advance sm to by_ cond ts) as [sm' [r|vs]].
  - destruct H as (E & -> & ->). rewrite HG in E. by split_and!.
  - destruct H as (-> & Hne & ->). rewrite <- HG. split_and!; [done|done|].
    intros v. by apply ValidateAdvance_refusals.
Qed.

Lemma Advance_spec_witness :
  let before := [CallAdvance PhaseElicit "w" "c" 1; CallAdvance PhasePropose "w" "c" 2;
                 CallVote AxisElegance VoteAccept; CallAdvance PhaseReview "w" "c" 3] in
  let since := [CallVote AxisCorrectness VoteAccept; CallVote AxisTestQuality VoteAccept] in
  (Advance (foldl do_call (NewEpochStateMachine "e" None) (before ++ since))
     PhasePlanReview "w" "c" 4).2 =
    Err [ConsensusRequired PhaseReview PhasePlanReview {[AxisCorrectness; AxisTestQuality]}] /\
  ~ granted PhaseReview PhasePlanReview before since.
Proof.
  pose (before := [CallAdvance PhaseElicit "w" "c" 1; CallAdvance PhasePropose "w" "c" 2;
                   CallVote AxisElegance VoteAccept; CallAdvance PhaseReview "w" "c" 3]).
  pose (since := [CallVote AxisCorrectness VoteAccept; CallVote AxisTestQuality VoteAccept]).
  assert (He : entered "e" before).
  { right. exists (take 3 before). do 5 eexists. split; [reflexivity|vm_compute; reflexivity]. }
  pose proof (Advance_spec "e" before since PhasePlanReview "w" "c" 4 He eq_refl eq_refl) as H.
  assert (E : (Advance (foldl do_call (NewEpochStateMachine "e" None) (before ++ since))
     PhasePlanReview "w" "c" 4).2 =
    Err [ConsensusRequired PhaseReview PhasePlanReview {[AxisCorrectness; AxisTestQuality]}])
    by (vm_compute; reflexivity).
  split; [exact E|]. rewrite foldl_app in E.
  destruct (Advance _ PhasePlanReview "w" "c" 4) as [sm' r]. simpl in E. subst r.
  exact (proj1 H).
Defined.

(** ** Progress *)

Lemma lookup_accepted ax : ax ∈ AllReviewAxes -> accepted_votes !! ax = Some VoteAccept.
Proof. intros H. unfold AllReviewAxes in H. elim_members H; by vm_compute. Qed.

Lemma step_accept sm axis :
  votes_wf sm -> axis ∈ AllReviewAxes ->
  exists sm', fsm_step sm sm' /\
    sm' = mk_sm (set_votes (sm_state sm) (Some (<[axis := VoteAccept]> (votes_of (sm_state sm)))))
                (sm_specs sm).
Proof.
  intros (votes & Hv & _) Ha%one_of_spec. eexists. split; [|reflexivity].
  eapply (step_vote _ axis VoteAccept _ None). unfold RecordVote, votes_of, ReviewAxis_IsValid.
  unfold AllReviewAxes in Ha. by rewrite Ha, Hv.
Qed.

Lemma blockers_resolved n sm :
  fsm_inv sm -> (es_BlockerCount (sm_state sm) <= Z.of_nat n)%Z ->
  exists sm', rtc fsm_step sm sm' /\ fsm_inv sm' /\
    (es_BlockerCount (sm_state sm') <= 0)%Z /\
    es_CurrentPhase (sm_state sm') = es_CurrentPhase (sm_state sm).
Proof.
  revert sm. induction n as [|n IH]; intros sm Hinv Hn;
    [exists sm; split_and!; [apply rtc_refl|done|lia|done]|].
  destruct (Z.ltb_spec 0 (es_BlockerCount (sm_state sm))) as [Hpos|];
    [|exists sm; split_and!; [apply rtc_refl|done|lia|done]].
  destruct (IH (RecordBlocker sm true)) as (sm' & Hr & Hi & Hb & Hc).
  - by apply RecordBlocker_inv.
  - pose proof (inv_blockers _ Hinv) as Hrange. unfold RecordBlocker.
    rewrite (proj2 (Z.ltb_lt _ _) Hpos). simpl. rewrite wrap64_id; [lia|].
    unfold in_int64, min_int64, max_int64 in *. lia.
  - exists sm'. split_and!; [by eapply rtc_l; [apply step_blocker|]|done|done|].
    rewrite Hc. unfold RecordBlocker. by destruct (_ <? _)%Z.
Qed.

Lemma all_accepted sm :
  fsm_inv sm ->
  exists sm', rtc fsm_step sm sm' /\ fsm_inv sm' /\ HasConsensus sm' = true /\
    es_BlockerCount (sm_state sm') = es_BlockerCount (sm_state sm) /\
    es_CurrentPhase (sm_state sm') = es_CurrentPhase (sm_state sm).
Proof.
  intros H0.
  destruct (step_accept sm AxisCorrectness (inv_votes _ H0)) as (sm1 & S1 & E1); [by apply one_of_spec|].
  pose proof (fsm_step_inv _ _ S1 H0) as H1.
  destruct (step_accept sm1 AxisTestQuality (inv_votes _ H1)) as (sm2 & S2 & E2); [by apply one_of_spec|].
  pose proof (fsm_step_inv _ _ S2 H1) as H2.
  destruct (step_accept sm2 AxisElegance (inv_votes _ H2)) as (sm3 & S3 & E3); [by apply one_of_spec|].
  exists sm3. split_and!.
  - eapply rtc_l, rtc_l, rtc_once; eassumption.
  - by eapply fsm_step_inv.
  - apply HasConsensus_spec. subst. simpl. intros ax Hax. unfold AllReviewAxes in Hax.
    elim_members Hax; unfold votes_of; simpl; by simplify_map_eq.
  - by subst.
  - by subst.
Qed.

Lemma forward_edge k a b :
  AllPhaseIds !! k = Some a -> AllPhaseIds !! S k = Some b -> edge a b.
Proof.
  intros Ha Hb. unfold edge.
  do 12 (destruct k as [|k]; [simplify_eq/=; eexists; split; [by vm_compute|by apply one_of_spec]|]).
  done.
Qed.

Lemma forward k a b sm :
  AllPhaseIds !! k = Some a -> AllPhaseIds !! S k = Some b ->
  fsm_inv sm -> es_CurrentPhase (sm_state sm) = a ->
  exists sm', rtc fsm_step sm sm' /\ fsm_inv sm' /\ es_CurrentPhase (sm_state sm') = b.
Proof.
  intros Ha Hb H0 Hc.
  destruct (blockers_resolved (Z.to_nat (es_BlockerCount (sm_state sm))) sm H0)
    as (sm1 & R1 & H1 & B1 & C1); [lia|].
  destruct (all_accepted sm1 H1) as (sm2 & R2 & H2 & A2 & B2 & C2).
  pose proof (Advance_eqn sm2 b EmptyString EmptyString 0) as E. cbv zeta in E.
  pose proof (step_advance sm2 b EmptyString EmptyString 0) as S3.
  assert (HV : ValidateAdvance sm2 b = []).
  { apply ValidateAdvance_nil. rewrite (inv_specs _ H2), C2, C1, Hc. split_and!; [|by eapply forward_edge|done|lia].
    intros ->. by eapply edge_not_complete, forward_edge. }
  exists (Advance sm2 b EmptyString EmptyString 0).1.
  destruct (Advance sm2 b _ _ _) as [sm3 [r|vs]]; [|by destruct E as (-> & ? & _)].
  split_and!; [|by eapply fsm_step_inv|by destruct E as (_ & _ & ->)].
  etrans; [exact R1|]. etrans; [exact R2|]. by apply rtc_once.
Qed.

Lemma path_end_known a l b : path a l b -> a ∈ AllPhaseIds -> b ∈ AllPhaseIds.
Proof.
  induction 1 as [|a b l c Hab _ IH]; [done|]. intros _. apply IH.
  apply (forall_edges (fun '(_, b) => one_of b AllPhaseIds)) in Hab; [|by vm_compute].
  by apply one_of_spec.
Qed.

(** C6: no reachable epoch is stuck. From every reachable machine some
    sequence of votes, blocker resolutions and advances leads to [complete],
    and until then at least one transition is available, whatever the votes
    and blockers are. *)
Theorem epoch_can_complete id sm :
  reachable id sm ->
  (exists sm', rtc fsm_step sm sm' /\ es_CurrentPhase (sm_state sm') = PhaseComplete) /\
  (es_CurrentPhase (sm_state sm) <> PhaseComplete -> AvailableTransitions sm <> []).
Proof.
  intros Hinv%reachable_fsm_inv.
  assert (Hk : es_CurrentPhase (sm_state sm) ∈ AllPhaseIds).
  { eapply path_end_known; [apply Hinv|by apply one_of_spec]. }
  split.
  - apply list_elem_of_lookup in Hk as [k Hk].
    assert (Hle : (k <= 12)%nat) by (apply lookup_lt_Some in Hk; change (length AllPhaseIds) with 13%nat in Hk; lia).
    remember (12 - k)%nat as n eqn:En.
    revert k sm Hinv Hk Hle En. induction n as [|n IH]; intros k sm Hinv Hk Hle En.
    + replace k with 12%nat in Hk by lia. injection Hk as Hk. exists sm. split; [apply rtc_refl|done].
    + destruct (lookup_lt_is_Some_2 AllPhaseIds (S k)) as [b Hb];
        [change (length AllPhaseIds) with 13%nat; lia|].
      destruct (forward k _ b sm Hk Hb Hinv eq_refl) as (sm1 & R1 & H1 & C1).
      destruct (IH (S k) sm1 H1) as (sm' & R & C); [congruence|lia|lia|].
      exists sm'. split; [|done]. by etrans.
  - intros Hne. unfold AvailableTransitions. rewrite (inv_specs _ Hinv).
    rewrite (proj2 (String.eqb_neq _ _) Hne).
    unfold AllPhaseIds in Hk. elim_members Hk; try (exfalso; congruence);
      rewrite Hk; clear Hk;
      destruct (hasAnyRevise sm), (HasConsensus sm), (0 <? _)%Z; vm_compute; discriminate.
Qed.

(** ** A concrete epoch *)

Definition accept_all : list fsm_call := (fun ax => CallVote ax VoteAccept) <$> AllReviewAxes.

Definition advance_to (to : PhaseId) : fsm_call := CallAdvance to "w" "c" 7.

(** One revision of the plan, then straight through. *)
Definition whole_epoch : list fsm_call :=
  ([advance_to PhaseElicit; advance_to PhasePropose; advance_to PhaseReview;
    CallVote AxisElegance VoteRevise; advance_to PhasePlanReview; advance_to PhasePropose;
    advance_to PhaseReview] ++ accept_all ++
   [advance_to PhasePlanReview; advance_to PhaseRatify; advance_to PhaseHandoff;
    advance_to PhaseImplPlan; advance_to PhaseWorkerSlices; advance_to PhaseCodeReview;
    CallBlocker false; CallBlocker true] ++ accept_all ++
   [advance_to PhaseImplUAT; advance_to PhaseLanding; advance_to PhaseComplete])%list.

Lemma complete_visits_pipeline_witness :
  let sm := foldl do_call (NewEpochStateMachine "e" None) whole_epoch in
  es_CurrentPhase (sm_state sm) = PhaseComplete /\
  DefaultPipeline `sublist_of` es_CompletedPhases (sm_state sm).
Proof.
  assert (H : es_CurrentPhase (sm_state (foldl do_call (NewEpochStateMachine "e" None) whole_epoch))
              = PhaseComplete) by (vm_compute; reflexivity).
  split; [exact H|].
  exact (complete_visits_pipeline "e" _ (do_calls_reachable "e" whole_epoch) H).
Defined.

Lemma epoch_can_complete_witness :
  let sm := foldl do_call (NewEpochStateMachine "e" None) (take 3 whole_epoch) in
  AvailableTransitions sm <> [].
Proof.
  apply (proj2 (epoch_can_complete "e" _ (do_calls_reachable "e" (take 3 whole_epoch)))).
  vm_compute. discriminate.
Defined.
