(* ===== verification/Dedup.v ===== *)
(** Dedup: the deterministic identifiers of durable rows and workflows
    (pkg/protocol/dedup.go, [ReviewWorkflowID] of pkg/protocol/constants.go).

    The name-based UUID is google/uuid's [NewSHA1] over a fixed namespace: a
    parameter, so what is proved here is about the name that is hashed. *)

From Stdlib Require Import ZArith Lia Ascii String.
From stdpp Require Import base tactics list strings gmap pretty.
From S2P Require Import Prelude GoStrings Vocabulary.
Local Open Scope string_scope.

Definition dedupNamespace : string := "8b1d6e2a-3c47-5f90-a1b2-c3d4e5f60718".

Definition dedup_name (epochID phase kind stepSeq : string) : string :=
  epochID ++ "/" ++ phase ++ "/" ++ kind ++ "/" ++ stepSeq.

Definition DedupKey (NewSHA1 : string -> string -> string)
    (epochID phase kind stepSeq : string) : string :=
  NewSHA1 dedupNamespace (dedup_name epochID phase kind stepSeq).

Definition ReviewWorkflowID (epochId phaseId : string) (round : Z) : string :=
  epochId ++ "-review-" ++ phaseId ++ "-r" ++ format_int round.

(** * Theorems *)

Definition slash : ascii := "/"%char.
Definition slash_free (s : string) : Prop := slash ∉ list_ascii_of_string s.
#[export] Instance slash_free_dec s : Decision (slash_free s).
Proof. unfold slash_free. apply _. Defined.

(** The emissions of distinct steps hash distinct names. Whenever the
    phase, the kind and the step sequence contain no slash (protocol phases,
    event types and step numbers contain none), the name determines all four
    fields, the epoch included, whatever the epoch identifier is. *)
Theorem dedup_name_injective e1 p1 k1 s1 e2 p2 k2 s2 :
  slash_free p1 -> slash_free k1 -> slash_free s1 ->
  slash_free p2 -> slash_free k2 -> slash_free s2 ->
  dedup_name e1 p1 k1 s1 = dedup_name e2 p2 k2 s2 ->
  e1 = e2 /\ p1 = p2 /\ k1 = k2 /\ s1 = s2.
Proof.
  unfold slash_free, dedup_name. intros Hp1 Hk1 Hs1 Hp2 Hk2 Hs2 H.
  apply (f_equal list_ascii_of_string) in H. rewrite !bytes_app in H. simpl in H.
  change "/"%char with slash in H.
  assert (E : forall (a b c d : list ascii),
    (a ++ slash :: b ++ slash :: c ++ slash :: d
     = ((a ++ slash :: b) ++ slash :: c) ++ slash :: d)%list)
    by (intros; by rewrite <- !app_assoc).
  rewrite !E in H.
  apply app_last_sep in H as [H Hs]; [|done..].
  apply app_last_sep in H as [H Hk]; [|done..].
  apply app_last_sep in H as [He Hp]; [|done..].
  split_and!; by apply bytes_inj.
Qed.

Lemma dedup_name_injective_witness :
  dedup_name "epoch/1" "review" "VoteRecorded" "4"
  <> dedup_name "epoch" "review" "VoteRecorded" "4".
Proof.
  intros H.
  assert (F : forall s, bool_decide (slash_free s) = true -> slash_free s)
    by (intros s; apply bool_decide_eq_true).
  pose proof (proj1 (dedup_name_injective _ _ _ _ _ _ _ _
    (F "review" eq_refl) (F "VoteRecorded" eq_refl) (F "4" eq_refl)
    (F "review" eq_refl) (F "VoteRecorded" eq_refl) (F "4" eq_refl) H)) as E.
  discriminate E.
Defined.

(** The separator is not escaped, so two different epochs can share a key
    when a slash moves between the epoch and the phase: whatever the hash is,
    the keys of these two emissions are equal. *)
Lemma dedup_key_alias NewSHA1 e p k s :
  exists e' p', e' <> e /\
    DedupKey NewSHA1 e' p' k s = DedupKey NewSHA1 e (p ++ "/" ++ p) k s.
Proof.
  exists (e ++ "/" ++ p), p. split.
  - intros H. apply (f_equal String.length) in H. rewrite !string_length_app in H.
    simpl in H. lia.
  - unfold DedupKey, dedup_name. f_equal. apply bytes_inj. rewrite !bytes_app. simpl.
    by rewrite <- !app_assoc.
Qed.

(** ** Review workflow identifiers *)

Definition review_suffix (p : PhaseId) : list ascii :=
  list_ascii_of_string ("-review-" ++ p).

(** No phase's suffix ends with another's: the phase and the epoch can be read
    off the identifier. *)
Definition suffix_of (a b : list ascii) : bool :=
  bool_decide (drop (length b - length a) b = a).

Lemma app_suffix (a b c d : list ascii) :
  (a ++ b = c ++ d)%list -> suffix_of b d = true \/ suffix_of d b = true.
Proof.
  intros H. unfold suffix_of. rewrite !bool_decide_eq_true.
  pose proof (f_equal length H) as Hl. rewrite !length_app in Hl.
  destruct (decide (length b <= length d)%nat) as [Hle|Hle]; [left|right].
  - apply (f_equal (drop (length a))) in H. rewrite drop_app_length in H.
    rewrite drop_app_ge in H by lia. etrans; [|symmetry; exact H]. f_equal. lia.
  - apply (f_equal (drop (length c))) in H. rewrite drop_app_length in H.
    rewrite drop_app_ge in H by lia. etrans; [|exact H]. f_equal. lia.
Qed.

Lemma review_suffix_free p q :
  p ∈ AllPhaseIds -> q ∈ AllPhaseIds ->
  suffix_of (review_suffix p) (review_suffix q) = true -> p = q.
Proof.
  assert (H : forallb (fun p => forallb (fun q =>
    negb (suffix_of (review_suffix p) (review_suffix q)) || String.eqb p q)
    AllPhaseIds) AllPhaseIds = true) by (by vm_compute).
  intros Hp%list_elem_of_In Hq%list_elem_of_In Hs.
  rewrite forallb_forall in H. specialize (H p Hp). rewrite forallb_forall in H.
  specialize (H q Hq). rewrite Hs in H. by apply String.eqb_eq.
Qed.

Lemma pretty_no_dash n : "-"%char ∉ list_ascii_of_string (pretty (n : N)).
Proof.
  intros H. pose proof (pretty_N_decimal n) as Hd. rewrite Forall_forall in Hd.
  specialize (Hd _ H). unfold is_decimal in Hd. by destruct Hd.
Qed.

(** One review workflow per epoch, phase and round. The workflow
    identifiers that the enqueuing side and the vote senders derive are equal
    only for the same epoch, phase and round. *)
Lemma ReviewWorkflowID_injective e1 p1 r1 e2 p2 r2 :
  p1 ∈ AllPhaseIds -> p2 ∈ AllPhaseIds -> (0 <= r1)%Z -> (0 <= r2)%Z ->
  ReviewWorkflowID e1 p1 r1 = ReviewWorkflowID e2 p2 r2 ->
  e1 = e2 /\ p1 = p2 /\ r1 = r2.
Proof.
  intros Hp1 Hp2 Hr1 Hr2 H. unfold ReviewWorkflowID, format_int in H.
  rewrite !(proj2 (Z.ltb_ge _ _)) in H by done.
  apply (f_equal list_ascii_of_string) in H.
  assert (E : forall e p n, list_ascii_of_string (e ++ "-review-" ++ p ++ "-r" ++ pretty n)
    = ((list_ascii_of_string e ++ review_suffix p) ++ "-"%char :: "r"%char ::
       list_ascii_of_string (pretty (n : N)))%list).
  { intros e p n. unfold review_suffix. rewrite !bytes_app. simpl. by rewrite <- app_assoc. }
  rewrite !E in H. clear E.
  apply app_last_sep in H as [H Hn];
    [|rewrite elem_of_cons; intros [?|?%pretty_no_dash]; done..].
  injection Hn as Hn. apply bytes_inj, (inj pretty) in Hn.
  assert (Hp : p1 = p2).
  { destruct (app_suffix _ _ _ _ H) as [Hs|Hs]; apply review_suffix_free in Hs; done. }
  subst. apply app_inv_tail in H. apply bytes_inj in H. split_and!; [done..|lia].
Qed.

Lemma ReviewWorkflowID_injective_witness :
  ReviewWorkflowID "e-review-plan" PhaseReview 2 <> ReviewWorkflowID "e-review-plan" PhaseReview 12.
Proof.
  intros H.
  assert (Hp : PhaseReview ∈ AllPhaseIds) by (apply one_of_spec; vm_compute; reflexivity).
  assert (H2 : (0 <= 2)%Z) by lia. assert (H12 : (0 <= 12)%Z) by lia.
  pose proof (proj2 (proj2 (ReviewWorkflowID_injective _ _ _ _ _ _ Hp Hp H2 H12 H))) as E.
  discriminate E.
Defined.
