(* ===== verification/Timeouts.v ===== *)
(** Timeouts: the ordered timeout hierarchy
    (internal/timeouts/profile.go, internal/timeouts/override.go).

    A [time.Duration] is an int64 of nanoseconds. The constructor compares
    durations and never computes with them, so no value of the model can wrap. *)

From Stdlib Require Import ZArith Lia.
From stdpp Require Import base tactics list.
From S2P Require Import Prelude.
Local Open Scope Z_scope.

Abbreviation Duration := Z (only parsing).
Abbreviation Kind := Z (only parsing).
Definition Millisecond : Duration := 1000000.
Definition Second : Duration := 1000000000.

(** The constants of [Kind], a uint8 enumeration. *)
Definition Production : Kind := 1.
Definition TestKind : Kind := 2.
Definition DeadlineTest : Kind := 3.

Record Profile := mk_Profile {
  kind : Kind;
  sqliteBusy : Duration;
  ingress : Duration;
  startSlice : Duration;
  hookInvocation : Duration;
  workflowResult : Duration;
}.

Inductive TimeoutError :=
  | KindUnknown (k : Kind)
  | NotAllPositive
  | SQLiteInverted
  | HookInverted
  | WorkflowBelowHook
  | WorkflowBelowWindows
  | NegativeOverride.

Definition New (k : Kind) (sqlite ing start hook wf : Duration)
    : result TimeoutError Profile :=
  if negb (k =? Production) && negb (k =? TestKind) && negb (k =? DeadlineTest)
  then Err (KindUnknown k)
  else if (sqlite <=? 0) || (ing <=? 0) || (start <=? 0) || (hook <=? 0) || (wf <=? 0)
  then Err NotAllPositive
  else if (ing <=? sqlite) || (start <=? sqlite)
  then Err SQLiteInverted
  else if (hook <=? ing) || (hook <=? start)
  then Err HookInverted
  else if wf <=? hook
  then Err WorkflowBelowHook
  else if (wf <=? ing) || (wf <=? start)
  then Err WorkflowBelowWindows
  else Ok (mk_Profile k sqlite ing start hook wf).

(** [None] is the panic. *)
Definition must (r : result TimeoutError Profile) : option Profile :=
  match r with Ok p => Some p | Err _ => None end.

Definition ProductionProfile : option Profile :=
  must (New Production (1500 * Millisecond) (2 * Second) (2 * Second) (5 * Second)
            (30 * Second)).
Definition TestProfile : option Profile :=
  must (New TestKind (500 * Millisecond) (2 * Second) (3 * Second) (6 * Second)
            (30 * Second)).
Definition DeadlineTestProfile : option Profile :=
  must (New DeadlineTest (25 * Millisecond) (250 * Millisecond) (500 * Millisecond)
            Second (2 * Second)).
Definition KnownProfiles : option (list Profile) :=
  p ← ProductionProfile; t ← TestProfile; d ← DeadlineTestProfile; Some [p; t; d].

Definition Profile_IsZero (p : Profile) : bool := kind p =? 0.

Definition Validate (p : Profile) : result TimeoutError unit :=
  match New (kind p) (sqliteBusy p) (ingress p) (startSlice p) (hookInvocation p)
            (workflowResult p) with
  | Ok _ => Ok tt
  | Err e => Err e
  end.

Record Override := mk_Override {
  o_HookInvocation : Duration;
  o_Ingress : Duration;
  o_StartSlice : Duration;
}.

Definition Override_IsZero (o : Override) : bool :=
  (o_HookInvocation o =? 0) && (o_Ingress o =? 0) && (o_StartSlice o =? 0).

Definition WithOverride (base : Profile) (o : Override) : result TimeoutError Profile :=
  if Override_IsZero o then Ok base
  else if (o_HookInvocation o <? 0) || (o_Ingress o <? 0) || (o_StartSlice o <? 0)
  then Err NegativeOverride
  else
    let ing := if 0 <? o_Ingress o then o_Ingress o else ingress base in
    let start := if 0 <? o_StartSlice o then o_StartSlice o else startSlice base in
    let hook := if 0 <? o_HookInvocation o then o_HookInvocation o
                else hookInvocation base in
    New (kind base) (sqliteBusy base) ing start hook (workflowResult base).

(** * Theorems *)

(** The hierarchy: a lock wait ends before either caller window, both windows
    before the hook invocation, and that before the workflow wait. *)
Record ordered (p : Profile) : Prop := {
  ord_kind : kind p = Production \/ kind p = TestKind \/ kind p = DeadlineTest;
  ord_positive : 0 < sqliteBusy p;
  ord_sqlite_ingress : sqliteBusy p < ingress p;
  ord_sqlite_start : sqliteBusy p < startSlice p;
  ord_ingress_hook : ingress p < hookInvocation p;
  ord_start_hook : startSlice p < hookInvocation p;
  ord_hook_workflow : hookInvocation p < workflowResult p;
}.

Ltac guards :=
  repeat match goal with
  | H : context [if ?b then _ else _] |- _ => destruct b eqn:?
  | |- context [if ?b then _ else _] => destruct b eqn:?
  end.
Ltac guards_lia := 
  unfold Production, TestKind, DeadlineTest in *; simpl in *; try discriminate; try lia.

Lemma New_ok k sqlite ing start hook wf p :
  New k sqlite ing start hook wf = Ok p <->
  p = mk_Profile k sqlite ing start hook wf /\ ordered p.
Proof.
  unfold New. split.
  - guards; intros [= <-]. split; [done|]. split; guards_lia.
  - intros [-> []]. guards; guards_lia; done.
Qed.

(** The constructor accepts exactly the ordered hierarchies, returns the
    durations it was given, and refuses everything else; its last guard, on the
    caller windows, is implied by the ones before it. *)
Lemma New_spec k sqlite ing start hook wf :
  let p := mk_Profile k sqlite ing start hook wf in
  (ordered p /\ New k sqlite ing start hook wf = Ok p) \/
  (~ ordered p /\ exists e, New k sqlite ing start hook wf = Err e /\
                            e <> WorkflowBelowWindows /\ e <> NegativeOverride).
Proof.
  intros p. destruct (New k sqlite ing start hook wf) as [q|e] eqn:E.
  - left. apply New_ok in E as [-> H]. done.
  - right. split.
    + intros H. assert (E' : New k sqlite ing start hook wf = Ok p) by by apply New_ok.
      congruence.
    + exists e. split; [done|]. unfold New in E. guards; try discriminate E; injection E as <-; try done.
      exfalso. lia.
Qed.

Lemma ordered_Validate p : Validate p = Ok tt <-> ordered p.
Proof.
  unfold Validate. destruct (New _ _ _ _ _ _) as [q|e] eqn:E.
  - apply New_ok in E as [-> H]. by destruct p.
  - split; [done|]. intros H. destruct p. simpl in E.
    by rewrite (proj2 (New_ok _ _ _ _ _ _ _) (conj eq_refl H)) in E.
Qed.

(** An operator's override never inverts the hierarchy. From a valid
    profile, whatever the override, either it is refused or the resulting
    profile is valid, keeps the kind, the lock wait and the workflow wait, and
    takes each requested duration exactly; the zero override changes nothing. *)
Lemma WithOverride_ordered base o p :
  Validate base = Ok tt -> WithOverride base o = Ok p ->
  Validate p = Ok tt /\
  kind p = kind base /\ sqliteBusy p = sqliteBusy base /\
  workflowResult p = workflowResult base /\
  ingress p = (if o_Ingress o =? 0 then ingress base else o_Ingress o) /\
  startSlice p = (if o_StartSlice o =? 0 then startSlice base else o_StartSlice o) /\
  hookInvocation p =
    (if o_HookInvocation o =? 0 then hookInvocation base else o_HookInvocation o).
Proof.
  rewrite !ordered_Validate. unfold WithOverride, Override_IsZero. intros Hb H.
  destruct (_ && _ && _) eqn:Ez.
  - injection H as <-. guards; split_and!; try done; lia.
  - destruct (_ || _ || _) eqn:En; [done|].
    apply New_ok in H as [-> H]. split; [exact H|]. clear H. simpl.
    split_and!; try done; guards; lia.
Qed.

Lemma WithOverride_ordered_witness :
  exists base p, ProductionProfile = Some base /\
    WithOverride base (mk_Override (9 * Second) 0 (3 * Second)) = Ok p /\
    Validate p = Ok tt.
Proof.
  eexists _, _. split; [vm_compute; reflexivity|].
  split; [vm_compute; reflexivity|].
  refine (proj1 (WithOverride_ordered
    (mk_Profile Production (1500 * Millisecond) (2 * Second) (2 * Second) (5 * Second)
       (30 * Second)) (mk_Override (9 * Second) 0 (3 * Second)) _ _ _));
  vm_compute; reflexivity.
Defined.

(** The three profiles the program ships are valid, so [must] never
    panics. *)
Lemma KnownProfiles_valid :
  exists ps, KnownProfiles = Some ps /\ length ps = 3%nat /\
    forall p, p ∈ ps -> Validate p = Ok tt /\ Profile_IsZero p = false.
Proof.
  eexists. split; [vm_compute; reflexivity|]. split; [done|].
  intros p H. elim_members H; by vm_compute.
Qed.
