(* ===== verification/LaneBudget.v ===== *)
(** LaneBudget: the bounds of the lifecycle write lane
    (internal/writelane/budget.go).

    Counts are Go ints, sizes and durations int64; sums and products wrap.
    [MaxBatchRecords] is provenance.MaxBatchRecords, a parameter. *)

From Stdlib Require Import ZArith Lia.
From stdpp Require Import base tactics list.
From S2P Require Import Prelude Timeouts.
Local Open Scope Z_scope.

Definition maxDerivedHoldTarget : Duration := Second.
Definition derivedQueueRecords : Z := 1024.
Definition productionFlushInterval : Duration := 50 * Millisecond.
Definition ingressPayloadFloor : Z := Z.shiftl 1 20.
Definition derivedBatchBytes : Z := Z.shiftl 64 20.

Record WriteLaneBudget := mk_Budget {
  QueueRecords : Z;
  QueueBytes : Z;
  BatchRecords : Z;
  BatchBytes : Z;
  FlushInterval : Duration;
  HoldTarget : Duration;
}.

Definition ExceedsWriteBatch (b : WriteLaneBudget) (pendingRecords pendingBytes nextBytes : Z)
    : bool :=
  if BatchRecords b <=? pendingRecords then true
  else (0 <? pendingRecords) && (BatchBytes b <? wrap64 (pendingBytes + nextBytes)).

Inductive BudgetError :=
  | QueueRecordsNotPositive
  | QueueBytesNotPositive
  | BatchRecordsNotPositive
  | BatchRecordsAboveQueue
  | BatchRecordsAboveCap
  | BatchBytesNotPositive
  | BatchBytesAboveQueue
  | BatchBytesBelowFloor
  | FlushNotPositive
  | HoldNotPositive
  | FlushInverted
  | InvalidProfile (e : TimeoutError).

Section budget.
Context (MaxBatchRecords : Z).

Definition Budget_Validate (b : WriteLaneBudget) : result BudgetError unit :=
  if QueueRecords b <=? 0 then Err QueueRecordsNotPositive
  else if QueueBytes b <=? 0 then Err QueueBytesNotPositive
  else if BatchRecords b <=? 0 then Err BatchRecordsNotPositive
  else if QueueRecords b <? BatchRecords b then Err BatchRecordsAboveQueue
  else if MaxBatchRecords <? BatchRecords b then Err BatchRecordsAboveCap
  else if BatchBytes b <=? 0 then Err BatchBytesNotPositive
  else if QueueBytes b <? BatchBytes b then Err BatchBytesAboveQueue
  else if BatchBytes b <? ingressPayloadFloor then Err BatchBytesBelowFloor
  else if FlushInterval b <=? 0 then Err FlushNotPositive
  else if HoldTarget b <=? 0 then Err HoldNotPositive
  else if HoldTarget b <=? FlushInterval b then Err FlushInverted
  else Ok tt.

(** [busy * 4 / 5] wraps in the product and truncates in the quotient. *)
Definition derived_hold (busy : Duration) : Duration :=
  let hold := Z.quot (wrap64 (busy * 4)) 5 in
  if maxDerivedHoldTarget <? hold then maxDerivedHoldTarget else hold.

Definition derived_flush (k : Kind) (hold : Duration) : Duration :=
  if k =? Production then productionFlushInterval
  else
    let flush := 25 * Millisecond in
    let quarter := Z.quot hold 4 in
    let flush := if quarter <? flush then quarter else flush in
    if flush <? Millisecond then Millisecond else flush.

Definition BudgetFromProfile (p : Profile) : result BudgetError WriteLaneBudget :=
  match Validate p with
  | Err e => Err (InvalidProfile e)
  | Ok _ =>
      let hold := derived_hold (sqliteBusy p) in
      let budget :=
        {| QueueRecords := derivedQueueRecords;
           QueueBytes := wrap64 (derivedBatchBytes * 4);
           BatchRecords := MaxBatchRecords;
           BatchBytes := derivedBatchBytes;
           FlushInterval := derived_flush (kind p) hold;
           HoldTarget := hold |} in
      match Budget_Validate budget with
      | Err e => Err e
      | Ok _ => Ok budget
      end
  end.
End budget.

(** * Theorems *)

Record budget_ok (cap : Z) (b : WriteLaneBudget) : Prop := {
  bo_batch : 0 < BatchRecords b <= QueueRecords b;
  bo_cap : BatchRecords b <= cap;
  bo_bytes : ingressPayloadFloor <= BatchBytes b <= QueueBytes b;
  bo_flush : 0 < FlushInterval b < HoldTarget b;
}.

Lemma Budget_Validate_ok cap b : Budget_Validate cap b = Ok tt <-> budget_ok cap b.
Proof.
  unfold Budget_Validate. change ingressPayloadFloor with 1048576. split.
  - intros H. guards; try discriminate H.
    split; change ingressPayloadFloor with 1048576; lia.
  - intros [? ? H ?]. change ingressPayloadFloor with 1048576 in H. guards; lia || done.
Qed.

(** C14: the derived budget is usable exactly when the profile leaves room for
    it, and then a lane turn holds the writer for less than any other writer
    waits: for a valid profile whose lock wait is below 2^61 ns (73 years) and
    a batch cap between 1 and the staging depth, the derivation succeeds iff
    the idle fallback is below the hold, the hold is then strictly below the
    profile's lock wait and at most one second, and the batch is the cap. *)
Theorem BudgetFromProfile_spec cap p :
  Validate p = Ok tt -> 1 <= cap <= derivedQueueRecords -> sqliteBusy p < 2 ^ 61 ->
  let hold := Z.min maxDerivedHoldTarget (sqliteBusy p * 4 / 5) in
  ((exists b, BudgetFromProfile cap p = Ok b) <-> derived_flush (kind p) hold < hold) /\
  (forall b, BudgetFromProfile cap p = Ok b ->
     budget_ok cap b /\ HoldTarget b = hold /\ HoldTarget b < sqliteBusy p /\
     HoldTarget b <= Second /\ BatchRecords b = cap).
Proof.
  intros Hv Hcap Hbusy hold.
  assert (Hpos : 0 < sqliteBusy p) by (apply ordered_Validate in Hv; apply Hv).
  assert (Hh : derived_hold (sqliteBusy p) = hold).
  { unfold derived_hold, hold. rewrite wrap64_id by (unfold in_int64, min_int64, max_int64; lia).
    rewrite Z.quot_div_nonneg by lia. guards; lia. }
  assert (Hlt : hold < sqliteBusy p).
  { unfold hold. pose proof (Z.div_lt_upper_bound (sqliteBusy p * 4) 5 (sqliteBusy p)). lia. }
  assert (Hfp : 0 < derived_flush (kind p) hold).
  { unfold derived_flush. assert (0 < Millisecond) by done. guards; unfold productionFlushInterval; lia. }
  unfold BudgetFromProfile. rewrite Hv, Hh. cbv zeta.
  set (budget := mk_Budget _ _ _ _ _ _).
  assert (Hok : budget_ok cap budget <-> derived_flush (kind p) hold < hold).
  { split; [intros [? ? ? H]; apply H|]. intros H. split; simpl; try lia.
    change (wrap64 (derivedBatchBytes * 4)) with 268435456.
    change derivedBatchBytes with 67108864. change ingressPayloadFloor with 1048576. lia. }
  rewrite <- Hok, <- Budget_Validate_ok.
  destruct (Budget_Validate cap budget) as [[]|e] eqn:E.
  - split; [split; [done|eauto]|]. intros b [= <-]. rewrite <- Budget_Validate_ok.
    split_and!; simpl; try done; unfold hold, maxDerivedHoldTarget; lia.
  - split; [split; [by intros [b ?]|done]|done].
Qed.

Lemma BudgetFromProfile_spec_witness :
  exists p b, ProductionProfile = Some p /\ BudgetFromProfile 256 p = Ok b /\
    HoldTarget b < sqliteBusy p.
Proof.
  eexists _, _. split; [vm_compute; reflexivity|]. split; [vm_compute; reflexivity|].
  refine (proj1 (proj2 (proj2 (proj2 (BudgetFromProfile_spec 256
    (mk_Profile Production (1500 * Millisecond) (2 * Second) (2 * Second) (5 * Second) (30 * Second))
    _ _ _) _ _)))).
  - vm_compute. reflexivity.
  - unfold derivedQueueRecords. lia.
  - vm_compute. reflexivity.
  - vm_compute. reflexivity.
Defined.
