(* ===== verification/WriteLane.v ===== *)
(** WriteLane: the single serialized writer of lifecycle records
    (internal/writelane/lane.go).

    The store, and the work of a record, are an interface, [LaneEnv]: a world
    that [Prepare], the batch applier and [Settle] transform. The lane is a
    step relation: submitters and [Close] take the mutex at any time, and the
    commit goroutine is a program counter over the points at which [run] gives
    the mutex up. A channel that is closed and replaced is the number of
    replacements so far; a captured channel is ready when that number has
    grown. *)

From Stdlib Require Import ZArith Lia.
From stdpp Require Import base tactics list relations.
From S2P Require Import Prelude Timeouts LaneBudget.

(** ** The interface to the store *)
Record BatchRecordResult (Outcome error : Type) := mk_brr {
  br_Outcome : Outcome;
  br_Err : option error;
}.
Arguments mk_brr {Outcome error}.
Arguments br_Outcome {Outcome error}.
Arguments br_Err {Outcome error}.

Class LaneEnv := {
  World : Type;
  OperationInput : Type;
  RecordWork : Type;
  error : Type;
  Outcome : Type;
  Outcome_eq_dec :: EqDecision Outcome;
  BatchRecordCommitted : Outcome;
  BatchRecordShortCircuited : Outcome;
  BatchRecordNotRecorded : Outcome;
  not_recorded_not_durable :
    BatchRecordNotRecorded <> BatchRecordCommitted /\
    BatchRecordNotRecorded <> BatchRecordShortCircuited;
  Prepare : RecordWork -> World -> World * result error OperationInput;
  Apply : list OperationInput -> World ->
          World * (list (BatchRecordResult Outcome error) * option error);
  Settle : RecordWork -> BatchRecordResult Outcome error -> World -> World * option error;
  no_error_reported : Outcome -> error;
}.

Section lane.
Context {env : LaneEnv}.
Abbreviation BRR := (BatchRecordResult Outcome error) (only parsing).

Record item := mk_item { it_bytes : Z; it_record : RecordWork }.

(** ** Outcomes and reports *)
Definition OutcomeIsDurable (o : Outcome) : bool :=
  bool_decide (o = BatchRecordCommitted) || bool_decide (o = BatchRecordShortCircuited).

Definition batchOutcome (records : list BRR) (applyErr : option error) (index : nat) : BRR :=
  match records !! index with
  | Some outcome =>
      match br_Err outcome with
      | None => if negb (OutcomeIsDurable (br_Outcome outcome))
                then mk_brr (br_Outcome outcome) applyErr else outcome
      | Some _ => outcome
      end
  | None => mk_brr BatchRecordNotRecorded applyErr
  end.

(** [None] is the nil error. *)
Definition Report (outcome : BRR) : option error :=
  if OutcomeIsDurable (br_Outcome outcome) then None
  else match br_Err outcome with
       | Some e => Some e
       | None => Some (no_error_reported (br_Outcome outcome))
       end.

(** ** commitRecords: the three index-based loops *)
Fixpoint prepare_loop (i : nat) (batch : list item) (w : World) (reports : list (option error))
    (prepared : list (nat * item)) (inputs : list OperationInput)
    : World * (list (option error) * list (nat * item) * list OperationInput) :=
  match batch with
  | [] => (w, (reports, prepared, inputs))
  | it :: rest =>
      match Prepare (it_record it) w with
      | (w', Err e) => prepare_loop (S i) rest w' (<[i := Some e]> reports) prepared inputs
      | (w', Ok input) => prepare_loop (S i) rest w' reports (prepared ++ [(i, it)])
                                       (inputs ++ [input])
      end
  end.

Fixpoint settle_loop (k : nat) (outcome : nat -> BRR) (prepared : list (nat * item)) (w : World)
    (reports : list (option error)) : World * list (option error) :=
  match prepared with
  | [] => (w, reports)
  | (index, it) :: rest =>
      let '(w', r) := Settle (it_record it) (outcome k) w in
      settle_loop (S k) outcome rest w' (<[index := r]> reports)
  end.

Definition commitRecords (batch : list item) (w : World) : World * list (option error) :=
  let '(w1, (reports, prepared, inputs)) :=
    prepare_loop 0 batch w (replicate (length batch) None) [] [] in
  match inputs with
  | [] => (w1, reports)
  | _ => let '(w2, (records, applyErr)) := Apply inputs w1 in
         settle_loop 0 (batchOutcome records applyErr) prepared w2 reports
  end.

(** ** The lane's state *)
Inductive runPC :=
  | AtTake
  | AtAbsorb (batch : list item) (bytes : Z) (arrival : nat)
  | AtWait (batch : list item) (bytes : Z) (arrival : nat)
  | AtFlush (batch : list item)
  | AtDone.

(** [l_admitted] and [l_acked] are history: the records staged so far, and the
    results sent so far. *)
Record Lane := mk_Lane {
  l_budget : WriteLaneBudget;
  l_pending : list item;
  l_pendingBytes : Z;
  l_closed : bool;
  l_arrived : nat;
  l_pc : runPC;
  l_world : World;
  l_records : Z;
  l_batches : Z;
  l_maxBatchRecords : Z;
  l_maxHold : Z;
  l_holdExceeded : Z;
  l_admitted : list item;
  l_acked : list (item * option error);
}.

Definition New_lane (MaxBatchRecords : Z) (budget : WriteLaneBudget) (apply_supplied : bool)
    (w : World) : result (option BudgetError) Lane :=
  match Budget_Validate MaxBatchRecords budget with
  | Err e => Err (Some e)
  | Ok _ => if negb apply_supplied then Err None
            else Ok (mk_Lane budget [] 0 false 0 AtTake w 0 0 0 0 0 [] [])
  end.

(** ** Submit *)
Inductive SubmitRefusal := NilLane | NilRecord | NegativeBytes | LaneClosed | ContextEnded.

Definition roomForLocked (l : Lane) (bytes : Z) : bool :=
  if (QueueRecords (l_budget l) <=? Z.of_nat (length (l_pending l)))%Z then false
  else if (0 <? length (l_pending l))%nat
          && (QueueBytes (l_budget l) <? wrap64 (l_pendingBytes l + bytes))%Z then false
  else true.

Definition stage (l : Lane) (it : item) : Lane :=
  mk_Lane (l_budget l) (l_pending l ++ [it]) (wrap64 (l_pendingBytes l + it_bytes it))
    (l_closed l) (S (l_arrived l)) (l_pc l) (l_world l) (l_records l) (l_batches l)
    (l_maxBatchRecords l) (l_maxHold l) (l_holdExceeded l) (l_admitted l ++ [it]) (l_acked l).

(** One turn of the admission loop under the mutex: refused with nothing
    staged, [Ok None] to wait on the condition, or staged, after which the
    caller blocks on its result channel. *)
Definition Submit (l : option Lane) (ctx_ended : bool) (bytes : Z) (record : option RecordWork)
    : result SubmitRefusal (option Lane) :=
  match l, record with
  | None, _ => Err NilLane
  | Some _, None => Err NilRecord
  | Some l, Some r =>
      if (bytes <? 0)%Z then Err NegativeBytes
      else if l_closed l then Err LaneClosed
      else if roomForLocked l bytes then Ok (Some (stage l (mk_item bytes r)))
      else if ctx_ended then Err ContextEnded
      else Ok None
  end.

(** The state change of [Close]; the rest of it waits for [AtDone]. *)
Definition Close (l : Lane) : Lane :=
  mk_Lane (l_budget l) (l_pending l) (l_pendingBytes l) true (S (l_arrived l)) (l_pc l)
    (l_world l) (l_records l) (l_batches l) (l_maxBatchRecords l) (l_maxHold l)
    (l_holdExceeded l) (l_admitted l) (l_acked l).

(** ** The commit goroutine *)
Definition set_queue (l : Lane) pending pendingBytes pc : Lane :=
  mk_Lane (l_budget l) pending pendingBytes (l_closed l) (l_arrived l) pc (l_world l)
    (l_records l) (l_batches l) (l_maxBatchRecords l) (l_maxHold l) (l_holdExceeded l)
    (l_admitted l) (l_acked l).

(** [None] waits on the condition. *)
Definition takeFirst (l : Lane) : option Lane :=
  match l_pending l with
  | [] => if l_closed l then Some (set_queue l [] (l_pendingBytes l) AtDone) else None
  | one :: rest =>
      let bytes := wrap64 (0 + it_bytes one) in
      Some (set_queue l rest (wrap64 (l_pendingBytes l - it_bytes one))
              (match rest with
               | [] => AtWait [one] bytes (l_arrived l)
               | _ => AtAbsorb [one] bytes (l_arrived l)
               end))
  end.

Fixpoint absorb_loop (b : WriteLaneBudget) (pending : list item) (pendingBytes : Z)
    (batch : list item) (bytes : Z) : list item * Z * list item * Z :=
  match pending with
  | [] => ([], pendingBytes, batch, bytes)
  | next :: rest =>
      if ExceedsWriteBatch b (Z.of_nat (length batch)) bytes (it_bytes next)
      then (pending, pendingBytes, batch, bytes)
      else absorb_loop b rest (wrap64 (pendingBytes - it_bytes next)) (batch ++ [next])
                       (wrap64 (bytes + it_bytes next))
  end.

(** [absorb] followed by the decision its callers take on drained, stopped and
    a full batch. *)
Definition absorb (l : Lane) (batch : list item) (bytes : Z) : Lane :=
  let '(pending, pendingBytes, batch', bytes') :=
    absorb_loop (l_budget l) (l_pending l) (l_pendingBytes l) batch bytes in
  let drained := (length pending =? 0)%nat in
  let stopped := l_closed l in
  let full := ExceedsWriteBatch (l_budget l) (Z.of_nat (length batch')) bytes' 0 in
  set_queue l pending pendingBytes
    (if drained || stopped || full then AtFlush batch'
     else AtWait batch' bytes' (l_arrived l)).

(** [raiseMax]: the compare-and-swap loop ends with the larger value. *)
Definition raiseMax (counter value : Z) : Z :=
  if (value <=? counter)%Z then counter else value.

Definition commitBatch (l : Lane) (batch : list item) (held : Z) : Lane :=
  let '(w, reports) := commitRecords batch (l_world l) in
  mk_Lane (l_budget l) (l_pending l) (l_pendingBytes l) (l_closed l) (l_arrived l) AtTake w
    (wrap64 (l_records l + Z.of_nat (length batch)))
    (wrap64 (l_batches l + 1))
    (raiseMax (l_maxBatchRecords l) (Z.of_nat (length batch)))
    (raiseMax (l_maxHold l) held)
    (if (HoldTarget (l_budget l) <? held)%Z then wrap64 (l_holdExceeded l + 1)
     else l_holdExceeded l)
    (l_admitted l) (l_acked l ++ zip batch reports).

Inductive run_step : Lane -> Lane -> Prop :=
  | run_take l l' : l_pc l = AtTake -> takeFirst l = Some l' -> run_step l l'
  | run_absorb l batch bytes a :
      l_pc l = AtAbsorb batch bytes a -> run_step l (absorb l batch bytes)
  | run_arrival l batch bytes a :
      l_pc l = AtWait batch bytes a -> (a < l_arrived l)%nat ->
      run_step l (absorb l batch bytes)
  | run_timer l batch bytes a :
      l_pc l = AtWait batch bytes a ->
      run_step l (set_queue l (l_pending l) (l_pendingBytes l) (AtFlush batch))
  | run_flush l batch held :
      l_pc l = AtFlush batch -> run_step l (commitBatch l batch held).

Inductive lane_step : Lane -> Lane -> Prop :=
  | lane_submit l ctx bytes r l' :
      Submit (Some l) ctx bytes (Some r) = Ok (Some l') -> lane_step l l'
  | lane_close l : lane_step l (Close l)
  | lane_run l l' : run_step l l' -> lane_step l l'.

Definition lane_reachable (cap : Z) (l : Lane) : Prop :=
  exists budget w l0, New_lane cap budget true w = Ok l0 /\ rtc lane_step l0 l.

(** * Theorems *)

(** ** commitRecords: every caller gets its own record's report *)

Fixpoint prepare_all (batch : list item) (w : World) : World * list (result error OperationInput) :=
  match batch with
  | [] => (w, [])
  | it :: rest =>
      let '(w1, r) := Prepare (it_record it) w in
      let '(w2, rs) := prepare_all rest w1 in (w2, r :: rs)
  end.

Fixpoint settle_all (k : nat) (outcome : nat -> BRR) (items : list item) (w : World)
    : World * list (option error) :=
  match items with
  | [] => (w, [])
  | it :: rest =>
      let '(w1, r) := Settle (it_record it) (outcome k) w in
      let '(w2, rs) := settle_all (S k) outcome rest w1 in (w2, r :: rs)
  end.

Definition oks (preps : list (result error OperationInput)) : list OperationInput :=
  omap (fun r => match r with Ok x => Some x | Err _ => None end) preps.
Definition ok_items (batch : list item) (preps : list (result error OperationInput)) : list item :=
  fst <$> List.filter (fun p => is_ok p.2) (zip batch preps).
Fixpoint ok_indexed (i : nat) (batch : list item) (preps : list (result error OperationInput))
    : list (nat * item) :=
  match batch, preps with
  | it :: batch', Ok _ :: preps' => (i, it) :: ok_indexed (S i) batch' preps'
  | _ :: batch', Err _ :: preps' => ok_indexed (S i) batch' preps'
  | _, _ => []
  end.

(** A prepared record's report is its settlement's, a failed preparation's is
    its own error. *)
Fixpoint weave (preps : list (result error OperationInput)) (settles : list (option error))
    : list (option error) :=
  match preps with
  | [] => []
  | Err e :: ps => Some e :: weave ps settles
  | Ok _ :: ps => match settles with
                  | s :: ss => s :: weave ps ss
                  | [] => None :: weave ps []
                  end
  end.

Definition commit_spec (batch : list item) (w : World) : World * list (option error) :=
  let '(w1, preps) := prepare_all batch w in
  if (length (oks preps) =? 0)%nat then (w1, weave preps [])
  else
    let '(w2, (records, applyErr)) := Apply (oks preps) w1 in
    let '(w3, settles) := settle_all 0 (batchOutcome records applyErr) (ok_items batch preps) w2 in
    (w3, weave preps settles).

Lemma prepare_loop_eqn batch w pre prepared inputs :
  prepare_loop (length pre) batch w (pre ++ replicate (length batch) None) prepared inputs
  = let '(w1, preps) := prepare_all batch w in
    (w1, (pre ++ weave preps [], prepared ++ ok_indexed (length pre) batch preps,
          inputs ++ oks preps)).
Proof.
  revert w pre prepared inputs. induction batch as [|it rest IH]; intros w pre prepared inputs; simpl.
  - by rewrite !app_nil_r.
  - destruct (Prepare (it_record it) w) as [w1 [input|e]].
    + specialize (IH w1 (pre ++ [None]) (prepared ++ [(length pre, it)]) (inputs ++ [input])).
      rewrite length_app, <- app_assoc in IH. simpl in IH. rewrite Nat.add_1_r in IH. rewrite IH.
      destruct (prepare_all rest w1) as [w2 preps]. simpl.
      rewrite <- !app_assoc. done.
    + specialize (IH w1 (pre ++ [Some e]) prepared inputs).
      rewrite length_app, <- app_assoc in IH. simpl in IH. rewrite Nat.add_1_r in IH.
      replace (<[length pre:=Some e]> (pre ++ None :: replicate (length rest) None))
        with (pre ++ Some e :: replicate (length rest) None)
        by (rewrite insert_app_r_alt, Nat.sub_diag by lia; done).
      rewrite IH. destruct (prepare_all rest w1) as [w2 preps]. simpl.
      rewrite <- !app_assoc. done.
Qed.

Lemma ok_items_cons it batch r preps :
  ok_items (it :: batch) (r :: preps) = (if is_ok r then [it] else []) ++ ok_items batch preps.
Proof. unfold ok_items. simpl. by destruct r. Qed.

Lemma settle_loop_eqn k outcome batch preps w pre :
  length batch = length preps ->
  settle_loop k outcome (ok_indexed (length pre) batch preps) w (pre ++ weave preps [])
  = let '(w1, settles) := settle_all k outcome (ok_items batch preps) w in
    (w1, pre ++ weave preps settles).
Proof.
  revert k w pre preps. induction batch as [|it rest IH]; intros k w pre [|r preps] Hl;
    try discriminate Hl; [done|].
  rewrite ok_items_cons. injection Hl as Hl. destruct r as [x|e]; simpl.
  - destruct (Settle (it_record it) (outcome k) w) as [w1 s].
    replace (<[length pre:=s]> (pre ++ None :: weave preps [])) with (pre ++ s :: weave preps [])
      by (rewrite insert_app_r_alt, Nat.sub_diag by lia; done).
    specialize (IH (S k) w1 (pre ++ [s]) preps Hl).
    rewrite length_app, <- app_assoc in IH. simpl in IH. rewrite Nat.add_1_r in IH. rewrite IH.
    destruct (settle_all _ _ _ _) as [w2 ss]. by rewrite <- app_assoc.
  - specialize (IH k w (pre ++ [Some e]) preps Hl).
    rewrite length_app, <- app_assoc in IH. simpl in IH. rewrite Nat.add_1_r in IH. rewrite IH.
    destruct (settle_all _ _ _ _) as [w2 ss]. by rewrite <- app_assoc.
Qed.

Lemma prepare_all_length batch w : length (prepare_all batch w).2 = length batch.
Proof.
  revert w. induction batch as [|it rest IH]; intros w; simpl; [done|].
  destruct (Prepare _ w) as [w1 r]. specialize (IH w1). destruct (prepare_all rest w1). simpl in *.
  by rewrite IH.
Qed.

Lemma commitRecords_eqn batch w : commitRecords batch w = commit_spec batch w.
Proof.
  unfold commitRecords, commit_spec.
  pose proof (prepare_loop_eqn batch w [] [] []) as H. simpl in H. rewrite H.
  pose proof (prepare_all_length batch w) as Hl.
  destruct (prepare_all batch w) as [w1 preps]. simpl in Hl.
  destruct (oks preps) as [|x xs]; [done|]. simpl.
  destruct (Apply (x :: xs) w1) as [w2 [records applyErr]].
  by rewrite (settle_loop_eqn 0 _ batch preps w2 []).
Qed.

Lemma weave_length preps settles : length (weave preps settles) = length preps.
Proof.
  revert settles. induction preps as [|[x|e] ps IH]; intros settles; simpl; [done| |by rewrite IH].
  destruct settles; simpl; by rewrite IH.
Qed.

Lemma commitRecords_length batch w : length (commitRecords batch w).2 = length batch.
Proof.
  rewrite commitRecords_eqn. unfold commit_spec. pose proof (prepare_all_length batch w) as Hl.
  destruct (prepare_all batch w) as [w1 preps]. simpl in Hl.
  destruct (_ =? _)%nat; simpl; [by rewrite weave_length|].
  destruct (Apply _ _) as [w2 [records applyErr]]. destruct (settle_all _ _ _ _). simpl.
  by rewrite weave_length.
Qed.


Lemma settle_all_lookup k outcome items w j r :
  (settle_all k outcome items w).2 !! j = Some r ->
  exists it w', items !! j = Some it /\ (Settle (it_record it) (outcome (k + j)%nat) w').2 = r.
Proof.
  revert k w j. induction items as [|it rest IH]; intros k w j; simpl; [done|].
  destruct (Settle (it_record it) (outcome k) w) as [w1 s] eqn:E.
  specialize (IH (S k) w1). destruct (settle_all (S k) outcome rest w1) as [w2 ss]. simpl in *.
  destruct j as [|j]; simpl.
  - intros [= <-]. exists it, w. by rewrite Nat.add_0_r, E.
  - intros H. destruct (IH j H) as (it' & w' & Hi & Hs). exists it', w'.
    by rewrite Nat.add_succ_r.
Qed.

Lemma weave_lookup_None preps settles i :
  length settles = length (oks preps) ->
  weave preps settles !! i = Some None ->
  exists input, preps !! i = Some (Ok input) /\
    oks preps !! length (oks (take i preps)) = Some input /\
    settles !! length (oks (take i preps)) = Some None.
Proof.
  revert settles i. induction preps as [|[x|e] ps IH]; intros settles i Hl H; simpl in *; [done| |].
  - destruct settles as [|s ss]; [done|]. injection Hl as Hl.
    destruct i as [|i]; simpl in *; [exists x; by injection H as ->|]. by apply IH.
  - destruct i as [|i]; simpl in *; [done|]. by apply IH.
Qed.

Lemma settle_all_length k outcome items w :
  length (settle_all k outcome items w).2 = length items.
Proof.
  revert k w. induction items as [|it rest IH]; intros k w; simpl; [done|].
  destruct (Settle _ _ w) as [w1 s]. specialize (IH (S k) w1).
  destruct (settle_all _ _ _ w1). simpl in *. by rewrite IH.
Qed.

Lemma ok_items_length batch preps :
  length batch = length preps -> length (ok_items batch preps) = length (oks preps).
Proof.
  revert preps. induction batch as [|it batch IH]; intros [|r preps] H; try discriminate H; [done|].
  rewrite ok_items_cons, length_app. injection H as H. rewrite (IH preps H).
  by destruct r.
Qed.

Lemma batchOutcome_durable records applyErr k :
  OutcomeIsDurable (br_Outcome (batchOutcome records applyErr k)) = true ->
  exists o, records !! k = Some o /\ OutcomeIsDurable (br_Outcome o) = true.
Proof.
  unfold batchOutcome. destruct (records !! k) as [o|].
  - intros H. exists o. split; [done|]. destruct (br_Err o); [done|].
    destruct (OutcomeIsDurable (br_Outcome o)) eqn:E; [done|]. simpl in H. congruence.
  - simpl. unfold OutcomeIsDurable. destruct not_recorded_not_durable.
    by rewrite !bool_decide_eq_false_2.
Qed.

(** A record's own settlement says nil only for a durable outcome. *)
Definition settle_honest : Prop :=
  forall r o w, (Settle r o w).2 = None -> OutcomeIsDurable (br_Outcome o) = true.

(** C12: nobody is told recorded for a record that is not. In one lane turn
    each record gets one report, in its own position; and if its settlement
    reports nil only for durable outcomes, a nil report for the record at
    position [i] means its preparation succeeded, its operation was in the one
    batch that was applied, and the outcome at that very position of the batch
    result is committed or short-circuited. *)
Theorem commitRecords_honest batch w i :
  settle_honest ->
  length (commitRecords batch w).2 = length batch /\
  ((commitRecords batch w).2 !! i = Some None ->
   exists w1 preps input k records applyErr o,
     prepare_all batch w = (w1, preps) /\ preps !! i = Some (Ok input) /\
     oks preps !! k = Some input /\ (Apply (oks preps) w1).2 = (records, applyErr) /\
     records !! k = Some o /\ OutcomeIsDurable (br_Outcome o) = true).
Proof.
  intros Hs. split; [apply commitRecords_length|].
  rewrite commitRecords_eqn. unfold commit_spec. pose proof (prepare_all_length batch w) as Hl.
  destruct (prepare_all batch w) as [w1 preps]. simpl in Hl.
  destruct (oks preps) as [|x xs] eqn:Ho; simpl.
  - intros H. apply weave_lookup_None in H as (input & _ & Hi & _); [|by rewrite Ho].
    by rewrite Ho in Hi.
  - rewrite <- Ho. destruct (Apply (oks preps) w1) as [w2 [records applyErr]] eqn:Ha.
    pose proof (settle_all_length 0 (batchOutcome records applyErr) (ok_items batch preps) w2) as Hsl.
    pose proof (settle_all_lookup 0 (batchOutcome records applyErr) (ok_items batch preps) w2) as Hlk.
    destruct (settle_all _ _ _ _) as [w3 settles]. simpl in *. intros H.
    apply weave_lookup_None in H as (input & Hi & Hk & Hn);
      [|by rewrite Hsl, ok_items_length].
    destruct (Hlk _ _ Hn) as (it & w' & _ & Hd). apply Hs, batchOutcome_durable in Hd as (o & Hr & Hd).
    do 7 eexists. split_and!; [done|exact Hi|exact Hk|by rewrite Ha|exact Hr|exact Hd].
Qed.

(** ** The queue *)

Definition sum_bytes (l : list item) : Z := foldr (fun it n => it_bytes it + n)%Z 0%Z l.

Lemma sum_bytes_app a b : sum_bytes (a ++ b) = (sum_bytes a + sum_bytes b)%Z.
Proof. unfold sum_bytes. induction a as [|x a IH]; simpl; lia. Qed.

(** Sizes that cannot wrap the lane's sums: far above the payload cap. *)
Definition small (it : item) : Prop := (0 <= it_bytes it <= 2 ^ 61)%Z.

Lemma sum_bytes_nonneg l : Forall small l -> (0 <= sum_bytes l)%Z.
Proof. induction 1 as [|x l [? ?] _ IH]; simpl; lia. Qed.

Definition inflight (pc : runPC) : list item :=
  match pc with
  | AtTake | AtDone => []
  | AtAbsorb batch _ _ | AtWait batch _ _ | AtFlush batch => batch
  end.

(** A batch under construction: within the record bound, and within the byte
    bound unless it is a single record. *)
Record batch_ok (b : WriteLaneBudget) (batch : list item) : Prop := {
  bk_nonempty : batch <> [];
  bk_records : (Z.of_nat (length batch) <= BatchRecords b)%Z;
  bk_bytes : length batch = 1%nat \/ (sum_bytes batch <= BatchBytes b)%Z;
}.

Record lane_inv (l : Lane) : Prop := {
  li_fifo : (l_acked l).*1 ++ inflight (l_pc l) ++ l_pending l = l_admitted l;
  li_bytes : l_pendingBytes l = sum_bytes (l_pending l);
  li_queue : (Z.of_nat (length (l_pending l)) <= QueueRecords (l_budget l))%Z;
  li_queue_bytes : (length (l_pending l) <= 1)%nat \/
                   (sum_bytes (l_pending l) <= QueueBytes (l_budget l))%Z;
  li_batch : match l_pc l with
             | AtTake => True
             | AtDone => l_closed l = true /\ l_pending l = []
             | AtFlush batch => batch_ok (l_budget l) batch
             | AtAbsorb batch bytes a | AtWait batch bytes a =>
                 batch_ok (l_budget l) batch /\ bytes = sum_bytes batch /\ (a <= l_arrived l)%nat
             end;
  li_records : l_records l = wrap64 (Z.of_nat (length (l_acked l)));
}.

(** The bounds of the lane's budget that its arithmetic needs; a validated
    budget has the first two. *)
Record budget_fits (b : WriteLaneBudget) : Prop := {
  bf_batch : (1 <= BatchRecords b)%Z;
  bf_bytes : (BatchBytes b <= QueueBytes b)%Z;
  bf_queue : (1 <= QueueRecords b)%Z;
  bf_small : (QueueBytes b <= 2 ^ 61)%Z;
}.

Lemma small_wrap z : (0 <= z <= 2 ^ 62)%Z -> wrap64 z = z.
Proof. intros H. apply wrap64_id. unfold in_int64, min_int64, max_int64. lia. Qed.

Lemma batch_sum_small b batch :
  budget_fits b -> batch_ok b batch -> Forall small batch -> (0 <= sum_bytes batch <= 2 ^ 61)%Z.
Proof.
  intros [_ Hb _ Hq] [Hne _ Hk] Hs. split; [by apply sum_bytes_nonneg|].
  destruct Hk as [H1|?]; [|lia]. destruct batch as [|x [|y batch]]; try done.
  inversion Hs as [|? ? [? ?]]. simpl. lia.
Qed.

Lemma absorb_loop_spec b pending pb batch bytes pending' pb' batch' bytes' :
  absorb_loop b pending pb batch bytes = (pending', pb', batch', bytes') ->
  budget_fits b -> Forall small batch -> Forall small pending -> batch_ok b batch ->
  pb = sum_bytes pending -> bytes = sum_bytes batch -> (sum_bytes pending <= 2 ^ 62)%Z ->
  batch' ++ pending' = batch ++ pending /\ batch_ok b batch' /\
  pb' = sum_bytes pending' /\ bytes' = sum_bytes batch' /\
  pending' `suffix_of` pending /\
  match pending' with
  | [] => True
  | next :: _ => ExceedsWriteBatch b (Z.of_nat (length batch')) bytes' (it_bytes next) = true
  end.
Proof.
  intros H Hf. revert pb batch bytes H.
  induction pending as [|next rest IH]; intros pb batch bytes H Hsb Hsp Hk Hpb Hb Hsum; simpl in H.
  - injection H as <- <- <- <-. by split_and!.
  - apply Forall_cons in Hsp as [Hn Hsp]. pose proof (sum_bytes_nonneg rest Hsp) as Hr0.
    pose proof (batch_sum_small b batch Hf Hk Hsb) as Hbs.
    simpl in Hsum, Hpb. destruct Hn as [Hn0 Hn1].
    destruct (ExceedsWriteBatch b (Z.of_nat (length batch)) bytes (it_bytes next)) eqn:He.
    + injection H as <- <- <- <-. by split_and!.
    + unfold ExceedsWriteBatch in He. destruct (Z.leb_spec (BatchRecords b) (Z.of_nat (length batch)));
        [done|]. rewrite Hb, (small_wrap (_ + _)) in He by lia.
      assert (Hp : (0 <? Z.of_nat (length batch))%Z = true).
      { apply Z.ltb_lt. destruct Hk as [Hne _ _]. destruct batch; [done|simpl; lia]. }
      rewrite Hp in He. apply Z.ltb_ge in He.
      rewrite Hpb, Hb, !small_wrap in H by lia.
      apply IH in H as (H1 & H2 & H3 & H4 & H5 & H6); try done.
      * split_and!; try done; [by rewrite H1, <- app_assoc|by apply suffix_cons_r].
      * apply Forall_app. split; [done|]. constructor; [done|constructor].
      * destruct Hk as [? ? ?]. split; [by destruct batch|rewrite length_app; simpl; lia|].
        right. rewrite sum_bytes_app. simpl. lia.
      * lia.
      * rewrite sum_bytes_app. simpl. lia.
      * lia.
Qed.

Lemma absorb_pending_small b pending pb batch bytes pending' pb' batch' bytes' :
  absorb_loop b pending pb batch bytes = (pending', pb', batch', bytes') ->
  pending' `suffix_of` pending.
Proof.
  revert pb batch bytes. induction pending as [|next rest IH]; intros pb batch bytes H; simpl in H.
  - by injection H as <- _ _ _.
  - destruct (ExceedsWriteBatch _ _ _ _); [by injection H as <- _ _ _|].
    apply IH in H. by apply suffix_cons_r.
Qed.

Lemma Submit_staged l ctx bytes r l' :
  Submit (Some l) ctx bytes (Some r) = Ok (Some l') ->
  (0 <= bytes)%Z /\ l_closed l = false /\ roomForLocked l bytes = true /\
  l' = stage l (mk_item bytes r).
Proof.
  unfold Submit. destruct (Z.ltb_spec bytes 0); [done|]. destruct (l_closed l); [done|].
  destruct (roomForLocked l bytes); [by intros [= <-]|by destruct ctx].
Qed.

Lemma suffix_queue (b : WriteLaneBudget) (k l : list item) :
  k `suffix_of` l -> Forall small l ->
  (length k <= length l)%nat /\ (sum_bytes k <= sum_bytes l)%Z.
Proof.
  intros [p ->] [Hp Hk]%Forall_app. rewrite length_app, sum_bytes_app.
  pose proof (sum_bytes_nonneg p Hp). lia.
Qed.

Lemma queue_sum_small l :
  budget_fits (l_budget l) -> Forall small (l_pending l) ->
  (length (l_pending l) <= 1)%nat \/ (sum_bytes (l_pending l) <= QueueBytes (l_budget l))%Z ->
  (0 <= sum_bytes (l_pending l) <= 2 ^ 61)%Z.
Proof.
  intros [_ _ _ Hq] Hs Hk. split; [by apply sum_bytes_nonneg|].
  destruct Hk as [H1|]; [|lia]. destruct (l_pending l) as [|x [|y p]]; simpl in *; try lia.
  inversion Hs as [|? ? [? ?]]. lia.
Qed.

Lemma stage_inv l it :
  budget_fits (l_budget l) -> Forall small (l_admitted l) -> small it ->
  roomForLocked l (it_bytes it) = true -> l_closed l = false -> lane_inv l -> lane_inv (stage l it).
Proof.
  intros Hf Hs Hit Hr Hc [Hff Hb Hq Hqb Hk Hrec].
  assert (Hsp : Forall small (l_pending l)).
  { rewrite <- Hff in Hs. by apply Forall_app in Hs as [_ [_ ?]%Forall_app]. }
  pose proof (queue_sum_small l Hf Hsp Hqb) as Hsum. destruct Hit as [Hi0 Hi1].
  unfold roomForLocked in Hr. rewrite Hb in Hr.
  destruct (Z.leb_spec (QueueRecords (l_budget l)) (Z.of_nat (length (l_pending l)))); [done|].
  rewrite small_wrap in Hr by lia.
  split; simpl.
  - rewrite !app_assoc. rewrite !app_assoc in Hff. by rewrite Hff.
  - rewrite Hb, small_wrap, sum_bytes_app by lia. simpl. lia.
  - rewrite length_app. simpl. lia.
  - destruct (l_pending l) as [|x p] eqn:E; [left; done|right]. rewrite <- E in *.
    assert (Hp : (0 <? length (l_pending l))%nat = true) by (by rewrite E).
    rewrite Hp in Hr. simpl in Hr.
    destruct (Z.ltb_spec (QueueBytes (l_budget l)) (sum_bytes (l_pending l) + it_bytes it)); [done|].
    rewrite sum_bytes_app. simpl. lia.
  - destruct (l_pc l); try done; [| |destruct Hk; congruence].
    all: destruct Hk as (? & ? & ?); split_and!; [done..|lia].
  - done.
Qed.

Lemma absorb_inv l batch bytes :
  budget_fits (l_budget l) -> Forall small (l_admitted l) ->
  inflight (l_pc l) = batch -> batch_ok (l_budget l) batch -> bytes = sum_bytes batch ->
  lane_inv l -> lane_inv (absorb l batch bytes).
Proof.
  intros Hf Hs Hin Hk Hb [Hff Hpb Hq Hqb _ Hrec].
  assert (Hs' : Forall small batch /\ Forall small (l_pending l)).
  { rewrite <- Hff, Hin in Hs. by apply Forall_app in Hs as [_ ?%Forall_app]. }
  destruct Hs' as [Hsb Hsp]. pose proof (queue_sum_small l Hf Hsp Hqb) as Hsum.
  unfold absorb. destruct (absorb_loop _ _ _ _ _) as [[[pending' pb'] batch'] bytes'] eqn:E.
  apply absorb_loop_spec in E as (H1 & H2 & H3 & H4 & H5 & _); try done; [|lia].
  destruct (suffix_queue (l_budget l) _ _ H5 Hsp) as [Hlen Hsm].
  assert (Hi : forall pc, inflight pc = batch' ->
    (l_acked l).*1 ++ inflight pc ++ pending' = l_admitted l).
  { intros pc ->. by rewrite H1, <- Hff, Hin. }
  split; simpl; try done.
  - apply Hi. by destruct (_ || _).
  - lia.
  - destruct Hqb; [left|right]; lia.
  - destruct (_ || _ || _); [done|]. split_and!; done.
Qed.

Lemma take_inv l l' :
  budget_fits (l_budget l) -> Forall small (l_admitted l) -> l_pc l = AtTake ->
  takeFirst l = Some l' -> lane_inv l -> lane_inv l'.
Proof.
  intros Hf Hs Hpc Ht [Hff Hpb Hq Hqb _ Hrec]. rewrite Hpc in Hff. simpl in Hff.
  assert (Hsp : Forall small (l_pending l)).
  { rewrite <- Hff in Hs. by apply Forall_app in Hs as [_ ?]. }
  pose proof (queue_sum_small l Hf Hsp Hqb) as Hsum.
  unfold takeFirst in Ht. destruct (l_pending l) as [|one rest] eqn:Ep.
  - destruct (l_closed l) eqn:Ec; [|done]. injection Ht as <-. by split.
  - injection Ht as <-. apply Forall_cons in Hsp as [[? ?] Hsr].
    pose proof (sum_bytes_nonneg rest Hsr). simpl in Hsum, Hq.
    assert (Hone : batch_ok (l_budget l) [one]).
    { destruct Hf. split; [done|simpl; lia|by left]. }
    assert (Hb1 : wrap64 (0 + it_bytes one) = sum_bytes [one])
      by (rewrite small_wrap by lia; simpl; lia).
    split; simpl; try done.
    + by destruct rest.
    + rewrite Hpb, small_wrap; simpl; lia.
    + lia.
    + simpl in Hqb. destruct Hqb; [left|right]; lia.
    + destruct rest; split_and!; done.
Qed.

Lemma commitBatch_inv l batch held :
  l_pc l = AtFlush batch -> lane_inv l -> lane_inv (commitBatch l batch held).
Proof.
  intros Hpc [Hff Hpb Hq Hqb Hk Hrec]. rewrite Hpc in Hff. simpl in Hff.
  unfold commitBatch. pose proof (commitRecords_length batch (l_world l)) as Hl.
  destruct (commitRecords batch (l_world l)) as [w reports]. simpl in Hl.
  split; simpl; try done.
  - rewrite fmap_app, fst_zip by lia. by rewrite <- app_assoc.
  - rewrite Hrec, length_app, length_zip_with, Hl, Nat.min_id.
    rewrite wrap64_wrap_add. f_equal. lia.
Qed.

Lemma lane_step_budget l l' : lane_step l l' -> l_budget l' = l_budget l.
Proof.
  intros [l0 ctx bytes r l1 H|l0|l0 l1 H].
  - by apply Submit_staged in H as (_ & _ & _ & ->).
  - done.
  - destruct H as [l0 l1 _ H|l0 batch bytes a H|l0 batch bytes a H _|l0 batch bytes a H|l0 batch held H];
      try done.
    + unfold takeFirst in H. destruct (l_pending l0); [destruct (l_closed l0); [|done]|];
        by injection H as <-.
    + unfold absorb. by destruct (absorb_loop _ _ _ _ _) as [[[? ?] ?] ?].
    + unfold absorb. by destruct (absorb_loop _ _ _ _ _) as [[[? ?] ?] ?].
    + unfold commitBatch. by destruct (commitRecords _ _).
Qed.

Lemma run_step_admitted l l' : run_step l l' -> l_admitted l' = l_admitted l /\ l_closed l' = l_closed l.
Proof.
  intros H.
  destruct H as [l0 l1 _ H|l0 batch bytes a H|l0 batch bytes a H _|l0 batch bytes a H|l0 batch held H];
    try done.
  + unfold takeFirst in H. destruct (l_pending l0); [destruct (l_closed l0) eqn:?; [|done]|];
      by injection H as <-.
  + unfold absorb. by destruct (absorb_loop _ _ _ _ _) as [[[? ?] ?] ?].
  + unfold absorb. by destruct (absorb_loop _ _ _ _ _) as [[[? ?] ?] ?].
  + unfold commitBatch. by destruct (commitRecords _ _).
Qed.

Lemma lane_step_admitted l l' : lane_step l l' -> l_admitted l `prefix_of` l_admitted l'.
Proof.
  intros [l0 ctx bytes r l1 H|l0|l0 l1 H].
  - apply Submit_staged in H as (_ & _ & _ & ->). simpl. by exists [mk_item bytes r].
  - done.
  - apply run_step_admitted in H as [-> _]. done.
Qed.

Lemma run_step_inv l l' :
  budget_fits (l_budget l) -> Forall small (l_admitted l) -> run_step l l' ->
  lane_inv l -> lane_inv l'.
Proof.
  intros Hf Hs H Hi.
  destruct H as [l0 l1 Hpc H|l0 batch bytes a H|l0 batch bytes a H _|l0 batch bytes a H|l0 batch held H].
  - by eapply take_inv.
  - pose proof (li_batch _ Hi) as Hk. rewrite H in Hk. destruct Hk as (? & ? & _).
    apply absorb_inv; try done. by rewrite H.
  - pose proof (li_batch _ Hi) as Hk. rewrite H in Hk. destruct Hk as (? & ? & _).
    apply absorb_inv; try done. by rewrite H.
  - destruct Hi as [Hff Hpb Hq Hqb Hk Hrec]. rewrite H in *. by split; simpl; try apply Hk.
  - by apply commitBatch_inv.
Qed.

Lemma lane_step_inv l l' :
  budget_fits (l_budget l) -> Forall small (l_admitted l') -> lane_step l l' ->
  lane_inv l -> lane_inv l'.
Proof.
  intros Hf Hs H Hi. destruct H as [l0 ctx bytes r l1 H|l0|l0 l1 H].
  - apply Submit_staged in H as (? & ? & ? & ->). simpl in Hs.
    apply Forall_app in Hs as [? [? ?]%Forall_cons]. by apply stage_inv.
  - destruct Hi as [Hff Hpb Hq Hqb Hk Hrec]. split; try done. simpl.
    destruct (l_pc l0); try done; [| |by destruct Hk].
    all: destruct Hk as (? & ? & ?); split_and!; [done..|simpl; lia].
  - eapply run_step_inv; try done. by destruct (run_step_admitted _ _ H) as [<- _].
Qed.

Lemma New_lane_inv cap budget w l : New_lane cap budget true w = Ok l -> lane_inv l /\ l_budget l = budget /\ budget_ok cap budget.
Proof.
  unfold New_lane. destruct (Budget_Validate cap budget) as [[]|] eqn:E; [|done].
  apply Budget_Validate_ok in E. intros [= <-]. split; [|done].
  destruct E. split; simpl; [done|done|lia|left; lia|done|by vm_compute].
Qed.

Lemma lane_steps_inv l0 l :
  rtc lane_step l0 l -> budget_fits (l_budget l0) -> lane_inv l0 -> Forall small (l_admitted l) ->
  budget_fits (l_budget l) /\ lane_inv l.
Proof.
  intros H Hf Hi. induction H as [|l1 l2 l3 H12 H23 IH]; intros Hs; [done|].
  assert (Hp : l_admitted l2 `prefix_of` l_admitted l3).
  { clear -H23. induction H23; [done|]. etrans; [|done]. by apply lane_step_admitted. }
  apply IH; [by rewrite (lane_step_budget _ _ H12)| |done].
  eapply lane_step_inv; try done. destruct Hp as [k Hk]. rewrite Hk in Hs.
  by apply Forall_app in Hs as [? _].
Qed.

Lemma lane_reachable_inv cap l :
  lane_reachable cap l -> (QueueBytes (l_budget l) <= 2 ^ 61)%Z -> Forall small (l_admitted l) ->
  budget_fits (l_budget l) /\ lane_inv l.
Proof.
  intros (budget & w & l0 & H0 & Hr) Hq Hs. apply New_lane_inv in H0 as (Hi & Hb & [? ? Hby ?]).
  assert (E : l_budget l = l_budget l0).
  { clear -Hr. induction Hr; [done|]. etrans; [done|]. by apply lane_step_budget. }
  eapply lane_steps_inv; try done. rewrite E, Hb in Hq. rewrite Hb. split; lia.
Qed.

(** C11: no admitted record is lost, repeated or overtaken. In every state the
    lane can reach, through any interleaving of submitters, [Close] and the
    commit goroutine, the records acknowledged so far, the batch in flight and
    the queue, in this order, are exactly the records admitted so far in
    admission order; the batch is within the record bound and within the byte
    bound unless it is a single record; the queue is within its bounds unless
    it holds a single oversize record; and the staged-bytes counter is exact. *)
Theorem lane_no_loss cap l :
  lane_reachable cap l -> (QueueBytes (l_budget l) <= 2 ^ 61)%Z -> Forall small (l_admitted l) ->
  lane_inv l.
Proof. intros Hr Hq Hs. by destruct (lane_reachable_inv cap l Hr Hq Hs). Qed.

(** ** Draining *)

Definition pc_rank (pc : runPC) : nat :=
  match pc with
  | AtTake => 1
  | AtAbsorb _ _ _ => 4
  | AtWait _ _ _ => 3
  | AtFlush _ => 2
  | AtDone => 0
  end.
Definition lane_measure (l : Lane) : nat := 4 * length (l_pending l) + pc_rank (l_pc l).

Lemma absorb_measure l batch bytes :
  l_closed l = true -> (lane_measure (absorb l batch bytes) <= 4 * length (l_pending l) + 2)%nat.
Proof.
  intros Hc. unfold absorb, lane_measure.
  destruct (absorb_loop _ _ _ _ _) as [[[p pb] b] n] eqn:E. apply absorb_pending_small in E.
  apply suffix_length in E. rewrite Hc, orb_true_r. simpl. lia.
Qed.

Lemma run_step_measure l l' :
  l_closed l = true -> run_step l l' -> (lane_measure l' < lane_measure l)%nat.
Proof.
  intros Hc H.
  destruct H as [l0 l1 Hpc H|l0 batch bytes a H|l0 batch bytes a H _|l0 batch bytes a H|l0 batch held H].
  - unfold lane_measure. rewrite Hpc. unfold takeFirst in H.
    destruct (l_pending l0) as [|one rest]; [rewrite Hc in H|]; injection H as <-; simpl;
      [lia|destruct rest; simpl; lia].
  - pose proof (absorb_measure l0 batch bytes Hc). unfold lane_measure at 2. rewrite H. simpl. lia.
  - pose proof (absorb_measure l0 batch bytes Hc). unfold lane_measure at 2. rewrite H. simpl. lia.
  - unfold lane_measure. rewrite H. simpl. lia.
  - unfold lane_measure, commitBatch. rewrite H. destruct (commitRecords _ _). simpl. lia.
Qed.

Lemma run_step_progress l :
  l_closed l = true -> l_pc l <> AtDone -> exists l', run_step l l'.
Proof.
  intros Hc Hd. destruct (l_pc l) as [|batch bytes a|batch bytes a|batch|] eqn:Hpc; try done.
  - unfold takeFirst. destruct (takeFirst l) as [l'|] eqn:E; [exists l'; by apply run_take|].
    unfold takeFirst in E. rewrite Hc in E. by destruct (l_pending l).
  - eexists. by eapply run_absorb.
  - eexists. by eapply run_timer.
  - exists (commitBatch l batch 0). by apply run_flush.
Qed.

Lemma run_steps_inv l l' :
  rtc run_step l l' -> budget_fits (l_budget l) -> Forall small (l_admitted l) -> lane_inv l ->
  l_closed l = true -> lane_inv l' /\ l_closed l' = true /\ l_admitted l' = l_admitted l.
Proof.
  intros H. induction H as [|l1 l2 l3 H12 H23 IH]; intros Hf Hs Hi Hc; [done|].
  destruct (run_step_admitted _ _ H12) as [Ea Ec].
  pose proof (lane_step_budget _ _ (lane_run _ _ H12)) as Eb.
  rewrite <- Ea. apply IH; [by rewrite Eb|by rewrite Ea| |by rewrite Ec].
  by eapply run_step_inv.
Qed.

Lemma run_steps_bounded n l l' :
  nsteps run_step n l l' -> l_closed l = true -> (n + lane_measure l' <= lane_measure l)%nat.
Proof.
  intros H. induction H as [|n l1 l2 l3 H12 _ IH]; intros Hc; [lia|].
  pose proof (run_step_measure _ _ Hc H12). destruct (run_step_admitted _ _ H12) as [_ Ec].
  rewrite <- Ec in Hc. specialize (IH Hc). lia.
Qed.

Lemma run_reaches_done n l :
  l_closed l = true -> (lane_measure l <= n)%nat -> exists l', rtc run_step l l' /\ l_pc l' = AtDone.
Proof.
  revert l. induction n as [|n IH]; intros l Hc Hm.
  - exists l. split; [apply rtc_refl|]. unfold lane_measure in Hm.
    destruct (l_pc l); simpl in Hm; try lia. done.
  - assert (Hd : l_pc l = AtDone \/ l_pc l <> AtDone) by (destruct (l_pc l); auto).
    destruct Hd as [Hd|Hd]; [exists l; by split; [apply rtc_refl|]|].
    destruct (run_step_progress l Hc Hd) as [l1 H1].
    pose proof (run_step_measure _ _ Hc H1). destruct (run_step_admitted _ _ H1) as [_ Ec].
    destruct (IH l1) as (l' & Hr & Hp); [by rewrite Ec|lia|].
    exists l'. split; [by eapply rtc_l|done].
Qed.

(** C13: shutdown drains. Once the lane is closed, the commit goroutine runs at
    most [4 * queue + 4] further steps whatever the timer and the arrivals do,
    it cannot stop before it is done, and when it is done every admitted record
    has been acknowledged, in admission order, and nothing is staged. *)
Theorem close_drains cap l :
  lane_reachable cap l -> (QueueBytes (l_budget l) <= 2 ^ 61)%Z -> Forall small (l_admitted l) ->
  l_closed l = true ->
  (forall n l', nsteps run_step n l l' -> (n <= 4 * length (l_pending l) + 4)%nat) /\
  (forall l', rtc run_step l l' -> (exists l'', run_step l' l'') \/
     l_pc l' = AtDone /\ l_pending l' = [] /\ (l_acked l').*1 = l_admitted l) /\
  (exists l', rtc run_step l l' /\ l_pc l' = AtDone).
Proof.
  intros Hr Hq Hs Hc. destruct (lane_reachable_inv cap l Hr Hq Hs) as [Hf Hi]. split_and!.
  - intros n l' H. apply run_steps_bounded in H; [|done].
    unfold lane_measure in H. destruct (l_pc l); simpl in H; lia.
  - intros l' H. destruct (run_steps_inv l l' H Hf Hs Hi Hc) as (Hi' & Hc' & Ha').
    destruct (l_pc l') eqn:Hpc; try (left; apply run_step_progress; [done|by rewrite Hpc]).
    right. destruct Hi' as [Hff _ _ _ Hk _]. rewrite Hpc in *. destruct Hk as [_ Hp].
    split_and!; [done..|]. rewrite Hp, app_nil_r in Hff. by rewrite Hff.
  - by apply (run_reaches_done (lane_measure l)).
Qed.

End lane.

(** ** A concrete lane *)

Lemma toy_outcomes : (3 <> 1)%nat /\ (3 <> 2)%nat.
Proof. lia. Qed.

(** A store that keeps the committed inputs, refuses the input 0 at
    preparation and conflicts on the input 13. *)
Definition toy_env : LaneEnv :=
  {| World := list nat; OperationInput := nat; RecordWork := nat; error := nat;
     Outcome := nat;
     BatchRecordCommitted := 1%nat; BatchRecordShortCircuited := 2%nat;
     BatchRecordNotRecorded := 3%nat;
     not_recorded_not_durable := toy_outcomes;
     Prepare := fun r w => (w, if (r =? 0)%nat then Err 100%nat else Ok r);
     Apply := fun ins w => (w ++ ins, ((fun i => mk_brr (if (i =? 13)%nat then 4 else 1)%nat None) <$> ins, None));
     Settle := fun _ o w => (w, if (br_Outcome o =? 1)%nat then None else Some (br_Outcome o));
     no_error_reported := fun o => o |}.

Lemma toy_honest : @settle_honest toy_env.
Proof.
  intros r o w H.
  change ((if (br_Outcome o =? 1)%nat then None else Some (br_Outcome o)) = None) in H.
  destruct (Nat.eqb_spec (br_Outcome o) 1) as [E|]; [|discriminate H].
  apply orb_true_iff. left. by apply bool_decide_eq_true.
Qed.

Lemma commitRecords_honest_witness :
  let batch := [mk_item (env := toy_env) 5 7; mk_item (env := toy_env) 5 0;
                mk_item (env := toy_env) 5 13; mk_item (env := toy_env) 5 8] in
  commitRecords (env := toy_env) batch [] = ([7; 13; 8], [None; Some 100; Some 4; None])%nat /\
  length (commitRecords (env := toy_env) batch []).2 = 4%nat.
Proof.
  split; [vm_compute; reflexivity|].
  exact (proj1 (commitRecords_honest (env := toy_env)
    [mk_item (env := toy_env) 5 7; mk_item (env := toy_env) 5 0;
     mk_item (env := toy_env) 5 13; mk_item (env := toy_env) 5 8] [] 0 toy_honest)).
Defined.

Definition toy_budget : WriteLaneBudget :=
  mk_Budget 4 (4 * 1048576) 2 1048576 (5 * Millisecond) (20 * Millisecond).
Definition toy_lane : Lane (env := toy_env) :=
  mk_Lane (env := toy_env) toy_budget [] 0 false 0 AtTake [] 0 0 0 0 0 [] [].
Definition toy_closed : Lane (env := toy_env) :=
  Close (stage (stage toy_lane (mk_item (env := toy_env) 5 7)) (mk_item (env := toy_env) 6 8)).

Lemma toy_reachable : lane_reachable (env := toy_env) 256 toy_closed.
Proof.
  exists toy_budget, [], toy_lane. split; [vm_compute; reflexivity|].
  eapply rtc_l; [apply (lane_submit toy_lane false 5 (7%nat : @RecordWork toy_env)); vm_compute; reflexivity|].
  eapply rtc_l; [eapply (lane_submit _ false 6 (8%nat : @RecordWork toy_env)); vm_compute; reflexivity|].
  apply rtc_once, (lane_close (env := toy_env)).
Qed.

Lemma toy_small : Forall (small (env := toy_env)) (l_admitted toy_closed).
Proof. repeat constructor; simpl; lia. Qed.

Lemma lane_no_loss_witness : lane_inv (env := toy_env) toy_closed.
Proof.
  apply (lane_no_loss (env := toy_env) 256 _ toy_reachable); [vm_compute; discriminate|exact toy_small].
Defined.

Lemma close_drains_witness :
  exists l', rtc (run_step (env := toy_env)) toy_closed l' /\ l_pc l' = AtDone.
Proof.
  refine (proj2 (proj2 (close_drains (env := toy_env) 256 _ toy_reachable _ toy_small _)));
    [vm_compute; discriminate|vm_compute; reflexivity].
Defined.
