(* ===== verification/Registration.v ===== *)
(** Registration: the pinned host-event manifests
    (internal/lifecycle/registration).

    The rows are those of the four generated manifests, with the columns the
    gate reads: the event kind, the native name, the blocking mode and the
    stop-loop policy. The field, identity, mutation, failure and transition
    columns are not modelled. *)

From Stdlib Require Import NArith Lia.
From stdpp Require Import base tactics list strings.
From S2P Require Import Prelude.
Local Open Scope string_scope.

Abbreviation HarnessID := string (only parsing).
Definition HarnessClaudeCode : HarnessID := "claude-code".
Definition HarnessOpenCode : HarnessID := "opencode".
Definition HarnessCodex : HarnessID := "codex".
Definition Harness_IsValid (h : HarnessID) : bool :=
  one_of h [HarnessClaudeCode; HarnessOpenCode; HarnessCodex].
Definition EnabledHarnessIDs : list HarnessID :=
  [HarnessClaudeCode; HarnessOpenCode; HarnessCodex].

Abbreviation BlockingMode := N (only parsing).
Definition NonBlocking : BlockingMode := 1%N.
Definition Blocking : BlockingMode := 2%N.
Definition ConditionallyBlocking : BlockingMode := 3%N.

Abbreviation StopLoopPolicy := N (only parsing).
Definition StopLoopNotApplicable : StopLoopPolicy := 1%N.
Definition StopLoopConsultWhenInactive : StopLoopPolicy := 2%N.

Record Event := mk_Event {
  ev_Kind : N;
  ev_NativeName : string;
  ev_Blocking : BlockingMode;
  ev_StopLoop : StopLoopPolicy;
}.
Abbreviation event k n b s := (mk_Event k%N n b s) (only parsing).

Record Manifest := {
  m_Harness : HarnessID;
  m_Version : string;
  m_Events : list Event;
}.

Definition ClaudeCode__2_1_261 : Manifest :=
  {| m_Harness := HarnessClaudeCode; m_Version := "2.1.261"; m_Events :=
    [event 1 "SessionStart" NonBlocking StopLoopNotApplicable;
     event 2 "Setup" NonBlocking StopLoopNotApplicable;
     event 3 "SessionEnd" NonBlocking StopLoopNotApplicable;
     event 4 "UserPromptSubmit" Blocking StopLoopNotApplicable;
     event 5 "UserPromptExpansion" Blocking StopLoopNotApplicable;
     event 6 "Stop" Blocking StopLoopConsultWhenInactive;
     event 7 "StopFailure" NonBlocking StopLoopNotApplicable;
     event 8 "PreToolUse" Blocking StopLoopNotApplicable;
     event 9 "PermissionRequest" Blocking StopLoopNotApplicable;
     event 10 "PermissionDenied" NonBlocking StopLoopNotApplicable;
     event 11 "PostToolUse" NonBlocking StopLoopNotApplicable;
     event 12 "PostToolUseFailure" NonBlocking StopLoopNotApplicable;
     event 13 "PostToolBatch" Blocking StopLoopNotApplicable;
     event 14 "FileChanged" NonBlocking StopLoopNotApplicable;
     event 15 "CwdChanged" NonBlocking StopLoopNotApplicable;
     event 16 "ConfigChange" ConditionallyBlocking StopLoopNotApplicable;
     event 17 "InstructionsLoaded" NonBlocking StopLoopNotApplicable;
     event 18 "WorktreeCreate" Blocking StopLoopNotApplicable;
     event 19 "WorktreeRemove" NonBlocking StopLoopNotApplicable;
     event 20 "SubagentStart" NonBlocking StopLoopNotApplicable;
     event 21 "SubagentStop" Blocking StopLoopConsultWhenInactive;
     event 22 "TeammateIdle" Blocking StopLoopNotApplicable;
     event 23 "TaskCreated" Blocking StopLoopNotApplicable;
     event 24 "TaskCompleted" Blocking StopLoopNotApplicable;
     event 25 "PreCompact" Blocking StopLoopNotApplicable;
     event 26 "PostCompact" NonBlocking StopLoopNotApplicable;
     event 27 "Notification" NonBlocking StopLoopNotApplicable;
     event 28 "MessageDisplay" NonBlocking StopLoopNotApplicable;
     event 29 "Elicitation" Blocking StopLoopNotApplicable;
     event 30 "ElicitationResult" Blocking StopLoopNotApplicable;
     event 31 "PreModelSwitch" Blocking StopLoopNotApplicable;
     event 32 "PostModelSwitch" NonBlocking StopLoopNotApplicable;
     event 33 "DirectoryAdded" NonBlocking StopLoopNotApplicable] |}.

Definition Codex__0_153_0 : Manifest :=
  {| m_Harness := HarnessCodex; m_Version := "0.153.0"; m_Events :=
    [event 81 "SessionStart" NonBlocking StopLoopNotApplicable;
     event 82 "UserPromptSubmit" Blocking StopLoopNotApplicable;
     event 83 "PreToolUse" Blocking StopLoopNotApplicable;
     event 84 "PermissionRequest" Blocking StopLoopNotApplicable;
     event 85 "PostToolUse" Blocking StopLoopNotApplicable;
     event 86 "PreCompact" Blocking StopLoopNotApplicable;
     event 87 "PostCompact" NonBlocking StopLoopNotApplicable;
     event 88 "SubagentStart" NonBlocking StopLoopNotApplicable;
     event 89 "SubagentStop" Blocking StopLoopConsultWhenInactive;
     event 90 "Stop" Blocking StopLoopConsultWhenInactive;
     event 91 "SessionEnd" NonBlocking StopLoopNotApplicable;
     event 92 "Interrupt" NonBlocking StopLoopNotApplicable] |}.

Definition OpenCode__1_18_29 : Manifest :=
  {| m_Harness := HarnessOpenCode; m_Version := "1.18.29"; m_Events :=
    [event 34 "command.executed" NonBlocking StopLoopNotApplicable;
     event 35 "file.edited" NonBlocking StopLoopNotApplicable;
     event 36 "file.watcher.updated" NonBlocking StopLoopNotApplicable;
     event 37 "installation.updated" NonBlocking StopLoopNotApplicable;
     event 38 "installation.update-available" NonBlocking StopLoopNotApplicable;
     event 39 "lsp.client.diagnostics" NonBlocking StopLoopNotApplicable;
     event 40 "lsp.updated" NonBlocking StopLoopNotApplicable;
     event 41 "message.updated" NonBlocking StopLoopNotApplicable;
     event 42 "message.removed" NonBlocking StopLoopNotApplicable;
     event 43 "message.part.updated" NonBlocking StopLoopNotApplicable;
     event 44 "message.part.removed" NonBlocking StopLoopNotApplicable;
     event 45 "permission.updated" NonBlocking StopLoopNotApplicable;
     event 46 "permission.replied" NonBlocking StopLoopNotApplicable;
     event 47 "server.connected" NonBlocking StopLoopNotApplicable;
     event 48 "server.instance.disposed" NonBlocking StopLoopNotApplicable;
     event 49 "session.created" NonBlocking StopLoopNotApplicable;
     event 50 "session.updated" NonBlocking StopLoopNotApplicable;
     event 51 "session.deleted" NonBlocking StopLoopNotApplicable;
     event 52 "session.compacted" NonBlocking StopLoopNotApplicable;
     event 53 "session.diff" NonBlocking StopLoopNotApplicable;
     event 54 "session.error" NonBlocking StopLoopNotApplicable;
     event 55 "session.idle" NonBlocking StopLoopNotApplicable;
     event 56 "session.status" NonBlocking StopLoopNotApplicable;
     event 57 "todo.updated" NonBlocking StopLoopNotApplicable;
     event 58 "tui.prompt.append" NonBlocking StopLoopNotApplicable;
     event 59 "tui.command.execute" NonBlocking StopLoopNotApplicable;
     event 60 "tui.toast.show" NonBlocking StopLoopNotApplicable;
     event 61 "pty.created" NonBlocking StopLoopNotApplicable;
     event 62 "pty.updated" NonBlocking StopLoopNotApplicable;
     event 63 "pty.exited" NonBlocking StopLoopNotApplicable;
     event 64 "pty.deleted" NonBlocking StopLoopNotApplicable;
     event 65 "vcs.branch.updated" NonBlocking StopLoopNotApplicable;
     event 66 "chat.message" Blocking StopLoopNotApplicable;
     event 67 "chat.params" Blocking StopLoopNotApplicable;
     event 68 "chat.headers" Blocking StopLoopNotApplicable;
     event 69 "permission.ask" Blocking StopLoopNotApplicable;
     event 70 "command.execute.before" Blocking StopLoopNotApplicable;
     event 71 "tool.execute.before" Blocking StopLoopNotApplicable;
     event 72 "shell.env" Blocking StopLoopNotApplicable;
     event 73 "tool.execute.after" Blocking StopLoopNotApplicable;
     event 74 "experimental.chat.messages.transform" Blocking StopLoopNotApplicable;
     event 75 "experimental.chat.system.transform" Blocking StopLoopNotApplicable;
     event 76 "experimental.provider.small_model" Blocking StopLoopNotApplicable;
     event 77 "experimental.session.compacting" Blocking StopLoopNotApplicable;
     event 78 "experimental.compaction.autocontinue" Blocking StopLoopNotApplicable;
     event 79 "experimental.text.complete" Blocking StopLoopNotApplicable;
     event 80 "tool.definition" Blocking StopLoopNotApplicable] |}.

Definition OpenCode__2_0_20 : Manifest :=
  {| m_Harness := HarnessOpenCode; m_Version := "2.0.20"; m_Events :=
    [event 93 "session.created" NonBlocking StopLoopNotApplicable;
     event 94 "session.prompt" Blocking StopLoopNotApplicable;
     event 95 "session.context" Blocking StopLoopNotApplicable;
     event 96 "session.compaction" Blocking StopLoopNotApplicable;
     event 97 "session.generate" Blocking StopLoopNotApplicable;
     event 98 "session.title" Blocking StopLoopNotApplicable;
     event 99 "session.model.request" Blocking StopLoopNotApplicable;
     event 100 "session.http.request" Blocking StopLoopNotApplicable;
     event 101 "session.http.response" Blocking StopLoopNotApplicable;
     event 102 "session.experimental.ws.handshake" Blocking StopLoopNotApplicable;
     event 103 "session.experimental.ws.send" Blocking StopLoopNotApplicable;
     event 104 "session.experimental.ws.receive" Blocking StopLoopNotApplicable;
     event 105 "session.retry" Blocking StopLoopNotApplicable;
     event 106 "tool.execute.before" Blocking StopLoopNotApplicable;
     event 107 "tool.execute.after" Blocking StopLoopNotApplicable;
     event 108 "permission.evaluate" Blocking StopLoopNotApplicable;
     event 109 "shell.create.before" Blocking StopLoopNotApplicable] |}.

Definition Manifests : list Manifest :=
  [ClaudeCode__2_1_261; Codex__0_153_0; OpenCode__1_18_29; OpenCode__2_0_20].
