(* ===== verification/GateAuthority.v ===== *)
(** GateAuthority: action classes, task phases, assignment roles, the two
    legality tables and the classification of host events
    (internal/lifecycle/gateauthority).

    The enumerations are uint8 values with an invalid zero and an exclusive
    ceiling; every list of arms is derived from the ceiling, as in the source. *)

From Stdlib Require Import NArith Lia Ascii String.
From stdpp Require Import base tactics list strings gmap pretty sorting.
From S2P Require Import Prelude Registration.
Local Open Scope string_scope.

(** [for arm := Unset + 1; arm < ceiling; arm++]. *)
Fixpoint arms_from (fuel : nat) (arm ceiling : N) : list N :=
  match fuel with
  | O => []
  | S f => if (arm <? ceiling)%N then arm :: arms_from f (arm + 1)%N ceiling else []
  end.
Definition arms (ceiling : N) : list N := arms_from (N.to_nat ceiling) 1 ceiling.
Definition arm_valid (ceiling a : N) : bool := ((0 <? a) && (a <? ceiling))%N.

(** Rendering through a token table, with the named invalid value. *)
Definition render_arm (tokens : gmap N string) (unset ty : string) (a : N) : string :=
  match tokens !! a with
  | Some token => token
  | None => if (a =? 0)%N then unset else ty ++ "(" ++ pretty a ++ ")"
  end.

(** ** ActionClass *)
Abbreviation ActionClass := N (only parsing).
Definition ActionUnset : ActionClass := 0%N.
Definition ActionToolUse : ActionClass := 1%N.
Definition ActionPromptSubmit : ActionClass := 2%N.
Definition ActionStop : ActionClass := 3%N.
Definition ActionSubagent : ActionClass := 4%N.
Definition ActionWorktree : ActionClass := 5%N.
Definition ActionCompact : ActionClass := 6%N.
Definition ActionConfigChange : ActionClass := 7%N.
Definition ActionTaskLifecycle : ActionClass := 8%N.
Definition ActionPermission : ActionClass := 9%N.
Definition ActionPostHoc : ActionClass := 10%N.
Definition ActionObservation : ActionClass := 11%N.
Definition actionClassCeiling : ActionClass := 12%N.

Definition ActionClasses : list ActionClass := arms actionClassCeiling.
Definition ActionClass_IsValid (a : ActionClass) : bool := arm_valid actionClassCeiling a.
Definition actionClassTokens : gmap ActionClass string := list_to_map
  [(ActionToolUse, "tool-use"); (ActionPromptSubmit, "prompt-submit");
   (ActionStop, "stop"); (ActionSubagent, "subagent");
   (ActionWorktree, "worktree"); (ActionCompact, "compact");
   (ActionConfigChange, "config-change"); (ActionTaskLifecycle, "task-lifecycle");
   (ActionPermission, "permission"); (ActionPostHoc, "post-hoc");
   (ActionObservation, "observation")].
Definition ActionClass_String (a : ActionClass) : string :=
  render_arm actionClassTokens "action-unset" "ActionClass" a.

(** ** TaskPhase *)
Abbreviation TaskPhase := N (only parsing).
Definition TaskPhaseUnset : TaskPhase := 0%N.
Definition PhaseRequest : TaskPhase := 1%N.
Definition PhaseElicit : TaskPhase := 2%N.
Definition PhasePropose : TaskPhase := 3%N.
Definition PhaseReview : TaskPhase := 4%N.
Definition PhasePlanUAT : TaskPhase := 5%N.
Definition PhaseRatify : TaskPhase := 6%N.
Definition PhaseHandoff : TaskPhase := 7%N.
Definition PhaseImplPlan : TaskPhase := 8%N.
Definition PhaseWorkerSlices : TaskPhase := 9%N.
Definition PhaseCodeReview : TaskPhase := 10%N.
Definition PhaseImplUAT : TaskPhase := 11%N.
Definition PhaseLanding : TaskPhase := 12%N.
Definition PhaseUnscoped : TaskPhase := 13%N.
Definition taskPhaseCeiling : TaskPhase := 14%N.

Definition TaskPhases : list TaskPhase := arms taskPhaseCeiling.
Definition TaskPhase_IsValid (p : TaskPhase) : bool := arm_valid taskPhaseCeiling p.
Definition taskPhaseTokens : gmap TaskPhase string := list_to_map
  [(PhaseRequest, "request"); (PhaseElicit, "elicit"); (PhasePropose, "propose");
   (PhaseReview, "review"); (PhasePlanUAT, "plan_uat"); (PhaseRatify, "ratify");
   (PhaseHandoff, "handoff"); (PhaseImplPlan, "impl_plan");
   (PhaseWorkerSlices, "worker_slices"); (PhaseCodeReview, "code_review");
   (PhaseImplUAT, "impl_uat"); (PhaseLanding, "landing");
   (PhaseUnscoped, "unscoped")].
Definition TaskPhase_String (p : TaskPhase) : string :=
  render_arm taskPhaseTokens "phase-unset" "TaskPhase" p.

(** The task store's phase and its validity belong to the provenance module;
    [uint8(p) + 1] is arithmetic modulo 256. *)
Definition PhaseFromProvenance (store_IsValid : Z -> bool) (p : Z) : TaskPhase * bool :=
  if negb (store_IsValid p) then (TaskPhaseUnset, false)
  else
    let mapped := ((Z.to_N (p mod 256) + 1) mod 256)%N in
    if negb (TaskPhase_IsValid mapped) then (TaskPhaseUnset, false) else (mapped, true).

(** ** AssignmentRole *)
Abbreviation AssignmentRole := N (only parsing).
Definition RoleUnset : AssignmentRole := 0%N.
Definition RoleOwnerResponsibility : AssignmentRole := 1%N.
Definition RoleGoverningSupervisor : AssignmentRole := 2%N.
Definition RoleAxisReviewer : AssignmentRole := 3%N.
Definition assignmentRoleCeiling : AssignmentRole := 4%N.

Definition AssignmentRoles : list AssignmentRole := arms assignmentRoleCeiling.
Definition AssignmentRole_IsValid (r : AssignmentRole) : bool :=
  arm_valid assignmentRoleCeiling r.
Definition assignmentRoleTokens : gmap AssignmentRole string := list_to_map
  [(RoleOwnerResponsibility, "owner-responsibility");
   (RoleGoverningSupervisor, "governing-supervisor");
   (RoleAxisReviewer, "axis-reviewer")].
Definition AssignmentRole_String (r : AssignmentRole) : string :=
  render_arm assignmentRoleTokens "role-unset" "AssignmentRole" r.

(** Go ranges over the map in an unspecified order: [order] is the order of
    one run, any permutation of the map's entries. *)
Definition RoleFromToken (order : list (AssignmentRole * string)) (token : string)
    : AssignmentRole * bool :=
  match List.find (fun '(_, known) => String.eqb known token) order with
  | Some (role, _) => (role, true)
  | None => (RoleUnset, false)
  end.

(** ** Episodes, claims and authority *)
Record Episode := {
  ep_Assignment : string;
  ep_Task : string;
  ep_Role : AssignmentRole;
  ep_Phase : TaskPhase;
}.
Record SessionClaim := {
  sc_Bound : bool;
  sc_Actor : string;
  sc_Session : string;
  sc_Known : bool;
  sc_AttributionOnly : bool;
}.
Record ActorAuthority := {
  aa_Actor : string;
  aa_Episodes : list Episode;
}.

(** ** Legality tables (tables.go) *)
Abbreviation Verdict := N (only parsing).
Definition VerdictUnset : Verdict := 0%N.
Definition VerdictAllow : Verdict := 1%N.
Definition VerdictDeny : Verdict := 2%N.
Definition VerdictRefuse : Verdict := 3%N.
Definition verdictCeiling : Verdict := 4%N.
Definition Verdicts : list Verdict := arms verdictCeiling.
Definition Verdict_IsValid (v : Verdict) : bool := arm_valid verdictCeiling v.
Definition Verdict_String (v : Verdict) : string :=
  if (v =? VerdictAllow)%N then "allow"
  else if (v =? VerdictDeny)%N then "deny"
  else if (v =? VerdictRefuse)%N then "refuse"
  else if (v =? VerdictUnset)%N then "verdict-unset"
  else "Verdict(" ++ pretty v ++ ")".

Definition neverDeniedActions : gset ActionClass :=
  {[ ActionStop; ActionCompact; ActionPermission; ActionPostHoc;
     ActionPromptSubmit; ActionObservation ]}.

Definition roleDenials : gmap AssignmentRole (list ActionClass) := list_to_map
  [(RoleAxisReviewer,
    [ActionWorktree; ActionSubagent; ActionConfigChange; ActionTaskLifecycle])].

Definition phaseDenials : gmap TaskPhase (list ActionClass) := list_to_map
  [(PhasePlanUAT, [ActionWorktree; ActionSubagent; ActionTaskLifecycle]);
   (PhaseRatify, [ActionWorktree; ActionSubagent; ActionTaskLifecycle]);
   (PhaseImplUAT, [ActionWorktree; ActionSubagent; ActionTaskLifecycle]);
   (PhaseLanding, [ActionWorktree; ActionSubagent])].

(** The panics of [buildGrid]. *)
Inductive GridFault :=
  | UnknownRow
  | InvalidAction (row action : N)
  | NeverDenied (row action : N)
  | ListedTwice (row action : N).

Abbreviation Grid := (gmap N (gmap ActionClass Verdict)) (only parsing).

Fixpoint place_denials (row : N) (denied : list ActionClass) (seen : gset ActionClass)
    (cells : gmap ActionClass Verdict) : result GridFault (gmap ActionClass Verdict) :=
  match denied with
  | [] => Ok cells
  | action :: rest =>
      if negb (ActionClass_IsValid action) then Err (InvalidAction row action)
      else if bool_decide (action ∈ neverDeniedActions) then Err (NeverDenied row action)
      else if bool_decide (action ∈ seen) then Err (ListedTwice row action)
      else place_denials row rest ({[action]} ∪ seen) (<[action := VerdictDeny]> cells)
  end.

Definition allow_all : gmap ActionClass Verdict :=
  list_to_map ((fun a => (a, VerdictAllow)) <$> ActionClasses).

Fixpoint fill_rows (rows : list N) (denials : gmap N (list ActionClass)) (grid : Grid)
    : result GridFault Grid :=
  match rows with
  | [] => Ok grid
  | row :: rest =>
      cells ← place_denials row (default [] (denials !! row)) ∅ allow_all;
      fill_rows rest denials (<[row := cells]> grid)
  end.

Definition buildGrid (rows : list N) (denials : gmap N (list ActionClass))
    : result GridFault Grid :=
  if negb (forallb (fun '(row, _) => existsb (N.eqb row) rows) (map_to_list denials))
  then Err UnknownRow
  else fill_rows rows denials ∅.

Definition gridVerdict (grid : Grid) (row : N) (action : ActionClass) : Verdict :=
  match grid !! row with
  | None => VerdictRefuse
  | Some cells =>
      match cells !! action with
      | None => VerdictRefuse
      | Some v => if Verdict_IsValid v then v else VerdictRefuse
      end
  end.

(** The tables as [init] leaves them; a panic would leave none. *)
Definition RoleActionTable : Grid :=
  match buildGrid AssignmentRoles roleDenials with Ok g => g | Err _ => ∅ end.
Definition PhaseActionTable : Grid :=
  match buildGrid TaskPhases phaseDenials with Ok g => g | Err _ => ∅ end.
Definition RoleVerdict (role : AssignmentRole) (action : ActionClass) : Verdict :=
  gridVerdict RoleActionTable role action.
Definition PhaseVerdict (phase : TaskPhase) (action : ActionClass) : Verdict :=
  gridVerdict PhaseActionTable phase action.

(** ** Event classification (eventclass.go) *)
Definition eventClasses : gmap string (gmap string ActionClass) := list_to_map
  [(HarnessClaudeCode, list_to_map
    [("SessionStart", ActionObservation);
     ("Setup", ActionObservation);
     ("SessionEnd", ActionObservation);
     ("InstructionsLoaded", ActionObservation);
     ("Notification", ActionObservation);
     ("MessageDisplay", ActionObservation);
     ("TeammateIdle", ActionObservation);
     ("FileChanged", ActionObservation);
     ("CwdChanged", ActionObservation);
     ("DirectoryAdded", ActionObservation);
     ("Elicitation", ActionObservation);
     ("ElicitationResult", ActionObservation);
     ("PreModelSwitch", ActionObservation);
     ("PostModelSwitch", ActionObservation);
     ("StopFailure", ActionObservation);
     ("PostCompact", ActionObservation);
     ("WorktreeRemove", ActionObservation);
     ("SubagentStart", ActionObservation);
     ("PostToolUse", ActionObservation);
     ("PostToolUseFailure", ActionObservation);
     ("PermissionDenied", ActionObservation);
     ("UserPromptSubmit", ActionPromptSubmit);
     ("UserPromptExpansion", ActionPromptSubmit);
     ("PreToolUse", ActionToolUse);
     ("PermissionRequest", ActionPermission);
     ("PostToolBatch", ActionPostHoc);
     ("Stop", ActionStop);
     ("SubagentStop", ActionSubagent);
     ("PreCompact", ActionCompact);
     ("ConfigChange", ActionConfigChange);
     ("WorktreeCreate", ActionWorktree);
     ("TaskCreated", ActionTaskLifecycle);
     ("TaskCompleted", ActionTaskLifecycle)]);
   (HarnessCodex, list_to_map
    [("SessionStart", ActionObservation);
     ("SessionEnd", ActionObservation);
     ("SubagentStart", ActionObservation);
     ("Interrupt", ActionObservation);
     ("UserPromptSubmit", ActionPromptSubmit);
     ("PreToolUse", ActionToolUse);
     ("PermissionRequest", ActionPermission);
     ("PostToolUse", ActionPostHoc);
     ("PreCompact", ActionCompact);
     ("PostCompact", ActionPostHoc);
     ("SubagentStop", ActionSubagent);
     ("Stop", ActionStop)]);
   (HarnessOpenCode, list_to_map
    [("command.executed", ActionObservation);
     ("file.edited", ActionObservation);
     ("file.watcher.updated", ActionObservation);
     ("installation.updated", ActionObservation);
     ("installation.update-available", ActionObservation);
     ("lsp.client.diagnostics", ActionObservation);
     ("lsp.updated", ActionObservation);
     ("message.updated", ActionObservation);
     ("message.removed", ActionObservation);
     ("message.part.updated", ActionObservation);
     ("message.part.removed", ActionObservation);
     ("permission.updated", ActionObservation);
     ("permission.replied", ActionObservation);
     ("server.connected", ActionObservation);
     ("server.instance.disposed", ActionObservation);
     ("session.created", ActionObservation);
     ("session.updated", ActionObservation);
     ("session.deleted", ActionObservation);
     ("session.compacted", ActionObservation);
     ("session.diff", ActionObservation);
     ("session.error", ActionObservation);
     ("session.idle", ActionObservation);
     ("session.status", ActionObservation);
     ("todo.updated", ActionObservation);
     ("tui.prompt.append", ActionObservation);
     ("tui.command.execute", ActionObservation);
     ("tui.toast.show", ActionObservation);
     ("pty.created", ActionObservation);
     ("pty.updated", ActionObservation);
     ("pty.exited", ActionObservation);
     ("pty.deleted", ActionObservation);
     ("vcs.branch.updated", ActionObservation);
     ("chat.message", ActionObservation);
     ("chat.params", ActionObservation);
     ("chat.headers", ActionObservation);
     ("shell.env", ActionObservation);
     ("experimental.chat.messages.transform", ActionObservation);
     ("experimental.chat.system.transform", ActionObservation);
     ("experimental.provider.small_model", ActionObservation);
     ("experimental.session.compacting", ActionObservation);
     ("experimental.compaction.autocontinue", ActionObservation);
     ("experimental.text.complete", ActionObservation);
     ("tool.definition", ActionObservation);
     ("permission.ask", ActionPermission);
     ("command.execute.before", ActionToolUse);
     ("tool.execute.before", ActionToolUse);
     ("tool.execute.after", ActionPostHoc);
     ("session.prompt", ActionPromptSubmit);
     ("session.context", ActionObservation);
     ("session.compaction", ActionCompact);
     ("session.generate", ActionObservation);
     ("session.title", ActionObservation);
     ("session.model.request", ActionObservation);
     ("session.http.request", ActionObservation);
     ("session.http.response", ActionObservation);
     ("session.experimental.ws.handshake", ActionObservation);
     ("session.experimental.ws.send", ActionObservation);
     ("session.experimental.ws.receive", ActionObservation);
     ("session.retry", ActionObservation);
     ("permission.evaluate", ActionPermission);
     ("shell.create.before", ActionObservation)])].

Definition event_class (harness : HarnessID) (nativeName : string) : option ActionClass :=
  byName ← eventClasses !! harness; byName !! nativeName.

Definition ClassForEvent (harness : HarnessID) (nativeName : string) : ActionClass * bool :=
  match event_class harness nativeName with
  | Some class => if ActionClass_IsValid class then (class, true) else (ActionUnset, false)
  | None => (ActionUnset, false)
  end.

(** The faults of the start-up check; the lists are what the messages name. *)
Inductive ClassFault :=
  | NoManifests
  | NoEvents
  | Unclassified (events : list (HarnessID * string))
  | UnknownEntries (entries : list (HarnessID * string)).

Definition registered_events (manifests : list Manifest) : list (HarnessID * string) :=
  m ← manifests; (fun e => (m_Harness m, ev_NativeName e)) <$> m_Events m.

Definition classified (e : HarnessID * string) : bool :=
  match event_class e.1 e.2 with Some c => ActionClass_IsValid c | None => false end.

Definition class_entries : list (HarnessID * string) :=
  '(h, byName) ← map_to_list eventClasses; (fun p => (h, p.1)) <$> map_to_list byName.

Definition checkEventClassesAreTotal (manifests : list Manifest) : result ClassFault unit :=
  match manifests with
  | [] => Err NoManifests
  | _ =>
      let registered := registered_events manifests in
      let unclassified := List.filter (fun e => negb (classified e)) registered in
      let unknown := List.filter (fun e => negb (bool_decide (e ∈ registered)))
                                 class_entries in
      match registered, unclassified, unknown with
      | [], _, _ => Err NoEvents
      | _, _ :: _, _ => Err (Unclassified unclassified)
      | _, [], _ :: _ => Err (UnknownEntries unknown)
      | _, [], [] => Ok tt
      end
  end.

(** ** Reachability of denied cells *)
Abbreviation TableName := N (only parsing).
Definition TableRole : TableName := 1%N.
Definition TablePhase : TableName := 2%N.

Record HarnessReach := mk_Reach { hr_Harness : HarnessID; hr_Events : list string }.
Record CellReachability := mk_Cell {
  cr_Table : TableName;
  cr_Role : AssignmentRole;
  cr_Phase : TaskPhase;
  cr_Action : ActionClass;
  cr_Harnesses : list HarnessReach;
  cr_Reachable : bool;
}.

Definition string_le (a b : string) : Prop := String.leb a b = true.
#[export] Instance string_le_dec a b : Decision (string_le a b).
Proof. unfold string_le. apply _. Defined.

Definition reaches (harness : HarnessID) (action : ActionClass) (e : Event) : bool :=
  let '(class, ok) := ClassForEvent harness (ev_NativeName e) in
  ok && (class =? action)%N
  && ((ev_Blocking e =? Blocking)%N || (ev_Blocking e =? ConditionallyBlocking)%N)
  && (ev_StopLoop e =? StopLoopNotApplicable)%N.

Definition reachingEvents (m : Manifest) (action : ActionClass) : list string :=
  merge_sort string_le
    (ev_NativeName <$> List.filter (reaches (m_Harness m) action) (m_Events m)).

(** [union] with its order of first appearance: a harness's names are extended
    by the new ones. *)
Definition add_names (old new : list string) : list string :=
  foldl (fun acc n => if bool_decide (n ∈ acc) then acc else acc ++ [n])%list old new.

Fixpoint merge_reach (acc : list HarnessReach) (h : HarnessID) (names : list string)
    : list HarnessReach :=
  match acc with
  | [] => [mk_Reach h (add_names [] names)]
  | r :: rest =>
      if String.eqb (hr_Harness r) h
      then mk_Reach h (add_names (hr_Events r) names) :: rest
      else r :: merge_reach rest h names
  end.

Definition cell_harnesses (manifests : list Manifest) (action : ActionClass)
    : list HarnessReach :=
  foldl (fun acc m => merge_reach acc (m_Harness m) (reachingEvents m action))
        [] manifests.

Definition add_cell (manifests : list Manifest) (table role phase action : N)
    : CellReachability :=
  let hs := cell_harnesses manifests action in
  mk_Cell table role phase action hs
    (existsb (fun r => (0 <? length (hr_Events r))%nat) hs).

Definition buildDeniedCellReachability (manifests : list Manifest) : list CellReachability :=
  (role ← AssignmentRoles; action ← ActionClasses;
   if (RoleVerdict role action =? VerdictDeny)%N
   then [add_cell manifests TableRole role 0 action] else []) ++
  (phase ← TaskPhases; action ← ActionClasses;
   if (PhaseVerdict phase action =? VerdictDeny)%N
   then [add_cell manifests TablePhase 0 phase action] else []).

(** * Theorems *)

(** ** Enumerations *)

Lemma arms_from_elem fuel a c x :
  (c <= a + N.of_nat fuel)%N -> x ∈ arms_from fuel a c <-> (a <= x < c)%N.
Proof.
  revert a. induction fuel as [|f IH]; intros a H; simpl.
  - rewrite elem_of_nil. lia.
  - destruct (N.ltb_spec a c).
    + rewrite elem_of_cons, IH by lia. lia.
    + rewrite elem_of_nil. lia.
Qed.

Lemma arms_elem c x : x ∈ arms c <-> arm_valid c x = true.
Proof.
  unfold arms, arm_valid. rewrite arms_from_elem by lia.
  rewrite andb_true_iff, !N.ltb_lt. lia.
Qed.

Lemma arms_decide c x : bool_decide (x ∈ arms c) = arm_valid c x.
Proof. apply eq_true_iff_eq. rewrite bool_decide_eq_true. apply arms_elem. Qed.

(** ** The grid builder *)

Definition denied_of (denials : gmap N (list ActionClass)) (row : N) : list ActionClass :=
  default [] (denials !! row).

(** What an exception list may express. *)
Definition expressible (denied : list ActionClass) : Prop :=
  NoDup denied /\
  forall a, a ∈ denied -> ActionClass_IsValid a = true /\ a ∉ neverDeniedActions.

Lemma place_denials_ok row denied seen cells g :
  place_denials row denied seen cells = Ok g ->
  NoDup denied /\
  (forall a, a ∈ denied -> ActionClass_IsValid a = true /\ (a ∉ neverDeniedActions) /\ (a ∉ seen)) /\
  (forall a, g !! a = if bool_decide (a ∈ denied) then Some VerdictDeny else cells !! a).
Proof.
  revert seen cells. induction denied as [|x rest IH]; intros seen cells H; simpl in H.
  - injection H as <-. split_and!; [constructor|intros ? []%elem_of_nil|done].
  - destruct (ActionClass_IsValid x) eqn:Hv; simpl in H; [|done].
    case_bool_decide as Hn; [done|]. case_bool_decide as Hs; [done|].
    apply IH in H as (Hd & Hr & Hl). clear IH.
    assert (Hx : x ∉ rest).
    { intros Hx. destruct (Hr x Hx) as (_ & _ & Hx'). apply Hx'.
      apply elem_of_union_l, elem_of_singleton. done. }
    split_and!.
    + by constructor.
    + intros a [->|Ha]%elem_of_cons; [done|]. destruct (Hr a Ha) as (? & ? & Ha').
      split_and!; [done..|]. intros ?. by apply Ha', elem_of_union_r.
    + intros a. rewrite Hl. destruct (decide (a = x)) as [->|Hne].
      * rewrite bool_decide_eq_false_2, bool_decide_eq_true_2, lookup_insert_eq; [done|by left|done].
      * rewrite lookup_insert_ne by done.
        rewrite (bool_decide_ext (a ∈ x :: rest) (a ∈ rest)); [done|].
        rewrite elem_of_cons. split; [intros [?|?]; done|by right].
Qed.

Lemma place_denials_complete row denied seen cells :
  expressible denied -> (forall a, a ∈ denied -> a ∉ seen) ->
  exists g, place_denials row denied seen cells = Ok g.
Proof.
  revert seen cells. induction denied as [|x rest IH]; intros seen cells [Hd He] Hs; simpl;
    [by eexists|].
  apply NoDup_cons in Hd as [Hx Hd]. destruct (He x) as [Hv Hn]; [by left|].
  rewrite Hv. simpl. rewrite !bool_decide_eq_false_2; [|by apply Hs; left|done].
  apply IH; [split; [done|intros a Ha; apply He; by right]|].
  intros a Ha [->%elem_of_singleton|Hin]%elem_of_union; [done|].
  by apply (Hs a); [right|].
Qed.

Lemma fill_rows_ok rows denials grid g :
  fill_rows rows denials grid = Ok g ->
  (forall row, row ∈ rows -> expressible (denied_of denials row)) /\
  (forall row, row ∉ rows -> g !! row = grid !! row) /\
  (forall row, row ∈ rows -> exists cells, g !! row = Some cells /\
     forall a, cells !! a =
       if bool_decide (a ∈ denied_of denials row) then Some VerdictDeny else allow_all !! a).
Proof.
  revert grid. induction rows as [|r rows IH]; intros grid H; cbn [fill_rows] in H.
  - injection H as <-. split_and!; [intros ? []%elem_of_nil|done|intros ? []%elem_of_nil].
  - destruct (place_denials r _ ∅ allow_all) as [cells|] eqn:Hp; [|done].
    change (fill_rows rows denials (<[r:=cells]> grid) = Ok g) in H.
    apply place_denials_ok in Hp as (Hd & He & Hl). apply IH in H as (H1 & H2 & H3).
    split_and!.
    + intros row [->|Hr]%elem_of_cons; [|by apply H1].
      split; [done|]. intros a Ha. by destruct (He a Ha) as (? & ? & ?).
    + intros row [? ?]%not_elem_of_cons. rewrite H2 by done. by rewrite lookup_insert_ne.
    + intros row Hr. destruct (decide (row ∈ rows)) as [Hin|Hin]; [by apply H3|].
      apply elem_of_cons in Hr as [->|Hr]; [|done].
      exists cells. rewrite H2 by done. by rewrite lookup_insert_eq.
Qed.

Lemma fill_rows_complete rows denials grid :
  (forall row, row ∈ rows -> expressible (denied_of denials row)) ->
  exists g, fill_rows rows denials grid = Ok g.
Proof.
  revert grid. induction rows as [|r rows IH]; intros grid H; cbn [fill_rows]; [by eexists|].
  destruct (place_denials_complete r (denied_of denials r) ∅ allow_all) as [cells Hc];
    [apply H; by left|intros ? ? []%not_elem_of_empty|].
  unfold denied_of in Hc. rewrite Hc. apply IH. intros row Hr. apply H. by right.
Qed.

Lemma allow_all_lookup a :
  allow_all !! a = if ActionClass_IsValid a then Some VerdictAllow else None.
Proof.
  unfold allow_all. destruct (ActionClass_IsValid a) eqn:Hv.
  - apply elem_of_list_to_map_1; [apply (bool_decide_unpack _); by vm_compute|].
    apply list_elem_of_fmap. exists a. split; [done|by apply arms_elem].
  - apply not_elem_of_list_to_map_1. intros (p & -> & (b & -> & Hb)%list_elem_of_fmap)%list_elem_of_fmap.
    apply arms_elem in Hb. simpl in Hv. unfold ActionClass_IsValid in Hv. congruence.
Qed.

Lemma buildGrid_known rows (denials : gmap N (list ActionClass)) :
  forallb (fun '(row, _) => existsb (N.eqb row) rows) (map_to_list denials) = true <->
  forall row, is_Some (denials !! row) -> row ∈ rows.
Proof.
  rewrite forallb_forall. split.
  - intros H row [ds Hds]. specialize (H (row, ds)). rewrite existsb_exists in H.
    destruct H as (x & Hx & ->%N.eqb_eq);
      [by apply list_elem_of_In, elem_of_map_to_list|by apply list_elem_of_In].
  - intros H [row ds] Hin. apply existsb_exists. exists row. split; [|apply N.eqb_refl].
    apply list_elem_of_In, H. exists ds. by apply elem_of_map_to_list, list_elem_of_In.
Qed.

Lemma gridVerdict_built rows denials g row action :
  buildGrid rows denials = Ok g ->
  gridVerdict g row action =
    if bool_decide (row ∈ rows) && ActionClass_IsValid action
    then if bool_decide (action ∈ denied_of denials row) then VerdictDeny else VerdictAllow
    else VerdictRefuse.
Proof.
  unfold buildGrid, gridVerdict. destruct (negb _) eqn:Hk; [done|]. intros H.
  apply fill_rows_ok in H as (He & Hn & Hl).
  case_bool_decide as Hr; simpl; [|by rewrite Hn].
  destruct (Hl row Hr) as (cells & -> & Hc). rewrite Hc, allow_all_lookup.
  destruct (He row Hr) as [_ Hv]. case_bool_decide as Ha.
  - by destruct (Hv action Ha) as [-> _].
  - by destruct (ActionClass_IsValid action).
Qed.

(** The table builder succeeds exactly on the exception lists the policy
    may express (known rows; valid, deniable, unrepeated action classes), and
    then every lookup is decided by the rule: deny what the row's list names,
    allow every other valid action, refuse a row or an action that is not an
    arm. *)
Lemma buildGrid_spec rows (denials : gmap N (list ActionClass)) :
  ((exists g, buildGrid rows denials = Ok g) <->
   (forall row, is_Some (denials !! row) -> row ∈ rows) /\
   (forall row, row ∈ rows -> expressible (denied_of denials row))) /\
  (forall g row action, buildGrid rows denials = Ok g ->
   gridVerdict g row action =
     if bool_decide (row ∈ rows) && ActionClass_IsValid action
     then if bool_decide (action ∈ denied_of denials row) then VerdictDeny else VerdictAllow
     else VerdictRefuse).
Proof.
  split; [|intros; by apply gridVerdict_built]. unfold buildGrid.
  destruct (forallb _ _) eqn:Hk; simpl.
  - rewrite buildGrid_known in Hk. split.
    + intros [g Hg]. split; [done|]. by apply fill_rows_ok in Hg as [? _].
    + intros [_ He]. by apply fill_rows_complete.
  - split; [by intros [? ?]|]. intros [Hr _]. apply buildGrid_known in Hr. congruence.
Qed.

Lemma role_table_built : buildGrid AssignmentRoles roleDenials = Ok RoleActionTable.
Proof. vm_compute. reflexivity. Qed.
Lemma phase_table_built : buildGrid TaskPhases phaseDenials = Ok PhaseActionTable.
Proof. vm_compute. reflexivity. Qed.

Lemma RoleVerdict_eqn role action :
  RoleVerdict role action =
    if AssignmentRole_IsValid role && ActionClass_IsValid action
    then if bool_decide (action ∈ denied_of roleDenials role) then VerdictDeny else VerdictAllow
    else VerdictRefuse.
Proof.
  unfold RoleVerdict. rewrite (gridVerdict_built _ _ _ _ _ role_table_built).
  unfold AssignmentRoles. by rewrite arms_decide.
Qed.
Lemma PhaseVerdict_eqn phase action :
  PhaseVerdict phase action =
    if TaskPhase_IsValid phase && ActionClass_IsValid action
    then if bool_decide (action ∈ denied_of phaseDenials phase) then VerdictDeny else VerdictAllow
    else VerdictRefuse.
Proof.
  unfold PhaseVerdict. rewrite (gridVerdict_built _ _ _ _ _ phase_table_built).
  unfold TaskPhases. by rewrite arms_decide.
Qed.

Lemma never_denied_valid a : a ∈ neverDeniedActions -> ActionClass_IsValid a = true.
Proof.
  intros H. apply arms_elem.
  assert (F : forallb (fun a => bool_decide (a ∈ arms actionClassCeiling))
                (elements neverDeniedActions) = true) by (by vm_compute).
  rewrite forallb_forall in F. apply (bool_decide_eq_true _), F.
  by apply list_elem_of_In, elem_of_elements.
Qed.

Lemma denied_deniable rows denials g row a :
  buildGrid rows denials = Ok g -> a ∈ denied_of denials row -> a ∉ neverDeniedActions.
Proof.
  unfold buildGrid. destruct (forallb _ _) eqn:Hk; [|done]. simpl. intros Hg Ha.
  apply fill_rows_ok in Hg as [He _]. apply (He row); [|done].
  apply (proj1 (buildGrid_known _ _) Hk). unfold denied_of in Ha.
  destruct (denials !! row); [by eexists|by apply elem_of_nil in Ha].
Qed.

(** Neither table ever takes the user's own control away. For an action
    class on the never-denied list, every role and every phase answers allow
    (or refuses, when the role or the phase is not an arm), and no table ever
    answers with the unset verdict. *)
Lemma never_denied_allowed role phase action :
  (action ∈ neverDeniedActions ->
   RoleVerdict role action =
     (if AssignmentRole_IsValid role then VerdictAllow else VerdictRefuse) /\
   PhaseVerdict phase action =
     (if TaskPhase_IsValid phase then VerdictAllow else VerdictRefuse)) /\
  Verdict_IsValid (RoleVerdict role action) = true /\
  Verdict_IsValid (PhaseVerdict phase action) = true.
Proof.
  rewrite RoleVerdict_eqn, PhaseVerdict_eqn. split.
  - intros Hn. rewrite (never_denied_valid _ Hn), !andb_true_r.
    rewrite !bool_decide_eq_false_2; [done| |]; intros Ha.
    + by apply (denied_deniable _ _ _ _ _ phase_table_built) in Ha.
    + by apply (denied_deniable _ _ _ _ _ role_table_built) in Ha.
  - split; repeat case_match; done.
Qed.

Lemma never_denied_allowed_witness :
  RoleVerdict RoleAxisReviewer ActionStop = VerdictAllow /\
  PhaseVerdict PhaseRatify ActionStop = VerdictAllow.
Proof.
  assert (H : ActionStop ∈ neverDeniedActions) by (apply (bool_decide_unpack _); vm_compute; exact I).
  exact (proj1 (never_denied_allowed RoleAxisReviewer PhaseRatify ActionStop) H).
Defined.

(** ** Bridges to the task store *)

Lemma role_tokens_injective r1 r2 t :
  assignmentRoleTokens !! r1 = Some t -> assignmentRoleTokens !! r2 = Some t -> r1 = r2.
Proof.
  assert (H : forallb (fun '(r1, t1) => forallb (fun '(r2, t2) =>
    negb (String.eqb t1 t2) || (r1 =? r2)%N) (map_to_list assignmentRoleTokens))
    (map_to_list assignmentRoleTokens) = true) by (by vm_compute).
  intros H1%elem_of_map_to_list%list_elem_of_In H2%elem_of_map_to_list%list_elem_of_In.
  revert H1 H2. generalize dependent (map_to_list assignmentRoleTokens). intros l H H1 H2.
  rewrite forallb_forall in H. specialize (H _ H1). rewrite forallb_forall in H.
  specialize (H _ H2). simpl in H. rewrite String.eqb_refl in H. by apply N.eqb_eq.
Qed.

Lemma RoleFromToken_found order token role :
  order ≡ₚ map_to_list assignmentRoleTokens ->
  RoleFromToken order token = (role, true) <-> assignmentRoleTokens !! role = Some token.
Proof.
  intros Ho. unfold RoleFromToken.
  assert (Hin : forall r t, (r, t) ∈ order <-> assignmentRoleTokens !! r = Some t)
    by (intros; by rewrite Ho, elem_of_map_to_list).
  destruct (List.find _ order) as [[r t]|] eqn:Hf.
  - apply List.find_some in Hf as [Hr Ht%String.eqb_eq]. subst.
    apply list_elem_of_In, Hin in Hr. split; [by intros [= <-]|].
    intros Hl. f_equal. by eapply role_tokens_injective.
  - split; [done|]. intros Hl. apply Hin, list_elem_of_In in Hl.
    apply (List.find_none _ _ Hf) in Hl. by rewrite String.eqb_refl in Hl.
Qed.

(** The token bridge is exact and does not depend on the order in which Go
    walks the token map: whatever the order, a token resolves to a role iff it
    is that role's rendering, every role resolves from its own rendering, and
    an unknown token is refused. *)
Lemma RoleFromToken_String order role token :
  order ≡ₚ map_to_list assignmentRoleTokens ->
  (RoleFromToken order token = (role, true) <->
   AssignmentRole_IsValid role = true /\ AssignmentRole_String role = token) /\
  (RoleFromToken order token).2 = existsb (fun r => String.eqb (AssignmentRole_String r) token)
                                    AssignmentRoles.
Proof.
  intros Ho.
  assert (Hdom : forall r, is_Some (assignmentRoleTokens !! r) <-> AssignmentRole_IsValid r = true).
  { intros r. unfold AssignmentRole_IsValid. rewrite <- elem_of_dom, <- arms_elem.
    assert (E : dom assignmentRoleTokens = list_to_set (arms assignmentRoleCeiling) :> gset N)
      by (by vm_compute). by rewrite E, elem_of_list_to_set. }
  assert (H : forall r, RoleFromToken order token = (r, true) <->
    AssignmentRole_IsValid r = true /\ AssignmentRole_String r = token).
  { intros r. rewrite RoleFromToken_found by done. rewrite <- Hdom.
    unfold AssignmentRole_String, render_arm. split.
    - intros Hl. rewrite Hl. split; [by eexists|done].
    - intros [[t Ht] Hs]. rewrite Ht in Hs. by subst. }
  split; [apply H|]. apply eq_true_iff_eq. rewrite existsb_exists. split.
  - intros Hk. destruct (proj1 (H (RoleFromToken order token).1)) as [Hv Hs];
      [by rewrite <- Hk; destruct (RoleFromToken order token)|].
    eexists. split; [by apply list_elem_of_In, arms_elem|]. by apply String.eqb_eq.
  - intros (r & Hr%list_elem_of_In%arms_elem & Hs%String.eqb_eq).
    by rewrite (proj2 (H r) (conj Hr Hs)).
Qed.

Lemma RoleFromToken_String_witness :
  RoleFromToken (rev (map_to_list assignmentRoleTokens)) "axis-reviewer" = (RoleAxisReviewer, true).
Proof.
  assert (P : rev (map_to_list assignmentRoleTokens) ≡ₚ map_to_list assignmentRoleTokens)
    by (symmetry; apply Permutation_rev).
  apply (proj1 (RoleFromToken_String _ RoleAxisReviewer "axis-reviewer" P)).
  split; vm_compute; reflexivity.
Defined.

(** ** Event classification *)

Lemma ClassForEvent_eqn h n :
  ClassForEvent h n = match event_class h n with
                      | Some c => if ActionClass_IsValid c then (c, true) else (ActionUnset, false)
                      | None => (ActionUnset, false)
                      end.
Proof. done. Qed.

Lemma classified_ok h n : classified (h, n) = true <-> (ClassForEvent h n).2 = true.
Proof.
  unfold classified, ClassForEvent. simpl. destruct (event_class h n) as [c|]; [|done].
  by destruct (ActionClass_IsValid c).
Qed.

Lemma class_entries_elem h n : (h, n) ∈ class_entries <-> is_Some (event_class h n).
Proof.
  unfold class_entries, event_class. rewrite list_elem_of_bind. split.
  - intros ([h' byName] & (p & [= -> ->] & Hp)%list_elem_of_fmap & Hb).
    apply elem_of_map_to_list in Hb. rewrite Hb. simpl. destruct p as [n c].
    apply elem_of_map_to_list in Hp. by exists c.
  - intros [c Hc]. apply bind_Some in Hc as (byName & Hb & Hn). exists (h, byName).
    split; [|by apply elem_of_map_to_list]. apply list_elem_of_fmap. exists (n, c).
    split; [done|by apply elem_of_map_to_list].
Qed.

Lemma filter_nil {A} (f : A -> bool) l :
  List.filter f l = [] <-> forall x, x ∈ l -> f x = false.
Proof.
  induction l as [|y l IH]; simpl.
  - split; [intros _ x []%elem_of_nil|done].
  - destruct (f y) eqn:Hy.
    + split; [done|]. intros H. rewrite (H y) in Hy; [done|by left].
    + rewrite IH. split; intros H x; [intros [->|?]%elem_of_cons; auto|].
      intros ?. apply H. by right.
Qed.

Lemma filter_negb_nil {A} (f : A -> bool) l :
  List.filter (fun x => negb (f x)) l = [] <-> forall x, x ∈ l -> f x = true.
Proof.
  rewrite filter_nil. split; intros H x Hx; specialize (H x Hx); by destruct (f x).
Qed.

Lemma filter_out_nil `{EqDecision A} (l k : list A) :
  List.filter (fun x => negb (bool_decide (x ∈ k))) l = [] <-> forall x, x ∈ l -> x ∈ k.
Proof.
  rewrite filter_negb_nil.
  split; intros H x Hx; specialize (H x Hx); by apply (bool_decide_eq_true _).
Qed.

Lemma check_ok manifests :
  checkEventClassesAreTotal manifests = Ok tt <->
  manifests <> [] /\ registered_events manifests <> [] /\
  (forall e, e ∈ registered_events manifests -> classified e = true) /\
  (forall e, e ∈ class_entries -> e ∈ registered_events manifests).
Proof.
  unfold checkEventClassesAreTotal.
  rewrite <- (filter_negb_nil classified (registered_events manifests)).
  rewrite <- (filter_out_nil class_entries (registered_events manifests)).
  cbv zeta.
  generalize (List.filter (fun e => negb (classified e)) (registered_events manifests)).
  generalize (List.filter (fun e => negb (bool_decide (e ∈ registered_events manifests)))
                class_entries).
  generalize (registered_events manifests). intros r k u.
  destruct manifests; [by split; [|intros (? & _)]|].
  destruct r; [by split; [|intros (_ & ? & _)]|].
  destruct u; [|by split; [|intros (_ & _ & ? & _)]].
  destruct k; [|by split; [|intros (_ & _ & _ & ?)]]. done.
Qed.

(** Once the start-up check accepts the manifests, the classification is
    exactly the registration: an event has a class iff some manifest registers
    it, and that class is a valid arm; and the check accepts the four pinned
    manifests. *)
Lemma classification_total manifests :
  checkEventClassesAreTotal manifests = Ok tt ->
  (forall h n, (ClassForEvent h n).2 = true <-> (h, n) ∈ registered_events manifests) /\
  (forall h n c, ClassForEvent h n = (c, true) -> ActionClass_IsValid c = true).
Proof.
  intros (_ & _ & Hc & Hr)%check_ok. split.
  - intros h n. split.
    + intros Hk. apply Hr, class_entries_elem. unfold ClassForEvent in Hk.
      destruct (event_class h n); [by eexists|done].
    + intros H. by apply classified_ok, Hc.
  - intros h n c. rewrite ClassForEvent_eqn. destruct (event_class h n) as [c'|]; [|done].
    destruct (ActionClass_IsValid c') eqn:E; [|done]. by intros [= <-].
Qed.

Lemma classification_total_witness :
  (ClassForEvent HarnessCodex "Stop").2 = true <->
  (HarnessCodex, "Stop") ∈ registered_events Manifests.
Proof.
  assert (H : checkEventClassesAreTotal Manifests = Ok tt) by (vm_compute; reflexivity).
  exact (proj1 (classification_total Manifests H) HarnessCodex "Stop").
Defined.

(** ** The reachability column *)

Definition nonempty (r : HarnessReach) : bool := (0 <? length (hr_Events r))%nat.

Lemma length_pos {A} (l : list A) : (0 <? length l)%nat = true <-> l <> [].
Proof. destruct l; split; done. Qed.

Lemma add_names_nonempty old new : add_names old new <> [] <-> old <> [] \/ new <> [].
Proof.
  unfold add_names. revert old. induction new as [|n new IH]; intros old; simpl.
  - naive_solver.
  - rewrite IH. case_bool_decide as Hn.
    + split; [naive_solver|]. intros _. left. intros ->. by apply elem_of_nil in Hn.
    + split; [naive_solver|]. intros _. left. by destruct old.
Qed.

Lemma merge_reach_nonempty acc h names :
  existsb nonempty (merge_reach acc h names) = true <->
  existsb nonempty acc = true \/ names <> [].
Proof.
  unfold nonempty. induction acc as [|r rest IH]; simpl.
  - rewrite orb_false_r, length_pos, add_names_nonempty. naive_solver.
  - destruct (String.eqb _ _); simpl; rewrite !orb_true_iff, !length_pos.
    + rewrite add_names_nonempty. naive_solver.
    + rewrite IH. naive_solver.
Qed.

Lemma cell_harnesses_nonempty manifests action acc :
  existsb nonempty (foldl (fun acc m => merge_reach acc (m_Harness m) (reachingEvents m action))
                          acc manifests) = true <->
  existsb nonempty acc = true \/ exists m, m ∈ manifests /\ reachingEvents m action <> [].
Proof.
  revert acc. induction manifests as [|m ms IH]; intros acc; simpl.
  - split; [by left|]. intros [?|(m & []%elem_of_nil & _)]. done.
  - rewrite IH, merge_reach_nonempty. setoid_rewrite elem_of_cons. naive_solver.
Qed.

Lemma reachingEvents_nonempty m action :
  reachingEvents m action <> [] <->
  exists e, e ∈ m_Events m /\ reaches (m_Harness m) action e = true.
Proof.
  unfold reachingEvents. split.
  - intros H. destruct (List.filter _ _) as [|e l] eqn:E; [done|]. exists e.
    assert (He : In e (List.filter (reaches (m_Harness m) action) (m_Events m)))
      by (rewrite E; by left).
    apply List.filter_In in He. by rewrite list_elem_of_In.
  - intros (e & He & Hr) Hn.
    assert (Hin : ev_NativeName e ∈ merge_sort string_le
      (ev_NativeName <$> List.filter (reaches (m_Harness m) action) (m_Events m))).
    { rewrite merge_sort_Permutation. apply list_elem_of_fmap_2.
      apply list_elem_of_In, List.filter_In. split; [by apply list_elem_of_In|done]. }
    rewrite Hn in Hin. by apply elem_of_nil in Hin.
Qed.

Lemma add_cell_reachable manifests t r p a :
  cr_Reachable (add_cell manifests t r p a) = true <->
  exists m e, m ∈ manifests /\ e ∈ m_Events m /\ reaches (m_Harness m) a e = true.
Proof.
  unfold add_cell, cell_harnesses. simpl. rewrite (cell_harnesses_nonempty _ _ []). simpl.
  setoid_rewrite reachingEvents_nonempty. naive_solver.
Qed.

Lemma denied_cells_elem (rows : list N) (verdict : N -> N -> Verdict) (f : N -> N -> CellReachability) c :
  (forall a, a ∉ ActionClasses -> forall r, verdict r a = VerdictRefuse) ->
  (forall r, r ∉ rows -> forall a, verdict r a = VerdictRefuse) ->
  (c ∈ (r ← rows; a ← ActionClasses;
        if (verdict r a =? VerdictDeny)%N then [f r a] else []) <->
   exists r a, verdict r a = VerdictDeny /\ c = f r a).
Proof.
  intros Ha Hr. rewrite list_elem_of_bind. setoid_rewrite list_elem_of_bind. split.
  - intros (r & (a & Hc & _) & _). destruct (N.eqb_spec (verdict r a) VerdictDeny); [|by apply elem_of_nil in Hc].
    apply list_elem_of_singleton in Hc. by exists r, a.
  - intros (r & a & Hv & ->). exists r. split; [exists a; split|].
    + rewrite Hv. by left.
    + destruct (decide (a ∈ ActionClasses)) as [|Hn]; [done|]. by rewrite (Ha a Hn r) in Hv.
    + destruct (decide (r ∈ rows)) as [|Hn]; [done|]. by rewrite (Hr r Hn a) in Hv.
Qed.

(** The published column lists every denied cell of both tables and no
    other cell, and marks a cell reachable exactly when some manifest registers
    an event of the cell's class that can block and carries no stop-loop
    guard. *)
Lemma reachability_column manifests c :
  c ∈ buildDeniedCellReachability manifests <->
  exists row action,
    (RoleVerdict row action = VerdictDeny /\ c = add_cell manifests TableRole row 0 action \/
     PhaseVerdict row action = VerdictDeny /\ c = add_cell manifests TablePhase 0 row action) /\
    (cr_Reachable c = true <->
     exists m e, m ∈ manifests /\ e ∈ m_Events m /\
       ClassForEvent (m_Harness m) (ev_NativeName e) = (action, true) /\
       ev_Blocking e ∈ [Blocking; ConditionallyBlocking] /\
       ev_StopLoop e = StopLoopNotApplicable).
Proof.
  assert (Hreach : forall h a e, reaches h a e = true <->
    ClassForEvent h (ev_NativeName e) = (a, true) /\
    ev_Blocking e ∈ [Blocking; ConditionallyBlocking] /\ ev_StopLoop e = StopLoopNotApplicable).
  { intros h a e. unfold reaches. destruct (ClassForEvent _ _) as [c' ok].
    rewrite !andb_true_iff, orb_true_iff, !N.eqb_eq, !elem_of_cons, elem_of_nil.
    destruct ok; naive_solver. }
  assert (Hcell : forall t r p a, cr_Reachable (add_cell manifests t r p a) = true <->
     exists m e, m ∈ manifests /\ e ∈ m_Events m /\
       ClassForEvent (m_Harness m) (ev_NativeName e) = (a, true) /\
       ev_Blocking e ∈ [Blocking; ConditionallyBlocking] /\
       ev_StopLoop e = StopLoopNotApplicable).
  { intros. rewrite add_cell_reachable. by setoid_rewrite Hreach. }
  unfold buildDeniedCellReachability. rewrite elem_of_app, !denied_cells_elem.
  - split.
    + intros [(r & a & Hv & ->)|(r & a & Hv & ->)]; exists r, a; (split; [by eauto|apply Hcell]).
    + intros (r & a & [[Hv ->]|[Hv ->]] & _); eauto.
  - intros a Ha r. rewrite PhaseVerdict_eqn. unfold ActionClasses in Ha.
    rewrite arms_elem in Ha. unfold ActionClass_IsValid. destruct (arm_valid _ a); [done|].
    by rewrite andb_false_r.
  - intros r Hr a. rewrite PhaseVerdict_eqn. unfold TaskPhases in Hr. rewrite arms_elem in Hr.
    unfold TaskPhase_IsValid. by destruct (arm_valid _ r).
  - intros a Ha r. rewrite RoleVerdict_eqn. unfold ActionClasses in Ha.
    rewrite arms_elem in Ha. unfold ActionClass_IsValid. destruct (arm_valid _ a); [done|].
    by rewrite andb_false_r.
  - intros r Hr a. rewrite RoleVerdict_eqn. unfold AssignmentRoles in Hr. rewrite arms_elem in Hr.
    unfold AssignmentRole_IsValid. by destruct (arm_valid _ r).
Qed.
