(* ===== verification/Verdict.v ===== *)
(** Verdict: evaluated policy verdicts and their canonical wire record
    (internal/lifecycle/waist/decision.go).

    The JSON reader is an interface, [JsonRecord]: the codec relies on it only
    to read back the two plain string members the marshaller wrote, and rejects
    every other record by comparing bytes. *)

From Stdlib Require Import NArith Lia Ascii String.
From stdpp Require Import base tactics list strings.
From S2P Require Import Prelude.
Local Open Scope string_scope.

Abbreviation DecisionKind := N (only parsing).
Definition DecisionKindUnset : DecisionKind := 0%N.
Definition DecisionProceed : DecisionKind := 1%N.
Definition DecisionDeny : DecisionKind := 2%N.
Definition DecisionRequireHuman : DecisionKind := 3%N.

Definition DecisionKind_IsValid (d : DecisionKind) : bool :=
  ((DecisionProceed <=? d) && (d <=? DecisionRequireHuman))%N.
Definition DecisionKind_String (d : DecisionKind) : string :=
  if (d =? DecisionProceed)%N then "proceed"
  else if (d =? DecisionDeny)%N then "deny"
  else if (d =? DecisionRequireHuman)%N then "require-human"
  else EmptyString.

Abbreviation DecisionReason := N (only parsing).
Definition ReasonUnset : DecisionReason := 0%N.
Definition ReasonLegal : DecisionReason := 1%N.
Definition ReasonUnboundSession : DecisionReason := 2%N.
Definition ReasonStopLoopGuard : DecisionReason := 3%N.
Definition ReasonUnknownActor : DecisionReason := 4%N.
Definition ReasonNoActiveAssignment : DecisionReason := 5%N.
Definition ReasonRoleForbidsAction : DecisionReason := 6%N.
Definition ReasonPhaseForbidsAction : DecisionReason := 7%N.
Definition ReasonUnenforcedDeny : DecisionReason := 8%N.
Definition ReasonEvaluationFault : DecisionReason := 9%N.
Definition ReasonAttributionOnlySession : DecisionReason := 10%N.

Definition DecisionReason_IsValid (r : DecisionReason) : bool :=
  ((ReasonLegal <=? r) && (r <=? ReasonAttributionOnlySession))%N.

(** The two switches over the reasons, as one row per case. *)
Definition reason_rows : list (DecisionReason * (string * string)) :=
  [(ReasonLegal, ("legal", "Pasture permits this action."));
   (ReasonUnboundSession, ("unbound-session",
     "This session has no actor claim; the host continues without an assignment decision."));
   (ReasonStopLoopGuard, ("stop-loop-guard",
     "The stop-loop guard lets the host continue without another refusal."));
   (ReasonUnknownActor, ("unknown-actor",
     "Pasture denied this action because the session actor is unknown; bind the session to a registered actor."));
   (ReasonNoActiveAssignment, ("no-active-assignment",
     "Pasture denied this action because the actor has no active assignment; start an authorized assignment before retrying."));
   (ReasonRoleForbidsAction, ("role-forbids-action",
     "Pasture denied this action because the assignment role does not permit it; use an assignment with a permitted role."));
   (ReasonPhaseForbidsAction, ("phase-forbids-action",
     "Pasture denied this action because the assignment phase does not permit it; complete the required phase transition before retrying."));
   (ReasonUnenforcedDeny, ("unenforced-deny",
     "The host continues because this event has no evidenced refusal channel; the policy denial is record-only."));
   (ReasonEvaluationFault, ("evaluation-fault",
     "Pasture could not evaluate this event; this is not a policy denial. Read the lifecycle fault diagnostic and repair the failed evaluation before retrying."));
   (ReasonAttributionOnlySession, ("attribution-only-session",
     "This session has an attribution-only actor; the host continues without an assignment decision."))].

Fixpoint reason_row (rows : list (DecisionReason * (string * string))) (r : DecisionReason)
    : string * string :=
  match rows with
  | [] => (EmptyString, EmptyString)
  | (k, texts) :: rest => if (r =? k)%N then texts else reason_row rest r
  end.
Definition DecisionReason_String (r : DecisionReason) : string := (reason_row reason_rows r).1.
Definition DecisionReason_Message (r : DecisionReason) : string := (reason_row reason_rows r).2.

Record Decision := mk_Decision { d_kind : DecisionKind; d_reason : DecisionReason }.
#[export] Instance Decision_eq_dec : EqDecision Decision.
Proof. solve_decision. Defined.
Definition zero_Decision : Decision := mk_Decision 0%N 0%N.

Definition Decision_IsValid (d : Decision) : bool :=
  let r := d_reason d in
  if (d_kind d =? DecisionProceed)%N then
    ((r =? ReasonLegal) || (r =? ReasonUnboundSession) || (r =? ReasonStopLoopGuard)
     || (r =? ReasonUnenforcedDeny) || (r =? ReasonAttributionOnlySession))%N
  else if ((d_kind d =? DecisionDeny) || (d_kind d =? DecisionRequireHuman))%N then
    ((r =? ReasonUnknownActor) || (r =? ReasonNoActiveAssignment)
     || (r =? ReasonRoleForbidsAction) || (r =? ReasonPhaseForbidsAction))%N
  else false.

Inductive DecisionError :=
  | NotEvaluated (kind : DecisionKind) (reason : DecisionReason)
  | MarshalInvalid
  | NilDestination
  | Unreadable
  | NotCanonical.

Definition NewDecision (kind : DecisionKind) (reason : DecisionReason)
    : result DecisionError Decision :=
  let d := mk_Decision kind reason in
  if negb (Decision_IsValid d) then Err (NotEvaluated kind reason) else Ok d.

(** [json.Marshal] of two string members whose values need no escape: every
    kind and reason rendering is made of lower-case letters and dashes. *)
Definition quote : string := String (ascii_of_N 34) EmptyString.
Definition quoted (s : string) : string := quote ++ s ++ quote.
Definition wire_json (kind reason : string) : string :=
  "{" ++ quoted "decision" ++ ":" ++ quoted kind ++ "," ++ quoted "reason" ++ ":"
  ++ quoted reason ++ "}".

Definition plain_char (c : ascii) : bool :=
  let n := N_of_ascii c in
  ((97 <=? n) && (n <=? 122) || (n =? 45))%N.
Definition plain (s : string) : bool := forallb plain_char (list_ascii_of_string s).

(** What the codec needs of [json.Unmarshal] into the two-member record. *)
Class JsonRecord := {
  json_Unmarshal : string -> option (string * string);
  json_plain : forall kind reason, plain kind = true -> plain reason = true ->
    json_Unmarshal (wire_json kind reason) = Some (kind, reason);
}.

Definition MarshalJSON (d : Decision) : result DecisionError string :=
  if negb (Decision_IsValid d) then Err MarshalInvalid
  else Ok (wire_json (DecisionKind_String (d_kind d)) (DecisionReason_String (d_reason d))).

(** [for candidate := lo; candidate <= hi; candidate++]: the last candidate
    whose rendering matches, zero when none does. *)
Fixpoint match_candidates (render : N -> string) (s : string) (fuel : nat) (candidate : N)
    (found : N) : N :=
  match fuel with
  | O => found
  | S f => match_candidates render s f (candidate + 1)%N
             (if String.eqb (render candidate) s then candidate else found)
  end.
Definition kind_of_token (s : string) : DecisionKind :=
  match_candidates DecisionKind_String s 3 DecisionProceed 0%N.
Definition reason_of_token (s : string) : DecisionReason :=
  match_candidates DecisionReason_String s 10 ReasonLegal 0%N.

(** The receiver [d] is a pointer: [None] is nil. The first component is what
    it points to afterwards. *)
Definition UnmarshalJSON `{JsonRecord} (d : option Decision) (raw : string)
    : option Decision * result DecisionError unit :=
  match d with
  | None => (None, Err NilDestination)
  | Some _ =>
      match json_Unmarshal raw with
      | None => (Some zero_Decision, Err Unreadable)
      | Some (k, r) =>
          match NewDecision (kind_of_token k) (reason_of_token r) with
          | Err e => (Some zero_Decision, Err e)
          | Ok value =>
              match MarshalJSON value with
              | Err e => (Some zero_Decision, Err e)
              | Ok canonical =>
                  if negb (String.eqb raw canonical) then (Some zero_Decision, Err NotCanonical)
                  else (Some value, Ok tt)
              end
          end
      end
  end.

(** * Theorems *)

(** The verdicts [NewDecision] can return. *)
Definition valid_decisions : list Decision :=
  ((mk_Decision DecisionProceed) <$>
     [ReasonLegal; ReasonUnboundSession; ReasonStopLoopGuard; ReasonUnenforcedDeny;
      ReasonAttributionOnlySession]) ++
  (k ← [DecisionDeny; DecisionRequireHuman];
   (mk_Decision k) <$> [ReasonUnknownActor; ReasonNoActiveAssignment;
                        ReasonRoleForbidsAction; ReasonPhaseForbidsAction]).

Lemma Decision_IsValid_elem d : Decision_IsValid d = true <-> d ∈ valid_decisions.
Proof.
  split.
  - destruct d as [k r]. unfold Decision_IsValid. simpl.
    destruct (N.eqb_spec k DecisionProceed) as [->|].
    + rewrite !orb_true_iff, !N.eqb_eq. intros [[[[->| ->]| ->]| ->]| ->];
        by apply (bool_decide_unpack _).
    + destruct (N.eqb_spec k DecisionDeny) as [->|];
        [|destruct (N.eqb_spec k DecisionRequireHuman) as [->|]; [|done]];
        simpl; rewrite !orb_true_iff, !N.eqb_eq; intros [[[->| ->]| ->]| ->];
        by apply (bool_decide_unpack _).
  - intros H. unfold valid_decisions in H. simpl in H. elim_members H; reflexivity.
Qed.

Lemma forall_valid (P : Decision -> bool) d :
  forallb P valid_decisions = true -> Decision_IsValid d = true -> P d = true.
Proof.
  intros H Hd%Decision_IsValid_elem%list_elem_of_In. rewrite forallb_forall in H. auto.
Qed.

Lemma tokens_of_valid d :
  Decision_IsValid d = true ->
  kind_of_token (DecisionKind_String (d_kind d)) = d_kind d /\
  reason_of_token (DecisionReason_String (d_reason d)) = d_reason d /\
  plain (DecisionKind_String (d_kind d)) = true /\
  plain (DecisionReason_String (d_reason d)) = true.
Proof.
  intros H. apply (forall_valid (fun d =>
    (kind_of_token (DecisionKind_String (d_kind d)) =? d_kind d)%N &&
    (reason_of_token (DecisionReason_String (d_reason d)) =? d_reason d)%N &&
    plain (DecisionKind_String (d_kind d)) && plain (DecisionReason_String (d_reason d)))) in H;
    [|by vm_compute].
  rewrite !andb_true_iff, !N.eqb_eq in H. tauto.
Qed.

(** A verdict is never a fault and never unset: [NewDecision] returns a
    value iff the pair is one of the five continuation verdicts or the eight
    refusal verdicts, it then carries exactly the given pair, and no valid
    verdict carries the evaluation-fault reason or an invalid kind or reason. *)
Lemma NewDecision_spec k r :
  (forall d, NewDecision k r = Ok d <-> d = mk_Decision k r /\ d ∈ valid_decisions) /\
  length valid_decisions = 13%nat /\
  (forall d, d ∈ valid_decisions ->
     DecisionKind_IsValid (d_kind d) = true /\ DecisionReason_IsValid (d_reason d) = true /\
     d_reason d <> ReasonEvaluationFault /\
     (d_kind d = DecisionProceed <-> d_reason d ∈
        [ReasonLegal; ReasonUnboundSession; ReasonStopLoopGuard; ReasonUnenforcedDeny;
         ReasonAttributionOnlySession])).
Proof.
  split_and!; [|done|].
  - intros d. rewrite <- Decision_IsValid_elem. unfold NewDecision. cbv zeta.
    destruct (Decision_IsValid (mk_Decision k r)) eqn:E; simpl.
    + split; [by intros [= <-]|by intros [-> _]].
    + split; [done|]. intros [-> H]. congruence.
  - intros d H%Decision_IsValid_elem.
    apply (forall_valid (fun d => DecisionKind_IsValid (d_kind d) &&
      DecisionReason_IsValid (d_reason d) && bool_decide (d_reason d <> ReasonEvaluationFault) &&
      bool_decide (d_kind d = DecisionProceed <-> d_reason d ∈
        [ReasonLegal; ReasonUnboundSession; ReasonStopLoopGuard; ReasonUnenforcedDeny;
         ReasonAttributionOnlySession]))) in H; [|by vm_compute].
    rewrite !andb_true_iff, !bool_decide_eq_true in H. tauto.
Qed.

(** The wire record round trips and nothing else decodes: from any
    receiver, a record decodes iff it is byte for byte the marshalling of a
    valid verdict, the receiver then holds that verdict, and after a failed
    decode it holds no usable verdict. *)
Lemma decision_round_trip `{JsonRecord} d0 raw :
  (forall v, UnmarshalJSON (Some d0) raw = (Some v, Ok tt) <-> MarshalJSON v = Ok raw) /\
  (forall d e, UnmarshalJSON (Some d0) raw = (Some d, Err e) -> Decision_IsValid d = false).
Proof.
  assert (Hm : forall v, MarshalJSON v = Ok raw <-> Decision_IsValid v = true /\
     raw = wire_json (DecisionKind_String (d_kind v)) (DecisionReason_String (d_reason v))).
  { intros v. unfold MarshalJSON. destruct (Decision_IsValid v); simpl; [|naive_solver].
    split; [by intros [= <-]|by intros [_ ->]]. }
  split.
  - intros v. rewrite Hm. unfold UnmarshalJSON. split.
    + destruct (json_Unmarshal raw) as [[k r]|]; [|done].
      unfold NewDecision. destruct (Decision_IsValid (mk_Decision _ _)) eqn:Hv; simpl; [|done].
      unfold MarshalJSON. rewrite Hv. simpl. destruct (String.eqb_spec raw (wire_json
        (DecisionKind_String (kind_of_token k)) (DecisionReason_String (reason_of_token r))));
        simpl; [|done]. by intros [= <-].
    + intros [Hv ->]. destruct (tokens_of_valid v Hv) as (Hk & Hr & Pk & Pr).
      rewrite json_plain by done. unfold NewDecision. rewrite Hk, Hr.
      destruct v as [k r]. simpl in *. rewrite Hv. simpl. unfold MarshalJSON. rewrite Hv. simpl.
      by rewrite String.eqb_refl.
  - intros d e. unfold UnmarshalJSON. repeat case_match; intros [=]; by subst.
Qed.

(** A reader of exactly the canonical shape, enough to instantiate the
    interface. *)
Fixpoint read_token (s : list ascii) : list ascii * list ascii :=
  match s with
  | c :: s' => if plain_char c then let '(t, r) := read_token s' in (c :: t, r) else ([], s)
  | [] => ([], [])
  end.
Fixpoint expect (p s : list ascii) : option (list ascii) :=
  match p, s with
  | [], _ => Some s
  | a :: p', b :: s' => if Ascii.eqb a b then expect p' s' else None
  | _, [] => None
  end.
Definition shape_reader (raw : string) : option (string * string) :=
  s1 ← expect (list_ascii_of_string ("{" ++ quoted "decision" ++ ":" ++ quote))
              (list_ascii_of_string raw);
  let '(k, s2) := read_token s1 in
  s3 ← expect (list_ascii_of_string (quote ++ "," ++ quoted "reason" ++ ":" ++ quote)) s2;
  let '(r, _) := read_token s3 in
  Some (string_of_list_ascii k, string_of_list_ascii r).

Lemma expect_app p s : expect p (p ++ s) = Some s.
Proof. induction p as [|c p IH]; [done|]. simpl. by rewrite Ascii.eqb_refl. Qed.

Lemma read_token_app t c s :
  forallb plain_char t = true -> plain_char c = false ->
  read_token (t ++ c :: s) = (t, c :: s).
Proof.
  intros Ht Hc. induction t as [|x t IH]; simpl in *; [by rewrite Hc|].
  apply andb_prop in Ht as [Hx Ht]. by rewrite Hx, IH.
Qed.

Lemma shape_reader_plain kind reason :
  plain kind = true -> plain reason = true ->
  shape_reader (wire_json kind reason) = Some (kind, reason).
Proof.
  intros Hk Hr. unfold shape_reader, wire_json, quoted.
  assert (E : list_ascii_of_string ("{" ++ (quote ++ "decision" ++ quote) ++ ":" ++
      (quote ++ kind ++ quote) ++ "," ++ (quote ++ "reason" ++ quote) ++ ":" ++
      (quote ++ reason ++ quote) ++ "}")
    = (list_ascii_of_string ("{" ++ (quote ++ "decision" ++ quote) ++ ":" ++ quote) ++
       list_ascii_of_string kind ++ ascii_of_N 34 ::
       list_ascii_of_string ("," ++ (quote ++ "reason" ++ quote) ++ ":" ++ quote) ++
       list_ascii_of_string reason ++ ascii_of_N 34 :: ["}"%char])%list).
  { rewrite !bytes_app. simpl. by rewrite <- ?app_assoc. }
  rewrite E, expect_app. simpl. rewrite read_token_app by done. simpl.
  rewrite read_token_app by done.
  by rewrite !string_of_list_ascii_of_string.
Qed.

Definition shape_record : JsonRecord :=
  {| json_Unmarshal := shape_reader; json_plain := shape_reader_plain |}.

Lemma decision_round_trip_witness :
  @UnmarshalJSON shape_record (Some zero_Decision) (wire_json "deny" "unknown-actor")
  = (Some (mk_Decision DecisionDeny ReasonUnknownActor), Ok tt).
Proof.
  apply (proj1 (@decision_round_trip shape_record zero_Decision (wire_json "deny" "unknown-actor"))).
  vm_compute. reflexivity.
Defined.
