(* ===== verification/GatePolicy.v ===== *)
(** GatePolicy: the assignment policy of the lifecycle gate
    (internal/lifecycle/gatepolicy/gatepolicy.go), with the runtime vocabulary
    it reads (internal/runtime/lifecycle.go). *)

From Stdlib Require Import NArith Lia.
From stdpp Require Import base tactics list strings gmap.
From S2P Require Import Prelude Registration GateAuthority Verdict.

(** ** Runtime vocabulary *)
Abbreviation EventSemantic := N (only parsing).
Definition SemanticObservation : EventSemantic := 1%N.
Definition SemanticGateConsultation : EventSemantic := 2%N.
Definition SemanticExplicitHumanResponse : EventSemantic := 3%N.
Definition EventSemantic_IsValid (s : EventSemantic) : bool :=
  ((SemanticObservation <=? s) && (s <=? SemanticExplicitHumanResponse))%N.

Abbreviation ResponseCapability := N (only parsing).
Definition CapabilityUnset : ResponseCapability := 0%N.
Definition CapabilityNone : ResponseCapability := 1%N.
Definition CapabilityDeny : ResponseCapability := 2%N.
Definition CapabilityDenyAsk : ResponseCapability := 3%N.
Definition ResponseCapability_IsValid (c : ResponseCapability) : bool :=
  ((CapabilityNone <=? c) && (c <=? CapabilityDenyAsk))%N.

Definition StopLoopPolicy_IsValid (p : StopLoopPolicy) : bool :=
  ((p =? StopLoopNotApplicable) || (p =? StopLoopConsultWhenInactive))%N.

(** ** Inputs and results *)
Record Input := {
  in_Event : N;
  in_Action : ActionClass;
  in_Semantic : EventSemantic;
  in_StopLoop : StopLoopPolicy;
  in_Capability : ResponseCapability;
  in_Claim : SessionClaim;
  in_Authority : ActorAuthority;
}.

Abbreviation RefusalKind := N (only parsing).
Definition RefusalUnset : RefusalKind := 0%N.
Definition RefusalPhaseUnknown : RefusalKind := 1%N.
Definition RefusalPolicyUnlisted : RefusalKind := 2%N.
Definition RefusalKind_IsValid (k : RefusalKind) : bool :=
  ((RefusalPhaseUnknown <=? k) && (k <=? RefusalPolicyUnlisted))%N.

(** A [Refusal] wraps its kind; the zero value is invalid. *)
Record Refusal := mk_Refusal { rf_kind : RefusalKind }.
Definition Refusal_IsValid (r : Refusal) : bool := RefusalKind_IsValid (rf_kind r).

Inductive PolicyError :=
  | UnknownRefusalKind (k : RefusalKind)
  | InvalidRuntime (field : string) (value : N)
  | InvalidDecision (e : DecisionError).

Definition NewRefusal (k : RefusalKind) : result PolicyError Refusal :=
  if negb (RefusalKind_IsValid k) then Err (UnknownRefusalKind k) else Ok (mk_Refusal k).

Record Result := mk_Result { res_decision : Decision; res_refusal : Refusal }.
Definition zero_Refusal : Refusal := mk_Refusal RefusalUnset.
Definition zero_Result : Result := mk_Result zero_Decision zero_Refusal.

Definition Decided (d : Decision) : Result :=
  if negb (Decision_IsValid d) then zero_Result else mk_Result d zero_Refusal.
Definition Refused (r : Refusal) : Result :=
  if negb (Refusal_IsValid r) then zero_Result else mk_Result zero_Decision r.

Definition Result_Decision (r : Result) : Decision * bool :=
  if negb (Decision_IsValid (res_decision r)) || Refusal_IsValid (res_refusal r)
  then (zero_Decision, false) else (res_decision r, true).
Definition Result_Refusal (r : Result) : option Refusal * bool :=
  if negb (Refusal_IsValid (res_refusal r)) || Decision_IsValid (res_decision r)
  then (None, false) else (Some (res_refusal r), true).

(** ** Decide *)
Definition decision (kind : DecisionKind) (reason : DecisionReason) : result PolicyError Result :=
  match NewDecision kind reason with
  | Err e => Err (InvalidDecision e)
  | Ok d => Ok (Decided d)
  end.

Definition refusal (kind : RefusalKind) : result PolicyError Result :=
  match NewRefusal kind with
  | Err e => Err e
  | Ok r => Ok (Refused r)
  end.

Definition denied (capability : ResponseCapability) (reason : DecisionReason)
    : result PolicyError Result :=
  if (capability =? CapabilityNone)%N then decision DecisionProceed ReasonUnenforcedDeny
  else decision DecisionDeny reason.

(** The loop of rule 7: [None] is the early return on an unlisted cell,
    otherwise the two flags it ends with. *)
Fixpoint scan_episodes (action : ActionClass) (eps : list Episode)
    (roleAllowed bothAllowed : bool) : option (bool * bool) :=
  match eps with
  | [] => Some (roleAllowed, bothAllowed)
  | ep :: rest =>
      let role := RoleVerdict (ep_Role ep) action in
      let phase := PhaseVerdict (ep_Phase ep) action in
      if ((role =? VerdictRefuse) || (phase =? VerdictRefuse))%N then None
      else if (role =? VerdictAllow)%N then
        scan_episodes action rest true
          (if (phase =? VerdictAllow)%N then true else bothAllowed)
      else scan_episodes action rest roleAllowed bothAllowed
  end.

Definition Decide (i : Input) : result PolicyError Result :=
  if negb (EventSemantic_IsValid (in_Semantic i)) then
    Err (InvalidRuntime "semantic" (in_Semantic i))
  else if negb (StopLoopPolicy_IsValid (in_StopLoop i)) then
    Err (InvalidRuntime "stop-loop" (in_StopLoop i))
  else if negb (ResponseCapability_IsValid (in_Capability i)) then
    Err (InvalidRuntime "capability" (in_Capability i))
  else if (in_Semantic i =? SemanticObservation)%N then decision DecisionProceed ReasonLegal
  else if (in_StopLoop i =? StopLoopConsultWhenInactive)%N then
    decision DecisionProceed ReasonStopLoopGuard
  else if negb (sc_Bound (in_Claim i)) then decision DecisionProceed ReasonUnboundSession
  else if sc_AttributionOnly (in_Claim i) then
    decision DecisionProceed ReasonAttributionOnlySession
  else if negb (sc_Known (in_Claim i)) then denied (in_Capability i) ReasonUnknownActor
  else if (length (aa_Episodes (in_Authority i)) =? 0)%nat then
    denied (in_Capability i) ReasonNoActiveAssignment
  else if existsb (fun ep => (ep_Phase ep =? TaskPhaseUnset)%N) (aa_Episodes (in_Authority i))
  then refusal RefusalPhaseUnknown
  else match scan_episodes (in_Action i) (aa_Episodes (in_Authority i)) false false with
  | None => refusal RefusalPolicyUnlisted
  | Some (roleAllowed, bothAllowed) =>
      if bothAllowed then decision DecisionProceed ReasonLegal
      else if roleAllowed then denied (in_Capability i) ReasonPhaseForbidsAction
      else denied (in_Capability i) ReasonRoleForbidsAction
  end.

(** * Theorems *)

(** What one episode says about an action. *)
Definition ep_listed (a : ActionClass) (ep : Episode) : bool :=
  negb ((RoleVerdict (ep_Role ep) a =? VerdictRefuse)
        || (PhaseVerdict (ep_Phase ep) a =? VerdictRefuse))%N.
Definition ep_role_allows (a : ActionClass) (ep : Episode) : bool :=
  (RoleVerdict (ep_Role ep) a =? VerdictAllow)%N.
Definition ep_both_allow (a : ActionClass) (ep : Episode) : bool :=
  ep_role_allows a ep && (PhaseVerdict (ep_Phase ep) a =? VerdictAllow)%N.

Lemma scan_episodes_eqn a eps r b :
  scan_episodes a eps r b =
    if forallb (ep_listed a) eps
    then Some (r || existsb (ep_role_allows a) eps, b || existsb (ep_both_allow a) eps)
    else None.
Proof.
  revert r b. induction eps as [|ep eps IH]; intros r b; simpl.
  - by rewrite !orb_false_r.
  - assert (Hl : ep_listed a ep = negb ((RoleVerdict (ep_Role ep) a =? VerdictRefuse)
      || (PhaseVerdict (ep_Phase ep) a =? VerdictRefuse))%N) by done.
    assert (Hb : ep_both_allow a ep
      = ep_role_allows a ep && (PhaseVerdict (ep_Phase ep) a =? VerdictAllow)%N) by done.
    rewrite Hl, Hb. clear Hl Hb.
    destruct ((RoleVerdict (ep_Role ep) a =? VerdictRefuse)
      || (PhaseVerdict (ep_Phase ep) a =? VerdictRefuse))%N; simpl; [done|].
    change (RoleVerdict (ep_Role ep) a =? VerdictAllow)%N with (ep_role_allows a ep).
    destruct (ep_role_allows a ep); rewrite IH; simpl; [|done].
    destruct (forallb _ _); [|done].
    destruct (PhaseVerdict _ _ =? VerdictAllow)%N; simpl; by rewrite ?orb_true_r.
Qed.

(** The specification: one decision per rule, in order. *)
Inductive Outcome :=
  | Proceeds (why : DecisionReason)
  | Denies (why : DecisionReason)
  | Refuses (why : RefusalKind)
  | Invalid.

Definition outcome_of (r : result PolicyError Result) : Outcome :=
  match r with
  | Err _ => Invalid
  | Ok res =>
      match Result_Decision res, Result_Refusal res with
      | (d, true), _ => if (d_kind d =? DecisionProceed)%N then Proceeds (d_reason d)
                        else Denies (d_reason d)
      | (_, false), (Some r, true) => Refuses (rf_kind r)
      | (_, false), _ => Invalid
      end
  end.

Definition vocabulary_valid (i : Input) : bool :=
  EventSemantic_IsValid (in_Semantic i) && StopLoopPolicy_IsValid (in_StopLoop i)
  && ResponseCapability_IsValid (in_Capability i).

Definition assignment_outcome (a : ActionClass) (eps : list Episode) : Outcome :=
  match eps with
  | [] => Denies ReasonNoActiveAssignment
  | _ =>
      if existsb (fun ep => (ep_Phase ep =? TaskPhaseUnset)%N) eps then Refuses RefusalPhaseUnknown
      else if negb (forallb (ep_listed a) eps) then Refuses RefusalPolicyUnlisted
      else if existsb (ep_both_allow a) eps then Proceeds ReasonLegal
      else if existsb (ep_role_allows a) eps then Denies ReasonPhaseForbidsAction
      else Denies ReasonRoleForbidsAction
  end.

Definition record_only (cap : ResponseCapability) (o : Outcome) : Outcome :=
  match o with
  | Denies _ => if (cap =? CapabilityNone)%N then Proceeds ReasonUnenforcedDeny else o
  | _ => o
  end.

Definition spec_outcome (i : Input) : Outcome :=
  if negb (vocabulary_valid i) then Invalid
  else if (in_Semantic i =? SemanticObservation)%N then Proceeds ReasonLegal
  else if (in_StopLoop i =? StopLoopConsultWhenInactive)%N then Proceeds ReasonStopLoopGuard
  else if negb (sc_Bound (in_Claim i)) then Proceeds ReasonUnboundSession
  else if sc_AttributionOnly (in_Claim i) then Proceeds ReasonAttributionOnlySession
  else record_only (in_Capability i)
         (if sc_Known (in_Claim i)
          then assignment_outcome (in_Action i) (aa_Episodes (in_Authority i))
          else Denies ReasonUnknownActor).

Lemma denied_outcome cap reason :
  reason ∈ [ReasonUnknownActor; ReasonNoActiveAssignment; ReasonRoleForbidsAction;
            ReasonPhaseForbidsAction] ->
  outcome_of (denied cap reason) = record_only cap (Denies reason).
Proof.
  intros H. unfold denied, record_only. destruct (cap =? CapabilityNone)%N; [done|].
  elim_members H; reflexivity.
Qed.

Lemma Decide_outcome i : outcome_of (Decide i) = spec_outcome i.
Proof.
  unfold Decide, spec_outcome, vocabulary_valid.
  destruct (EventSemantic_IsValid _); simpl; [|done].
  destruct (StopLoopPolicy_IsValid _); simpl; [|done].
  destruct (ResponseCapability_IsValid _); simpl; [|done].
  destruct (_ =? SemanticObservation)%N; [done|].
  destruct (_ =? StopLoopConsultWhenInactive)%N; [done|].
  destruct (sc_Bound _); simpl; [|done]. destruct (sc_AttributionOnly _); [done|].
  destruct (sc_Known _); simpl; [|by apply denied_outcome; rewrite !elem_of_cons; auto].
  rewrite scan_episodes_eqn. unfold assignment_outcome.
  destruct (aa_Episodes _) as [|ep eps]; [by apply denied_outcome; rewrite !elem_of_cons; auto|].
  cbn [length Nat.eqb]. destruct (existsb _ (ep :: eps)); [done|].
  destruct (forallb _ (ep :: eps)); cbn [negb]; [|done].
  rewrite !orb_false_l. destruct (existsb (ep_both_allow _) _); [done|].
  destruct (existsb (ep_role_allows _) _); apply denied_outcome; rewrite !elem_of_cons; auto.
Qed.

Lemma decision_kind k reason r : decision k reason = Ok r -> d_kind (res_decision r) = k.
Proof.
  unfold decision, NewDecision, Decided.
  destruct (Decision_IsValid _) eqn:E; simpl; [|done]. rewrite E. by intros [= <-].
Qed.
Lemma refusal_kind k r : refusal k = Ok r -> d_kind (res_decision r) = DecisionKindUnset.
Proof.
  unfold refusal, NewRefusal, Refused. destruct (RefusalKind_IsValid k) eqn:E; simpl; [|done].
  unfold Refusal_IsValid. simpl. rewrite E. by intros [= <-].
Qed.
Lemma denied_kind cap reason r :
  denied cap reason = Ok r -> d_kind (res_decision r) <> DecisionRequireHuman.
Proof. unfold denied. case_match; by intros ->%decision_kind. Qed.

(** C40: [Decide] implements the published rules: whatever the input, its
    outcome is the one the ordered rules prescribe, every outcome is a valid
    decision or a valid refusal or an input error, and no rule asks for human
    input. *)
Theorem Decide_refines_rules i :
  outcome_of (Decide i) = spec_outcome i /\
  (vocabulary_valid i = true <-> exists r, Decide i = Ok r) /\
  (forall r, Decide i = Ok r -> d_kind (res_decision r) <> DecisionRequireHuman).
Proof.
  split; [apply Decide_outcome|].
  split.
  - unfold Decide, vocabulary_valid.
    destruct (EventSemantic_IsValid _); simpl; [|naive_solver].
    destruct (StopLoopPolicy_IsValid _); simpl; [|naive_solver].
    destruct (ResponseCapability_IsValid _); simpl; [|naive_solver].
    split; [intros _|done]. unfold denied. repeat case_match; by eexists.
  - intros r. unfold Decide.
    repeat case_match; intros Hr;
      first [discriminate Hr | by apply decision_kind in Hr as -> | by apply denied_kind in Hr
            | by apply refusal_kind in Hr as ->].
Qed.

(** The order of an actor's episodes never changes the verdict: inputs
    that differ in it alone have the same outcome, reason included. *)
Lemma Decide_order_independent i j :
  in_Action i = in_Action j -> in_Semantic i = in_Semantic j ->
  in_StopLoop i = in_StopLoop j -> in_Capability i = in_Capability j ->
  in_Claim i = in_Claim j ->
  aa_Episodes (in_Authority i) ≡ₚ aa_Episodes (in_Authority j) ->
  outcome_of (Decide i) = outcome_of (Decide j).
Proof.
  intros Ha Hs Hl Hc Hm Hp. rewrite !Decide_outcome. unfold spec_outcome, vocabulary_valid.
  rewrite Ha, Hs, Hl, Hc, Hm. repeat case_match; try done. f_equal.
  unfold assignment_outcome. generalize dependent (aa_Episodes (in_Authority i)).
  generalize (aa_Episodes (in_Authority j)). intros l k Hp.
  assert (E : forall f, existsb f k = existsb f l).
  { intros f. apply eq_true_iff_eq. rewrite !existsb_exists.
    setoid_rewrite <- list_elem_of_In. by setoid_rewrite Hp. }
  assert (F : forall f, forallb f k = forallb f l).
  { intros f. apply eq_true_iff_eq. rewrite !forallb_forall.
    setoid_rewrite <- list_elem_of_In. by setoid_rewrite Hp. }
  rewrite !E, F. destruct k, l; try done;
    [by apply Permutation_nil_cons in Hp|by symmetry in Hp; apply Permutation_nil_cons in Hp].
Qed.

Definition axis_reviewer_in (p : TaskPhase) : Episode :=
  {| ep_Assignment := "a1"; ep_Task := "t1"; ep_Role := RoleAxisReviewer; ep_Phase := p |}.
Definition owner_in (p : TaskPhase) : Episode :=
  {| ep_Assignment := "a2"; ep_Task := "t2"; ep_Role := RoleOwnerResponsibility; ep_Phase := p |}.
Definition consultation (a : ActionClass) (eps : list Episode) : Input :=
  {| in_Event := 1%N; in_Action := a; in_Semantic := SemanticGateConsultation;
     in_StopLoop := StopLoopNotApplicable; in_Capability := CapabilityDeny;
     in_Claim := {| sc_Bound := true; sc_Actor := "x"; sc_Session := "s"; sc_Known := true;
                    sc_AttributionOnly := false |};
     in_Authority := {| aa_Actor := "x"; aa_Episodes := eps |} |}.

Lemma Decide_order_independent_witness :
  outcome_of (Decide (consultation ActionWorktree [axis_reviewer_in PhaseReview; owner_in PhaseRatify]))
  = Denies ReasonPhaseForbidsAction /\
  outcome_of (Decide (consultation ActionWorktree [owner_in PhaseRatify; axis_reviewer_in PhaseReview]))
  = Denies ReasonPhaseForbidsAction.
Proof.
  split; [vm_compute; reflexivity|].
  rewrite (Decide_order_independent
    (consultation ActionWorktree [owner_in PhaseRatify; axis_reviewer_in PhaseReview])
    (consultation ActionWorktree [axis_reviewer_in PhaseReview; owner_in PhaseRatify])
    eq_refl eq_refl eq_refl eq_refl eq_refl (perm_swap _ _ [])).
  vm_compute. reflexivity.
Defined.

(** Who can be denied. A denial reaches the host only when the event is a
    consultation with a refusal channel, of a bound session that is not
    attribution-only, and either the actor is unknown or it holds no
    assignment or no episode permits the action; it never reaches an actor one
    of whose episodes permits it, nor a known, assigned actor when the action
    class is on the never-denied list. *)
Lemma Decide_denies_only i why :
  outcome_of (Decide i) = Denies why ->
  in_Semantic i <> SemanticObservation /\ in_StopLoop i <> StopLoopConsultWhenInactive /\
  in_Capability i <> CapabilityNone /\ sc_Bound (in_Claim i) = true /\
  sc_AttributionOnly (in_Claim i) = false /\
  (why = ReasonUnknownActor /\ sc_Known (in_Claim i) = false \/
   sc_Known (in_Claim i) = true /\
   (why = ReasonNoActiveAssignment /\ aa_Episodes (in_Authority i) = [] \/
    (in_Action i ∉ neverDeniedActions) /\
    forall ep, ep ∈ aa_Episodes (in_Authority i) -> ep_both_allow (in_Action i) ep = false)).
Proof.
  rewrite Decide_outcome. unfold spec_outcome. destruct (vocabulary_valid i); simpl; [|done].
  destruct (N.eqb_spec (in_Semantic i) SemanticObservation); [done|].
  destruct (N.eqb_spec (in_StopLoop i) StopLoopConsultWhenInactive); [done|].
  destruct (sc_Bound _); simpl; [|done]. destruct (sc_AttributionOnly _); [done|].
  intros H. assert (Hc : in_Capability i <> CapabilityNone).
  { intros Hc. rewrite Hc in H. unfold record_only in H. by repeat case_match. }
  split_and!; try done.
  assert (H' : (if sc_Known (in_Claim i)
    then assignment_outcome (in_Action i) (aa_Episodes (in_Authority i))
    else Denies ReasonUnknownActor) = Denies why).
  { unfold record_only in H. rewrite (proj2 (N.eqb_neq _ _) Hc) in H. by destruct (if sc_Known _ then _ else _). }
  clear H. destruct (sc_Known _); [right|left; by injection H' as <-]. split; [done|].
  unfold assignment_outcome in H'. destruct (aa_Episodes _) as [|ep0 eps] eqn:Heps;
    [left; by injection H' as <-|right].
  destruct (existsb (fun ep => _) _); [done|]. destruct (forallb _ _) eqn:Hl; [|done].
  destruct (existsb (ep_both_allow _) _) eqn:Hb; [done|]. clear H'.
  assert (Hno : forall ep, ep ∈ ep0 :: eps -> ep_both_allow (in_Action i) ep = false).
  { intros ep Hep. apply not_true_is_false. intros Ht. apply not_true_iff_false in Hb.
    apply Hb, existsb_exists. exists ep. by rewrite <- list_elem_of_In. }
  split; [|done]. intros Hn. specialize (Hno ep0 ltac:(by left)).
  rewrite forallb_forall in Hl. specialize (Hl ep0 ltac:(by left)).
  unfold ep_listed, ep_both_allow, ep_role_allows in *.
  rewrite RoleVerdict_eqn, PhaseVerdict_eqn in *. rewrite (never_denied_valid _ Hn) in *.
  rewrite !andb_true_r in *.
  rewrite (bool_decide_eq_false_2 (in_Action i ∈ denied_of roleDenials _)) in *
    by (intros Ha; by apply (denied_deniable _ _ _ _ _ role_table_built) in Ha).
  rewrite (bool_decide_eq_false_2 (in_Action i ∈ denied_of phaseDenials _)) in *
    by (intros Ha; by apply (denied_deniable _ _ _ _ _ phase_table_built) in Ha).
  by destruct (AssignmentRole_IsValid _), (TaskPhase_IsValid _).
Qed.

Lemma Decide_denies_only_witness :
  outcome_of (Decide (consultation ActionWorktree [axis_reviewer_in PhaseReview]))
  = Denies ReasonRoleForbidsAction /\
  in_Capability (consultation ActionWorktree [axis_reviewer_in PhaseReview]) <> CapabilityNone.
Proof.
  assert (H : outcome_of (Decide (consultation ActionWorktree [axis_reviewer_in PhaseReview]))
    = Denies ReasonRoleForbidsAction) by (vm_compute; reflexivity).
  split; [exact H|]. exact (proj1 (proj2 (proj2 (Decide_denies_only _ _ H)))).
Defined.
