(* ===== verification/Gate.v ===== *)
(** Gate: the write gate (internal/lifecycle/gate/gate.go, refusal.go).

    A warrant can be built by [Legalize] alone: Go keeps the fields of
    [Warrant] and [WriteIntent] private to the package. [held_warrant] and
    [built_intent] below are the values a caller outside the package can hold.
    The validity of a runtime contract identity is the artifact component's;
    the constructor takes it as an argument. *)

From Stdlib Require Import NArith ZArith Lia Ascii String.
From stdpp Require Import base tactics list strings.
From S2P Require Import Prelude Registration.
Local Open Scope string_scope.

Definition MaxLinksPerOperation : Z := 64.

(** ** Write classes *)
Abbreviation WriteClass := N (only parsing).
Definition WriteDeliveryReceipt : WriteClass := 1%N.
Definition WriteDefinitionActivation : WriteClass := 2%N.
Definition WriteLineageLinks : WriteClass := 3%N.
Definition WriteDisclosure : WriteClass := 4%N.

Definition WriteClass_IsValid (c : WriteClass) : bool :=
  ((c =? WriteDeliveryReceipt) || (c =? WriteDefinitionActivation)
   || (c =? WriteLineageLinks) || (c =? WriteDisclosure))%N.

Definition WriteClass_String (c : WriteClass) : string :=
  if (c =? WriteDeliveryReceipt)%N then "delivery-receipt"
  else if (c =? WriteDefinitionActivation)%N then "definition-activation"
  else if (c =? WriteLineageLinks)%N then "lineage-links"
  else if (c =? WriteDisclosure)%N then "disclosure"
  else "unknown-write-class".

Definition ParseWriteClass (token : string) : WriteClass * bool :=
  if String.eqb token "delivery-receipt" then (WriteDeliveryReceipt, true)
  else if String.eqb token "definition-activation" then (WriteDefinitionActivation, true)
  else if String.eqb token "lineage-links" then (WriteLineageLinks, true)
  else if String.eqb token "disclosure" then (WriteDisclosure, true)
  else (0%N, false).

(** ** Refusals (refusal.go) *)
Abbreviation RefusalReason := N (only parsing).
Definition RefusalUnknownClass : RefusalReason := 1%N.
Definition RefusalInvalidIntent : RefusalReason := 2%N.
Definition RefusalClassMismatch : RefusalReason := 3%N.

Definition RefusalReason_String (r : RefusalReason) : string :=
  if (r =? RefusalUnknownClass)%N then "unknown-class"
  else if (r =? RefusalInvalidIntent)%N then "invalid-intent"
  else if (r =? RefusalClassMismatch)%N then "class-mismatch"
  else "unknown-reason".

Record Refusal := mk_Refusal {
  r_class : WriteClass;
  r_reason : RefusalReason;
  r_what : string;
  r_why : string;
  r_where : string;
  r_impact : string;
  r_fix : string;
}.

Definition newRefusal (class : WriteClass) (reason : RefusalReason)
    (what why where_ impact fix_ : string) : Refusal :=
  mk_Refusal class reason what why where_ impact fix_.

Definition refuseInvalidIntent (class : WriteClass) (what why fix_ : string) : Refusal :=
  newRefusal class RefusalInvalidIntent what why
    "constructing a lifecycle write intent (internal/lifecycle/gate)"
    "no intent was constructed and no warrant can be issued"
    fix_.

Definition Refusal_Error (r : Refusal) : string :=
  "lifecycle write refused (" ++ WriteClass_String (r_class r) ++ ", "
  ++ RefusalReason_String (r_reason r) ++ "): " ++ r_what r ++ ". Why: " ++ r_why r
  ++ ". Where: " ++ r_where r ++ ". Impact: " ++ r_impact r ++ ". Fix: " ++ r_fix r.

(** ** Intents *)
Record WriteIntent := mk_Intent { i_class : WriteClass }.

(** A [model.ContentIdentity] is a 32-byte array, [content] its bytes; the zero
    identity is all zeroes. *)
Abbreviation ContentIdentity := (list N) (only parsing).
Definition zero_content : ContentIdentity := replicate 32 0%N.

Abbreviation DefinitionKind := N (only parsing).
Definition DefinitionRuntimeContract : DefinitionKind := 1%N.
Definition DefinitionLifecycleSchema : DefinitionKind := 2%N.
Definition DefinitionMetamodel : DefinitionKind := 3%N.
Definition DefinitionInterpreter : DefinitionKind := 4%N.
Definition DefinitionEpochImplementation : DefinitionKind := 5%N.
Definition DefinitionContextPolicy : DefinitionKind := 6%N.
Definition DefinitionContextPacketSchema : DefinitionKind := 7%N.
Definition DefinitionRetentionPolicy : DefinitionKind := 8%N.

Definition IsEnvelopeDefinitionKind (kind : DefinitionKind) : bool :=
  ((kind =? DefinitionRuntimeContract) || (kind =? DefinitionLifecycleSchema)
   || (kind =? DefinitionInterpreter) || (kind =? DefinitionEpochImplementation)
   || (kind =? DefinitionRetentionPolicy))%N.

Definition NewDeliveryIntent {RuntimeContractID : Type}
    (contract_IsValid : RuntimeContractID -> bool) (contract : RuntimeContractID)
    (event_kind : N) : result Refusal WriteIntent :=
  if negb (contract_IsValid contract) then
    Err (refuseInvalidIntent WriteDeliveryReceipt
      "a delivery-receipt write intent has no runtime contract"
      "a delivery receipt must name the exact enabled host contract that produced it"
      "supply the generated runtime contract coordinate from the dispatched delivery")
  else if (event_kind =? 0)%N then
    Err (refuseInvalidIntent WriteDeliveryReceipt
      "a delivery-receipt write intent has no event kind"
      "a receipt with an unknown event kind cannot be interpreted or queried safely"
      "supply the generated typed event kind from the dispatched delivery")
  else Ok (mk_Intent WriteDeliveryReceipt).

Definition NewDefinitionActivationIntent (content : ContentIdentity)
    : result Refusal WriteIntent :=
  if bool_decide (content = zero_content) then
    Err (refuseInvalidIntent WriteDefinitionActivation
      "a definition-activation write intent has no content identity"
      "a journaled metamodel definition must be addressed by the sha256 of its canonical body"
      "supply the active metamodel coordinate's content identity")
  else Ok (mk_Intent WriteDefinitionActivation).

Definition NewEnvelopeDefinitionActivationIntent (kind : DefinitionKind)
    (content : ContentIdentity) : result Refusal WriteIntent :=
  if negb (IsEnvelopeDefinitionKind kind) || bool_decide (content = zero_content) then
    Err (refuseInvalidIntent WriteDefinitionActivation
      "a definition activation has an unsupported kind or empty content identity"
      "only runtime, schema, interpreter, implementation and retention documents belong to this writer"
      "use the matching typed document owner; activate metamodels through their existing owner")
  else Ok (mk_Intent WriteDefinitionActivation).

(** [links] is a Go [int]. *)
Definition NewLineageIntent (harness : HarnessID) (links : Z) : result Refusal WriteIntent :=
  if negb (Harness_IsValid harness) then
    Err (refuseInvalidIntent WriteLineageLinks
      "a lineage-links write intent has no host"
      "occurrence chains are reconstructed per host, so a lineage write must name one enabled harness"
      "supply an enabled harness identity for the chain being materialized")
  else if (links <? 1)%Z || (MaxLinksPerOperation <? links)%Z then
    Err (refuseInvalidIntent WriteLineageLinks
      "a lineage-links write intent is empty or over the per-operation cap"
      "a lineage operation commits between one and the bounded maximum of predecessor edges so one write cannot grow unbounded"
      "narrow the scope with --binding so the derivation yields at most the per-operation cap of edges")
  else Ok (mk_Intent WriteLineageLinks).

Definition NewDisclosureIntent (scope : ContentIdentity) : result Refusal WriteIntent :=
  if bool_decide (scope = zero_content) then
    Err (refuseInvalidIntent WriteDisclosure
      "a disclosure write intent has no projection scope"
      "a disclosure records the sha256 fingerprint of the exact projection it releases"
      "supply the canonical projection content digest as the disclosure scope")
  else Ok (mk_Intent WriteDisclosure).

(** ** Warrants *)
Record Warrant := mk_Warrant { w_class : WriteClass; w_issued : bool }.
Definition zero_warrant : Warrant := mk_Warrant 0%N false.
Definition Warrant_IsValid (w : Warrant) : bool :=
  w_issued w && WriteClass_IsValid (w_class w).

Definition Legalize (intent : WriteIntent) : result Refusal Warrant :=
  if negb (WriteClass_IsValid (i_class intent)) then
    Err (newRefusal (i_class intent) RefusalUnknownClass
      "a durable lifecycle write was refused: its write class is not one of the enumerated Pasture-side classes"
      "Legalize issues warrants only for the closed WriteClass set, so a zero-value or unenumerated intent cannot be legalized"
      "legalizing a lifecycle write intent (internal/lifecycle/gate in gate.Legalize)"
      "no warrant was issued and no durable write can proceed"
      "construct the intent with one of the gate.NewXxxIntent constructors for an enumerated write class before calling Legalize")
  else Ok (mk_Warrant (i_class intent) true).

(** [None] is the nil refusal: the write may proceed. *)
Definition Authorize (warrant : Warrant) (expected : WriteClass) : option Refusal :=
  if negb (WriteClass_IsValid expected) then
    Some (newRefusal expected RefusalUnknownClass
      "a durable lifecycle write was refused: the commit surface named an unenumerated expected class"
      "a commit surface must authorize against one enumerated WriteClass"
      "authorizing a lifecycle write (internal/lifecycle/gate in gate.Authorize)"
      "nothing was written"
      "pass one of the enumerated gate.WriteClass constants as the expected class")
  else if negb (Warrant_IsValid warrant) then
    Some (newRefusal expected RefusalInvalidIntent
      ("a durable " ++ WriteClass_String expected ++ " write was refused: it presented no gate warrant")
      "every durable lifecycle write must present a Warrant issued by gate.Legalize; a zero-value warrant means the write was never legalized"
      "authorizing a lifecycle write (internal/lifecycle/gate in gate.Authorize)"
      "nothing was written"
      "obtain a warrant with gate.Legalize for the write's class and present it at the commit surface")
  else if negb (w_class warrant =? expected)%N then
    Some (newRefusal (w_class warrant) RefusalClassMismatch
      ("a durable " ++ WriteClass_String expected ++ " write was refused: it presented a " ++ WriteClass_String (w_class warrant) ++ " warrant")
      "a warrant only admits the exact class it was legalized for, so a warrant for another class cannot authorize this write"
      "authorizing a lifecycle write (internal/lifecycle/gate in gate.Authorize)"
      "nothing was written"
      ("legalize an intent of the " ++ WriteClass_String expected ++ " class and present that warrant at this commit surface"))
  else None.

(** * Theorems *)

(** The intents and warrants code outside the package can hold: results of the
    constructors and of [Legalize], and zero values. *)
Inductive built_intent : WriteIntent -> Prop :=
  | built_delivery T (v : T -> bool) c k i :
      NewDeliveryIntent v c k = Ok i -> built_intent i
  | built_activation content i :
      NewDefinitionActivationIntent content = Ok i -> built_intent i
  | built_envelope kind content i :
      NewEnvelopeDefinitionActivationIntent kind content = Ok i -> built_intent i
  | built_lineage h links i : NewLineageIntent h links = Ok i -> built_intent i
  | built_disclosure scope i : NewDisclosureIntent scope = Ok i -> built_intent i
  | built_zero : built_intent (mk_Intent 0%N).

Inductive held_warrant : Warrant -> Prop :=
  | held_issued i w : built_intent i -> Legalize i = Ok w -> held_warrant w
  | held_zero : held_warrant zero_warrant.

Lemma WriteClass_IsValid_spec c :
  WriteClass_IsValid c = true <->
  c ∈ [WriteDeliveryReceipt; WriteDefinitionActivation; WriteLineageLinks; WriteDisclosure].
Proof.
  unfold WriteClass_IsValid. rewrite !orb_true_iff, !N.eqb_eq, !elem_of_cons, elem_of_nil. tauto.
Qed.

Lemma Legalize_ok i w :
  Legalize i = Ok w <-> WriteClass_IsValid (i_class i) = true /\ w = mk_Warrant (i_class i) true.
Proof.
  unfold Legalize. destruct (WriteClass_IsValid _); simpl; [|naive_solver].
  split; [by intros [= <-]|by intros [_ ->]].
Qed.

Lemma Authorize_None w c :
  Authorize w c = None <-> w_issued w = true /\ w_class w = c /\ WriteClass_IsValid c = true.
Proof.
  unfold Authorize, Warrant_IsValid.
  destruct (WriteClass_IsValid c) eqn:Hc; simpl; [|naive_solver].
  destruct (w_issued w); simpl; [|naive_solver].
  destruct (N.eqb_spec (w_class w) c) as [->|]; [rewrite Hc; naive_solver|].
  destruct (WriteClass_IsValid (w_class w)); simpl; naive_solver.
Qed.

(** C39: no ungated write. A warrant that code outside the package can hold
    passes the commit-surface check of a class exactly when it was issued by
    [Legalize] for an intent of that very class; the zero warrant and a warrant
    of another class are refused, with the reason that says which. *)
Theorem Authorize_gated w expected :
  held_warrant w ->
  (Authorize w expected = None <->
   exists i, built_intent i /\ Legalize i = Ok w /\ i_class i = expected) /\
  (WriteClass_IsValid expected = true ->
   forall r, Authorize w expected = Some r ->
   r_reason r = if Warrant_IsValid w then RefusalClassMismatch else RefusalInvalidIntent).
Proof.
  intros Hw. split.
  - rewrite Authorize_None. destruct Hw as [i w Hi [Hv ->]%Legalize_ok|]; simpl.
    + split.
      * intros (_ & <- & _). exists i. split_and!; [done| |done]. by apply Legalize_ok.
      * intros (j & Hj & [? [= Hc]]%Legalize_ok & <-). by rewrite Hc.
    + split; [by intros (? & _)|]. by intros (j & _ & [_ ?]%Legalize_ok & _).
  - intros He r. unfold Authorize. rewrite He. simpl.
    destruct (Warrant_IsValid w); simpl; [|by intros [= <-]].
    destruct (_ =? _)%N; [done|]. by intros [= <-].
Qed.

Lemma Authorize_gated_witness :
  Authorize (mk_Warrant WriteLineageLinks true) WriteLineageLinks = None.
Proof.
  assert (Hi : built_intent (mk_Intent WriteLineageLinks)).
  { apply (built_lineage HarnessCodex 64). vm_compute. reflexivity. }
  assert (Hl : Legalize (mk_Intent WriteLineageLinks) = Ok (mk_Warrant WriteLineageLinks true))
    by (vm_compute; reflexivity).
  apply (proj1 (Authorize_gated _ WriteLineageLinks (held_issued _ _ Hi Hl))).
  exists (mk_Intent WriteLineageLinks). split; [exact Hi|]. split; [exact Hl|reflexivity].
Defined.

(** The intent constructors accept exactly the well-formed coordinates,
    the class they retain is theirs and legal, and a refusal names that class
    and the invalid-intent reason. *)
Lemma intents_legal T (valid : T -> bool) contract event_kind content kind h links :
  let good i c := i = Ok (mk_Intent c) /\ Legalize (mk_Intent c) = Ok (mk_Warrant c true) in
  let bad i c := exists r : Refusal, i = Err r /\ r_class r = c /\ r_reason r = RefusalInvalidIntent in
  let check (p : bool) i c := if p then good i c else bad i c in
  check (valid contract && negb (event_kind =? 0)%N)
        (NewDeliveryIntent valid contract event_kind) WriteDeliveryReceipt /\
  check (negb (bool_decide (content = zero_content)))
        (NewDefinitionActivationIntent content) WriteDefinitionActivation /\
  check (IsEnvelopeDefinitionKind kind && negb (bool_decide (content = zero_content)))
        (NewEnvelopeDefinitionActivationIntent kind content) WriteDefinitionActivation /\
  check (Harness_IsValid h && (1 <=? links)%Z && (links <=? MaxLinksPerOperation)%Z)
        (NewLineageIntent h links) WriteLineageLinks /\
  check (negb (bool_decide (content = zero_content)))
        (NewDisclosureIntent content) WriteDisclosure.
Proof.
  unfold NewDeliveryIntent, NewDefinitionActivationIntent,
    NewEnvelopeDefinitionActivationIntent, NewLineageIntent, NewDisclosureIntent.
  rewrite !Z.leb_antisym. cbv zeta.
  destruct (valid contract), (event_kind =? 0)%N, (bool_decide _),
    (IsEnvelopeDefinitionKind kind), (Harness_IsValid h), (links <? 1)%Z,
    (MaxLinksPerOperation <? links)%Z; simpl; split_and!; eauto.
Qed.

(** The write-class spelling round trips: parsing accepts exactly what
    [String] emits for a valid class, and returns that class. *)
Lemma ParseWriteClass_String token c :
  ParseWriteClass token = (c, true) <->
  WriteClass_IsValid c = true /\ WriteClass_String c = token.
Proof.
  rewrite WriteClass_IsValid_spec. unfold ParseWriteClass. split.
  - repeat case_match; intros [= <-];
      (split; [by rewrite !elem_of_cons; tauto|]); symmetry; by apply String.eqb_eq.
  - intros [Hc <-]. elim_members Hc; reflexivity.
Qed.
