(* ===== verification/ControlLoop.v ===== *)
(** ControlLoop: the durable drivers of one epoch
    (internal/engine/control.go, internal/engine/workflow.go).

    The durable runtime (DBOS), the projection table and the audit trail are an
    interface, [EngineEnv], over a world that every operation transforms.  A
    workflow body is a function of the world; its loops take fuel, one unit per
    iteration, and [OutOfFuel] says that it is still running. *)

From Stdlib Require Import ZArith Lia Ascii String.
From stdpp Require Import base tactics list strings gmap relations.
From S2P Require Import Prelude GoStrings Vocabulary Pipeline EpochFSM Dedup.
Local Open Scope string_scope.

(** ** Audit events (pkg/protocol/types.go) *)
Record AuditEvent := {
  ae_ID : Z;
  ae_EpochId : string;
  ae_Phase : PhaseId;
  ae_Role : string;
  ae_EventType : EventType;
  ae_Payload : gmap string string;
  ae_Timestamp : Time;
  ae_DedupKey : string;
}.

(** ** The runtime and the stores *)
Inductive received (Error A : Type) :=
  | Received (a : A)
  | RecvTimeout
  | RecvFailed (e : Error).
Arguments Received {Error A}.
Arguments RecvTimeout {Error A}.
Arguments RecvFailed {Error A}.

Class EngineEnv := {
  World : Type;
  Error : Type;
  recv_advance : Z -> World -> World * received Error PhaseAdvanceSignal;
  recv_vote : Z -> World -> World * received Error ReviewVoteSignal;
  recv_session : Z -> World -> World * received Error RegisterSessionSignal;
  recv_progress : Z -> World -> World * received Error SliceProgressSignal;
  GetStepID : World -> World * result Error Z;
  RunAsStep : (World -> World * result Error unit) -> World -> World * result Error unit;
  WriteProjection : EpochState -> Time -> World -> World * result Error unit;
  RecordEvent : AuditEvent -> World -> World * result Error unit;
  Now : World -> World * Time;
  OnTransition : option (string -> TransitionRecord -> string -> World ->
                         World * result Error unit);
  NewSHA1 : string -> string -> string;
  render_violation : Violation -> string;
}.

Inductive outcome (A : Type) :=
  | Finished (a : A)
  | OutOfFuel
  | Panicked.
Arguments Finished {A}.
Arguments OutOfFuel {A}.
Arguments Panicked {A}.

Section engine.
Context {env : EngineEnv}.

Definition controlPollInterval : Z := 30 * 1000000000.

(** ** Durable steps *)

(** [projectState]: one step around [WriteProjection] of a snapshot. *)
Definition projectState (state : EpochState) (w : World) : World * result Error unit :=
  RunAsStep (fun w => let '(w, t) := Now w in WriteProjection state t w) w.

Definition emitTransition (epochId role : string) (rec : TransitionRecord) (dedupKey : string)
    (w : World) : World * result Error unit :=
  RecordEvent
    {| ae_ID := 0;
       ae_EpochId := epochId;
       ae_Phase := tr_ToPhase rec;
       ae_Role := role;
       ae_EventType := EventPhaseTransition;
       ae_Payload := {[ "from" := tr_FromPhase rec; "to" := tr_ToPhase rec;
                        "conditionMet" := tr_ConditionMet rec ]};
       ae_Timestamp := tr_Timestamp rec;
       ae_DedupKey := dedupKey |} w.

Definition commitTransition (epochId role : string) (rec : TransitionRecord)
    (state : EpochState) (stepSeq : string) (w : World) : World * result Error unit :=
  let dedupKey := DedupKey NewSHA1 epochId (tr_ToPhase rec) EventPhaseTransition stepSeq in
  RunAsStep (fun w =>
    let '(w, t) := Now w in
    match WriteProjection state t w with
    | (w, Err e) => (w, Err e)
    | (w, Ok _) =>
        match emitTransition epochId role rec dedupKey w with
        | (w, Err e) => (w, Err e)
        | (w, Ok _) =>
            match OnTransition with
            | None => (w, Ok tt)
            | Some hook => hook epochId rec stepSeq w
            end
        end
    end) w.

Definition emitVoteRecorded (epochId : string) (phase : PhaseId) (vote : ReviewVoteSignal)
    (stepSeq : string) (w : World) : World * result Error unit :=
  let reviewer := if String.eqb (rvs_ReviewerId vote) EmptyString then RoleReviewer
                  else rvs_ReviewerId vote in
  let dedupKey := DedupKey NewSHA1 epochId phase EventVoteRecorded stepSeq in
  RunAsStep (fun w =>
    let '(w, t) := Now w in
    RecordEvent
      {| ae_ID := 0;
         ae_EpochId := epochId;
         ae_Phase := phase;
         ae_Role := reviewer;
         ae_EventType := EventVoteRecorded;
         ae_Payload := {[ "axis" := rvs_Axis vote; "vote" := rvs_Vote vote;
                          "reviewerId" := reviewer ]};
         ae_Timestamp := t;
         ae_DedupKey := dedupKey |} w) w.

(** ** Sessions *)
Definition set_sessions (st : EpochState) (n : Z) (l : list RegisterSessionSignal) : EpochState :=
  mk_EpochState (es_EpochId st) (es_CurrentPhase st) (es_CurrentRole st)
    (es_CompletedPhases st) (es_ReviewVotes st) (es_BlockerCount st)
    (es_TransitionHistory st) (es_ReviewCycles st) (es_LastError st) n l
    (es_SliceProgress st).
Definition set_progress (st : EpochState) (l : list SliceProgressSignal) : EpochState :=
  mk_EpochState (es_EpochId st) (es_CurrentPhase st) (es_CurrentRole st)
    (es_CompletedPhases st) (es_ReviewVotes st) (es_BlockerCount st)
    (es_TransitionHistory st) (es_ReviewCycles st) (es_LastError st)
    (es_ActiveSessionCount st) (es_ActiveSessions st) l.

Definition addSession (state : EpochState) (sess : RegisterSessionSignal) : EpochState * bool :=
  if existsb (fun ex => String.eqb (rss_SessionId ex) (rss_SessionId sess)) (es_ActiveSessions state)
  then (state, false)
  else let l := (es_ActiveSessions state ++ [sess])%list in
       (set_sessions state (Z.of_nat (length l)) l, true).

(** ** drainSideChannels *)
Abbreviation drained := (World * EpochStateMachine * bool * option Error)%type (only parsing).

Fixpoint drain_votes (fuel : nat) (epochId : string) (sm : EpochStateMachine) (changed : bool)
    (w : World) : outcome drained :=
  match fuel with
  | O => OutOfFuel
  | S f =>
      match recv_vote 0 w with
      | (w, RecvTimeout) => Finished (w, sm, changed, None)
      | (w, RecvFailed e) => Finished (w, sm, changed, Some e)
      | (w, Received vote) =>
          if String.eqb (rvs_Axis vote) EmptyString then Finished (w, sm, changed, None)
          else match RecordVote sm (rvs_Axis vote) (rvs_Vote vote) with
          | None => Panicked
          | Some (sm, Some _) => drain_votes f epochId sm changed w
          | Some (sm, None) =>
              match GetStepID w with
              | (w, Err e) => Finished (w, sm, changed, Some e)
              | (w, Ok stepSeqInt) =>
                  match emitVoteRecorded epochId (es_CurrentPhase (sm_state sm)) vote
                          (format_int stepSeqInt) w with
                  | (w, Err e) => Finished (w, sm, changed, Some e)
                  | (w, Ok _) => drain_votes f epochId sm true w
                  end
              end
          end
      end
  end.

Fixpoint drain_sessions (fuel : nat) (sm : EpochStateMachine) (changed : bool) (w : World)
    : outcome drained :=
  match fuel with
  | O => OutOfFuel
  | S f =>
      match recv_session 0 w with
      | (w, RecvTimeout) => Finished (w, sm, changed, None)
      | (w, RecvFailed e) => Finished (w, sm, changed, Some e)
      | (w, Received sess) =>
          if String.eqb (rss_SessionId sess) EmptyString then Finished (w, sm, changed, None)
          else let '(state, added) := addSession (sm_state sm) sess in
               drain_sessions f (mk_sm state (sm_specs sm)) (if added then true else changed) w
      end
  end.

Fixpoint drain_progress (fuel : nat) (sm : EpochStateMachine) (changed : bool) (w : World)
    : outcome drained :=
  match fuel with
  | O => OutOfFuel
  | S f =>
      match recv_progress 0 w with
      | (w, RecvTimeout) => Finished (w, sm, changed, None)
      | (w, RecvFailed e) => Finished (w, sm, changed, Some e)
      | (w, Received prog) =>
          if String.eqb (sps_SliceId prog) EmptyString
             && String.eqb (sps_LeafTaskId prog) EmptyString
          then Finished (w, sm, changed, None)
          else
            let state := set_progress (sm_state sm)
                           (es_SliceProgress (sm_state sm) ++ [prog])%list in
            drain_progress f (mk_sm state (sm_specs sm)) true w
      end
  end.

Definition drainSideChannels (fuel : nat) (epochId : string) (sm : EpochStateMachine)
    (w : World) : outcome drained :=
  match drain_votes fuel epochId sm false w with
  | Finished (w, sm, changed, None) =>
      match drain_sessions fuel sm changed w with
      | Finished (w, sm, changed, None) => drain_progress fuel sm changed w
      | r => r
      end
  | r => r
  end.

(** ** EpochControlWorkflow *)

(** What a workflow returns: the state it stood in, and its error if any. *)
Abbreviation returned := (World * EpochStateMachine * option Error)%type (only parsing).

(** One turn of the loop: [inl] continues, [inr] returns. *)
Abbreviation turn := (World * EpochStateMachine + returned)%type (only parsing).

Definition project_and_continue (sm : EpochStateMachine) (w : World) : turn :=
  match projectState (sm_state sm) w with
  | (w, Err e) => inr (w, sm, Some e)
  | (w, Ok _) => inl (w, sm)
  end.

Definition control_idle (fuel : nat) (epochId : string) (sm : EpochStateMachine) (w : World)
    : outcome turn :=
  match drainSideChannels fuel epochId sm w with
  | Finished (w, sm, _, Some e) => Finished (inr (w, sm, Some e))
  | Finished (w, sm, true, None) => Finished (project_and_continue sm w)
  | Finished (w, sm, false, None) => Finished (inl (w, sm))
  | OutOfFuel => OutOfFuel
  | Panicked => Panicked
  end.

(** The advance itself, after the drain. *)
Definition control_apply (epochId : string) (adv : PhaseAdvanceSignal) (sm : EpochStateMachine)
    (w : World) : turn :=
  if String.eqb (pas_ToPhase adv) EmptyString then project_and_continue sm w
  else
    let triggeredBy := if String.eqb (pas_TriggeredBy adv) EmptyString then RoleEpoch
                       else pas_TriggeredBy adv in
    let fromPhase := es_CurrentPhase (sm_state sm) in
    match GetStepID w with
    | (w, Err e) => inr (w, sm, Some e)
    | (w, Ok stepSeqInt) =>
        let stepSeq := format_int stepSeqInt in
        let '(w, t) := Now w in
        match Advance sm (pas_ToPhase adv) triggeredBy (pas_ConditionMet adv) t with
        | (sm, Err violations) =>
            let '(w, t') := Now w in
            let sm := RecordFailedTransition sm fromPhase (pas_ToPhase adv) t' triggeredBy
                        (TransitionError_Error render_violation violations) in
            project_and_continue sm w
        | (sm, Ok rec) =>
            match commitTransition epochId triggeredBy rec (sm_state sm) stepSeq w with
            | (w, Err e) => inr (w, sm, Some e)
            | (w, Ok _) => inl (w, sm)
            end
        end
    end.

Definition control_advance (fuel : nat) (epochId : string) (adv : PhaseAdvanceSignal)
    (sm : EpochStateMachine) (w : World) : outcome turn :=
  match drainSideChannels fuel epochId sm w with
  | Finished (w, sm, _, Some e) => Finished (inr (w, sm, Some e))
  | Finished (w, sm, _, None) => Finished (control_apply epochId adv sm w)
  | OutOfFuel => OutOfFuel
  | Panicked => Panicked
  end.

Definition control_turn (fuel : nat) (epochId : string) (sm : EpochStateMachine) (w : World)
    : outcome turn :=
  match recv_advance controlPollInterval w with
  | (w, RecvFailed e) => Finished (inr (w, sm, Some e))
  | (w, RecvTimeout) => control_idle fuel epochId sm w
  | (w, Received adv) => control_advance fuel epochId adv sm w
  end.

Fixpoint control_loop (fuel : nat) (epochId : string) (sm : EpochStateMachine) (w : World)
    : outcome returned :=
  match fuel with
  | O => OutOfFuel
  | S f =>
      if String.eqb (es_CurrentPhase (sm_state sm)) PhaseComplete then Finished (w, sm, None)
      else match control_turn f epochId sm w with
      | Finished (inr r) => Finished r
      | Finished (inl (w, sm)) => control_loop f epochId sm w
      | OutOfFuel => OutOfFuel
      | Panicked => Panicked
      end
  end.

Definition EpochControlWorkflow (fuel : nat) (specs : option (gmap PhaseId PhaseSpec))
    (epochId : string) (w : World) : outcome returned :=
  control_loop fuel epochId (NewEpochStateMachine epochId specs) w.

(** ** EpochWorkflow: the scripted driver *)
Record AdvanceStep := {
  as_ToPhase : PhaseId;
  as_TriggeredBy : string;
  as_ConditionMet : string;
  as_Votes : list ReviewVoteSignal;
  as_BlockerDelta : Z;
}.

(** The loops run [delta] and [-delta] times; the negation wraps. *)
Definition applyBlockerDelta (sm : EpochStateMachine) (delta : Z) : EpochStateMachine :=
  if (0 <? delta)%Z
  then Nat.iter (Z.to_nat delta) (fun sm => RecordBlocker sm false) sm
  else Nat.iter (Z.to_nat (wrap64 (- delta))) (fun sm => RecordBlocker sm true) sm.

Fixpoint record_votes (votes : list ReviewVoteSignal) (sm : EpochStateMachine)
    : option EpochStateMachine :=
  match votes with
  | [] => Some sm
  | v :: rest => '(sm, _) ← RecordVote sm (rvs_Axis v) (rvs_Vote v); record_votes rest sm
  end.

Definition scripted_step (epochId : string) (adv : AdvanceStep) (sm : EpochStateMachine)
    (w : World) : outcome turn :=
  match record_votes (as_Votes adv) sm with
  | None => Panicked
  | Some sm =>
      let sm := applyBlockerDelta sm (as_BlockerDelta adv) in
      let fromPhase := es_CurrentPhase (sm_state sm) in
      let triggeredBy := if String.eqb (as_TriggeredBy adv) EmptyString then RoleEpoch
                         else as_TriggeredBy adv in
      match GetStepID w with
      | (w, Err e) => Finished (inr (w, sm, Some e))
      | (w, Ok stepSeqInt) =>
          let stepSeq := format_int stepSeqInt in
          let '(w, t) := Now w in
          match Advance sm (as_ToPhase adv) triggeredBy (as_ConditionMet adv) t with
          | (sm, Err violations) =>
              let '(w, t') := Now w in
              let sm := RecordFailedTransition sm fromPhase (as_ToPhase adv) t' triggeredBy
                          (TransitionError_Error render_violation violations) in
              Finished (project_and_continue sm w)
          | (sm, Ok rec) =>
              match commitTransition epochId triggeredBy rec (sm_state sm) stepSeq w with
              | (w, Err e) => Finished (inr (w, sm, Some e))
              | (w, Ok _) => Finished (inl (w, sm))
              end
          end
      end
  end.

Fixpoint scripted_loop (epochId : string) (advances : list AdvanceStep) (sm : EpochStateMachine)
    (w : World) : outcome returned :=
  match advances with
  | [] => Finished (w, sm, None)
  | adv :: rest =>
      match scripted_step epochId adv sm w with
      | Finished (inl (w, sm)) => scripted_loop epochId rest sm w
      | Finished (inr r) => Finished r
      | OutOfFuel => OutOfFuel
      | Panicked => Panicked
      end
  end.

Definition EpochWorkflow (specs : option (gmap PhaseId PhaseSpec)) (epochId : string)
    (advances : list AdvanceStep) (w : World) : outcome returned :=
  scripted_loop epochId advances (NewEpochStateMachine epochId specs) w.

End engine.

(** * Theorems *)

Section invariants.
Context {env : EngineEnv}.

(** The machine of a running workflow: the machine's own invariant, and one
    entry per registered session. *)
Record workflow_inv (sm : EpochStateMachine) : Prop := {
  wi_fsm : fsm_inv sm;
  wi_sessions : NoDup (rss_SessionId <$> es_ActiveSessions (sm_state sm));
  wi_count : es_ActiveSessionCount (sm_state sm)
             = Z.of_nat (length (es_ActiveSessions (sm_state sm)));
}.

Lemma new_workflow_inv id : workflow_inv (NewEpochStateMachine id None).
Proof. split; [apply inv_new|constructor|done]. Qed.

Lemma fsm_inv_fields sm st :
  fsm_inv sm ->
  es_ReviewVotes st = es_ReviewVotes (sm_state sm) ->
  es_BlockerCount st = es_BlockerCount (sm_state sm) ->
  es_CompletedPhases st = es_CompletedPhases (sm_state sm) ->
  es_CurrentPhase st = es_CurrentPhase (sm_state sm) ->
  es_TransitionHistory st = es_TransitionHistory (sm_state sm) ->
  fsm_inv (mk_sm st (sm_specs sm)).
Proof.
  intros [H1 H2 H3 H4 H5 H6] Ev Eb Ec Ep Eh. unfold votes_wf, successes in *.
  split; unfold votes_wf, successes; simpl; rewrite ?Ev, ?Eb, ?Ec, ?Ep, ?Eh; done.
Qed.

Lemma addSession_inv sm sess :
  workflow_inv sm -> workflow_inv (mk_sm (addSession (sm_state sm) sess).1 (sm_specs sm)).
Proof.
  intros [Hf Hn Hc]. unfold addSession. destruct (existsb _ _) eqn:E; simpl.
  - destruct sm. by split.
  - split; [by apply fsm_inv_fields| |done]. simpl. rewrite fmap_app. apply NoDup_app.
    split_and!; [done| |apply NoDup_singleton]. intros x Hx ->%list_elem_of_singleton.
    apply list_elem_of_fmap in Hx as (ex & He & Hin). apply not_true_iff_false in E. apply E.
    apply existsb_exists. exists ex. split; [by apply list_elem_of_In|]. by apply String.eqb_eq.
Qed.

Lemma progress_inv sm l : workflow_inv sm -> workflow_inv (mk_sm (set_progress (sm_state sm) l) (sm_specs sm)).
Proof. intros [Hf Hn Hc]. split; [by apply fsm_inv_fields|done|done]. Qed.

(** The machine's methods leave the sessions alone. *)
Lemma fsm_step_sessions sm sm' :
  fsm_step sm sm' ->
  es_ActiveSessions (sm_state sm') = es_ActiveSessions (sm_state sm) /\
  es_ActiveSessionCount (sm_state sm') = es_ActiveSessionCount (sm_state sm).
Proof.
  intros [sm0 axis vote sm1 e H|sm0 resolved|sm0 to by_ cond ts|sm0 from to ts by_ msg]; simpl.
  - unfold RecordVote in H. destruct (negb _); [by injection H as <- _|].
    destruct (es_ReviewVotes _); [|done]. by injection H as <- _.
  - unfold RecordBlocker. by destruct resolved; [destruct (_ <? _)%Z|].
  - unfold Advance. by destruct (ValidateAdvance sm0 to).
  - done.
Qed.

Lemma fsm_step_workflow_inv sm sm' : fsm_step sm sm' -> workflow_inv sm -> workflow_inv sm'.
Proof.
  intros H [Hf Hn Hc]. destruct (fsm_step_sessions _ _ H) as [Es En].
  split; [by eapply fsm_step_inv|by rewrite Es|by rewrite Es, En].
Qed.

Lemma RecordVote_total sm axis vote :
  workflow_inv sm -> exists sm' e, RecordVote sm axis vote = Some (sm', e) /\ workflow_inv sm'.
Proof.
  intros Hi. destruct (RecordVote sm axis vote) as [[sm' e]|] eqn:E.
  - exists sm', e. split; [done|]. eapply fsm_step_workflow_inv; [|done]. by eapply step_vote.
  - destruct Hi as [[_ (votes & Hv & _) _ _ _ _] _ _]. unfold RecordVote in E. rewrite Hv in E.
    by destruct (negb _).
Qed.

(** What a drain leaves: the invariant, the phase it started in, and the
    history of transitions untouched. *)
Definition drain_ok (sm : EpochStateMachine)
    (r : outcome (World * EpochStateMachine * bool * option Error)) : Prop :=
  match r with
  | Finished (_, sm', _, _) =>
      workflow_inv sm' /\ es_CurrentPhase (sm_state sm') = es_CurrentPhase (sm_state sm) /\
      es_TransitionHistory (sm_state sm') = es_TransitionHistory (sm_state sm)
  | OutOfFuel => True
  | Panicked => False
  end.

Lemma RecordVote_phase sm axis vote sm' e :
  RecordVote sm axis vote = Some (sm', e) ->
  es_CurrentPhase (sm_state sm') = es_CurrentPhase (sm_state sm) /\
  es_TransitionHistory (sm_state sm') = es_TransitionHistory (sm_state sm).
Proof.
  unfold RecordVote. destruct (negb _); [by intros [= <- _]|].
  destruct (es_ReviewVotes _); [|done]. by intros [= <- _].
Qed.

Lemma drain_ok_trans sm1 sm2 r :
  es_CurrentPhase (sm_state sm2) = es_CurrentPhase (sm_state sm1) ->
  es_TransitionHistory (sm_state sm2) = es_TransitionHistory (sm_state sm1) ->
  drain_ok sm2 r -> drain_ok sm1 r.
Proof.
  intros E1 E2. destruct r as [[[[w sm] c] e]| |]; simpl; [|done..]. by rewrite E1, E2.
Qed.

Lemma drain_votes_ok fuel id sm changed w :
  workflow_inv sm -> drain_ok sm (drain_votes fuel id sm changed w).
Proof.
  revert sm changed w. induction fuel as [|f IH]; intros sm changed w Hi; simpl; [done|].
  destruct (recv_vote 0 w) as [w1 [vote| |e]]; [|by split_and!..].
  destruct (String.eqb _ _); [by split_and!|].
  destruct (RecordVote_total sm (rvs_Axis vote) (rvs_Vote vote) Hi) as (sm1 & e & E & H1).
  rewrite E. destruct (RecordVote_phase _ _ _ _ _ E) as [Ep Eh].
  assert (Hr : forall c w, drain_ok sm (drain_votes f id sm1 c w))
    by (intros; by eapply drain_ok_trans, IH).
  destruct e; [apply Hr|]. destruct (GetStepID w1) as [w2 [seq|e]]; [|by split_and!].
  destruct (emitVoteRecorded _ _ _ _ _) as [w3 [u|e]]; [apply Hr|by split_and!].
Qed.

Lemma drain_sessions_ok fuel sm changed w :
  workflow_inv sm -> drain_ok sm (drain_sessions fuel sm changed w).
Proof.
  revert sm changed w. induction fuel as [|f IH]; intros sm changed w Hi; simpl; [done|].
  destruct (recv_session 0 w) as [w1 [sess| |e]]; [|by split_and!..].
  destruct (String.eqb _ _); [by split_and!|].
  pose proof (addSession_inv sm sess Hi) as H1.
  destruct (addSession (sm_state sm) sess) as [st added] eqn:E. simpl in H1.
  eapply drain_ok_trans, IH; [| |done]; simpl; unfold addSession in E;
    destruct (existsb _ _); by injection E as <- _.
Qed.

Lemma drain_progress_ok fuel sm changed w :
  workflow_inv sm -> drain_ok sm (drain_progress fuel sm changed w).
Proof.
  revert sm changed w. induction fuel as [|f IH]; intros sm changed w Hi; simpl; [done|].
  destruct (recv_progress 0 w) as [w1 [prog| |e]]; [|by split_and!..].
  destruct (_ && _); [by split_and!|].
  eapply drain_ok_trans, IH; [done..|by apply progress_inv].
Qed.

Lemma drainSideChannels_ok fuel id sm w :
  workflow_inv sm -> drain_ok sm (drainSideChannels fuel id sm w).
Proof.
  intros Hi. unfold drainSideChannels. pose proof (drain_votes_ok fuel id sm false w Hi) as H1.
  destruct (drain_votes _ _ _ _ _) as [[[[w1 sm1] c1] [e|]]| |]; try done.
  destruct H1 as (H1 & Ep & Eh). pose proof (drain_sessions_ok fuel sm1 c1 w1 H1) as H2.
  destruct (drain_sessions _ _ _ _) as [[[[w2 sm2] c2] [e|]]| |];
    [by eapply drain_ok_trans| |done|done].
  destruct H2 as (H2 & Ep2 & Eh2). eapply drain_ok_trans, drain_progress_ok; congruence || done.
Qed.

Definition turn_ok (t : World * EpochStateMachine + World * EpochStateMachine * option Error) : Prop :=
  match t with
  | inl (_, sm) => workflow_inv sm
  | inr (_, sm, e) => workflow_inv sm /\ is_Some e
  end.
Definition turn_outcome_ok
    (r : outcome (World * EpochStateMachine + World * EpochStateMachine * option Error)) : Prop :=
  match r with Finished t => turn_ok t | OutOfFuel => True | Panicked => False end.

Lemma project_and_continue_ok sm w : workflow_inv sm -> turn_ok (project_and_continue sm w).
Proof.
  intros Hi. unfold project_and_continue. destruct (projectState _ _) as [w1 [u|e]]; [done|].
  by split; [|eexists].
Qed.

Lemma control_apply_ok id adv sm w : workflow_inv sm -> turn_ok (control_apply id adv sm w).
Proof.
  intros Hi. unfold control_apply. destruct (String.eqb (pas_ToPhase adv) _);
    [by apply project_and_continue_ok|].
  destruct (GetStepID w) as [w1 [seq|e]]; [|by split; [|eexists]].
  destruct (Now w1) as [w2 t].
  pose proof (fsm_step_workflow_inv _ _ (step_advance sm (pas_ToPhase adv)
    (if String.eqb (pas_TriggeredBy adv) EmptyString then RoleEpoch else pas_TriggeredBy adv)
    (pas_ConditionMet adv) t) Hi) as H1.
  destruct (Advance _ _ _ _ _) as [sm1 [rec|vs]]; simpl in H1.
  - destruct (commitTransition _ _ _ _ _ _) as [w3 [u|e]]; [done|by split; [|eexists]].
  - destruct (Now w2) as [w3 t']. apply project_and_continue_ok.
    eapply fsm_step_workflow_inv; [apply step_failed|done].
Qed.

Lemma control_turn_ok fuel id sm w : workflow_inv sm -> turn_outcome_ok (control_turn fuel id sm w).
Proof.
  intros Hi. unfold control_turn, control_idle, control_advance.
  destruct (recv_advance _ w) as [w1 [adv| |e]]; [| |by split; [|eexists]];
    pose proof (drainSideChannels_ok fuel id sm w1 Hi) as Hd;
    destruct (drainSideChannels _ _ _ _) as [[[[w2 sm2] []] [e|]]| |]; try done;
    destruct Hd as (Hd & _);
    first [done | by split; [|eexists] | by apply control_apply_ok
          | by apply project_and_continue_ok].
Qed.

Definition returned_ok (r : outcome (World * EpochStateMachine * option Error)) (done : EpochStateMachine -> Prop)
    : Prop :=
  match r with
  | Finished (_, sm, None) => workflow_inv sm /\ done sm
  | Finished (_, sm, Some _) => workflow_inv sm
  | OutOfFuel => True
  | Panicked => False
  end.

Lemma control_loop_ok fuel id sm w :
  workflow_inv sm ->
  returned_ok (control_loop fuel id sm w) (fun sm => es_CurrentPhase (sm_state sm) = PhaseComplete).
Proof.
  revert sm w. induction fuel as [|f IH]; intros sm w Hi; simpl; [done|].
  destruct (String.eqb_spec (es_CurrentPhase (sm_state sm)) PhaseComplete) as [Hc|]; [done|].
  pose proof (control_turn_ok f id sm w Hi) as Ht.
  destruct (control_turn f id sm w) as [[[w1 sm1]|[[w1 sm1] e]]| |]; [by apply IH| |done|done].
  destruct Ht as [Ht [e' ->]]. done.
Qed.

Lemma workflow_complete sm :
  workflow_inv sm -> es_CurrentPhase (sm_state sm) = PhaseComplete ->
  DefaultPipeline `sublist_of` es_CompletedPhases (sm_state sm).
Proof. intros [[_ _ _ Hp _ _] _ _] Hc. rewrite Hc in Hp. by apply path_sublist in Hp. Qed.

(** The durable driver never breaks an epoch. However the signals arrive
    and whichever step fails, the control workflow never panics; the state it
    returns is a state the machine can reach, with one entry per session; and
    if it returns without an error the epoch stands at [complete] and has
    completed the twelve phases in order. *)
Theorem control_workflow_safe fuel id w w' sm e :
  EpochControlWorkflow fuel None id w <> Panicked /\
  (EpochControlWorkflow fuel None id w = Finished (w', sm, e) ->
   workflow_inv sm /\
   (e = None -> es_CurrentPhase (sm_state sm) = PhaseComplete /\
                DefaultPipeline `sublist_of` es_CompletedPhases (sm_state sm))).
Proof.
  pose proof (control_loop_ok fuel id _ w (new_workflow_inv id)) as H.
  unfold EpochControlWorkflow. split; [by intros E; rewrite E in H|].
  intros E. rewrite E in H. destruct e; simpl in H; [by split|].
  destruct H as [Hi Hc]. split; [done|]. intros _. split; [done|by apply workflow_complete].
Qed.

(** ** The scripted driver *)

Lemma record_votes_ok votes sm :
  workflow_inv sm -> exists sm', record_votes votes sm = Some sm' /\ workflow_inv sm'.
Proof.
  revert sm. induction votes as [|v rest IH]; intros sm Hi; simpl; [by exists sm|].
  destruct (RecordVote_total sm (rvs_Axis v) (rvs_Vote v) Hi) as (sm1 & e & E & H1).
  rewrite E. simpl. by apply IH.
Qed.

Lemma iter_blocker_ok n resolved sm :
  workflow_inv sm -> workflow_inv (Nat.iter n (fun sm => RecordBlocker sm resolved) sm).
Proof.
  intros Hi. induction n as [|n IH]; simpl; [done|].
  eapply fsm_step_workflow_inv; [apply step_blocker|done].
Qed.

Lemma scripted_step_ok id adv sm w :
  workflow_inv sm -> turn_outcome_ok (scripted_step id adv sm w) /\ scripted_step id adv sm w <> OutOfFuel.
Proof.
  intros Hi. unfold scripted_step.
  destruct (record_votes_ok (as_Votes adv) sm Hi) as (sm1 & -> & H1).
  assert (H2 : workflow_inv (applyBlockerDelta sm1 (as_BlockerDelta adv))).
  { unfold applyBlockerDelta. by destruct (_ <? _)%Z; apply iter_blocker_ok. }
  destruct (GetStepID w) as [w1 [seq|e]]; [|split; [by split; [|eexists]|done]].
  destruct (Now w1) as [w2 t].
  pose proof (fun by_ => fsm_step_workflow_inv _ _ (step_advance
    (applyBlockerDelta sm1 (as_BlockerDelta adv)) (as_ToPhase adv) by_ (as_ConditionMet adv) t) H2) as H3.
  specialize (H3 (if String.eqb (as_TriggeredBy adv) EmptyString then RoleEpoch else as_TriggeredBy adv)).
  destruct (Advance _ _ _ _ _) as [sm2 [rec|vs]]; simpl in H3.
  - destruct (commitTransition _ _ _ _ _ _) as [w3 [u|e]]; by split.
  - destruct (Now w2) as [w3 t']. split; [|done]. apply project_and_continue_ok.
    eapply fsm_step_workflow_inv; [apply step_failed|done].
Qed.

(** The scripted driver always returns, after at most one turn per planned
    advance, and never panics; the state it returns satisfies the machine's
    invariant whatever the plan, the votes and the blocker deltas are. *)
Lemma scripted_workflow_total id advances w :
  exists w' sm e, EpochWorkflow None id advances w = Finished (w', sm, e) /\ workflow_inv sm.
Proof.
  unfold EpochWorkflow. generalize (new_workflow_inv id).
  generalize (NewEpochStateMachine id None). intros sm. revert sm w.
  induction advances as [|adv rest IH]; intros sm w Hi; simpl; [by exists w, sm, None|].
  destruct (scripted_step_ok id adv sm w Hi) as [Ht Hn].
  destruct (scripted_step id adv sm w) as [[[w1 sm1]|[[w1 sm1] e]]| |]; try done.
  - by apply IH.
  - destruct Ht as [Ht _]. by exists w1, sm1, e.
Qed.
End invariants.

(** ** What a drain sees *)

(** The mailbox behaviour of the runtime that the receivers rely on: a receive
    takes the oldest queued vote, a non-blocking one times out on an empty
    queue, and no other operation of a drain touches the queue. *)
Class MailboxLaws (env : EngineEnv) := {
  vote_queue : World -> list ReviewVoteSignal;
  recv_vote_empty w : vote_queue w = [] ->
    (recv_vote 0 w).2 = RecvTimeout /\ vote_queue (recv_vote 0 w).1 = [];
  recv_vote_next t w v q : vote_queue w = v :: q ->
    (recv_vote t w).2 = Received v /\ vote_queue (recv_vote t w).1 = q;
  GetStepID_queue w : vote_queue (GetStepID w).1 = vote_queue w;
  Now_queue w : vote_queue (Now w).1 = vote_queue w;
  RecordEvent_queue ev w : vote_queue (RecordEvent ev w).1 = vote_queue w;
  RunAsStep_queue f w : (forall w, vote_queue (f w).1 = vote_queue w) ->
    vote_queue (RunAsStep f w).1 = vote_queue w;
}.

(** The votes before the first one without an axis, and those after it. *)
Fixpoint span_votes (q : list ReviewVoteSignal) : list ReviewVoteSignal * list ReviewVoteSignal :=
  match q with
  | [] => ([], [])
  | v :: rest =>
      if String.eqb (rvs_Axis v) EmptyString then ([], rest)
      else let '(seen, left_) := span_votes rest in (v :: seen, left_)
  end.

Definition cast (votes : gmap ReviewAxis VoteType) (q : list ReviewVoteSignal)
    : gmap ReviewAxis VoteType :=
  foldl (fun m v => if ReviewAxis_IsValid (rvs_Axis v) then <[rvs_Axis v := rvs_Vote v]> m else m)
        votes q.

Lemma emitVoteRecorded_queue {env : EngineEnv} {laws : MailboxLaws env} id phase vote seq w :
  vote_queue (emitVoteRecorded id phase vote seq w).1 = vote_queue w.
Proof.
  unfold emitVoteRecorded. apply RunAsStep_queue. intros w0.
  pose proof (Now_queue w0) as H. destruct (Now w0) as [w1 t]. simpl in H.
  by rewrite RecordEvent_queue.
Qed.

Lemma RecordVote_votes sm axis vote sm' e :
  RecordVote sm axis vote = Some (sm', e) ->
  votes_of (sm_state sm')
  = if ReviewAxis_IsValid axis then <[axis := vote]> (votes_of (sm_state sm))
    else votes_of (sm_state sm).
Proof.
  unfold RecordVote, votes_of. destruct (ReviewAxis_IsValid axis); simpl; [|by intros [= <- _]].
  destruct (es_ReviewVotes _) eqn:E; [|done]. by intros [= <- _].
Qed.

(** What the consensus gate sees. A drain with fuel for the queue always
    ends; unless a durable step fails, it has consumed exactly the votes queued
    before the first vote without an axis (and that one), the machine's votes
    are those votes cast in order with the last one per axis winning and
    invalid axes skipped, and the votes behind the one without an axis are
    still queued. *)
Theorem drain_votes_exact {env : EngineEnv} {laws : MailboxLaws env} fuel id sm changed w :
  workflow_inv sm -> (length (vote_queue w) < fuel)%nat ->
  exists w' sm' c e, drain_votes fuel id sm changed w = Finished (w', sm', c, e) /\
    (e = None ->
     votes_of (sm_state sm') = cast (votes_of (sm_state sm)) (span_votes (vote_queue w)).1 /\
     vote_queue w' = (span_votes (vote_queue w)).2).
Proof.
  revert sm changed w. induction fuel as [|f IH]; intros sm changed w Hi Hf; [lia|]. simpl.
  destruct (vote_queue w) as [|v q] eqn:Hq.
  - destruct (recv_vote_empty w Hq) as [Hr Hq']. destruct (recv_vote 0 w) as [w1 r].
    simpl in Hr, Hq'. rewrite Hr. by exists w1, sm, changed, None.
  - destruct (recv_vote_next 0 w v q Hq) as [Hr Hq']. destruct (recv_vote 0 w) as [w1 r].
    simpl in Hr, Hq'. rewrite Hr. simpl in Hf |- *.
    destruct (String.eqb (rvs_Axis v) EmptyString); [by exists w1, sm, changed, None|].
    destruct (RecordVote_total sm (rvs_Axis v) (rvs_Vote v) Hi) as (sm1 & e & E & H1).
    rewrite E. pose proof (RecordVote_votes _ _ _ _ _ E) as Hv.
    assert (Hstep : forall c w2, vote_queue w2 = q -> exists w' sm' c' e',
      drain_votes f id sm1 c w2 = Finished (w', sm', c', e') /\
      (e' = None -> votes_of (sm_state sm') =
         cast (votes_of (sm_state sm)) (let '(seen, left_) := span_votes q in (v :: seen, left_)).1 /\
       vote_queue w' = (let '(seen, left_) := span_votes q in (v :: seen, left_)).2)).
    { intros c w2 Hw2. destruct (IH sm1 c w2 H1) as (w' & sm' & c' & e' & Hd & Hn);
        [rewrite Hw2; lia|].
      exists w', sm', c', e'. split; [done|]. intros He. destruct (Hn He) as [Hn1 Hn2].
      rewrite Hw2 in Hn1, Hn2. destruct (span_votes q) as [seen left_]. simpl in *.
      rewrite Hn1, Hn2, Hv. by split. }
    destruct e; [by apply Hstep|].
    pose proof (GetStepID_queue w1) as Hg. destruct (GetStepID w1) as [w2 [seq|e]]; simpl in Hg;
      [|by exists w2, sm1, changed, (Some e)].
    pose proof (emitVoteRecorded_queue id (es_CurrentPhase (sm_state sm1)) v (format_int seq) w2) as He.
    destruct (emitVoteRecorded _ _ _ _ _) as [w3 [u|e]]; simpl in He;
      [|by exists w3, sm1, changed, (Some e)].
    apply Hstep. congruence.
Qed.

(** ** An in-memory runtime *)

Record Mail := mk_Mail {
  mb_advances : list PhaseAdvanceSignal;
  mb_votes : list ReviewVoteSignal;
  mb_sessions : list RegisterSessionSignal;
  mb_progress : list SliceProgressSignal;
  mb_events : list AuditEvent;
  mb_projection : option EpochState;
  mb_steps : Z;
}.

(** Queues per topic, a step counter, and stores that always succeed. An empty
    advance queue cancels the workflow, so that runs end. *)
Definition mailbox_env : EngineEnv :=
  {| World := Mail; Error := string;
     recv_advance := fun _ w => match mb_advances w with
       | [] => (w, RecvFailed "cancelled")
       | a :: q => (mk_Mail q (mb_votes w) (mb_sessions w) (mb_progress w) (mb_events w)
                            (mb_projection w) (mb_steps w), Received a)
       end;
     recv_vote := fun _ w => match mb_votes w with
       | [] => (w, RecvTimeout)
       | v :: q => (mk_Mail (mb_advances w) q (mb_sessions w) (mb_progress w) (mb_events w)
                            (mb_projection w) (mb_steps w), Received v)
       end;
     recv_session := fun _ w => match mb_sessions w with
       | [] => (w, RecvTimeout)
       | s :: q => (mk_Mail (mb_advances w) (mb_votes w) q (mb_progress w) (mb_events w)
                            (mb_projection w) (mb_steps w), Received s)
       end;
     recv_progress := fun _ w => match mb_progress w with
       | [] => (w, RecvTimeout)
       | p :: q => (mk_Mail (mb_advances w) (mb_votes w) (mb_sessions w) q (mb_events w)
                            (mb_projection w) (mb_steps w), Received p)
       end;
     GetStepID := fun w => (w, Ok (mb_steps w));
     RunAsStep := fun f w => f (mk_Mail (mb_advances w) (mb_votes w) (mb_sessions w)
       (mb_progress w) (mb_events w) (mb_projection w) (mb_steps w + 1));
     WriteProjection := fun st _ w => (mk_Mail (mb_advances w) (mb_votes w) (mb_sessions w)
       (mb_progress w) (mb_events w) (Some st) (mb_steps w), Ok tt);
     RecordEvent := fun ev w => (mk_Mail (mb_advances w) (mb_votes w) (mb_sessions w)
       (mb_progress w) (mb_events w ++ [ev])%list (mb_projection w) (mb_steps w), Ok tt);
     Now := fun w => (w, 0%Z);
     OnTransition := None;
     NewSHA1 := fun ns name => ns ++ ":" ++ name;
     render_violation := fun _ => "violation" |}.

Definition mailbox_laws : MailboxLaws mailbox_env.
Proof.
  refine (Build_MailboxLaws mailbox_env mb_votes _ _ _ _ _ _); simpl.
  - intros w H. rewrite H. by split.
  - intros t w v q H. rewrite H. by split.
  - done.
  - done.
  - done.
  - intros f w H. by rewrite H.
Defined.

Definition advance_to (p : PhaseId) : PhaseAdvanceSignal :=
  {| pas_ToPhase := p; pas_TriggeredBy := EmptyString; pas_ConditionMet := "c" |}.
Definition accept_on (axis : ReviewAxis) : ReviewVoteSignal :=
  {| rvs_Axis := axis; rvs_Vote := VoteAccept; rvs_ReviewerId := "r" |}.
Definition all_accepts : list ReviewVoteSignal := accept_on <$> AllReviewAxes.
Definition mail (advances : list PhaseId) (votes : list ReviewVoteSignal) : Mail :=
  mk_Mail (advance_to <$> advances) votes [] [] [] None 0.

Lemma drain_votes_exact_witness :
  exists w' sm' c e,
    drain_votes (env := mailbox_env) 9 "e" (NewEpochStateMachine "e" None) false
      (mail [] [accept_on AxisElegance; accept_on EmptyString; accept_on AxisCorrectness])
    = Finished (w', sm', c, e) /\
    (e = None -> mb_votes w' = [accept_on AxisCorrectness]).
Proof.
  destruct (@drain_votes_exact mailbox_env mailbox_laws 9 "e" (NewEpochStateMachine "e" None) false
    (mail [] [accept_on AxisElegance; accept_on EmptyString; accept_on AxisCorrectness])
    (new_workflow_inv "e") ltac:(vm_compute; lia)) as (w' & sm' & c & e & H & Hn).
  exists w', sm', c, e. split; [exact H|]. intros He. exact (proj2 (Hn He)).
Defined.

Definition final_phase {A B} (r : outcome (A * EpochStateMachine * B)) : option PhaseId :=
  match r with
  | Finished (_, sm, _) => Some (es_CurrentPhase (sm_state sm))
  | _ => None
  end.

(** Votes that reach the queue behind an earlier advance are drained before
    that advance is applied, and its success clears them: sent between the
    advance into review and the advance out of it, three ACCEPT votes do not
    open the gate when both advances are already queued. *)
Lemma queued_votes_lost :
  final_phase (EpochControlWorkflow (env := mailbox_env) 20 None "e"
    (mail [PhaseElicit; PhasePropose; PhaseReview; PhasePlanReview] all_accepts))
  = Some PhaseReview.
Proof. vm_compute. reflexivity. Qed.

(** A vote without an axis hides the votes behind it from the gate. *)
Lemma empty_axis_hides_votes :
  final_phase (EpochControlWorkflow (env := mailbox_env) 20 None "e"
    (mk_Mail [advance_to PhaseElicit] (accept_on EmptyString :: all_accepts) [] [] [] None 0))
  = Some PhaseElicit /\
  match drainSideChannels (env := mailbox_env) 20 "e" (NewEpochStateMachine "e" None)
          (mail [] (accept_on EmptyString :: all_accepts)) with
  | Finished (w, sm, _, _) => mb_votes w = all_accepts /\ HasConsensus sm = false
  | _ => False
  end.
Proof. split; [vm_compute; reflexivity|vm_compute; split; reflexivity]. Qed.

Lemma control_workflow_safe_witness :
  exists w' sm e, EpochControlWorkflow (env := mailbox_env) 20 None "e"
      (mail [PhaseElicit; PhaseComplete; PhasePropose] all_accepts) = Finished (w', sm, e) /\
    workflow_inv sm /\ length (mb_events w') = 5%nat.
Proof.
  destruct (EpochControlWorkflow (env := mailbox_env) 20 None "e"
      (mail [PhaseElicit; PhaseComplete; PhasePropose] all_accepts)) as [[[w' sm] e]| |] eqn:E;
    [|vm_compute in E; discriminate E..].
  exists w', sm, e. split; [reflexivity|].
  split; [exact (proj1 (proj2 (control_workflow_safe (env := mailbox_env) 20 "e" _ w' sm e) E))|].
  vm_compute in E. injection E as <- _ _. reflexivity.
Defined.
