(* ===== verification/SubWorkflows.v ===== *)
(** SubWorkflows: the review and slice sub-workflows
    (internal/engine/review.go, internal/engine/slice.go) and the phase mapping
    of the provenance activities (internal/engine/activities.go).

    They run on the runtime of ControlLoop, extended with the slice topics, the
    send primitive and the hook manager. *)

From Stdlib Require Import ZArith Lia Ascii String.
From stdpp Require Import base tactics list strings gmap.
From S2P Require Import Prelude Vocabulary Pipeline EpochFSM ControlLoop.
Local Open Scope string_scope.

(** ** Review *)
Record ReviewInput := {
  ri_EpochId : string;
  ri_PhaseId : string;
  ri_Round : Z;
}.
Record ReviewResult := {
  rr_PhaseId : string;
  rr_Success : bool;
  rr_VoteResult : gmap ReviewAxis VoteType;
}.

Definition allAxesVoted (votes : gmap ReviewAxis VoteType) : bool :=
  forallb (fun ax => bool_decide (is_Some (votes !! ax))) AllReviewAxes.

Definition reviewVotePollInterval : Z := 3600 * 1000000000.

Section review.
Context {env : EngineEnv}.

Definition review_result (inp : ReviewInput) (votes : gmap ReviewAxis VoteType) : ReviewResult :=
  {| rr_PhaseId := ri_PhaseId inp;
     rr_Success := allAxesVoted votes &&
       forallb (fun ax => String.eqb (default EmptyString (votes !! ax)) VoteAccept) AllReviewAxes;
     rr_VoteResult := votes |}.

Fixpoint review_loop (fuel : nat) (inp : ReviewInput) (votes : gmap ReviewAxis VoteType)
    (w : World) : outcome (World * result Error ReviewResult) :=
  match fuel with
  | O => OutOfFuel
  | S f =>
      if allAxesVoted votes then Finished (w, Ok (review_result inp votes))
      else match recv_vote reviewVotePollInterval w with
      | (w, RecvTimeout) => review_loop f inp votes w
      | (w, RecvFailed e) => Finished (w, Err e)
      | (w, Received sig) =>
          if negb (ReviewAxis_IsValid (rvs_Axis sig)) || negb (VoteType_IsValid (rvs_Vote sig))
          then review_loop f inp votes w
          else review_loop f inp (<[rvs_Axis sig := rvs_Vote sig]> votes) w
      end
  end.

Definition ReviewSubWorkflow (fuel : nat) (inp : ReviewInput) (w : World)
    : outcome (World * result Error ReviewResult) :=
  review_loop fuel inp ∅ w.
End review.

(** ** Slices *)
Record SliceInput := {
  si_EpochId : string;
  si_SliceId : string;
  si_ParentWorkflowId : string;
}.

(** The failures a slice reports; [Reported] carries the text of a
    complete_slice signal, [StepFailed] an error of the durable step. *)
Inductive SliceError (E : Type) :=
  | NoStartSignal
  | NotImplemented (mode : SliceExecutionMode)
  | UnrecognisedMode (mode : SliceExecutionMode)
  | StepFailed (e : E)
  | Reported (msg : string).
Arguments NoStartSignal {E}.
Arguments NotImplemented {E} mode.
Arguments UnrecognisedMode {E} mode.
Arguments StepFailed {E} e.
Arguments Reported {E} msg.

Record SliceResult (E : Type) := mk_SliceResult {
  sr_SliceId : string;
  sr_Success : bool;
  sr_Output : string;
  sr_Error : option (SliceError E);
}.
Arguments mk_SliceResult {E}.
Arguments sr_SliceId {E}.
Arguments sr_Success {E}.
Arguments sr_Output {E}.
Arguments sr_Error {E}.

Inductive HookEvent := HookSliceStarted | HookSliceCompleted | HookSliceFailed.

Class SliceEnv (env : EngineEnv) := {
  recv_start : Z -> World -> World * received Error SliceStartSignal;
  recv_complete : Z -> World -> World * received Error SliceCompleteSignal;
  SendProgress : string -> SliceProgressSignal -> World -> World * result Error unit;
  HooksMgr : option (HookEvent -> string -> gmap string string -> World ->
                     World * result Error unit);
  RunSliceStep : (World -> World * result Error (SliceResult Error)) -> World ->
                 World * result Error (SliceResult Error);
  render_slice_error : SliceError Error -> string;
}.

Section slice.
Context {env : EngineEnv} {senv : SliceEnv env}.

Definition runSlice {E} (sliceId : string) (mode : SliceExecutionMode) (command : string)
    (timeoutSecs : Z) : SliceResult E :=
  if String.eqb mode SliceMock then mk_SliceResult sliceId true "mock: completed" None
  else if String.eqb mode SliceTmux || String.eqb mode SliceSubprocess
  then mk_SliceResult sliceId false EmptyString (Some (NotImplemented mode))
  else mk_SliceResult sliceId false EmptyString (Some (UnrecognisedMode mode)).

(** Dispatch errors are logged and dropped, and so is the step's own error. *)
Definition dispatchHook (event : HookEvent) (epochId : string) (data : gmap string string)
    (w : World) : World :=
  match HooksMgr with
  | None => w
  | Some dispatch =>
      (RunAsStep (fun w => let '(w, _) := dispatch event epochId data w in (w, Ok tt)) w).1
  end.

(** The progress signal to the parent; a failed send is logged and dropped. *)
Definition report_progress (inp : SliceInput) (completed : bool) (w : World) : World :=
  if String.eqb (si_ParentWorkflowId inp) EmptyString then w
  else (SendProgress (si_ParentWorkflowId inp)
          {| sps_SliceId := si_SliceId inp; sps_LeafTaskId := si_SliceId inp;
             sps_StageName := "execute"; sps_Completed := completed |} w).1.

Definition completeSignalTimeout : Z := 1000000000.

(** The start signal never came. *)
Definition slice_not_started (inp : SliceInput) (w : World) : World * SliceResult Error :=
  let err := NoStartSignal in
  let w := dispatchHook HookSliceFailed (si_EpochId inp)
             {[ "sliceId" := si_SliceId inp; "error" := render_slice_error err ]} w in
  (report_progress inp false w, mk_SliceResult (si_SliceId inp) false EmptyString (Some err)).

Definition completion_hook (inp : SliceInput) (r : SliceResult Error) (w : World) : World :=
  if sr_Success r
  then dispatchHook HookSliceCompleted (si_EpochId inp)
         {[ "sliceId" := si_SliceId inp; "output" := sr_Output r ]} w
  else dispatchHook HookSliceFailed (si_EpochId inp)
         {[ "sliceId" := si_SliceId inp;
            "error" := from_option render_slice_error EmptyString (sr_Error r) ]} w.

Definition slice_started (inp : SliceInput) (startSig : SliceStartSignal) (w : World)
    : World * SliceResult Error :=
  let mode := sss_Mode startSig in
  let timeoutSecs := if (0 <? sss_TimeoutSeconds startSig)%Z then sss_TimeoutSeconds startSig
                     else 300%Z in
  let w := dispatchHook HookSliceStarted (si_EpochId inp)
             {[ "sliceId" := si_SliceId inp; "mode" := mode ]} w in
  let '(w, stepped) := RunSliceStep
    (fun w => (w, Ok (runSlice (si_SliceId inp) mode (sss_Command startSig) timeoutSecs))) w in
  let result := match stepped with
                | Ok r => r
                | Err e => mk_SliceResult (si_SliceId inp) false EmptyString (Some (StepFailed e))
                end in
  let '(w, complete) := recv_complete completeSignalTimeout w in
  let result := match complete with
                | Received c => mk_SliceResult (si_SliceId inp) (scs_Success c) (scs_Output c)
                                               (Reported <$> scs_Error c)
                | _ => result
                end in
  let w := completion_hook inp result w in
  (report_progress inp (sr_Success result) w, result).

Definition SliceSubWorkflow (startSignalTimeout : Z) (inp : SliceInput) (w : World)
    : World * result Error (SliceResult Error) :=
  match recv_start startSignalTimeout w with
  | (w, RecvFailed e) => (w, Err e)
  | (w, RecvTimeout) => let '(w, r) := slice_not_started inp w in (w, Ok r)
  | (w, Received sig) => let '(w, r) := slice_started inp sig w in (w, Ok r)
  end.
End slice.

(** ** Provenance phases (activities.go)

    The target is the provenance module's own enumeration, named here by its
    constants' order of declaration in the switch. *)
Inductive ProvenancePhase :=
  | PPRequest | PPElicit | PPPropose | PPReview | PPPlanUAT | PPRatify | PPHandoff
  | PPImplPlan | PPWorkerSlices | PPCodeReview | PPImplUAT | PPLanding | PPUnscoped.
#[export] Instance ProvenancePhase_eq_dec : EqDecision ProvenancePhase.
Proof. solve_decision. Defined.

Definition provenancePhase (pid : PhaseId) : ProvenancePhase :=
  if String.eqb pid PhaseRequest then PPRequest
  else if String.eqb pid PhaseElicit then PPElicit
  else if String.eqb pid PhasePropose then PPPropose
  else if String.eqb pid PhaseReview then PPReview
  else if String.eqb pid PhasePlanReview then PPPlanUAT
  else if String.eqb pid PhaseRatify then PPRatify
  else if String.eqb pid PhaseHandoff then PPHandoff
  else if String.eqb pid PhaseImplPlan then PPImplPlan
  else if String.eqb pid PhaseWorkerSlices then PPWorkerSlices
  else if String.eqb pid PhaseCodeReview then PPCodeReview
  else if String.eqb pid PhaseImplUAT then PPImplUAT
  else if String.eqb pid PhaseLanding then PPLanding
  else PPUnscoped.

(** * Theorems *)

(** ** Reviews *)

Definition valid_vote (v : ReviewVoteSignal) : bool :=
  ReviewAxis_IsValid (rvs_Axis v) && VoteType_IsValid (rvs_Vote v).
Definition collect (votes : gmap ReviewAxis VoteType) (q : list ReviewVoteSignal)
    : gmap ReviewAxis VoteType :=
  foldl (fun m v => if valid_vote v then <[rvs_Axis v := rvs_Vote v]> m else m) votes q.

Definition votes_valid (votes : gmap ReviewAxis VoteType) : Prop :=
  forall ax v, votes !! ax = Some v -> ReviewAxis_IsValid ax = true /\ VoteType_IsValid v = true.

Lemma insert_valid votes v :
  votes_valid votes -> valid_vote v = true -> votes_valid (<[rvs_Axis v := rvs_Vote v]> votes).
Proof.
  intros Hv [Ha Ht]%andb_prop ax x. destruct (decide (ax = rvs_Axis v)) as [->|].
  - rewrite lookup_insert_eq. by intros [= <-].
  - rewrite lookup_insert_ne by done. apply Hv.
Qed.

Lemma allAxesVoted_spec votes :
  allAxesVoted votes = true <-> forall ax, ax ∈ AllReviewAxes -> is_Some (votes !! ax).
Proof.
  unfold allAxesVoted. rewrite forallb_forall. setoid_rewrite <- list_elem_of_In.
  by setoid_rewrite bool_decide_eq_true.
Qed.

Section review_theorems.
Context {env : EngineEnv}.

Lemma review_loop_ok fuel inp votes w w' r :
  votes_valid votes -> review_loop fuel inp votes w = Finished (w', Ok r) ->
  votes_valid (rr_VoteResult r) /\ allAxesVoted (rr_VoteResult r) = true /\
  r = review_result inp (rr_VoteResult r).
Proof.
  revert votes w. induction fuel as [|f IH]; intros votes w Hv H; simpl in H; [done|].
  destruct (allAxesVoted votes) eqn:Ha; [injection H as <- <-; by split_and!|].
  destruct (recv_vote _ w) as [w1 [sig| |e]]; [|by eapply IH|done].
  destruct (negb _ || negb _) eqn:Hn; [by eapply IH|]. eapply IH, H.
  apply insert_valid; [done|]. unfold valid_vote. apply orb_false_iff in Hn as [H1 H2].
  by rewrite (proj1 (negb_false_iff _) H1), (proj1 (negb_false_iff _) H2).
Qed.

(** A review result is complete and honest. A review that returns has a
    vote on every axis and nothing else: no unknown axis and no unknown vote;
    it succeeds exactly when every axis accepted, which is the consensus gate
    of a machine holding the same votes. *)
Theorem review_result_sound fuel inp w w' r sm :
  ReviewSubWorkflow fuel inp w = Finished (w', Ok r) ->
  (forall ax, is_Some (rr_VoteResult r !! ax) <-> ax ∈ AllReviewAxes) /\
  (forall ax v, rr_VoteResult r !! ax = Some v -> v = VoteAccept \/ v = VoteRevise) /\
  rr_PhaseId r = ri_PhaseId inp /\
  (votes_of (sm_state sm) = rr_VoteResult r -> rr_Success r = HasConsensus sm).
Proof.
  intros H. apply review_loop_ok in H as (Hv & Ha & Hr); [|by intros ? ?].
  split_and!.
  - intros ax. split; [|by apply allAxesVoted_spec]. intros [v Hax].
    apply one_of_spec. by destruct (Hv ax v Hax).
  - intros ax v Hax. destruct (Hv ax v Hax) as [_ Ht]. apply one_of_spec in Ht.
    rewrite !elem_of_cons, elem_of_nil in Ht. tauto.
  - by rewrite Hr.
  - intros Hs. rewrite Hr. unfold review_result, rr_Success, HasConsensus. rewrite Ha, Hs. simpl.
    by destruct (rr_VoteResult r !! AxisCorrectness), (rr_VoteResult r !! AxisTestQuality),
      (rr_VoteResult r !! AxisElegance).
Qed.

(** A review ends as soon as its votes are in. If the votes already queued
    cover the three axes, the review returns with fuel for the queue, having
    consumed a prefix of it: the shortest one that covers the axes, each axis
    carrying its last valid vote in that prefix; the other votes stay
    queued. *)
Lemma review_completes {laws : MailboxLaws env} fuel inp w :
  allAxesVoted (collect ∅ (vote_queue w)) = true -> (length (vote_queue w) < fuel)%nat ->
  exists k w', ReviewSubWorkflow fuel inp w
      = Finished (w', Ok (review_result inp (collect ∅ (take k (vote_queue w))))) /\
    vote_queue w' = drop k (vote_queue w) /\
    allAxesVoted (collect ∅ (take k (vote_queue w))) = true /\
    (forall j, (j < k)%nat -> allAxesVoted (collect ∅ (take j (vote_queue w))) = false).
Proof.
  unfold ReviewSubWorkflow. generalize (∅ : gmap ReviewAxis VoteType) as votes.
  revert w. induction fuel as [|f IH]; intros w votes Ha Hf; [lia|]. simpl.
  destruct (allAxesVoted votes) eqn:Hv.
  - exists 0%nat, w. rewrite take_0. split_and!; [done..|intros; lia].
  - destruct (vote_queue w) as [|v q] eqn:Hq; [simpl in Ha; congruence|].
    destruct (recv_vote_next reviewVotePollInterval w v q Hq) as [Hr Hq'].
    destruct (recv_vote _ w) as [w1 r]. simpl in Hr, Hq', Hf. rewrite Hr.
    set (votes' := if valid_vote v then <[rvs_Axis v := rvs_Vote v]> votes else votes).
    change (allAxesVoted (collect votes' q) = true) in Ha.
    destruct (IH w1 votes') as (k & w' & Hd & Hw' & Hk & Hj); [by rewrite Hq'|rewrite Hq'; lia|].
    rewrite Hq' in Hd, Hw', Hk, Hj. exists (S k), w'. split_and!; [|done|done|].
    + replace (collect votes (take (S k) (v :: q))) with (collect votes' (take k q)) by done.
      rewrite <- Hd. unfold votes', valid_vote.
      by destruct (ReviewAxis_IsValid _), (VoteType_IsValid _).
    + intros [|j] Hjk; [done|]. apply (Hj j). lia.
Qed.
End review_theorems.

Definition review_input : ReviewInput := {| ri_EpochId := "e"; ri_PhaseId := "review"; ri_Round := 1 |}.
Definition review_mail : Mail :=
  mail [] (accept_on AxisElegance :: accept_on "typo" :: all_accepts).

Lemma review_completes_witness :
  exists k w', ReviewSubWorkflow (env := mailbox_env) 9 review_input review_mail
    = Finished (w', Ok (review_result review_input (collect ∅ (take k (mb_votes review_mail))))).
Proof.
  destruct (@review_completes mailbox_env mailbox_laws 9 review_input review_mail
    ltac:(vm_compute; reflexivity) ltac:(vm_compute; lia)) as (k & w' & H & _).
  exists k, w'. exact H.
Defined.

Lemma review_result_sound_witness :
  exists w' r, ReviewSubWorkflow (env := mailbox_env) 9 review_input review_mail = Finished (w', Ok r) /\
    rr_PhaseId r = "review".
Proof.
  destruct (ReviewSubWorkflow (env := mailbox_env) 9 review_input review_mail)
    as [[w' [r|e]]| |] eqn:E; [|vm_compute in E; discriminate E..].
  exists w', r. split; [reflexivity|].
  exact (proj1 (proj2 (proj2 (review_result_sound (env := mailbox_env) 9 review_input review_mail w' r
    (NewEpochStateMachine "e" None) E)))).
Defined.

(** ** Slices *)

Section slice_theorems.
Context {env : EngineEnv} {senv : SliceEnv env}.

(** A durable step returns what its function returned, in this run or in the
    run it replays. *)
Definition step_faithful : Prop :=
  forall f w r, (RunSliceStep f w).2 = Ok r -> exists w0, (f w0).2 = Ok r.

(** A slice never fabricates success. A slice sub-workflow reports success
    only when a start signal arrived and either a complete_slice signal said so
    or, with no such signal, the mode was mock; otherwise its error says why;
    and its last action is to report that same outcome to its parent. *)
Theorem slice_honest timeout inp w w' r :
  step_faithful -> SliceSubWorkflow timeout inp w = (w', Ok r) ->
  sr_SliceId r = si_SliceId inp /\
  (exists w0, w' = report_progress inp (sr_Success r) w0) /\
  (sr_Success r = true ->
   exists sig w1 w2, recv_start timeout w = (w1, Received sig) /\
     ((exists c w3, recv_complete completeSignalTimeout w2 = (w3, Received c) /\ scs_Success c = true) \/
      sss_Mode sig = SliceMock)) /\
  ((recv_start timeout w).2 = RecvTimeout -> sr_Error r = Some NoStartSignal /\ sr_Success r = false).
Proof.
  intros Hf. unfold SliceSubWorkflow. destruct (recv_start timeout w) as [w1 [sig| |e]] eqn:Es; [| |done].
  - unfold slice_started. simpl.
    set (step := RunSliceStep _ _). destruct step as [w2 stepped] eqn:Estep.
    destruct (recv_complete completeSignalTimeout w2) as [w3 c] eqn:Ec. intros [= <- <-].
    split_and!.
    + destruct c; [done| |]; destruct stepped as [r0|e0]; try done.
      all: unfold step in Estep; destruct (Hf _ _ r0 (f_equal snd Estep)) as [w0 [= <-]].
      all: unfold runSlice; by destruct (String.eqb _ _); [|destruct (_ || _)].
    + by eexists.
    + intros Hs. exists sig, w1, w2. split; [done|].
      destruct c as [c| |]; [left; by exists c, w3|right..].
      all: destruct stepped as [r0|e0]; [|done].
      all: unfold step in Estep; destruct (Hf _ _ r0 (f_equal snd Estep)) as [w0 [= <-]].
      all: unfold runSlice in Hs; destruct (String.eqb_spec (sss_Mode sig) SliceMock); [done|].
      all: by destruct (_ || _).
    + done.
  - unfold slice_not_started. intros [= <- <-]. split_and!; try done. by eexists.
Qed.
End slice_theorems.

Definition push_progress (p : SliceProgressSignal) (w : Mail) : Mail :=
  mk_Mail (mb_advances w) (mb_votes w) (mb_sessions w) (mb_progress w ++ [p])%list
    (mb_events w) (mb_projection w) (mb_steps w).

(** The in-memory runtime with a start signal in mock mode, no completion
    signal and no hooks. *)
Definition mock_slice : SliceEnv mailbox_env :=
  @Build_SliceEnv mailbox_env
    (fun _ w => (w, Received {| sss_Mode := SliceMock; sss_Command := "run";
                                sss_TimeoutSeconds := 0 |}))
    (fun _ w => (w, RecvTimeout))
    (fun _ p w => (push_progress p w, Ok tt))
    None
    (fun f w => f w)
    (fun _ => EmptyString).

Lemma slice_honest_witness :
  exists w' r, SliceSubWorkflow (senv := mock_slice) 2
      {| si_EpochId := "e"; si_SliceId := "s1"; si_ParentWorkflowId := "e" |} (mail [] [])
    = (w', Ok r) /\ sr_SliceId r = "s1" /\ length (mb_progress w') = 1%nat.
Proof.
  destruct (SliceSubWorkflow (senv := mock_slice) 2
      {| si_EpochId := "e"; si_SliceId := "s1"; si_ParentWorkflowId := "e" |} (mail [] []))
    as [w' [r|e]] eqn:E; [|vm_compute in E; discriminate E].
  exists w', r. split; [reflexivity|]. split.
  - refine (proj1 (slice_honest (senv := mock_slice) 2 _ (mail [] []) w' r _ E)).
    intros f w r0 H. exists w. exact H.
  - vm_compute in E. injection E as <- _. reflexivity.
Defined.
