(* ===== verification/HostVersion.v ===== *)
(** HostVersion: host versions, the constraints contracts put on them, and
    capability version ranges (internal/runtime/version.go; the pattern of
    capability versions is internal/codegen/ir/capability.go).

    An error carries what its message is formatted from.  [ParseUint] keeps the
    value it returns with an error, since [splitCapabilityVersion] drops the
    error and uses the value. *)

From Stdlib Require Import ZArith Lia Ascii String.
From stdpp Require Import base tactics list strings pretty.
From S2P Require Import Prelude GoStrings.
Local Open Scope list_scope.
Local Open Scope Z_scope.

(** ** Host versions *)
Record HostVersion := mk_HostVersion {
  hv_major : Z;
  hv_minor : Z;
  hv_patch : Z;
  hv_prerelease : list bytes;
  hv_build : list bytes;
  hv_parsed : bool;
}.

Definition zero_HostVersion : HostVersion := mk_HostVersion 0 0 0 [] [] false.

Inductive SeriesDomain := BuildMetadata | Prerelease.

Inductive VersionError :=
  | PaddedVersion (value : bytes)
  | EmptySeries (domain : SeriesDomain)
  | EmptyIdentifier (domain : SeriesDomain)
  | UnsupportedCharacter (domain : SeriesDomain) (field : bytes)
  | LeadingZero (domain : SeriesDomain) (field : bytes)
  | NotATriple (value : bytes)
  | PaddedComponent (value : bytes)
  | NonNumericComponent (value field : bytes) (cause : NumError)
  | UnparsedFloor
  | UnparsedBound
  | EmptyRange (min max : HostVersion)
  | InvalidCapabilityBound
  | EmptyCapabilityRange (min max : bytes).

Definition isAllDigits (s : bytes) : bool :=
  forallb is_digit s && match s with [] => false | _ => true end.

(** Every rune outside ASCII is unsupported, so the loop over runes refuses a
    field exactly when one of its bytes is unsupported. *)
Definition supported (c : ascii) : bool :=
  Ascii.eqb c "-"%char || is_digit c || byte_between 97 122 c || byte_between 65 90 c.

Definition zero_padded (field : bytes) : bool :=
  (1 <? length field)%nat && match field with c :: _ => Ascii.eqb c "0"%char | [] => false end.

Definition series_field (domain : SeriesDomain) (field : bytes) : option VersionError :=
  match field with
  | [] => Some (EmptyIdentifier domain)
  | _ =>
      if negb (forallb supported field) then Some (UnsupportedCharacter domain field)
      else match domain with
           | Prerelease => if zero_padded field && isAllDigits field
                           then Some (LeadingZero domain field) else None
           | BuildMetadata => None
           end
  end.

Fixpoint series_fields (domain : SeriesDomain) (fields : list bytes) : option VersionError :=
  match fields with
  | [] => None
  | f :: rest =>
      match series_field domain f with
      | Some e => Some e
      | None => series_fields domain rest
      end
  end.

Definition parseDotSeries (raw : bytes) (domain : SeriesDomain) : result VersionError (list bytes) :=
  match raw with
  | [] => Err (EmptySeries domain)
  | _ => let fields := Split raw "."%char in
         match series_fields domain fields with
         | Some e => Err e
         | None => Ok fields
         end
  end.

(** The suffix after the first [sep], parsed as a series, and what precedes. *)
Definition cut_series (core : bytes) (sep : ascii) (domain : SeriesDomain)
    : result VersionError (bytes * list bytes) :=
  match IndexByte core sep with
  | Some i =>
      match parseDotSeries (drop (S i) core) domain with
      | Ok series => Ok (take i core, series)
      | Err e => Err e
      end
  | None => Ok (core, [])
  end.

Fixpoint parse_numbers (value : bytes) (fields : list bytes) : result VersionError (list Z) :=
  match fields with
  | [] => Ok []
  | field :: rest =>
      if bool_decide (field = []) || zero_padded field then Err (PaddedComponent value)
      else match ParseUint field with
      | (_, Some e) => Err (NonNumericComponent value field e)
      | (n, None) =>
          match parse_numbers value rest with
          | Ok ns => Ok (n :: ns)
          | Err e => Err e
          end
      end
  end.

Definition ParseHostVersion (value : bytes) : result VersionError HostVersion :=
  if negb (bool_decide (TrimSpace value = value)) || bool_decide (value = [])
  then Err (PaddedVersion value)
  else
    let core := TrimPrefix value ["v"%char] in
    match cut_series core "+"%char BuildMetadata with
    | Err e => Err e
    | Ok (core, build) =>
        match cut_series core "-"%char Prerelease with
        | Err e => Err e
        | Ok (core, prerelease) =>
            let fields := Split core "."%char in
            if negb (length fields =? 3)%nat then Err (NotATriple value)
            else match parse_numbers value fields with
            | Err e => Err e
            | Ok numbers =>
                Ok (mk_HostVersion (nth 0 numbers 0) (nth 1 numbers 0) (nth 2 numbers 0)
                      prerelease build true)
            end
        end
    end.

Definition HasPrerelease (v : HostVersion) : bool := (0 <? length (hv_prerelease v))%nat.

Definition Release (v : HostVersion) : Z * Z * Z := (hv_major v, hv_minor v, hv_patch v).

Definition HostVersion_String (v : HostVersion) : bytes :=
  if negb (hv_parsed v) then []
  else
    let out := format_uint (hv_major v) ++ "."%char :: format_uint (hv_minor v)
               ++ "."%char :: format_uint (hv_patch v) in
    let out := if (0 <? length (hv_prerelease v))%nat
               then out ++ "-"%char :: Join (hv_prerelease v) "."%char else out in
    if (0 <? length (hv_build v))%nat
    then out ++ "+"%char :: Join (hv_build v) "."%char else out.

(** ** Precedence *)
Definition compareUint (a b : Z) : Z := if a <? b then -1 else if b <? a then 1 else 0.

Definition parseNumericIdentifier (value : bytes) : Z * bool :=
  match value with
  | [] => (0, false)
  | _ =>
      if negb (forallb is_digit value) then (0, false)
      else match ParseUint value with
           | (_, Some _) => (0, false)
           | (n, None) => (n, true)
           end
  end.

Definition comparePrereleaseIdentifier (a b : bytes) : Z :=
  let '(aNum, aIsNum) := parseNumericIdentifier a in
  let '(bNum, bIsNum) := parseNumericIdentifier b in
  if aIsNum && bIsNum then compareUint aNum bNum
  else if aIsNum then -1
  else if bIsNum then 1
  else Compare a b.

(** The loop over the common indexes: the first comparison that is not 0. *)
Fixpoint first_difference (a b : list bytes) : option Z :=
  match a, b with
  | x :: a', y :: b' =>
      let c := comparePrereleaseIdentifier x y in
      if negb (c =? 0) then Some c else first_difference a' b'
  | _, _ => None
  end.

Definition comparePrerelease (a b : list bytes) : Z :=
  if (length a =? 0)%nat && (length b =? 0)%nat then 0
  else if (length a =? 0)%nat then 1
  else if (length b =? 0)%nat then -1
  else match first_difference a b with
       | Some c => c
       | None => compareUint (Z.of_nat (length a)) (Z.of_nat (length b))
       end.

Definition ComparePrecedence (a b : HostVersion) : Z :=
  let c := compareUint (hv_major a) (hv_major b) in
  if negb (c =? 0) then c else
  let c := compareUint (hv_minor a) (hv_minor b) in
  if negb (c =? 0) then c else
  let c := compareUint (hv_patch a) (hv_patch b) in
  if negb (c =? 0) then c else
  comparePrerelease (hv_prerelease a) (hv_prerelease b).

(** ** Version constraints *)
Record VersionConstraint := mk_Constraint {
  vc_min : HostVersion;
  vc_max : HostVersion;
  vc_includePrereleases : bool;
  vc_floor : bool;
  vc_constructed : bool;
}.

Definition NewVersionFloor (min : HostVersion) : result VersionError VersionConstraint :=
  if negb (hv_parsed min) then Err UnparsedFloor
  else Ok (mk_Constraint min zero_HostVersion false true true).

Definition NewVersionConstraint (min max : HostVersion) (includePrereleases : bool)
    : result VersionError VersionConstraint :=
  if negb (hv_parsed min) || negb (hv_parsed max) then Err UnparsedBound
  else if 0 <? ComparePrecedence min max then Err (EmptyRange min max)
  else Ok (mk_Constraint min max includePrereleases false true).

Definition NewExactVersion (version : HostVersion) : result VersionError VersionConstraint :=
  NewVersionConstraint version version false.

Definition HasUpperBound (c : VersionConstraint) : bool := vc_constructed c && negb (vc_floor c).

Definition Allows (c : VersionConstraint) (version : HostVersion) : bool :=
  if negb (vc_constructed c) || negb (hv_parsed version) then false
  else if HasPrerelease version && negb (vc_includePrereleases c) then false
  else if ComparePrecedence version (vc_min c) <? 0 then false
  else if vc_floor c then true
  else ComparePrecedence version (vc_max c) <=? 0.

Definition Describe (c : VersionConstraint) : bytes :=
  if negb (vc_constructed c) then []
  else if vc_floor c then to_bytes "at or above " ++ HostVersion_String (vc_min c)
  else if ComparePrecedence (vc_min c) (vc_max c) =? 0
  then to_bytes "exactly " ++ HostVersion_String (vc_min c)
  else to_bytes "from " ++ HostVersion_String (vc_min c)
       ++ to_bytes " through " ++ HostVersion_String (vc_max c).

(** ** Capability version ranges *)

(** The pattern of three dot-separated numerals without leading zeros. *)
Definition CapabilityVersion_IsValid (version : bytes) : bool :=
  match Split version "."%char with
  | [a; b; c] => canonical a && canonical b && canonical c
  | _ => false
  end.

Definition splitCapabilityVersion (version : bytes) : Z * Z * Z :=
  let fields := Split version "."%char in
  if negb (length fields =? 3)%nat then (0, 0, 0)
  else ((ParseUint (nth 0 fields [])).1, (ParseUint (nth 1 fields [])).1,
        (ParseUint (nth 2 fields [])).1).

Definition compareCapabilityVersions (a b : bytes) : Z :=
  let '(aMajor, aMinor, aPatch) := splitCapabilityVersion a in
  let '(bMajor, bMinor, bPatch) := splitCapabilityVersion b in
  let c := compareUint aMajor bMajor in
  if negb (c =? 0) then c else
  let c := compareUint aMinor bMinor in
  if negb (c =? 0) then c else
  compareUint aPatch bPatch.

Definition maxCapabilityVersion (a b : bytes) : bytes :=
  if 0 <=? compareCapabilityVersions a b then a else b.
Definition minCapabilityVersion (a b : bytes) : bytes :=
  if compareCapabilityVersions a b <=? 0 then a else b.

Record CapabilityVersionRange := mk_CapabilityRange {
  cr_min : bytes;
  cr_max : bytes;
  cr_constructed : bool;
}.

Definition NewCapabilityVersionRange (min max : bytes)
    : result VersionError CapabilityVersionRange :=
  if negb (CapabilityVersion_IsValid min) || negb (CapabilityVersion_IsValid max)
  then Err InvalidCapabilityBound
  else if 0 <? compareCapabilityVersions min max then Err (EmptyCapabilityRange min max)
  else Ok (mk_CapabilityRange min max true).

Definition NewExactCapabilityVersion (version : bytes)
    : result VersionError CapabilityVersionRange :=
  NewCapabilityVersionRange version version.

Definition Includes (r : CapabilityVersionRange) (version : bytes) : bool :=
  if negb (cr_constructed r) || negb (CapabilityVersion_IsValid version) then false
  else (0 <=? compareCapabilityVersions version (cr_min r))
       && (compareCapabilityVersions version (cr_max r) <=? 0).

Definition Intersects (r other : CapabilityVersionRange) : bool :=
  if negb (cr_constructed r) || negb (cr_constructed other) then false
  else compareCapabilityVersions (maxCapabilityVersion (cr_min r) (cr_min other))
         (minCapabilityVersion (cr_max r) (cr_max other)) <=? 0.

(** * Theorems *)

(** ** Precedence *)

#[export] Instance compareUint_comparator : Comparator compareUint.
Proof. split; intros; unfold compareUint in *; split_compare; repeat case_match; lia. Qed.

Lemma compareUint_eq a b : compareUint a b = 0 <-> a = b.
Proof. unfold compareUint. split_compare. Qed.

#[export] Instance comparePrereleaseIdentifier_comparator :
  Comparator comparePrereleaseIdentifier.
Proof.
  split; unfold comparePrereleaseIdentifier.
  - intros a b. pose proof (cmp_sign (cmp:=Compare) a b).
    destruct (parseNumericIdentifier a) as [m []], (parseNumericIdentifier b) as [n []]; simpl; auto.
    apply cmp_sign.
  - intros a b. destruct (parseNumericIdentifier a) as [m []], (parseNumericIdentifier b) as [n []];
      simpl; try lia; apply cmp_opp.
  - intros a b c. destruct (parseNumericIdentifier a) as [m []],
      (parseNumericIdentifier b) as [n []], (parseNumericIdentifier c) as [p []];
      simpl; try lia; apply cmp_trans.
Qed.

Lemma first_difference_list a b :
  match first_difference a b with
  | Some c => c
  | None => compareUint (Z.of_nat (length a)) (Z.of_nat (length b))
  end = cmp_list comparePrereleaseIdentifier a b.
Proof.
  revert b. induction a as [|x a IH]; intros [|y b]; cbn -[Z.of_nat];
    try (unfold compareUint; split_compare; done).
  destruct (negb _); [done|]. rewrite <- IH. destruct (first_difference a b); [done|].
  unfold compareUint. split_compare.
Qed.

(** The empty series is above every other one. *)
Definition nothing_last (a : list bytes) : Z := match a with [] => 1 | _ => 0 end.

Lemma comparePrerelease_lex a b :
  comparePrerelease a b =
    cmp_lex (fun x y => compareUint (nothing_last x) (nothing_last y))
            (cmp_list comparePrereleaseIdentifier) a b.
Proof.
  unfold comparePrerelease, cmp_lex. destruct a as [|x a], b as [|y b]; try done.
  by rewrite first_difference_list.
Qed.

Lemma ComparePrecedence_lex a b :
  ComparePrecedence a b =
    cmp_lex (fun x y => compareUint (hv_major x) (hv_major y))
      (cmp_lex (fun x y => compareUint (hv_minor x) (hv_minor y))
        (cmp_lex (fun x y => compareUint (hv_patch x) (hv_patch y))
          (fun x y => cmp_lex (fun x y => compareUint (nothing_last x) (nothing_last y))
            (cmp_list comparePrereleaseIdentifier) (hv_prerelease x) (hv_prerelease y)))) a b.
Proof. unfold ComparePrecedence. by rewrite comparePrerelease_lex. Qed.

Lemma comparator_ext {A} (f g : A -> A -> Z) :
  (forall a b, f a b = g a b) -> Comparator g -> Comparator f.
Proof.
  intros H Hg. split; intros *; rewrite !H; [apply cmp_sign|apply cmp_opp|apply cmp_trans].
Qed.

#[export] Instance ComparePrecedence_comparator : Comparator ComparePrecedence.
Proof. eapply comparator_ext; [apply ComparePrecedence_lex|apply _]. Qed.

(** ** Well-formed versions *)

Definition uint64 (n : Z) : Prop := 0 <= n <= max_uint64.

Record version_wf (v : HostVersion) : Prop := {
  wf_parsed : hv_parsed v = true;
  wf_major : uint64 (hv_major v);
  wf_minor : uint64 (hv_minor v);
  wf_patch : uint64 (hv_patch v);
  wf_prerelease : Forall (fun f => series_field Prerelease f = None) (hv_prerelease v);
  wf_build : Forall (fun f => series_field BuildMetadata f = None) (hv_build v);
}.

Lemma series_field_ok d f :
  series_field d f = None -> f <> [] /\ forallb supported f = true /\
    (d = Prerelease -> zero_padded f && isAllDigits f = false).
Proof.
  unfold series_field. destruct f; [done|]. destruct (forallb supported _); [|done].
  destruct d; [done|]. destruct (_ && _) eqn:E; [done|]. done.
Qed.

Lemma digits_canonical f :
  f <> [] -> forallb is_digit f = true -> zero_padded f = false -> canonical f = true.
Proof.
  unfold canonical, zero_padded. intros Hne -> Hz. destruct f as [|c [|x f]]; [done|done|].
  simpl in *. by rewrite Hz.
Qed.

Lemma parseNumericIdentifier_canonical f n :
  series_field Prerelease f = None -> parseNumericIdentifier f = (n, true) -> f = format_uint n.
Proof.
  intros (Hne & _ & Hz)%series_field_ok. unfold parseNumericIdentifier.
  destruct f as [|c f]; [done|]. destruct (forallb is_digit _) eqn:Hd; [|done].
  destruct (ParseUint _) as [m [e|]] eqn:Hp; [done|]. simpl. intros [= <-].
  apply ParseUint_Some in Hp as (_ & _ & <- & _). rewrite format_uint_canonical; [done|].
  apply digits_canonical; [done|done|]. unfold isAllDigits in Hz. rewrite Hd in Hz.
  by rewrite andb_true_r in Hz; apply Hz.
Qed.

Lemma identifier_eq f g :
  series_field Prerelease f = None -> series_field Prerelease g = None ->
  comparePrereleaseIdentifier f g = 0 -> f = g.
Proof.
  intros Hf Hg. unfold comparePrereleaseIdentifier.
  destruct (parseNumericIdentifier f) as [m []] eqn:Em,
    (parseNumericIdentifier g) as [n []] eqn:En; simpl; try done.
  - intros ->%compareUint_eq. rewrite (parseNumericIdentifier_canonical f n Hf Em).
    by rewrite <- (parseNumericIdentifier_canonical g n Hg En).
  - by intros ?%(proj2 (proj2 (proj2 (Compare_laws f g)))).
Qed.

Lemma identifiers_eq a b :
  Forall (fun f => series_field Prerelease f = None) a ->
  Forall (fun f => series_field Prerelease f = None) b ->
  cmp_list comparePrereleaseIdentifier a b = 0 -> a = b.
Proof.
  intros Ha. revert b. induction Ha as [|x a Hx Ha IH]; intros b Hb; destruct Hb as [|y b Hy Hb];
    simpl; try done.
  destruct (Z.eqb_spec (comparePrereleaseIdentifier x y) 0) as [E|]; simpl; [|done].
  intros H. f_equal; [by apply identifier_eq|by apply IH].
Qed.

(** [comparePrereleaseIdentifier] of a string with itself. *)
Lemma cmp_refl {A} (cmp : A -> A -> Z) `{!Comparator cmp} a : cmp a a = 0.
Proof. pose proof (cmp_opp (cmp:=cmp) a a). lia. Qed.

Lemma ComparePrecedence_eq a b :
  version_wf a -> version_wf b ->
  ComparePrecedence a b = 0 <-> Release a = Release b /\ hv_prerelease a = hv_prerelease b.
Proof.
  intros Ha Hb. split.
  - rewrite ComparePrecedence_lex. unfold cmp_lex at 1 2 3. unfold Release. cbv zeta.
    destruct (Z.eqb_spec (compareUint (hv_major a) (hv_major b)) 0) as [->%compareUint_eq|]; [|done].
    destruct (Z.eqb_spec (compareUint (hv_minor a) (hv_minor b)) 0) as [->%compareUint_eq|]; [|done].
    destruct (Z.eqb_spec (compareUint (hv_patch a) (hv_patch b)) 0) as [->%compareUint_eq|]; [|done].
    cbn [negb]. unfold cmp_lex.
    destruct (Z.eqb_spec (compareUint (nothing_last (hv_prerelease a))
                            (nothing_last (hv_prerelease b))) 0); [|done].
    intros H0. split; [done|]. by apply identifiers_eq; [apply Ha|apply Hb|].
  - intros [[= H1 H2 H3] H4]. unfold ComparePrecedence. rewrite H1, H2, H3, H4.
    rewrite !cmp_refl by apply _. simpl. rewrite comparePrerelease_lex.
    apply (cmp_refl (cmp_lex _ _)).
Qed.

(** ** Parsing and printing *)

(** The printed form of a series, empty for an empty one. *)
Definition suffix (sep : ascii) (fs : list bytes) : bytes :=
  match fs with [] => [] | _ => sep :: Join fs "."%char end.

Definition triple (v : HostVersion) : bytes :=
  Join [format_uint (hv_major v); format_uint (hv_minor v); format_uint (hv_patch v)] "."%char.

Lemma HostVersion_String_eqn v :
  hv_parsed v = true ->
  HostVersion_String v = (triple v ++ suffix "-" (hv_prerelease v)) ++ suffix "+" (hv_build v).
Proof.
  unfold HostVersion_String. intros ->. unfold triple. cbn [Join negb].
  destruct (hv_prerelease v), (hv_build v); simpl; by rewrite ?app_nil_r.
Qed.

Lemma series_fields_None d fs :
  series_fields d fs = None <-> Forall (fun f => series_field d f = None) fs.
Proof.
  induction fs as [|f fs IH]; simpl; [done|]. rewrite Forall_cons.
  destruct (series_field d f); [naive_solver|]. rewrite IH. naive_solver.
Qed.

Definition series_byte (c : ascii) : bool := supported c || Ascii.eqb c "."%char.

Lemma series_field_bytes d f : series_field d f = None -> forallb supported f = true.
Proof. by intros (_ & ? & _)%series_field_ok. Qed.

Lemma series_bytes d fs :
  Forall (fun f => series_field d f = None) fs -> forallb series_byte (Join fs "."%char) = true.
Proof.
  intros HF. apply forallb_Join; [done|]. eapply Forall_impl; [exact HF|].
  intros f Hf%series_field_bytes. eapply forallb_impl; [|exact Hf].
  intros c Hc. unfold series_byte. by rewrite Hc.
Qed.

Lemma parseDotSeries_Join d fs :
  fs <> [] -> Forall (fun f => series_field d f = None) fs ->
  parseDotSeries (Join fs "."%char) d = Ok fs.
Proof.
  intros Hne HF. unfold parseDotSeries. destruct (Join fs "."%char) eqn:E.
  { destruct HF as [|f [|g fs] Hf HF]; [done|..]; destruct f; done. }
  rewrite <- E, Split_Join, (proj2 (series_fields_None d fs) HF); [done|done|].
  eapply Forall_impl; [exact HF|]. intros f Hf%series_field_bytes.
  by eapply forallb_not_elem.
Qed.

Lemma cut_series_suffix core sep d fs :
  sep ∉ core -> Forall (fun f => series_field d f = None) fs ->
  cut_series (core ++ suffix sep fs) sep d = Ok (core, fs).
Proof.
  intros Hsep HF. unfold cut_series, suffix. destruct fs as [|f fs].
  - by rewrite app_nil_r, (proj2 (IndexByte_None _ _) Hsep).
  - rewrite IndexByte_app by done.
    replace (drop (S (length core)) _) with (Join (f :: fs) "."%char).
    2:{ change (sep :: ?j) with ([sep] ++ j). rewrite app_assoc.
        by rewrite drop_app_length' by (rewrite length_app; simpl; lia). }
    rewrite parseDotSeries_Join by done. by rewrite take_app_length.
Qed.

Lemma cut_series_inv core sep d core' fs :
  cut_series core sep d = Ok (core', fs) ->
  core = core' ++ suffix sep fs /\ Forall (fun f => series_field d f = None) fs.
Proof.
  unfold cut_series. destruct (IndexByte core sep) as [i|] eqn:E.
  - apply IndexByte_Some in E as [H1 _]. unfold parseDotSeries.
    destruct (drop (S i) core) as [|c r] eqn:Ed; [done|].
    rewrite <- (Join_Split (c :: r) "."%char) in H1.
    pose proof (Split_not_nil (c :: r) "."%char) as Hne.
    destruct (Split (c :: r) "."%char) as [|f fs'] eqn:E'; [done|].
    destruct (series_fields _ _) eqn:Es; [done|]. intros [= <- <-].
    apply series_fields_None in Es. split; done.
  - intros [= <- <-]. split; [by rewrite app_nil_r|done].
Qed.

Lemma format_uint_field n :
  uint64 n -> format_uint n <> [] /\ zero_padded (format_uint n) = false /\
    ParseUint (format_uint n) = (n, None).
Proof.
  intros [H0 Hm]. destruct (format_uint_value n H0) as [Hc Hv]. unfold canonical in Hc.
  apply andb_prop in Hc as [Hd Hc]. unfold zero_padded.
  destruct (format_uint n) as [|c [|x f]] eqn:E; [done|..]; (split; [done|split;
    [by destruct (Ascii.eqb c "0"%char)|apply ParseUint_Some; split_and!; done]]).
Qed.

Lemma parse_numbers_format value ns :
  Forall uint64 ns -> parse_numbers value (map format_uint ns) = Ok ns.
Proof.
  induction 1 as [|n ns Hn _ IH]; simpl; [done|].
  destruct (format_uint_field n Hn) as (Hne & -> & ->). rewrite IH.
  by rewrite bool_decide_eq_false_2.
Qed.

Lemma parse_numbers_inv value fields ns :
  parse_numbers value fields = Ok ns -> fields = map format_uint ns /\ Forall uint64 ns.
Proof.
  revert ns. induction fields as [|f fields IH]; intros ns; simpl; [by intros [= <-]|].
  case_bool_decide as Hne; [done|]. destruct (zero_padded f) eqn:Hz; [done|]. simpl.
  destruct (ParseUint f) as [n [e|]] eqn:Hp; [done|].
  apply ParseUint_Some in Hp as (_ & Hd & Hv & Hm).
  destruct (parse_numbers value fields) as [ns'|]; [|done]. intros [= <-].
  destruct (IH ns' eq_refl) as [-> HF]. simpl. split.
  - f_equal. rewrite <- Hv. symmetry. by apply format_uint_canonical, digits_canonical.
  - constructor; [|done]. split; [|done]. pose proof (decimal_mono 0 f ltac:(lia) Hd). lia.
Qed.

Definition triple_byte (c : ascii) : bool := is_digit c || Ascii.eqb c "."%char.

Lemma triple_bytes v : forallb triple_byte (triple v) = true.
Proof.
  apply forallb_Join; [done|].
  repeat constructor; (eapply forallb_impl; [|apply format_uint_digits]);
    intros c Hc; unfold triple_byte; by rewrite Hc.
Qed.

Lemma byte_classes c :
  (triple_byte c = true -> series_byte c = true) /\ (series_byte c = true -> graphic c = true).
Proof. destruct c as [[] [] [] [] [] [] [] []]; vm_compute; split; congruence. Qed.

Lemma suffix_bytes (P : ascii -> bool) sep d fs :
  P sep = true -> (forall c, series_byte c = true -> P c = true) ->
  Forall (fun f => series_field d f = None) fs -> forallb P (suffix sep fs) = true.
Proof.
  intros Hsep HP HF. unfold suffix. destruct fs; [done|]. cbn [forallb]. rewrite Hsep.
  by eapply forallb_impl, series_bytes.
Qed.

Lemma String_graphic v : version_wf v -> forallb graphic (HostVersion_String v) = true.
Proof.
  intros Hv. rewrite HostVersion_String_eqn by apply Hv. rewrite !forallb_app.
  rewrite (suffix_bytes graphic "-" Prerelease), (suffix_bytes graphic "+" BuildMetadata);
    [|done|apply byte_classes|apply Hv|done|apply byte_classes|apply Hv].
  rewrite (forallb_impl triple_byte graphic _), ?triple_bytes; [done| |apply triple_bytes].
  intros c Hc. by apply byte_classes, byte_classes.
Qed.

Lemma String_head v :
  version_wf v -> exists c r, HostVersion_String v = c :: r /\ is_digit c = true.
Proof.
  intros Hv. rewrite HostVersion_String_eqn by apply Hv. unfold triple.
  destruct (format_uint_field (hv_major v) (wf_major v Hv)) as [Hne _].
  pose proof (format_uint_digits (hv_major v)) as Hd.
  destruct (format_uint (hv_major v)) as [|c f]; [done|].
  apply andb_prop in Hd as [Hc _]. by eexists _, _.
Qed.

Lemma parse_String v : version_wf v -> ParseHostVersion (HostVersion_String v) = Ok v.
Proof.
  intros Hv. unfold ParseHostVersion.
  rewrite TrimSpace_graphic, bool_decide_eq_true_2 by (done || by apply String_graphic).
  destruct (String_head v Hv) as (c & r & E & Hc).
  rewrite bool_decide_eq_false_2 by (by rewrite E). cbn [negb orb].
  replace (TrimPrefix (HostVersion_String v) ["v"%char]) with (HostVersion_String v).
  2:{ rewrite E. unfold TrimPrefix. cbn [strip_prefix].
      by destruct (Ascii.eqb_spec "v" c) as [<-|]. }
  rewrite HostVersion_String_eqn at 1 by apply Hv.
  rewrite cut_series_suffix; [|eapply (forallb_not_elem series_byte); [|done]|apply Hv].
  2:{ rewrite forallb_app, (suffix_bytes series_byte "-" Prerelease) by (done || apply Hv).
      rewrite (forallb_impl triple_byte); [done|apply byte_classes|apply triple_bytes]. }
  rewrite cut_series_suffix;
    [|eapply (forallb_not_elem triple_byte); [apply triple_bytes|done]|apply Hv].
  unfold triple. rewrite Split_Join; [|done|].
  - change [format_uint (hv_major v); format_uint (hv_minor v); format_uint (hv_patch v)]
      with (map format_uint [hv_major v; hv_minor v; hv_patch v]).
    rewrite parse_numbers_format by (repeat constructor; apply Hv).
    destruct v, Hv; simpl in *; by subst.
  - repeat constructor; (eapply forallb_not_elem; [apply format_uint_digits|done]).
Qed.

Lemma ParseHostVersion_sound s v :
  ParseHostVersion s = Ok v ->
  version_wf v /\ HostVersion_String v = TrimPrefix s ["v"%char] /\
  TrimSpace s = s.
Proof.
  unfold ParseHostVersion. case_bool_decide as Ht; [|done]. case_bool_decide; [done|]. cbn [negb orb].
  destruct (cut_series _ "+"%char _) as [[core1 build]|] eqn:E1; [|done].
  destruct (cut_series core1 _ _) as [[core2 pre]|] eqn:E2; [|done].
  apply cut_series_inv in E1 as [-> Hb], E2 as [-> Hp].
  destruct (Nat.eqb_spec (length (Split core2 "."%char)) 3) as [Hl|]; [|done]. cbn [negb].
  destruct (parse_numbers _ _) as [ns|] eqn:E3; [|done]. intros [= <-].
  apply parse_numbers_inv in E3 as [Hf HF]. rewrite Hf in Hl. rewrite length_map in Hl.
  destruct ns as [|a [|b [|c [|]]]]; try done. simpl in *.
  inversion_clear HF as [|? ? Ha HF']; inversion_clear HF' as [|? ? Hb' HF];
    inversion_clear HF as [|? ? Hc _].
  split; [by constructor|split; [|done]]. rewrite HostVersion_String_eqn by done. unfold triple.
  simpl hv_major; simpl hv_minor; simpl hv_patch. rewrite <- Hf, Join_Split. done.
Qed.

(** Parsing and printing are mutually inverse up to the optional leading
    [v]: every version with canonical components and series prints to a string
    that parses back to it, and what a parse accepts is such a version, printed
    as the input without its leading [v]. *)
Theorem version_round_trip v s :
  (version_wf v -> ParseHostVersion (HostVersion_String v) = Ok v) /\
  (ParseHostVersion s = Ok v ->
   version_wf v /\ HostVersion_String v = TrimPrefix s ["v"%char]).
Proof.
  split; [apply parse_String|]. intros (? & ? & _)%ParseHostVersion_sound. done.
Qed.

Lemma version_round_trip_witness :
  exists v, ParseHostVersion (to_bytes "v2.1.261-rc.1+b.007") = Ok v /\
    HostVersion_String v = to_bytes "2.1.261-rc.1+b.007" /\
    ParseHostVersion (to_bytes "2.1.261-rc.1+b.007") = Ok v.
Proof.
  eexists. split; [vm_compute; reflexivity|].
  match goal with |- HostVersion_String ?v = _ /\ _ =>
    destruct (version_round_trip v (to_bytes "v2.1.261-rc.1+b.007")) as [H1 H2] end.
  destruct (H2 ltac:(vm_compute; reflexivity)) as [Hwf Hs].
  split; [exact Hs|]. exact (H1 Hwf).
Defined.

(** Precedence is a total preorder with values -1, 0 and 1, and between
    well-formed versions a tie means the same release and the same prerelease
    series, whatever the build metadata. *)
Theorem ComparePrecedence_order a b c :
  (ComparePrecedence a b = -1 \/ ComparePrecedence a b = 0 \/ ComparePrecedence a b = 1) /\
  ComparePrecedence b a = - ComparePrecedence a b /\
  (ComparePrecedence a b <= 0 -> ComparePrecedence b c <= 0 -> ComparePrecedence a c <= 0) /\
  (version_wf a -> version_wf b ->
   ComparePrecedence a b = 0 <-> Release a = Release b /\ hv_prerelease a = hv_prerelease b).
Proof.
  split_and!; [apply cmp_sign|apply cmp_opp|apply cmp_trans|apply ComparePrecedence_eq].
Qed.

Definition sample (s : string) : HostVersion :=
  match ParseHostVersion (to_bytes s) with Ok v => v | Err _ => zero_HostVersion end.

Lemma ComparePrecedence_order_witness :
  ComparePrecedence (sample "1.0.0-alpha.2") (sample "1.0.0") <= 0 /\
  Release (sample "1.0.0-rc.1+x") = Release (sample "1.0.0-rc.1").
Proof.
  split.
  - apply (ComparePrecedence_order _ (sample "1.0.0-alpha.10") _); vm_compute; discriminate.
  - assert (forall s v, ParseHostVersion s = Ok v -> version_wf v) as Hwf.
    { intros s v H. exact (proj1 (ParseHostVersion_sound s v H)). }
    apply (proj2 (proj2 (proj2 (ComparePrecedence_order (sample "1.0.0-rc.1+x")
             (sample "1.0.0-rc.1") zero_HostVersion))));
      [apply (Hwf (to_bytes "1.0.0-rc.1+x"))|apply (Hwf (to_bytes "1.0.0-rc.1"))|];
      vm_compute; reflexivity.
Defined.

(** Numeric identifiers that do not fit 64 bits are compared as text. *)
Lemma huge_identifiers_as_text :
  ComparePrecedence (sample "1.0.0-100000000000000000000") (sample "1.0.0-99999999999999999999") = -1 /\
  ComparePrecedence (sample "1.0.0--") (sample "1.0.0-100000000000000000000") = -1.
Proof. split; vm_compute; reflexivity. Qed.

(** ** Constraints *)

Definition eligible (c : VersionConstraint) (v : HostVersion) : Prop :=
  hv_parsed v = true /\ (HasPrerelease v = true -> vc_includePrereleases c = true).

Lemma Allows_true c v :
  Allows c v = true <->
  vc_constructed c = true /\ eligible c v /\ 0 <= ComparePrecedence v (vc_min c) /\
  (vc_floor c = true \/ ComparePrecedence v (vc_max c) <= 0).
Proof.
  unfold Allows, eligible.
  destruct (vc_constructed c), (hv_parsed v), (HasPrerelease v), (vc_includePrereleases c),
    (Z.ltb_spec (ComparePrecedence v (vc_min c)) 0), (vc_floor c); simpl;
    rewrite ?Z.leb_le; intuition (try lia; try congruence).
Qed.

Lemma cmp_ge_trans {A} (cmp : A -> A -> Z) `{!Comparator cmp} a b c :
  0 <= cmp b a -> cmp b c <= 0 -> 0 <= cmp c a.
Proof.
  pose proof (cmp_opp (cmp:=cmp) a b). pose proof (cmp_opp (cmp:=cmp) a c).
  pose proof (cmp_trans (cmp:=cmp) a b c). lia.
Qed.

(** What a constraint admits is an interval of precedence: a version
    between two admitted ones is admitted, one above an admitted version is
    admitted by a floor, and an exact constraint admits the releases that equal
    it in the triple; prereleases are admitted only where they are included,
    and never by an exact constraint. *)
Lemma Allows_interval c u v :
  Allows c u = true -> ComparePrecedence u v <= 0 -> eligible c v ->
  (forall w, Allows c w = true -> ComparePrecedence v w <= 0 -> Allows c v = true) /\
  (HasUpperBound c = false -> Allows c v = true) /\
  (forall x, NewExactVersion x = Ok c -> version_wf x -> version_wf v ->
     Allows c v = true <-> Release v = Release x /\ hv_prerelease x = []).
Proof.
  rewrite Allows_true. intros (Hc & Hu & Hmin & _) Huv Hv.
  pose proof (cmp_ge_trans ComparePrecedence _ _ _ Hmin Huv) as Hvmin. split_and!.
  - intros w. rewrite !Allows_true. intros (_ & _ & _ & Hw) Hvw. split_and!; [done..|].
    destruct Hw as [|Hw]; [by left|right]. by eapply (cmp_trans (cmp:=ComparePrecedence)).
  - unfold HasUpperBound. rewrite Hc, Allows_true. destruct (vc_floor c); [|done]. naive_solver.
  - intros x. unfold NewExactVersion, NewVersionConstraint. case_match; [done|]. case_match; [done|].
    intros [= Ec] Hx Hw. rewrite Allows_true. rewrite <- Ec in Hv |- *. simpl in *.
    assert (hv_prerelease v = []) as Hp.
    { destruct Hv as [_ Hp]. unfold HasPrerelease in Hp. simpl in Hp.
      destruct (hv_prerelease v); [done|]. by specialize (Hp eq_refl). }
    pose proof (ComparePrecedence_eq v x Hw Hx) as He. rewrite Hp in He.
    split.
    + intros (_ & _ & Hge & [|Hle]); [done|]. destruct (proj1 He ltac:(lia)). done.
    + intros [H1 H2]. rewrite (proj2 He (conj H1 (eq_sym H2))). split_and!; try done; try lia.
Qed.

Lemma Allows_interval_witness :
  exists c, NewVersionConstraint (sample "1.2.0") (sample "2.0.0") true = Ok c /\
    Allows c (sample "2.0.0-rc.1") = true.
Proof.
  exists (mk_Constraint (sample "1.2.0") (sample "2.0.0") true false true).
  split; [vm_compute; reflexivity|].
  apply (proj1 (Allows_interval (mk_Constraint (sample "1.2.0") (sample "2.0.0") true false true)
            (sample "1.9.0") (sample "2.0.0-rc.1")
            ltac:(vm_compute; reflexivity) ltac:(vm_compute; discriminate)
            ltac:(split; vm_compute; reflexivity)) (sample "2.0.0"));
    vm_compute; [reflexivity|discriminate].
Defined.

(** ** Capability ranges *)

Lemma compareCapabilityVersions_lex a b :
  compareCapabilityVersions a b =
    cmp_lex (fun x y => compareUint (splitCapabilityVersion x).1.1 (splitCapabilityVersion y).1.1)
      (cmp_lex (fun x y => compareUint (splitCapabilityVersion x).1.2 (splitCapabilityVersion y).1.2)
        (fun x y => compareUint (splitCapabilityVersion x).2 (splitCapabilityVersion y).2)) a b.
Proof.
  unfold compareCapabilityVersions, cmp_lex.
  destruct (splitCapabilityVersion a) as [[a1 a2] a3], (splitCapabilityVersion b) as [[b1 b2] b3].
  done.
Qed.

#[export] Instance compareCapabilityVersions_comparator : Comparator compareCapabilityVersions.
Proof.
  eapply comparator_ext; [apply compareCapabilityVersions_lex|].
  apply cmp_lex_comparator; [apply (comparator_pull (fun x => (splitCapabilityVersion x).1.1) compareUint)|].
  apply cmp_lex_comparator; [apply (comparator_pull (fun x => (splitCapabilityVersion x).1.2) compareUint)|].
  apply (comparator_pull (fun x => (splitCapabilityVersion x).2) compareUint).
Qed.

Lemma compareCapabilityVersions_eq a b :
  compareCapabilityVersions a b = 0 <-> splitCapabilityVersion a = splitCapabilityVersion b.
Proof.
  unfold compareCapabilityVersions.
  destruct (splitCapabilityVersion a) as [[a1 a2] a3], (splitCapabilityVersion b) as [[b1 b2] b3].
  pose proof (compareUint_eq a1 b1). pose proof (compareUint_eq a2 b2).
  pose proof (compareUint_eq a3 b3). split_compare; naive_solver.
Qed.

Lemma maxCapabilityVersion_spec a b :
  (maxCapabilityVersion a b = a \/ maxCapabilityVersion a b = b) /\
  0 <= compareCapabilityVersions (maxCapabilityVersion a b) a /\
  0 <= compareCapabilityVersions (maxCapabilityVersion a b) b.
Proof.
  unfold maxCapabilityVersion. pose proof (cmp_refl compareCapabilityVersions a).
  pose proof (cmp_refl compareCapabilityVersions b).
  pose proof (cmp_opp (cmp:=compareCapabilityVersions) a b).
  destruct (Z.leb_spec 0 (compareCapabilityVersions a b)); split_and!; auto; lia.
Qed.

Lemma minCapabilityVersion_spec a b :
  (minCapabilityVersion a b = a \/ minCapabilityVersion a b = b) /\
  compareCapabilityVersions (minCapabilityVersion a b) a <= 0 /\
  compareCapabilityVersions (minCapabilityVersion a b) b <= 0.
Proof.
  unfold minCapabilityVersion. pose proof (cmp_refl compareCapabilityVersions a).
  pose proof (cmp_refl compareCapabilityVersions b).
  pose proof (cmp_opp (cmp:=compareCapabilityVersions) a b).
  destruct (Z.leb_spec (compareCapabilityVersions a b) 0); split_and!; auto; lia.
Qed.

Lemma NewCapabilityVersionRange_Ok a b r :
  NewCapabilityVersionRange a b = Ok r ->
  r = mk_CapabilityRange a b true /\ CapabilityVersion_IsValid a = true /\
  CapabilityVersion_IsValid b = true /\ compareCapabilityVersions a b <= 0.
Proof.
  unfold NewCapabilityVersionRange.
  destruct (CapabilityVersion_IsValid a), (CapabilityVersion_IsValid b); try done. simpl.
  destruct (Z.ltb_spec 0 (compareCapabilityVersions a b)); [done|]. by intros [= <-].
Qed.

Lemma Includes_true r v :
  Includes r v = true <->
  cr_constructed r = true /\ CapabilityVersion_IsValid v = true /\
  0 <= compareCapabilityVersions v (cr_min r) /\ compareCapabilityVersions v (cr_max r) <= 0.
Proof.
  unfold Includes. destruct (cr_constructed r), (CapabilityVersion_IsValid v); simpl;
    rewrite ?andb_true_iff, ?Z.leb_le; naive_solver.
Qed.

(** Two ranges intersect exactly when a version is in both. *)
Lemma Intersects_spec a b a' b' r r' :
  NewCapabilityVersionRange a b = Ok r -> NewCapabilityVersionRange a' b' = Ok r' ->
  Intersects r r' = true <-> exists v, Includes r v = true /\ Includes r' v = true.
Proof.
  intros (-> & Ha & Hb & _)%NewCapabilityVersionRange_Ok
    (-> & Ha' & Hb' & _)%NewCapabilityVersionRange_Ok.
  pose proof (maxCapabilityVersion_spec a a') as (Hm & Hm1 & Hm2).
  pose proof (minCapabilityVersion_spec b b') as (Hn & Hn1 & Hn2).
  setoid_rewrite Includes_true. unfold Intersects. simpl. rewrite Z.leb_le.
  set (lo := maxCapabilityVersion a a') in *. set (hi := minCapabilityVersion b b') in *.
  pose proof (cmp_trans (cmp:=compareCapabilityVersions) lo hi) as Ht. split.
  - intros Hle. exists lo. split_and!; try done; try (destruct Hm as [-> | ->]; done); auto.
  - intros (v & (_ & _ & Hv1 & Hv2) & _ & _ & Hv3 & Hv4).
    pose proof (cmp_opp (cmp:=compareCapabilityVersions) a v) as O1.
    pose proof (cmp_opp (cmp:=compareCapabilityVersions) a' v) as O2.
    apply (cmp_trans (cmp:=compareCapabilityVersions) lo v hi).
    + destruct Hm as [-> | ->]; lia.
    + destruct Hn as [-> | ->]; lia.
Qed.

Lemma Intersects_spec_witness :
  exists r r', NewCapabilityVersionRange (to_bytes "1.0.0") (to_bytes "1.9.0") = Ok r /\
    NewCapabilityVersionRange (to_bytes "1.4.0") (to_bytes "2.0.0") = Ok r' /\
    exists v, Includes r v = true /\ Includes r' v = true.
Proof.
  eexists _, _. split; [vm_compute; reflexivity|]. split; [vm_compute; reflexivity|].
  apply (Intersects_spec (to_bytes "1.0.0") (to_bytes "1.9.0") (to_bytes "1.4.0") (to_bytes "2.0.0"));
    vm_compute; reflexivity.
Defined.

(** A component is compared by its value, saturated at the largest [uint64]. *)
Lemma ParseUint_saturates d :
  canonical d = true -> (ParseUint d).1 = Z.min (decimal 0 d) max_uint64.
Proof.
  unfold canonical. intros [Hd Hc]%andb_prop. destruct d as [|c d]; [done|].
  unfold ParseUint. rewrite parse_uint_loop_spec by (done || by vm_compute).
  destruct (Z.leb_spec (decimal 0 (c :: d)) max_uint64); cbn [fst]; lia.
Qed.

Lemma CapabilityVersion_fields v :
  CapabilityVersion_IsValid v = true ->
  exists a b c, v = Join [a; b; c] "."%char /\ Split v "."%char = [a; b; c] /\
    canonical a = true /\ canonical b = true /\ canonical c = true /\
    splitCapabilityVersion v = (Z.min (decimal 0 a) max_uint64, Z.min (decimal 0 b) max_uint64,
                                Z.min (decimal 0 c) max_uint64).
Proof.
  unfold CapabilityVersion_IsValid, splitCapabilityVersion.
  pose proof (Join_Split v "."%char) as Hv.
  destruct (Split v "."%char) as [|a [|b [|c [|]]]]; try done.
  intros [[Ha Hb]%andb_prop Hc]%andb_prop. exists a, b, c.
  cbn [length nth Nat.eqb negb]. by rewrite !ParseUint_saturates.
Qed.

Lemma canonical_digits d : canonical d = true -> forallb is_digit d = true.
Proof. by intros [? _]%andb_prop. Qed.

Lemma CapabilityVersion_Join a b c :
  canonical a = true -> canonical b = true -> canonical c = true ->
  CapabilityVersion_IsValid (Join [a; b; c] "."%char) = true /\
  Split (Join [a; b; c] "."%char) "."%char = [a; b; c].
Proof.
  intros Ha Hb Hc. unfold CapabilityVersion_IsValid. rewrite Split_Join; [|done|].
  - by rewrite Ha, Hb, Hc.
  - repeat constructor; eapply forallb_not_elem; eauto using canonical_digits.
Qed.

Lemma decimal_inj a b :
  canonical a = true -> canonical b = true -> decimal 0 a = decimal 0 b -> a = b.
Proof.
  intros Ha Hb H. by rewrite <- (format_uint_canonical a Ha), <- (format_uint_canonical b Hb), H.
Qed.

(** Another spelling that saturates to the same value. *)
Definition widen (d : bytes) : bytes :=
  if decimal 0 d <? max_uint64 then d else d ++ ["0"%char].

Lemma widen_spec d :
  canonical d = true ->
  canonical (widen d) = true /\
  Z.min (decimal 0 (widen d)) max_uint64 = Z.min (decimal 0 d) max_uint64 /\
  (widen d = d <-> decimal 0 d < max_uint64).
Proof.
  intros Hd. unfold widen. destruct (Z.ltb_spec (decimal 0 d) max_uint64); [done|].
  rewrite decimal_app. cbn [decimal]. change (digit_value "0"%char) with 0.
  split_and!; [|unfold max_uint64 in *; lia|].
  - destruct d as [|c [|x d]]; [done| |].
    + exfalso. apply canonical_digits, andb_prop in Hd as [Hd _].
      apply is_digit_range in Hd. cbn [decimal] in *. unfold max_uint64 in *. lia.
    + unfold canonical in *. apply andb_prop in Hd as [Hd Hz].
      by rewrite forallb_app, Hd.
  - split; [|lia]. intros E%(f_equal length). rewrite length_app in E. simpl in E. lia.
Qed.

(** An exact capability range accepts its own version and no other as long
    as every component is below the largest [uint64]; from there on the
    components saturate and the range accepts other versions too. *)
Lemma NewExactCapabilityVersion_exact v r :
  NewExactCapabilityVersion v = Ok r ->
  (Forall (fun f => decimal 0 f < max_uint64) (Split v "."%char) ->
   forall w, Includes r w = true <-> w = v) /\
  (~ Forall (fun f => decimal 0 f < max_uint64) (Split v "."%char) ->
   exists w, Includes r w = true /\ w <> v).
Proof.
  intros (-> & Hv & _ & _)%NewCapabilityVersionRange_Ok.
  assert (forall w, Includes (mk_CapabilityRange v v true) w = true <->
            CapabilityVersion_IsValid w = true /\
            splitCapabilityVersion w = splitCapabilityVersion v) as HI.
  { intros w. rewrite Includes_true, <- compareCapabilityVersions_eq. simpl. intuition lia. }
  destruct (CapabilityVersion_fields v Hv) as (a & b & c & Ev & -> & Ha & Hb & Hc & Es).
  setoid_rewrite HI. rewrite Es. split.
  - intros HF w. inversion_clear HF as [|? ? La HF']; inversion_clear HF' as [|? ? Lb HF];
      inversion_clear HF as [|? ? Lc _].
    split; [|by intros ->]. intros [Hw E].
    destruct (CapabilityVersion_fields w Hw) as (a' & b' & c' & -> & _ & Ha' & Hb' & Hc' & Es').
    rewrite Es' in E. injection E as E1 E2 E3. rewrite Ev.
    by rewrite (decimal_inj a' a), (decimal_inj b' b), (decimal_inj c' c) by (done || lia).
  - intros HF. exists (Join (map widen [a; b; c]) "."%char).
    destruct (widen_spec a Ha) as (Ca & Ma & Wa), (widen_spec b Hb) as (Cb & Mb & Wb),
      (widen_spec c Hc) as (Cc & Mc & Wc).
    destruct (CapabilityVersion_Join _ _ _ Ca Cb Cc) as [Hw Hs].
    destruct (CapabilityVersion_Join _ _ _ Ha Hb Hc) as [_ Hs'].
    split; [split; [done|]|].
    + destruct (CapabilityVersion_fields _ Hw) as (a' & b' & c' & _ & E & _ & _ & _ & Es').
      cbn [map] in Es' |- *. rewrite Hs in E. injection E as <- <- <-. rewrite Es'. by rewrite Ma, Mb, Mc.
    + cbn [map]. intros E. apply HF. rewrite Ev in E. apply (f_equal (fun s => Split s "."%char)) in E.
      rewrite Hs, Hs' in E. injection E as E1 E2 E3.
      repeat constructor; [by apply Wa|by apply Wb|by apply Wc].
Qed.

Lemma NewExactCapabilityVersion_exact_witness :
  exists r, NewExactCapabilityVersion (to_bytes "1.4.0") = Ok r /\
    Includes r (to_bytes "1.4.0") = true /\ Includes r (to_bytes "1.40.0") = false.
Proof.
  eexists. split; [vm_compute; reflexivity|].
  match goal with |- Includes ?r _ = true /\ _ =>
    destruct (NewExactCapabilityVersion_exact (to_bytes "1.4.0") r ltac:(vm_compute; reflexivity))
      as [H _] end.
  assert (HF : Forall (fun f => decimal 0 f < max_uint64) (Split (to_bytes "1.4.0") "."%char)).
  { repeat constructor. }
  split; [by apply (H HF)|]. apply not_true_is_false. intros E%(H HF). discriminate E.
Defined.
