(* ===== verification/NativeRows.v ===== *)
(** NativeRows: the lifecycle event mappings and their contracts
    (internal/runtime/lifecycle.go, identity_fields.go, lifecycle_profiles.go).

    A mapping is the generation metadata of one native event.  A contract is
    an exact-version table of mappings that passed [validate] and carries the
    response capability each row derives.  Of the runtime contract a table is
    built on, only the identity, the version constraint and the constructed
    mark are read here; the errors keep the branch that refused and the names
    the message is formatted from. *)

From Stdlib Require Import NArith Lia Ascii String.
From stdpp Require Import base tactics list strings gmap.
From S2P Require Import Prelude GoStrings Registration GatePolicy HostVersion.
Local Open Scope string_scope.
Local Open Scope list_scope.

(** ** Vocabularies *)
Abbreviation HookSurface := N (only parsing).
Definition SurfaceClaudeCommandJSON : HookSurface := 1%N.
Definition SurfaceCodexStrictCommandJSON : HookSurface := 2%N.
Definition SurfaceOpenCodeNamedOutput : HookSurface := 3%N.
Definition SurfaceOpenCodeCatchAllSSE : HookSurface := 4%N.
Definition HookSurface_IsValid (s : HookSurface) : bool :=
  ((SurfaceClaudeCommandJSON <=? s) && (s <=? SurfaceOpenCodeCatchAllSSE))%N.

Definition BlockingMode_IsValid (m : BlockingMode) : bool :=
  ((NonBlocking <=? m) && (m <=? ConditionallyBlocking))%N.

Abbreviation MutationMode := N (only parsing).
Definition MutationNone : MutationMode := 1%N.
Definition MutationInput : MutationMode := 2%N.
Definition MutationOutput : MutationMode := 3%N.
Definition MutationOutputObject : MutationMode := 4%N.
Definition MutationMode_IsValid (m : MutationMode) : bool :=
  ((MutationNone <=? m) && (m <=? MutationOutputObject))%N.

Abbreviation HandlerOrder := N (only parsing).
Definition OrderConcurrentNative : HandlerOrder := 1%N.
Definition OrderSequentialLoad : HandlerOrder := 2%N.
Definition OrderObservationStream : HandlerOrder := 3%N.
Definition HandlerOrder_IsValid (o : HandlerOrder) : bool :=
  ((OrderConcurrentNative <=? o) && (o <=? OrderObservationStream))%N.

Abbreviation ReconciliationMode := N (only parsing).
Definition ReconcileNone : ReconciliationMode := 1%N.
Definition ReconcileHostNative : ReconciliationMode := 2%N.
Definition ReconcileNoAdapterMerge : ReconciliationMode := 3%N.
Definition ReconcileSequentialMutation : ReconciliationMode := 4%N.
Definition ReconciliationMode_IsValid (m : ReconciliationMode) : bool :=
  ((ReconcileNone <=? m) && (m <=? ReconcileSequentialMutation))%N.

Abbreviation FailureMode := N (only parsing).
Definition FailureReportAndContinue : FailureMode := 1%N.
Definition FailureExitTwoBlocks : FailureMode := 2%N.
Definition FailureStrictHook : FailureMode := 3%N.
Definition FailureStrictExitTwoBlocks : FailureMode := 4%N.
Definition FailureThrowFailFast : FailureMode := 5%N.
Definition FailureObserveOnly : FailureMode := 6%N.
Definition FailureMode_IsValid (m : FailureMode) : bool :=
  ((FailureReportAndContinue <=? m) && (m <=? FailureObserveOnly))%N.
Definition BlocksByExitCode (m : FailureMode) : bool :=
  ((m =? FailureExitTwoBlocks) || (m =? FailureStrictExitTwoBlocks))%N.
Definition FailureMode_String (m : FailureMode) : string :=
  if (m =? FailureReportAndContinue)%N then "report-and-continue"
  else if (m =? FailureExitTwoBlocks)%N then "exit-2-blocks"
  else if (m =? FailureStrictHook)%N then "strict-hook-failure"
  else if (m =? FailureStrictExitTwoBlocks)%N then "strict-output-exit-2-blocks"
  else if (m =? FailureThrowFailFast)%N then "throw-fail-fast"
  else if (m =? FailureObserveOnly)%N then "observe-only"
  else EmptyString.

(** [strings.TrimSpace] on the string carrier. *)
Definition trimmed (s : string) : bytes := TrimSpace (to_bytes s).
Definition padded (s : string) : bool := negb (bool_decide (trimmed s = to_bytes s)).

(** The struct wraps its one field, the source of the citation. *)
Record FailureEvidence := mk_Evidence { fe_Source : string }.
#[export] Instance FailureEvidence_eq_dec : EqDecision FailureEvidence.
Proof. solve_decision. Defined.
Definition unevidenced : FailureEvidence := mk_Evidence EmptyString.
Definition IsPresent (e : FailureEvidence) : bool := negb (bool_decide (trimmed (fe_Source e) = [])).

Definition evidenceBoundFailure (blocking : BlockingMode) (evidence : FailureEvidence)
    (blockingArm nonBlockingArm : FailureMode) : FailureMode :=
  if (blocking =? NonBlocking)%N then nonBlockingArm
  else if negb (IsPresent evidence) then FailureReportAndContinue
  else blockingArm.

Definition declaredFailureArm (blocking : BlockingMode)
    (blockingArm nonBlockingArm : FailureMode) : FailureMode :=
  if (blocking =? NonBlocking)%N then nonBlockingArm else blockingArm.

Definition AllowsDeny (c : ResponseCapability) : bool :=
  ((c =? CapabilityDeny) || (c =? CapabilityDenyAsk))%N.
Definition AllowsAsk (c : ResponseCapability) : bool := (c =? CapabilityDenyAsk)%N.

Abbreviation NativeIdentityKind := N (only parsing).
Definition IdentitySession : NativeIdentityKind := 1%N.
Definition IdentityTurn : NativeIdentityKind := 2%N.
Definition IdentityRequest : NativeIdentityKind := 3%N.
Definition IdentityToolCall : NativeIdentityKind := 4%N.
Definition IdentityAgent : NativeIdentityKind := 5%N.
Definition IdentityMessage : NativeIdentityKind := 6%N.
Definition NativeIdentityKind_IsValid (k : NativeIdentityKind) : bool :=
  ((IdentitySession <=? k) && (k <=? IdentityMessage))%N.

Record NativeIdentityField := nativeIdentity {
  nif_kind : NativeIdentityKind;
  nif_nativeName : string;
  nif_required : bool;
}.
#[export] Instance NativeIdentityField_eq_dec : EqDecision NativeIdentityField.
Proof. solve_decision. Defined.
Definition NativeIdentityField_IsValid (f : NativeIdentityField) : bool :=
  NativeIdentityKind_IsValid (nif_kind f)
  && negb (String.eqb (nif_nativeName f) EmptyString) && negb (padded (nif_nativeName f)).

(** ** One row *)
Record LifecycleEventMapping := mk_Mapping {
  lm_nativeName : string;
  lm_semantic : EventSemantic;
  lm_surface : HookSurface;
  lm_blocking : BlockingMode;
  lm_identities : list NativeIdentityField;
  lm_unresolved : list NativeIdentityKind;
  lm_mutation : MutationMode;
  lm_order : HandlerOrder;
  lm_reconciliation : ReconciliationMode;
  lm_failure : FailureMode;
  lm_declaredFailure : FailureMode;
  lm_evidence : FailureEvidence;
  lm_stopLoop : StopLoopPolicy;
  lm_preAction : bool;
  lm_askEvidence : FailureEvidence;
  lm_response : ResponseCapability;
}.

Definition zero_Mapping : LifecycleEventMapping :=
  mk_Mapping EmptyString 0%N 0%N 0%N [] [] 0%N 0%N 0%N 0%N 0%N unevidenced 0%N false unevidenced 0%N.

Definition set_response (m : LifecycleEventMapping) (c : ResponseCapability)
    : LifecycleEventMapping :=
  mk_Mapping (lm_nativeName m) (lm_semantic m) (lm_surface m) (lm_blocking m) (lm_identities m)
    (lm_unresolved m) (lm_mutation m) (lm_order m) (lm_reconciliation m) (lm_failure m)
    (lm_declaredFailure m) (lm_evidence m) (lm_stopLoop m) (lm_preAction m) (lm_askEvidence m) c.

Definition derivedResponse (m : LifecycleEventMapping) : ResponseCapability :=
  if negb (lm_preAction m) || negb (lm_semantic m =? SemanticGateConsultation)%N
     || (lm_blocking m =? NonBlocking)%N || negb (IsPresent (lm_evidence m))
  then CapabilityNone
  else if IsPresent (lm_askEvidence m) then CapabilityDenyAsk
  else CapabilityDeny.

Fixpoint DeclaredField (fields : list NativeIdentityField) (nativeName : string)
    : option NativeIdentityField :=
  match fields with
  | [] => None
  | f :: rest =>
      if String.eqb (nif_nativeName f) nativeName then Some f else DeclaredField rest nativeName
  end.

Inductive RowError :=
  | PaddedName
  | InvalidBehavior
  | PaddedEvidence
  | UnevidencedBlock
  | HandSetResponse
  | PreActionOutsideGate
  | UnsupportedAsk
  | InvalidIdentity
  | RepeatedIdentity (field : string)
  | InvalidUnresolved (kind : NativeIdentityKind)
  | RepeatedUnresolved (kind : NativeIdentityKind)
  | ResolvedAndUnresolved (kind : NativeIdentityKind)
  | ObservationMutates
  | NonBlockingGate
  | UncorrelatedResponse
  | ResponseMutates
  | StopLoopOutsideGate
  | NamedShape
  | ObserveShape.

(** The identity loop, with the names and kinds it has seen and whether a
    required request identity is among them. *)
Fixpoint identity_loop (fields : list NativeIdentityField) (names : list string)
    (kinds : list NativeIdentityKind) (request : bool)
    : result RowError (list NativeIdentityKind * bool) :=
  match fields with
  | [] => Ok (kinds, request)
  | f :: rest =>
      if negb (NativeIdentityField_IsValid f) then Err InvalidIdentity
      else if bool_decide (nif_nativeName f ∈ names) then Err (RepeatedIdentity (nif_nativeName f))
      else identity_loop rest (nif_nativeName f :: names) (nif_kind f :: kinds)
             (request || ((nif_kind f =? IdentityRequest)%N && nif_required f))
  end.

Fixpoint unresolved_loop (unresolved : list NativeIdentityKind)
    (kinds seen : list NativeIdentityKind) : result RowError unit :=
  match unresolved with
  | [] => Ok tt
  | k :: rest =>
      if negb (NativeIdentityKind_IsValid k) then Err (InvalidUnresolved k)
      else if bool_decide (k ∈ seen) then Err (RepeatedUnresolved k)
      else if bool_decide (k ∈ kinds) then Err (ResolvedAndUnresolved k)
      else unresolved_loop rest kinds (k :: seen)
  end.

Definition behavior_valid (m : LifecycleEventMapping) : bool :=
  EventSemantic_IsValid (lm_semantic m) && HookSurface_IsValid (lm_surface m)
  && BlockingMode_IsValid (lm_blocking m) && MutationMode_IsValid (lm_mutation m)
  && HandlerOrder_IsValid (lm_order m) && ReconciliationMode_IsValid (lm_reconciliation m)
  && FailureMode_IsValid (lm_failure m) && FailureMode_IsValid (lm_declaredFailure m)
  && StopLoopPolicy_IsValid (lm_stopLoop m).

(** The checks after the identity loops. *)
Definition validate_semantics (m : LifecycleEventMapping) (request : bool)
    : result RowError unit :=
  let observation := (lm_semantic m =? SemanticObservation)%N in
  let gate := (lm_semantic m =? SemanticGateConsultation)%N in
  let human := (lm_semantic m =? SemanticExplicitHumanResponse)%N in
  let nonblocking := (lm_blocking m =? NonBlocking)%N in
  let mutates := negb (lm_mutation m =? MutationNone)%N in
  if observation && mutates then Err ObservationMutates
  else if gate && nonblocking then Err NonBlockingGate
  else if human && negb request then Err UncorrelatedResponse
  else if human && mutates then Err ResponseMutates
  else if (lm_stopLoop m =? StopLoopConsultWhenInactive)%N && (negb gate || nonblocking)
  then Err StopLoopOutsideGate
  else if (lm_surface m =? SurfaceOpenCodeNamedOutput)%N then
    if negb gate || negb (lm_blocking m =? Blocking)%N
       || negb (lm_mutation m =? MutationOutputObject)%N
       || negb (lm_order m =? OrderSequentialLoad)%N
       || negb (lm_reconciliation m =? ReconcileSequentialMutation)%N
       || negb (lm_failure m =? FailureThrowFailFast)%N
    then Err NamedShape else Ok tt
  else if (lm_surface m =? SurfaceOpenCodeCatchAllSSE)%N then
    if negb observation || negb nonblocking || mutates
       || negb (lm_order m =? OrderObservationStream)%N
       || negb (lm_reconciliation m =? ReconcileNone)%N
       || negb (lm_failure m =? FailureObserveOnly)%N
    then Err ObserveShape else Ok tt
  else Ok tt.

Definition validate (m : LifecycleEventMapping) : result RowError unit :=
  if String.eqb (lm_nativeName m) EmptyString || padded (lm_nativeName m) then Err PaddedName
  else if negb (behavior_valid m) then Err InvalidBehavior
  else if IsPresent (lm_evidence m) && padded (fe_Source (lm_evidence m)) then Err PaddedEvidence
  else if BlocksByExitCode (lm_failure m) && negb (IsPresent (lm_evidence m))
  then Err UnevidencedBlock
  else if negb (lm_response m =? CapabilityUnset)%N
          && negb (lm_response m =? derivedResponse m)%N then Err HandSetResponse
  else if lm_preAction m && negb (lm_semantic m =? SemanticGateConsultation)%N
  then Err PreActionOutsideGate
  else if IsPresent (lm_askEvidence m)
          && (negb (AllowsDeny (derivedResponse m)) || padded (fe_Source (lm_askEvidence m)))
  then Err UnsupportedAsk
  else match identity_loop (lm_identities m) [] [] false with
  | Err e => Err e
  | Ok (kinds, request) =>
      match unresolved_loop (lm_unresolved m) kinds [] with
      | Err e => Err e
      | Ok _ => validate_semantics m request
      end
  end.

Definition Mapping_IsValid (m : LifecycleEventMapping) : bool :=
  ResponseCapability_IsValid (lm_response m) && is_ok (validate m).

(** ** A contract *)
Record RuntimeContract := mk_RuntimeContract {
  rc_id : string;
  rc_versions : VersionConstraint;
  rc_constructed : bool;
}.

Record LifecycleContract := mk_Contract {
  lc_id : string;
  lc_versions : VersionConstraint;
  lc_events : list N;
  lc_mappings : gmap N LifecycleEventMapping;
  lc_constructed : bool;
}.

Inductive ContractError :=
  | InvalidBase
  | EventCount (events mappings : nat)
  | RepeatedEvent (event : N)
  | MissingMapping (event : N)
  | InvalidRow (event : N) (e : RowError)
  | RepeatedName (name : string)
  | ZeroContract
  | UnboundEvent (event : N).

Fixpoint own_rows (events : list N) (mappings : gmap N LifecycleEventMapping)
    (seenEvents : list N) (seenNames : list string) (owned : gmap N LifecycleEventMapping)
    : result ContractError (gmap N LifecycleEventMapping) :=
  match events with
  | [] => Ok owned
  | e :: rest =>
      if bool_decide (e ∈ seenEvents) then Err (RepeatedEvent e)
      else match mappings !! e with
      | None => Err (MissingMapping e)
      | Some m =>
          match validate m with
          | Err err => Err (InvalidRow e err)
          | Ok _ =>
              if bool_decide (lm_nativeName m ∈ seenNames) then Err (RepeatedName (lm_nativeName m))
              else own_rows rest mappings (e :: seenEvents) (lm_nativeName m :: seenNames)
                     (<[e := set_response m (derivedResponse m)]> owned)
          end
      end
  end.

Definition newLifecycleContract (base : RuntimeContract) (events : list N)
    (mappings : gmap N LifecycleEventMapping) : result ContractError LifecycleContract :=
  if negb (rc_constructed base) || negb (vc_constructed (rc_versions base)) then Err InvalidBase
  else if (length events =? 0)%nat || negb (length events =? size mappings)%nat
  then Err (EventCount (length events) (size mappings))
  else match own_rows events mappings [] [] ∅ with
  | Err e => Err e
  | Ok owned => Ok (mk_Contract (rc_id base) (rc_versions base) events owned true)
  end.

Definition Mapping (c : LifecycleContract) (event : N) : result ContractError LifecycleEventMapping :=
  if negb (lc_constructed c) then Err ZeroContract
  else match lc_mappings c !! event with
  | None => Err (UnboundEvent event)
  | Some m => Ok m
  end.

Definition Supports (c : LifecycleContract) (version : HostVersion) : bool :=
  lc_constructed c && Allows (lc_versions c) version.

(** ** Failure policies *)
Record LifecycleFailurePolicy := mk_FailurePolicy {
  fp_Mode : FailureMode;
  fp_DeclaredMode : FailureMode;
  fp_Evidence : FailureEvidence;
  fp_Semantic : EventSemantic;
  fp_Blocking : BlockingMode;
  fp_Response : ResponseCapability;
}.
#[export] Instance LifecycleFailurePolicy_eq_dec : EqDecision LifecycleFailurePolicy.
Proof. solve_decision. Defined.
Definition Declared (p : LifecycleFailurePolicy) : bool := EventSemantic_IsValid (fp_Semantic p).

Definition policy_of (m : LifecycleEventMapping) : LifecycleFailurePolicy :=
  mk_FailurePolicy (lm_failure m) (lm_declaredFailure m) (lm_evidence m) (lm_semantic m)
    (lm_blocking m) (lm_response m).

Fixpoint lookupLifecycleFailure (contract : LifecycleContract) (events : list N)
    (nativeName : string) : option LifecycleFailurePolicy :=
  match events with
  | [] => None
  | e :: rest =>
      match Mapping contract e with
      | Err _ => lookupLifecycleFailure contract rest nativeName
      | Ok m =>
          if String.eqb (lm_nativeName m) nativeName then Some (policy_of m)
          else lookupLifecycleFailure contract rest nativeName
      end
  end.

(** * Theorems *)

(** What a checked row guarantees to whoever reads it. *)
Record row_sound (m : LifecycleEventMapping) : Prop := {
  rs_name : lm_nativeName m <> EmptyString;
  rs_behavior : behavior_valid m = true;
  rs_block : BlocksByExitCode (lm_failure m) = true -> IsPresent (lm_evidence m) = true;
  rs_gate : lm_semantic m = SemanticGateConsultation -> lm_blocking m <> NonBlocking;
  rs_observe : lm_semantic m = SemanticObservation -> lm_mutation m = MutationNone;
  rs_human : lm_semantic m = SemanticExplicitHumanResponse ->
    lm_mutation m = MutationNone /\
    exists f, f ∈ lm_identities m /\ nif_kind f = IdentityRequest /\ nif_required f = true;
  rs_names : NoDup (nif_nativeName <$> lm_identities m);
  rs_unresolved : NoDup (lm_unresolved m);
  rs_split : forall k, k ∈ lm_unresolved m -> k ∉ nif_kind <$> lm_identities m;
}.

Lemma identity_loop_Ok fields names kinds request ks r :
  identity_loop fields names kinds request = Ok (ks, r) ->
  NoDup (nif_nativeName <$> fields) /\
  (forall f, f ∈ fields -> nif_nativeName f ∉ names) /\
  (forall k, k ∈ ks <-> k ∈ kinds \/ k ∈ nif_kind <$> fields) /\
  (r = true -> request = true \/
     exists f, f ∈ fields /\ nif_kind f = IdentityRequest /\ nif_required f = true).
Proof.
  revert names kinds request. induction fields as [|f rest IH]; intros names kinds request; simpl.
  - intros [= <- <-]. split_and!; [constructor|by intros ? ?%not_elem_of_nil| |by left].
    intros k. rewrite elem_of_nil. tauto.
  - case_match; [done|]. case_bool_decide as Hn; [done|]. intros H'.
    destruct (IH _ _ _ H') as (Hd & Hnew & Hk & Hr). split_and!.
    + constructor; [|done]. intros (g & Hg & Hgr)%list_elem_of_fmap.
      apply (Hnew g Hgr). rewrite <- Hg. left.
    + intros g [->|Hg]%elem_of_cons; [done|]. intros Hin. apply (Hnew g Hg). by right.
    + intros k. rewrite Hk, !elem_of_cons. tauto.
    + intros Ht. destruct (Hr Ht) as [Hq|(g & Hg & Hq)].
      * apply orb_true_iff in Hq as [?|Hq]; [by left|right]. exists f.
        apply andb_true_iff in Hq as [Hq ?]. apply N.eqb_eq in Hq. split_and!; [left|done..].
      * right. exists g. split; [by right|done].
Qed.

Lemma unresolved_loop_Ok unresolved kinds seen :
  unresolved_loop unresolved kinds seen = Ok tt ->
  NoDup unresolved /\ (forall k, k ∈ unresolved -> k ∉ seen /\ k ∉ kinds).
Proof.
  revert seen. induction unresolved as [|k rest IH]; intros seen; simpl.
  - split; [constructor|by intros ? ?%not_elem_of_nil].
  - case_match; [done|]. case_bool_decide; [done|]. case_bool_decide; [done|]. intros H'.
    destruct (IH _ H') as [Hd Hn]. split.
    + constructor; [|done]. intros Hk. by destruct (Hn k Hk) as [[]%not_elem_of_cons _].
    + intros j [->|Hj]%elem_of_cons; [done|]. destruct (Hn j Hj) as [Hj1 Hj2].
      by apply not_elem_of_cons in Hj1 as [_ ?].
Qed.

Lemma validate_sound m : validate m = Ok tt -> row_sound m.
Proof.
  unfold validate. intros H.
  destruct (_ || _) eqn:Hname; [done|]. apply orb_false_iff in Hname as [Hname _].
  destruct (behavior_valid m) eqn:Hbeh; [|done]. simpl in H.
  case_match; [done|]. destruct (BlocksByExitCode _ && _) eqn:Hblock; [done|].
  do 3 (case_match; [done|]).
  destruct (identity_loop _ _ _ _) as [[ks r]|e] eqn:Hi; [|done].
  destruct (unresolved_loop _ _ _) as [[]|e] eqn:Hu; [|done].
  destruct (identity_loop_Ok _ _ _ _ _ _ Hi) as (Hd & _ & Hk & Hr).
  destruct (unresolved_loop_Ok _ _ _ Hu) as (Hdu & Hnu).
  unfold validate_semantics in H.
  destruct (_ && _) eqn:Hobs in H; [done|]. destruct (_ && _) eqn:Hgate in H; [done|].
  destruct (_ && _) eqn:Hreq in H; [done|]. destruct (_ && _) eqn:Hmut in H; [done|]. clear H.
  split; [..|done|done|].
  - by apply String.eqb_neq.
  - done.
  - intros Hb. rewrite Hb in Hblock. by apply negb_false_iff in Hblock.
  - intros Hs. rewrite Hs in Hgate. by apply N.eqb_neq in Hgate.
  - intros Hs. rewrite Hs in Hobs. apply negb_false_iff in Hobs. by apply N.eqb_eq.
  - intros Hs. rewrite Hs in Hreq, Hmut. simpl in Hreq, Hmut. apply negb_false_iff in Hreq, Hmut.
    split; [by apply N.eqb_eq|]. by destruct (Hr Hreq) as [|Hf].
  - intros k Hin Hk'. apply (proj2 (Hnu k Hin)). apply Hk. by right.
Qed.

(** A deny or ask capability comes only from a pre-action gate that cites its
    channel. *)
Lemma AllowsDeny_derived m :
  AllowsDeny (derivedResponse m) = true <->
  lm_preAction m = true /\ lm_semantic m = SemanticGateConsultation /\
  lm_blocking m <> NonBlocking /\ IsPresent (lm_evidence m) = true.
Proof.
  unfold derivedResponse.
  rewrite <- (N.eqb_eq (lm_semantic m)), <- (N.eqb_neq (lm_blocking m)).
  destruct (lm_preAction m); simpl; [|split; [done|by intros (?&?&?&?)]].
  destruct (lm_semantic m =? _)%N; simpl; [|split; [done|by intros (?&?&?&?)]].
  destruct (lm_blocking m =? _)%N; simpl; [split; [done|by intros (?&?&?&?)]|].
  destruct (IsPresent (lm_evidence m)); simpl; [|split; [done|by intros (?&?&?&?)]].
  by destruct (IsPresent (lm_askEvidence m)).
Qed.

Lemma AllowsAsk_derived m :
  AllowsAsk (derivedResponse m) = true <->
  AllowsDeny (derivedResponse m) = true /\ IsPresent (lm_askEvidence m) = true.
Proof.
  unfold derivedResponse. destruct (_ || _); [split; [done|by intros [? _]]|].
  destruct (IsPresent (lm_askEvidence m)); [done|]. by split; [|intros [_ ?]].
Qed.

Lemma derivedResponse_valid m : ResponseCapability_IsValid (derivedResponse m) = true.
Proof. unfold derivedResponse. by repeat case_match. Qed.

(** The evidence rule only ever demotes, to report-and-continue, and only a
    blocking row without a citation. *)
Lemma evidenceBoundFailure_spec blocking evidence arm other :
  evidenceBoundFailure blocking evidence arm other =
  if negb (blocking =? NonBlocking)%N && negb (IsPresent evidence)
  then FailureReportAndContinue else declaredFailureArm blocking arm other.
Proof. unfold evidenceBoundFailure, declaredFailureArm. by repeat case_match. Qed.

Lemma evidenceBoundFailure_blocks blocking evidence arm other :
  BlocksByExitCode other = false ->
  BlocksByExitCode (evidenceBoundFailure blocking evidence arm other) = true ->
  blocking <> NonBlocking /\ IsPresent evidence = true.
Proof.
  intros Ho. unfold evidenceBoundFailure.
  destruct (N.eqb_spec blocking NonBlocking); [by rewrite Ho|].
  by destruct (IsPresent evidence).
Qed.

(** ** Contracts *)
Definition row_names (mappings : gmap N LifecycleEventMapping) (events : list N) : list string :=
  omap (fun e => lm_nativeName <$> mappings !! e) events.

Record rows_ownable (mappings : gmap N LifecycleEventMapping) (events : list N)
    (seenE : list N) (seenN : list string) : Prop := {
  ro_events : NoDup events;
  ro_fresh : forall e, e ∈ events -> e ∉ seenE;
  ro_rows : forall e, e ∈ events -> exists m, mappings !! e = Some m /\ validate m = Ok tt;
  ro_names : NoDup (row_names mappings events);
  ro_fresh_names : forall n, n ∈ row_names mappings events -> n ∉ seenN;
}.

Lemma rows_ownable_cons mappings e rest seenE seenN m :
  mappings !! e = Some m ->
  rows_ownable mappings (e :: rest) seenE seenN <->
  e ∉ seenE /\ validate m = Ok tt /\ lm_nativeName m ∉ seenN /\
  rows_ownable mappings rest (e :: seenE) (lm_nativeName m :: seenN).
Proof.
  intros Hm. assert (row_names mappings (e :: rest) = lm_nativeName m :: row_names mappings rest)
    as Hn by (unfold row_names; simpl; by rewrite Hm). split.
  - intros [Hd Hf Hr Hn1 Hn2]. rewrite Hn in Hn1, Hn2. apply NoDup_cons in Hd as [He Hd].
    apply NoDup_cons in Hn1 as [Hm1 Hn1]. destruct (Hr e) as (m' & Hm' & Hv); [by left|].
    simplify_eq. split_and!; [apply Hf; left|done|apply Hn2; left|]. split; [done| | |done|].
    + intros x Hx [->|]%elem_of_cons; [done|]. by apply (Hf x); [right|].
    + intros x Hx. apply Hr. by right.
    + intros x Hx [->|]%elem_of_cons; [done|]. by apply (Hn2 x); [right|].
  - intros (He & Hv & Hm1 & [Hd Hf Hr Hn1 Hn2]). split.
    + constructor; [|done]. intros Hin. apply (Hf e Hin). left.
    + intros x [->|Hx]%elem_of_cons; [done|]. intros Hs. apply (Hf x Hx). by right.
    + intros x [->|Hx]%elem_of_cons; [by exists m|by apply Hr].
    + rewrite Hn. constructor; [|done]. intros Hin. apply (Hn2 _ Hin). left.
    + rewrite Hn. intros x [->|Hx]%elem_of_cons; [done|]. intros Hs. apply (Hn2 x Hx). by right.
Qed.

Lemma own_rows_Ok events mappings seenE seenN owned :
  is_ok (own_rows events mappings seenE seenN owned) = true <->
  rows_ownable mappings events seenE seenN.
Proof.
  revert seenE seenN owned. induction events as [|e rest IH]; intros seenE seenN owned; simpl.
  - split; [|done]. intros _.
    split; [constructor|by intros ? ?%not_elem_of_nil|by intros ? ?%not_elem_of_nil
      |constructor|by intros ? ?%not_elem_of_nil].
  - case_bool_decide as He.
    { split; [done|]. intros [_ Hf _ _ _]. exfalso. by apply (Hf e); [left|]. }
    destruct (mappings !! e) as [m|] eqn:Hm;
      [|split; [done|]; intros [_ _ Hr _ _]; destruct (Hr e) as (?&?&_); [by left|congruence]].
    rewrite (rows_ownable_cons _ _ _ _ _ _ Hm).
    destruct (validate m) as [[]|err]; [|by split; [|intros (_ & ? & _)]].
    case_bool_decide as Hn; [by split; [|intros (_ & _ & ? & _)]|].
    rewrite IH. tauto.
Qed.

Lemma own_rows_lookup events mappings seenE seenN owned o e :
  own_rows events mappings seenE seenN owned = Ok o ->
  o !! e = if bool_decide (e ∈ events)
           then (fun m => set_response m (derivedResponse m)) <$> mappings !! e else owned !! e.
Proof.
  revert seenE seenN owned. induction events as [|x rest IH]; intros seenE seenN owned;
    cbn [own_rows].
  - intros [= ->]. by rewrite bool_decide_false by apply not_elem_of_nil.
  - destruct (bool_decide (x ∈ seenE)); [done|].
    destruct (mappings !! x) as [m|] eqn:Hm; [|done]. destruct (validate m); [|done].
    destruct (bool_decide (_ ∈ seenN)); [done|]. intros Ho%IH. rewrite Ho.
    destruct (decide (e ∈ rest)); [rewrite !bool_decide_true; [done|by right|done]|].
    rewrite (bool_decide_false (e ∈ rest)) by done.
    destruct (decide (e = x)) as [->|Hex].
    + rewrite lookup_insert_eq, bool_decide_true, Hm by left. done.
    + rewrite lookup_insert_ne by done. rewrite bool_decide_false; [done|].
      intros [|]%elem_of_cons; done.
Qed.

(** [newLifecycleContract] accepts a catalogue exactly when the base is
    constructed, the catalogue is not empty and has as many rows as events,
    and every event is new, has a row that validates, and a native name of its
    own. *)
Lemma newLifecycleContract_Ok base events mappings :
  is_ok (newLifecycleContract base events mappings) = true <->
  rc_constructed base = true /\ vc_constructed (rc_versions base) = true /\
  events <> [] /\ length events = size mappings /\ rows_ownable mappings events [] [].
Proof.
  unfold newLifecycleContract. rewrite <- own_rows_Ok with (owned := ∅).
  destruct (rc_constructed base); simpl; [|split; [done|by intros (?&_)]].
  destruct (vc_constructed (rc_versions base)); simpl; [|split; [done|by intros (_&?&_)]].
  destruct events as [|e rest] eqn:He; [split; [done|by intros (_ & _ & Hn & _)]|].
  rewrite <- He. assert (events <> []) by by rewrite He.
  replace (length events =? 0)%nat with false by by rewrite He. simpl.
  destruct (Nat.eqb_spec (length events) (size mappings)); simpl;
    [|split; [done|by intros (_ & _ & _ & ? & _)]].
  destruct (own_rows events mappings [] [] ∅); simpl; [|split; [done|by intros (_&_&_&_&?)]].
  by split.
Qed.

(** What a contract in hand answers: exactly its events, each with a row that
    is valid and carries its derived capability. *)
Lemma newLifecycleContract_Mapping base events mappings c :
  newLifecycleContract base events mappings = Ok c ->
  lc_constructed c = true /\ lc_events c = events /\
  (forall e, is_ok (Mapping c e) = true <-> e ∈ events) /\
  (forall e m, Mapping c e = Ok m ->
     exists row, mappings !! e = Some row /\ m = set_response row (derivedResponse row) /\
     validate row = Ok tt).
Proof.
  intros H. assert (is_ok (newLifecycleContract base events mappings) = true) as Hok by by rewrite H.
  apply newLifecycleContract_Ok in Hok as (_ & _ & _ & _ & Hrows).
  unfold newLifecycleContract in H. do 2 (case_match; [done|]).
  destruct (own_rows _ _ _ _ _) as [o|] eqn:Ho; [|done]. injection H as <-.
  unfold Mapping. simpl. split_and!; [done..| |].
  - intros e. rewrite (own_rows_lookup _ _ _ _ _ _ e Ho). case_bool_decide as He.
    + destruct (ro_rows _ _ _ _ Hrows e He) as (m & -> & _). done.
    + by rewrite lookup_empty.
  - intros e m. rewrite (own_rows_lookup _ _ _ _ _ _ e Ho). case_bool_decide as He;
      [|by rewrite lookup_empty].
    destruct (ro_rows _ _ _ _ Hrows e He) as (row & Hrow & Hv). rewrite Hrow. simpl.
    intros [= <-]. by exists row.
Qed.

Lemma validate_set_response m :
  validate m = Ok tt -> validate (set_response m (derivedResponse m)) = Ok tt.
Proof.
  intros H. revert H. unfold validate, behavior_valid, validate_semantics. simpl.
  change (derivedResponse (set_response m (derivedResponse m))) with (derivedResponse m).
  rewrite N.eqb_refl, andb_false_r.
  destruct (negb _ && negb _) eqn:E; [|done]. by repeat case_match.
Qed.

(** The row a contract keeps is a valid mapping with the capability it
    derives. *)
Lemma owned_row_valid row :
  validate row = Ok tt ->
  let m := set_response row (derivedResponse row) in
  row_sound m /\ Mapping_IsValid m = true /\ lm_response m = derivedResponse m.
Proof.
  intros Hv%validate_set_response. simpl. split_and!; [by apply validate_sound| |done].
  unfold Mapping_IsValid. rewrite Hv. simpl. by rewrite derivedResponse_valid.
Qed.
