(* ===== verification/Execution.v ===== *)
(** Execution: the attribution of an event to a provider, model and role
    (internal/lifecycle/execution: types.go, normalize.go, validate.go,
    declarations.go).

    Three sources declare up to five members each; [Normalize] settles every
    member by fixed priority, and [ValidateMetadata] is the check a decoded
    record must pass.  The five members of a declaration are a list in the order
    the loops visit them, and [dimension] is the index into it.  The extraction
    of members from host JSON ([Native]) is not modelled. *)

From Stdlib Require Import NArith ZArith Lia Ascii String Sorting.Sorted.
From stdpp Require Import base tactics list strings.
From S2P Require Import Prelude GoStrings Vocabulary NativeRows.
Local Open Scope string_scope.
Local Open Scope list_scope.

(** ** Vocabularies *)
Abbreviation Status := string (only parsing).
Definition Observed : Status := "observed".
Definition Unavailable : Status := "unavailable".
Definition Invalid : Status := "invalid".
Definition Conflict : Status := "conflict".
Definition Status_IsValid (s : Status) : bool := one_of s [Observed; Unavailable; Invalid; Conflict].

Abbreviation Source := string (only parsing).
Definition Host : Source := "host".
Definition Environment : Source := "environment".
Definition ActorRegistry : Source := "actor-registry".
Definition NoSource : Source := "none".
Definition Source_IsValid (s : Source) : bool := one_of s [Host; Environment; ActorRegistry; NoSource].

Abbreviation ExecutionKind := string (only parsing).
Definition Primary : ExecutionKind := "primary".
Definition Compaction : ExecutionKind := "compaction".
Definition Title : ExecutionKind := "title".
Definition Generate : ExecutionKind := "generate".
Definition Selection : ExecutionKind := "selection".
Definition Child : ExecutionKind := "child".
Definition ExecutionKind_IsValid (k : ExecutionKind) : bool :=
  one_of k [Primary; Compaction; Title; Generate; Selection; Child].

Definition NativeAgent : string := "native-agent".
Definition PastureRole : string := "pasture-role".

Abbreviation Reason := string (only parsing).
Definition RejectedInput : Reason := "rejected-input".
Definition ValidDisagreement : Reason := "valid-disagreement".
Definition ValidDisagreementWithRejectedInput : Reason := "valid-disagreement-with-rejected-input".
Definition UnpairedProvider : Reason := "unpaired-provider".
Definition NoEvidence : Reason := "no-evidence".

Abbreviation Member := string (only parsing).
Definition HostProvider : Member := "model.providerID".
Definition HostModelID : Member := "model.id".
Definition HostModel : Member := "model".
Definition HostToModel : Member := "to_model".
Definition HostVariant : Member := "model.variant".
Definition HostAgent : Member := "agent".
Definition HostAgentType : Member := "agent_type".
Definition EnvironmentProvider : Member := "PASTURE_EXECUTION_PROVIDER".
Definition EnvironmentModel : Member := "PASTURE_EXECUTION_MODEL".
Definition EnvironmentRole : Member := "PASTURE_EXECUTION_ROLE".
Definition RegistryProvider : Member := "provider".
Definition RegistryModel : Member := "model".
Definition RegistryRole : Member := "role".

Definition MaxValueBytes : nat := 512.
Definition MaxCandidates : nat := 3.

(** ** Evidence as supplied *)
Record Raw := mk_Raw { rw_Present : bool; rw_Member : Member; rw_Value : string }.
Definition absent : Raw := mk_Raw false EmptyString EmptyString.

Record Declaration := mk_Declaration {
  dc_Provider : Raw;
  dc_Model : Raw;
  dc_Variant : Raw;
  dc_Role : Raw;
  dc_ProtocolRole : Raw;
}.
Definition members (d : Declaration) : list Raw :=
  [dc_Provider d; dc_Model d; dc_Variant d; dc_Role d; dc_ProtocolRole d].
Definition no_declaration : Declaration := mk_Declaration absent absent absent absent absent.

Record Scope := mk_Scope { sc_AgentID : string; sc_TurnID : string; sc_RequestID : string }.
Definition coordinates (s : Scope) : list string := [sc_AgentID s; sc_TurnID s; sc_RequestID s].

Record Inputs := mk_Inputs {
  ei_Kind : ExecutionKind;
  ei_Scope : Scope;
  ei_Host : Declaration;
  ei_Environment : Declaration;
  ei_ActorRegistry : Declaration;
}.

(** ** Evidence as settled *)
Record Candidate := mk_Candidate { cd_Source : Source; cd_Field : Member; cd_Value : string }.
Record AttributionValue := mk_Attribution {
  av_Status : Status;
  av_Value : string;
  av_Source : Source;
  av_Field : Member;
  av_Vocabulary : string;
  av_Reason : Reason;
  av_Candidates : list Candidate;
}.
Record Metadata := mk_Metadata {
  md_Kind : ExecutionKind;
  md_Scope : Scope;
  md_Provider : AttributionValue;
  md_Model : AttributionValue;
  md_Variant : AttributionValue;
  md_Role : AttributionValue;
  md_ProtocolRole : AttributionValue;
}.
Definition attributions (m : Metadata) : list AttributionValue :=
  [md_Provider m; md_Model m; md_Variant m; md_Role m; md_ProtocolRole m].

Definition HasEvidence (m : Metadata) : bool :=
  existsb (fun c => negb (String.eqb c EmptyString)) (coordinates (md_Scope m))
  || existsb (fun f => one_of (av_Status f) [Observed; Invalid; Conflict]
                       || negb (length (av_Candidates f) =? 0)%nat) (attributions m).

(** ** Values and members *)
Definition ValidValue (value : string) : bool :=
  let b := to_bytes value in
  if String.eqb value EmptyString || (MaxValueBytes <? length b)%nat || negb (ValidString b)
     || padded value then false
  else match runes b with
  | Some rs => forallb (fun r => negb (IsControl r)) rs
  | None => false
  end.

Abbreviation dimension := nat (only parsing).
Definition providerDimension : dimension := 0.
Definition modelDimension : dimension := 1.
Definition variantDimension : dimension := 2.
Definition roleDimension : dimension := 3.
Definition protocolRoleDimension : dimension := 4.

Definition allowed (source : Source) (dim : dimension) (member : Member) : bool :=
  if String.eqb source Host then
    if (dim =? providerDimension)%nat then String.eqb member HostProvider
    else if (dim =? modelDimension)%nat then one_of member [HostModelID; HostModel; HostToModel]
    else if (dim =? variantDimension)%nat then String.eqb member HostVariant
    else if (dim =? roleDimension)%nat then one_of member [HostAgent; HostAgentType]
    else false
  else if String.eqb source Environment then
    if (dim =? providerDimension)%nat then String.eqb member EnvironmentProvider
    else if (dim =? modelDimension)%nat then String.eqb member EnvironmentModel
    else if (dim =? protocolRoleDimension)%nat then String.eqb member EnvironmentRole
    else false
  else if String.eqb source ActorRegistry then
    if (dim =? providerDimension)%nat then String.eqb member RegistryProvider
    else if (dim =? modelDimension)%nat then String.eqb member RegistryModel
    else if (dim =? protocolRoleDimension)%nat then String.eqb member RegistryRole
    else false
  else false.

Definition valid_in (dim : dimension) (value : string) : bool :=
  ValidValue value && (negb (dim =? protocolRoleDimension)%nat || RoleId_IsValid value).

(** ** Settling one member *)
Record observation := mk_observation {
  ob_candidate : Candidate;
  ob_present : bool;
  ob_valid : bool;
  ob_eligible : bool;
}.
Definition zero_observation : observation :=
  mk_observation (mk_Candidate EmptyString EmptyString EmptyString) false false false.

(** The loop over the observations: the candidates, the winner, the first
    rejected one, and whether two eligible ones disagree. *)
Fixpoint field_loop (obs : list observation) (cands : list Candidate)
    (winner rejected : option observation) (disagree : bool)
    : list Candidate * option observation * option observation * bool :=
  match obs with
  | [] => (cands, winner, rejected, disagree)
  | o :: rest =>
      if negb (ob_present o) then field_loop rest cands winner rejected disagree
      else if negb (ob_valid o) then
        field_loop rest cands winner
          (match rejected with None => Some o | Some r => Some r end) disagree
      else
        let cands := cands ++ [ob_candidate o] in
        if ob_eligible o then
          match winner with
          | None => field_loop rest cands (Some o) rejected disagree
          | Some w =>
              field_loop rest cands winner rejected
                (if String.eqb (cd_Value (ob_candidate w)) (cd_Value (ob_candidate o))
                 then disagree else true)
          end
        else field_loop rest cands winner rejected disagree
  end.

Definition normalizeField (obs : list observation) (provider : bool) : AttributionValue :=
  let '(cands, winner, rejected, disagree) := field_loop obs [] None None false in
  if disagree then
    mk_Attribution Conflict EmptyString NoSource EmptyString EmptyString
      (match rejected with
       | Some _ => ValidDisagreementWithRejectedInput
       | None => ValidDisagreement
       end) cands
  else match rejected with
  | Some r =>
      mk_Attribution Invalid EmptyString (cd_Source (ob_candidate r)) (cd_Field (ob_candidate r))
        EmptyString RejectedInput cands
  | None =>
      match winner with
      | Some w =>
          mk_Attribution Observed (cd_Value (ob_candidate w)) (cd_Source (ob_candidate w))
            (cd_Field (ob_candidate w)) EmptyString EmptyString []
      | None =>
          mk_Attribution Unavailable EmptyString NoSource EmptyString EmptyString
            (if provider && negb (length cands =? 0)%nat then UnpairedProvider else NoEvidence) cands
      end
  end.

(** ** Normalization *)
Inductive NormalizeError :=
  | UnsupportedKind
  | InvalidScope
  | AbsentCarriesData
  | UnsupportedMember.

Definition observe (source : Source) (dim : dimension) (raw : Raw)
    : result NormalizeError observation :=
  if negb (rw_Present raw) then
    if negb (String.eqb (rw_Value raw) EmptyString) || negb (String.eqb (rw_Member raw) EmptyString)
    then Err AbsentCarriesData else Ok zero_observation
  else if negb (allowed source dim (rw_Member raw)) then Err UnsupportedMember
  else
    let valid := valid_in dim (rw_Value raw) in
    Ok (mk_observation
          (mk_Candidate source (rw_Member raw) (if valid then rw_Value raw else EmptyString))
          true valid valid).

(** The members of one declaration, from dimension [dim] on. *)
Fixpoint observe_from (source : Source) (dim : dimension) (raws : list Raw)
    : result NormalizeError (list observation) :=
  match raws with
  | [] => Ok []
  | raw :: rest =>
      o ← observe source dim raw;
      os ← observe_from source (S dim) rest;
      Ok (o :: os)
  end.

(** [fields[dim]]: what each source observes of one member. *)
Definition field (rows : list (list observation)) (dim : dimension) : list observation :=
  (fun row => nth dim row zero_observation) <$> rows.

(** A provider counts only from a source whose model is the one observed. *)
Definition pair_provider (model : AttributionValue) (m p : observation) : observation :=
  mk_observation (ob_candidate p) (ob_present p) (ob_valid p)
    (String.eqb (av_Status model) Observed && ob_valid m
     && String.eqb (cd_Value (ob_candidate m)) (av_Value model)).

Definition with_vocabulary (v : string) (a : AttributionValue) : AttributionValue :=
  mk_Attribution (av_Status a) (av_Value a) (av_Source a) (av_Field a) v (av_Reason a)
    (av_Candidates a).

Definition scope_valid (s : Scope) : bool :=
  forallb (fun v => String.eqb v EmptyString || ValidValue v) (coordinates s).

Definition Normalize (i : Inputs) : result NormalizeError Metadata :=
  if negb (ExecutionKind_IsValid (ei_Kind i)) then Err UnsupportedKind
  else if negb (scope_valid (ei_Scope i)) then Err InvalidScope
  else
    host ← observe_from Host 0 (members (ei_Host i));
    environment ← observe_from Environment 0 (members (ei_Environment i));
    registry ← observe_from ActorRegistry 0 (members (ei_ActorRegistry i));
    let rows := [host; environment; registry] in
    let model := normalizeField (field rows modelDimension) false in
    let providers := zip_with (pair_provider model) (field rows modelDimension)
                       (field rows providerDimension) in
    Ok (mk_Metadata (ei_Kind i) (ei_Scope i)
          (normalizeField providers true) model
          (normalizeField (field rows variantDimension) false)
          (with_vocabulary NativeAgent (normalizeField (field rows roleDimension) false))
          (with_vocabulary PastureRole (normalizeField (field rows protocolRoleDimension) false))).

(** ** Validation *)
Definition source_rank (s : Source) : nat :=
  if String.eqb s Host then 1
  else if String.eqb s Environment then 2
  else if String.eqb s ActorRegistry then 3
  else 0.

Fixpoint candidates_valid (dim : dimension) (prior : nat) (cands : list Candidate) : bool :=
  match cands with
  | [] => true
  | c :: rest =>
      let rank := source_rank (cd_Source c) in
      if (rank <=? prior)%nat || negb (allowed (cd_Source c) dim (cd_Field c))
         || negb (valid_in dim (cd_Value c)) then false
      else candidates_valid dim rank rest
  end.

Definition is_empty (s : string) : bool := String.eqb s EmptyString.

Definition status_valid (dim : dimension) (v : AttributionValue) : bool :=
  let none := (length (av_Candidates v) =? 0)%nat in
  if String.eqb (av_Status v) Observed then
    allowed (av_Source v) dim (av_Field v) && valid_in dim (av_Value v) && is_empty (av_Reason v) && none
  else if String.eqb (av_Status v) Invalid then
    allowed (av_Source v) dim (av_Field v) && is_empty (av_Value v)
    && String.eqb (av_Reason v) RejectedInput
  else if String.eqb (av_Status v) Conflict then
    String.eqb (av_Source v) NoSource && is_empty (av_Field v) && is_empty (av_Value v)
    && one_of (av_Reason v) [ValidDisagreement; ValidDisagreementWithRejectedInput]
    && (2 <=? length (av_Candidates v))%nat
    && match av_Candidates v with
       | [] => false
       | c :: rest => existsb (fun d => negb (String.eqb (cd_Value d) (cd_Value c))) rest
       end
  else
    String.eqb (av_Source v) NoSource && is_empty (av_Field v) && is_empty (av_Value v)
    && (String.eqb (av_Reason v) NoEvidence
        || (dim =? providerDimension)%nat && String.eqb (av_Reason v) UnpairedProvider)
    && negb (String.eqb (av_Reason v) NoEvidence && negb none)
    && negb (String.eqb (av_Reason v) UnpairedProvider && none).

Definition attribution_valid (dim : dimension) (vocabulary : string) (v : AttributionValue) : bool :=
  Status_IsValid (av_Status v) && Source_IsValid (av_Source v)
  && String.eqb (av_Vocabulary v) vocabulary && (length (av_Candidates v) <=? MaxCandidates)%nat
  && candidates_valid dim 0 (av_Candidates v) && status_valid dim v.

(** Whether the error is nil. *)
Definition ValidateMetadata (m : Metadata) : bool :=
  ExecutionKind_IsValid (md_Kind m) && scope_valid (md_Scope m)
  && attribution_valid providerDimension EmptyString (md_Provider m)
  && attribution_valid modelDimension EmptyString (md_Model m)
  && attribution_valid variantDimension EmptyString (md_Variant m)
  && attribution_valid roleDimension NativeAgent (md_Role m)
  && attribution_valid protocolRoleDimension PastureRole (md_ProtocolRole m)
  && negb (String.eqb (av_Status (md_Provider m)) Observed
           && negb (String.eqb (av_Status (md_Model m)) Observed)).

(** ** The declaration carried by a hook *)
Record Invocation := mk_Invocation {
  iv_Provider : option string;
  iv_Model : option string;
  iv_Role : option string;
}.

#[export] Instance Invocation_eq_dec : EqDecision Invocation.
Proof. solve_decision. Defined.
Definition zero_Invocation : Invocation := mk_Invocation None None None.

Definition bounded (value : option string) : option string :=
  (fun v => if ValidValue v then v else EmptyString) <$> value.
Definition BoundedInvocation (provider model role : option string) : Invocation :=
  mk_Invocation (bounded provider) (bounded model) (bounded role).

Definition raw_member (value : option string) (member : Member) : Raw :=
  match value with None => absent | Some v => mk_Raw true member v end.
Definition Invocation_Declaration (i : Invocation) : Declaration :=
  let i := BoundedInvocation (iv_Provider i) (iv_Model i) (iv_Role i) in
  mk_Declaration (raw_member (iv_Provider i) EnvironmentProvider)
    (raw_member (iv_Model i) EnvironmentModel) absent absent
    (raw_member (iv_Role i) EnvironmentRole).

(** * Theorems *)

(** ** One member, in closed form *)
Definition counted_obs (o : observation) : bool := ob_present o && ob_valid o.
Definition rejected_obs (o : observation) : bool := ob_present o && negb (ob_valid o).
Definition eligible_obs (o : observation) : bool := counted_obs o && ob_eligible o.
Definition obs_value (o : observation) : string := cd_Value (ob_candidate o).

Definition dissent (w : observation) (l : list observation) : bool :=
  existsb (fun o => negb (String.eqb (obs_value w) (obs_value o))) l.
Definition disagreement (l : list observation) : bool :=
  match l with [] => false | w :: rest => dissent w rest end.

Lemma field_loop_spec obs cands w r d :
  field_loop obs cands w r d =
  (cands ++ (ob_candidate <$> List.filter counted_obs obs),
   (match w with Some w => Some w | None => hd_error (List.filter eligible_obs obs) end),
   (match r with Some r => Some r | None => hd_error (List.filter rejected_obs obs) end),
   d || match w with
        | Some w => dissent w (List.filter eligible_obs obs)
        | None => disagreement (List.filter eligible_obs obs)
        end).
Proof.
  revert cands w r d. induction obs as [|o rest IH]; intros cands w r d; simpl.
  - rewrite app_nil_r. destruct w, r; simpl; by rewrite orb_false_r.
  - unfold eligible_obs, counted_obs, rejected_obs in *.
    destruct (ob_present o); simpl; [|apply IH].
    destruct (ob_valid o); simpl; [|rewrite IH; by destruct r].
    destruct (ob_eligible o); simpl; [|rewrite IH, <- app_assoc; by destruct w].
    destruct w as [w|]; rewrite IH, <- app_assoc; simpl; [|by destruct r].
    f_equal. unfold dissent. simpl. unfold obs_value.
    destruct (String.eqb _ _), d; simpl; done.
Qed.

(** [normalizeField] without the loop. *)
Lemma normalizeField_spec obs provider :
  let cands := ob_candidate <$> List.filter counted_obs obs in
  let eligible := List.filter eligible_obs obs in
  let rejected := List.filter rejected_obs obs in
  normalizeField obs provider =
  if disagreement eligible then
    mk_Attribution Conflict EmptyString NoSource EmptyString EmptyString
      (match rejected with [] => ValidDisagreement | _ => ValidDisagreementWithRejectedInput end) cands
  else match rejected, eligible with
  | r :: _, _ =>
      mk_Attribution Invalid EmptyString (cd_Source (ob_candidate r)) (cd_Field (ob_candidate r))
        EmptyString RejectedInput cands
  | [], w :: _ =>
      mk_Attribution Observed (obs_value w) (cd_Source (ob_candidate w)) (cd_Field (ob_candidate w))
        EmptyString EmptyString []
  | [], [] =>
      mk_Attribution Unavailable EmptyString NoSource EmptyString EmptyString
        (if provider && negb (length cands =? 0)%nat then UnpairedProvider else NoEvidence) cands
  end.
Proof.
  cbv zeta. unfold normalizeField. rewrite field_loop_spec. cbn [app orb].
  destruct (disagreement _); [by destruct (List.filter rejected_obs obs)|].
  by destruct (List.filter rejected_obs obs); [destruct (List.filter eligible_obs obs)|].
Qed.

(** ** Rows of observations *)
Definition sources : list Source := [Host; Environment; ActorRegistry].

(** What one source contributes to a row of dimension [dim]. *)
Definition obs_ok (dim : dimension) (s : Source) (o : observation) : Prop :=
  ob_present o = false \/
  ob_present o = true /\ cd_Source (ob_candidate o) = s /\
  allowed s dim (cd_Field (ob_candidate o)) = true /\
  (ob_valid o = true -> valid_in dim (obs_value o) = true).
Definition row_ok (dim : dimension) (obs : list observation) : Prop :=
  Forall2 (obs_ok dim) sources obs.

Lemma filter_elem {A} (p : A -> bool) l x : x ∈ List.filter p l <-> x ∈ l /\ p x = true.
Proof. rewrite !list_elem_of_In. apply filter_In. Qed.

Lemma row_elem dim obs o :
  row_ok dim obs -> o ∈ obs -> ob_present o = true ->
  allowed (cd_Source (ob_candidate o)) dim (cd_Field (ob_candidate o)) = true /\
  Source_IsValid (cd_Source (ob_candidate o)) = true /\
  (ob_valid o = true -> valid_in dim (obs_value o) = true).
Proof.
  intros Hrow Ho Hp. apply list_elem_of_lookup in Ho as [i Hi].
  destruct (Forall2_lookup_r _ _ _ _ _ Hrow Hi) as (s & Hs & [?|(_ & -> & Ha & Hv)]); [congruence|].
  split_and!; [done| |done].
  by destruct i as [|[|[|i]]]; inversion Hs.
Qed.

(** Candidates are sorted by the priority of their sources. *)
Lemma candidates_sorted dim prior srcs obs :
  StronglySorted lt (prior :: (source_rank <$> srcs)) -> Forall2 (obs_ok dim) srcs obs ->
  candidates_valid dim prior (ob_candidate <$> List.filter counted_obs obs) = true.
Proof.
  intros Hs Hrow. revert prior Hs.
  induction Hrow as [|s o srcs obs Ho _ IH]; intros prior Hs; [done|].
  simpl in Hs. inversion Hs as [|?? Hs' Hp]; subst.
  assert (StronglySorted lt (prior :: (source_rank <$> srcs))) as Hskip.
  { inversion Hs'; inversion Hp; subst. by constructor. }
  cbn [List.filter]. unfold counted_obs at 1.
  destruct Ho as [Hn|(Hy & Hsrc & Ha & Hv)]; [rewrite Hn; by apply IH|].
  rewrite Hy. simpl. destruct (ob_valid o) eqn:Hval; [|by apply IH].
  simpl. rewrite Hsrc. inversion Hp as [|?? Hlt _]; subst.
  rewrite (proj2 (Nat.leb_gt _ _) Hlt), Ha. unfold obs_value in Hv. rewrite (Hv eq_refl).
  simpl. by apply IH.
Qed.

Lemma sources_sorted : StronglySorted lt (0 :: (source_rank <$> sources)).
Proof. repeat constructor. Qed.

Lemma filter_length_le {A} (p : A -> bool) l : length (List.filter p l) <= length l.
Proof. induction l as [|x l IH]; simpl; [lia|]. destruct (p x); simpl; lia. Qed.

Lemma disagreement_spec l :
  disagreement l = true <-> exists x y, x ∈ l /\ y ∈ l /\ obs_value x <> obs_value y.
Proof.
  destruct l as [|w rest]; simpl.
  { split; [done|]. by intros (x & y & Hx%not_elem_of_nil & _). }
  unfold dissent. rewrite existsb_exists. setoid_rewrite negb_true_iff.
  setoid_rewrite String.eqb_neq. setoid_rewrite <- list_elem_of_In. split.
  - intros (o & Ho & Hne). exists w, o. split_and!; [left|by right|done].
  - intros (x & y & Hx & Hy & Hne). apply elem_of_cons in Hx, Hy.
    destruct (decide (obs_value w = obs_value x)) as [E|E].
    + destruct Hy as [->|Hy]; [congruence|]. exists y. split; [done|congruence].
    + destruct Hx as [->|Hx]; [done|]. by exists x.
Qed.

(** Two candidates that differ show up as a tail that differs from the head. *)
Lemma conflict_shape (l : list observation) :
  disagreement l = true -> forall k : list observation, (forall o, o ∈ l -> o ∈ k) ->
  (2 <=? length (ob_candidate <$> k))%nat = true /\
  match ob_candidate <$> k with
  | [] => false
  | c :: rest => existsb (fun d => negb (String.eqb (cd_Value d) (cd_Value c))) rest
  end = true.
Proof.
  intros Hd k Hk. assert (disagreement k = true) as H.
  { apply disagreement_spec in Hd as (x & y & Hx & Hy & Hne). apply disagreement_spec.
    exists x, y. auto. }
  destruct k as [|c rest]; [done|]. simpl in *. unfold dissent in H.
  apply existsb_exists in H as (o & Ho & Hne). apply list_elem_of_In in Ho. split.
  - destruct rest as [|z rest]; [by apply not_elem_of_nil in Ho|done].
  - apply existsb_exists. exists (ob_candidate o). split.
    + apply list_elem_of_In. by apply list_elem_of_fmap_2.
    + apply negb_true_iff, String.eqb_neq in Hne. apply negb_true_iff, String.eqb_neq.
      intros E. by apply Hne.
Qed.

Lemma valid_nonempty dim v : valid_in dim v = true -> is_empty v = false.
Proof.
  unfold valid_in, ValidValue, is_empty. destruct (String.eqb v EmptyString); [|done].
  by rewrite orb_true_l.
Qed.

(** A settled member passes the check of a decoded one. *)
Lemma normalizeField_valid dim obs provider vocabulary :
  row_ok dim obs -> provider = (dim =? providerDimension)%nat ->
  (provider = false -> List.filter eligible_obs obs = List.filter counted_obs obs) ->
  attribution_valid dim vocabulary (with_vocabulary vocabulary (normalizeField obs provider)) = true.
Proof.
  intros Hrow Hprov Hel. rewrite normalizeField_spec. cbv zeta.
  set (cands := List.filter counted_obs obs). set (el := List.filter eligible_obs obs).
  assert (length cands <= MaxCandidates) as Hlen.
  { unfold cands. etrans; [apply filter_length_le|]. by rewrite <- (Forall2_length _ _ _ Hrow). }
  assert (candidates_valid dim 0 (ob_candidate <$> cands) = true) as Hcv
    by (by eapply candidates_sorted; [apply sources_sorted|]).
  assert (forall o, o ∈ el -> o ∈ cands) as Hsub.
  { intros o. unfold el, cands, eligible_obs. rewrite !filter_elem, andb_true_iff. tauto. }
  apply Nat.leb_le in Hlen.
  assert (forall a, Status_IsValid (av_Status a) = true -> Source_IsValid (av_Source a) = true ->
    av_Candidates a = [] \/ av_Candidates a = ob_candidate <$> cands ->
    status_valid dim (with_vocabulary vocabulary a) = true ->
    attribution_valid dim vocabulary (with_vocabulary vocabulary a) = true) as Hall.
  { intros a Hs Hsrc Hc Hst. unfold attribution_valid. rewrite Hst. simpl.
    rewrite Hs, Hsrc, String.eqb_refl. destruct Hc as [-> | ->]; [done|].
    by rewrite Hcv, length_fmap, Hlen. }
  destruct (disagreement el) eqn:Hdis.
  { destruct (conflict_shape _ Hdis cands Hsub) as [H2 Hd].
    apply Hall; [done|done|by right|]. unfold status_valid.
    cbn [with_vocabulary av_Status av_Source av_Field av_Value av_Reason av_Candidates].
    rewrite H2, Hd. by destruct (List.filter rejected_obs obs). }
  destruct (List.filter rejected_obs obs) as [|r rest] eqn:Hr.
  2:{ assert (r ∈ obs /\ rejected_obs r = true) as [Hin Hrej]
        by (apply filter_elem; rewrite Hr; left).
      unfold rejected_obs in Hrej. apply andb_true_iff in Hrej as [Hp _].
      destruct (row_elem _ _ _ Hrow Hin Hp) as (Ha & Hs & _).
      apply Hall; [done|exact Hs|by right|]. unfold status_valid. simpl. by rewrite Ha. }
  destruct el as [|w rest] eqn:He.
  - apply Hall; [done|done|by right|]. unfold status_valid. cbn [with_vocabulary av_Status
      av_Source av_Field av_Value av_Reason av_Candidates].
    destruct provider; simpl.
    + rewrite <- Hprov. by destruct cands.
    + unfold cands. rewrite <- Hel by done. fold el. rewrite He. done.
  - assert (w ∈ obs /\ eligible_obs w = true) as [Hin Hw]
      by (apply filter_elem; fold el; rewrite He; left).
    unfold eligible_obs, counted_obs in Hw. rewrite !andb_true_iff in Hw.
    destruct Hw as [[Hp Hv] _]. destruct (row_elem _ _ _ Hrow Hin Hp) as (Ha & Hs & Hval).
    apply Hall; [done|exact Hs|by left|]. unfold status_valid. simpl.
    by rewrite Ha, (Hval Hv).
Qed.

(** ** From declarations to rows *)

(** An entry is what one source says about one member. *)
Definition obs_of (s : Source) (dim : dimension) (raw : Raw) : observation :=
  if rw_Present raw then
    let valid := valid_in dim (rw_Value raw) in
    mk_observation (mk_Candidate s (rw_Member raw) (if valid then rw_Value raw else EmptyString))
      true valid valid
  else zero_observation.

(** A member a source may supply: allowed when present, blank when absent. *)
Definition raw_ok (s : Source) (dim : dimension) (raw : Raw) : bool :=
  if rw_Present raw then allowed s dim (rw_Member raw)
  else is_empty (rw_Value raw) && is_empty (rw_Member raw).

Lemma observe_spec s dim raw :
  match observe s dim raw with
  | Ok o => raw_ok s dim raw = true /\ o = obs_of s dim raw
  | Err _ => raw_ok s dim raw = false
  end.
Proof.
  unfold observe, raw_ok, obs_of, is_empty. destruct (rw_Present raw); simpl.
  - by destruct (allowed _ _ _).
  - by destruct (String.eqb _ _), (String.eqb _ _).
Qed.

Definition raws_ok (s : Source) (dim : dimension) (raws : list Raw) : bool :=
  forallb (fun p => raw_ok s p.1 p.2) (zip (seq dim (length raws)) raws).
Definition obs_row (s : Source) (dim : dimension) (raws : list Raw) : list observation :=
  zip_with (obs_of s) (seq dim (length raws)) raws.

Lemma observe_from_spec s raws dim :
  match observe_from s dim raws with
  | Ok os => raws_ok s dim raws = true /\ os = obs_row s dim raws
  | Err _ => raws_ok s dim raws = false
  end.
Proof.
  revert dim. induction raws as [|raw rest IH]; intros dim; [done|].
  unfold raws_ok, obs_row in *. cbn [observe_from length seq zip_with forallb fst snd].
  pose proof (observe_spec s dim raw) as Ho. destruct (observe s dim raw) as [o|e]; simpl;
    [destruct Ho as [-> ->]|by rewrite Ho].
  specialize (IH (S dim)). destruct (observe_from s (S dim) rest); simpl;
    [destruct IH as [-> ->]|]; done.
Qed.

(** What the sources supply for a member, in priority order. *)
Definition declarations (i : Inputs) : list Declaration := [ei_Host i; ei_Environment i; ei_ActorRegistry i].
Definition raws_of (i : Inputs) (dim : dimension) : list Raw :=
  (fun d => nth dim (members d) absent) <$> declarations i.
Definition structural (i : Inputs) : bool :=
  ExecutionKind_IsValid (ei_Kind i) && scope_valid (ei_Scope i)
  && raws_ok Host 0 (members (ei_Host i)) && raws_ok Environment 0 (members (ei_Environment i))
  && raws_ok ActorRegistry 0 (members (ei_ActorRegistry i)).

Definition settled_row (i : Inputs) (dim : dimension) : list observation :=
  zip_with (fun s raw => obs_of s dim raw) sources (raws_of i dim).
Definition settled_model (i : Inputs) : AttributionValue :=
  normalizeField (settled_row i modelDimension) false.
Definition settled_providers (i : Inputs) : list observation :=
  zip_with (pair_provider (settled_model i)) (settled_row i modelDimension)
    (settled_row i providerDimension).

Lemma Normalize_spec i :
  if structural i then
    Normalize i = Ok (mk_Metadata (ei_Kind i) (ei_Scope i)
      (normalizeField (settled_providers i) true) (settled_model i)
      (normalizeField (settled_row i variantDimension) false)
      (with_vocabulary NativeAgent (normalizeField (settled_row i roleDimension) false))
      (with_vocabulary PastureRole (normalizeField (settled_row i protocolRoleDimension) false)))
  else exists e, Normalize i = Err e.
Proof.
  unfold structural, Normalize.
  destruct (ExecutionKind_IsValid _); cbn [negb andb mbind result_bind]; [|by eexists].
  destruct (scope_valid _); cbn [negb andb mbind result_bind]; [|by eexists].
  pose proof (observe_from_spec Host (members (ei_Host i)) 0) as Hh.
  destruct (observe_from Host _ _) as [h|]; cbn [negb andb mbind result_bind]; [destruct Hh as [-> ->]|rewrite Hh; cbn [negb andb mbind result_bind]; by eexists].
  pose proof (observe_from_spec Environment (members (ei_Environment i)) 0) as He.
  destruct (observe_from Environment _ _) as [en|]; cbn [negb andb mbind result_bind];
    [destruct He as [-> ->]|rewrite He; cbn [negb andb mbind result_bind]; by eexists].
  pose proof (observe_from_spec ActorRegistry (members (ei_ActorRegistry i)) 0) as Hr.
  destruct (observe_from ActorRegistry _ _) as [r|]; cbn [negb andb mbind result_bind];
    [destruct Hr as [-> ->]|rewrite Hr; cbn [negb andb mbind result_bind]; by eexists].
  reflexivity.
Qed.

Lemma structural_raws i dim :
  structural i = true -> dim < 5 ->
  Forall2 (fun s raw => raw_ok s dim raw = true) sources (raws_of i dim).
Proof.
  unfold structural, raws_ok. rewrite !andb_true_iff. intros [[[_ Hh] He] Hr] Hd.
  cbn [members length seq zip_with forallb fst snd] in Hh, He, Hr.
  rewrite !andb_true_iff in Hh, He, Hr. destruct_and!.
  destruct dim as [|[|[|[|[|dim]]]]]; [..|lia]; by repeat constructor.
Qed.

Lemma obs_of_ok s dim raw :
  raw_ok s dim raw = true -> obs_ok dim s (obs_of s dim raw).
Proof.
  unfold raw_ok, obs_ok, obs_of, obs_value. destruct (rw_Present raw); [|by left].
  intros Ha. right. simpl. split_and!; [done..|]. intros Hv. by rewrite Hv.
Qed.

Lemma settled_row_ok i dim : structural i = true -> dim < 5 -> row_ok dim (settled_row i dim).
Proof.
  intros Hs Hd. pose proof (structural_raws i dim Hs Hd) as H.
  unfold row_ok, settled_row. induction H; simpl; [done|].
  constructor; [by apply obs_of_ok|done].
Qed.

Lemma settled_row_eligible i dim :
  List.filter eligible_obs (settled_row i dim) = List.filter counted_obs (settled_row i dim).
Proof.
  apply filter_ext_in. intros o Ho. unfold eligible_obs, counted_obs.
  apply list_elem_of_In in Ho. unfold settled_row in Ho.
  apply elem_of_lookup_zip_with in Ho as (k & s & raw & -> & _ & _).
  unfold obs_of. destruct (rw_Present raw); [|done]. simpl. by destruct (valid_in _ _).
Qed.

Lemma settled_providers_ok i :
  structural i = true -> row_ok providerDimension (settled_providers i).
Proof.
  intros Hs. pose proof (settled_row_ok i providerDimension Hs ltac:(unfold providerDimension; lia)) as H.
  unfold settled_providers, row_ok in *.
  assert (length (settled_row i modelDimension) = length sources) as Hl by done.
  revert Hl H. generalize (settled_row i modelDimension) as ms.
  generalize (settled_row i providerDimension) as ps. generalize sources as srcs.
  intros srcs ps ms Hl H. revert ms Hl. induction H as [|s p srcs ps Ho _ IH]; intros [|m ms] Hl;
    simpl in *; try done.
  constructor; [exact Ho|]. apply IH. lia.
Qed.

(** ** What an entry is worth *)
Definition entries (i : Inputs) (dim : dimension) : list (Source * Raw) := zip sources (raws_of i dim).
Definition supplied (i : Inputs) (dim : dimension) : list (Source * Raw) :=
  List.filter (fun p => rw_Present p.2) (entries i dim).
Definition good (dim : dimension) (p : Source * Raw) : bool := valid_in dim (rw_Value p.2).

Definition declaration_of (i : Inputs) (s : Source) : Declaration :=
  if String.eqb s Host then ei_Host i
  else if String.eqb s Environment then ei_Environment i
  else ei_ActorRegistry i.

(** A provider counts only beside the very model that was observed. *)
Definition counts (i : Inputs) (model : AttributionValue) (dim : dimension) (p : Source * Raw) : bool :=
  negb (dim =? providerDimension)%nat
  || let raw := dc_Model (declaration_of i p.1) in
     String.eqb (av_Status model) Observed && rw_Present raw
     && valid_in modelDimension (rw_Value raw) && String.eqb (rw_Value raw) (av_Value model).
Definition contenders (i : Inputs) (model : AttributionValue) (dim : dimension) : list (Source * Raw) :=
  List.filter (fun p => good dim p && counts i model dim p) (supplied i dim).
Definition refused (i : Inputs) (dim : dimension) : list (Source * Raw) :=
  List.filter (fun p => negb (good dim p)) (supplied i dim).

Definition entry_obs (i : Inputs) (model : AttributionValue) (dim : dimension) (p : Source * Raw)
    : observation :=
  let o := obs_of p.1 dim p.2 in
  if (dim =? providerDimension)%nat
  then pair_provider model (obs_of p.1 modelDimension (dc_Model (declaration_of i p.1))) o
  else o.

Lemma rows_of_entries i dim :
  (if (dim =? providerDimension)%nat then settled_providers i else settled_row i dim)
  = entry_obs i (settled_model i) dim <$> entries i dim.
Proof.
  unfold entry_obs, entries. destruct (dim =? providerDimension)%nat eqn:Hd.
  - apply Nat.eqb_eq in Hd as ->. reflexivity.
  - reflexivity.
Qed.

Lemma filter_fmap {A B} (p : B -> bool) (f : A -> B) l :
  List.filter p (f <$> l) = f <$> List.filter (fun x => p (f x)) l.
Proof. induction l as [|x l IH]; csimpl; [done|]. destruct (p (f x)); csimpl; by rewrite IH. Qed.

Lemma entry_present i m dim p :
  ob_present (entry_obs i m dim p) = rw_Present p.2 /\
  ob_valid (entry_obs i m dim p) = rw_Present p.2 && good dim p.
Proof.
  unfold entry_obs, obs_of, good. by destruct (dim =? _)%nat, (rw_Present p.2).
Qed.

Lemma entry_candidate i m dim p :
  rw_Present p.2 = true -> good dim p = true ->
  ob_candidate (entry_obs i m dim p) = mk_Candidate p.1 (rw_Member p.2) (rw_Value p.2).
Proof.
  unfold entry_obs, obs_of, good. intros -> Hg. by destruct (dim =? _)%nat; simpl; rewrite Hg.
Qed.

Lemma entry_eligible i m dim p :
  eligible_obs (entry_obs i m dim p) = rw_Present p.2 && (good dim p && counts i m dim p).
Proof.
  unfold eligible_obs, counted_obs. destruct (entry_present i m dim p) as [-> ->].
  destruct (rw_Present p.2) eqn:Hp; [|done]. simpl. destruct (good dim p) eqn:Hg; [|done]. simpl.
  unfold entry_obs, counts. destruct (dim =? _)%nat; simpl.
  - unfold obs_of. destruct (rw_Present (dc_Model _)); simpl; [|by rewrite !andb_false_r].
    rewrite andb_true_r. by destruct (valid_in modelDimension _); simpl; rewrite ?andb_false_r.
  - unfold obs_of. rewrite Hp. simpl. done.
Qed.

Lemma row_filters i m dim :
  let row := entry_obs i m dim <$> entries i dim in
  List.filter counted_obs row = entry_obs i m dim <$> List.filter (good dim) (supplied i dim) /\
  List.filter rejected_obs row = entry_obs i m dim <$> refused i dim /\
  List.filter eligible_obs row = entry_obs i m dim <$> contenders i m dim.
Proof.
  cbv zeta. unfold refused, contenders, supplied. rewrite !filter_fmap, !filter_filter.
  split_and!; f_equal; apply filter_ext; intros p.
  - unfold counted_obs. destruct (entry_present i m dim p) as [-> ->]. by destruct (rw_Present _).
  - unfold rejected_obs. destruct (entry_present i m dim p) as [-> ->]. by destruct (rw_Present _).
  - apply entry_eligible.
Qed.

Lemma contender_value i m dim p :
  p ∈ contenders i m dim -> obs_value (entry_obs i m dim p) = rw_Value p.2.
Proof.
  unfold contenders, supplied. rewrite !filter_elem. intros [[_ Hp] [Hg _]%andb_true_iff].
  unfold obs_value. by rewrite entry_candidate.
Qed.

Lemma contenders_disagree i m dim :
  disagreement (entry_obs i m dim <$> contenders i m dim) = true <->
  exists p q, p ∈ contenders i m dim /\ q ∈ contenders i m dim /\ rw_Value p.2 <> rw_Value q.2.
Proof.
  rewrite disagreement_spec. split.
  - intros (x & y & Hx & Hy & Hne). apply list_elem_of_fmap in Hx as (p & -> & Hp).
    apply list_elem_of_fmap in Hy as (q & -> & Hq). exists p, q.
    by rewrite <- !(contender_value i m dim).
  - intros (p & q & Hp & Hq & Hne). exists (entry_obs i m dim p), (entry_obs i m dim q).
    split_and!; [by apply list_elem_of_fmap_2..|]. by rewrite !contender_value.
Qed.

Lemma unstamped obs provider :
  with_vocabulary EmptyString (normalizeField obs provider) = normalizeField obs provider.
Proof. unfold normalizeField. destruct (field_loop _ _ _ _ _) as [[[c w] r] d]. by repeat case_match. Qed.

Definition stamp (dim : dimension) : string :=
  if (dim =? roleDimension)%nat then NativeAgent
  else if (dim =? protocolRoleDimension)%nat then PastureRole
  else EmptyString.

(** Every dimension settles by the same rule. *)
Lemma Normalize_attribution i m dim :
  Normalize i = Ok m -> dim < 5 ->
  structural i = true /\
  nth dim (attributions m) (md_Model m) =
    with_vocabulary (stamp dim)
      (normalizeField (entry_obs i (md_Model m) dim <$> entries i dim) (dim =? providerDimension)%nat).
Proof.
  intros H Hd. pose proof (Normalize_spec i) as Hs. destruct (structural i); [|destruct Hs; congruence].
  rewrite Hs in H. injection H as <-. split; [done|].
  cbn [md_Model attributions md_Provider md_Variant md_Role md_ProtocolRole].
  rewrite <- rows_of_entries.
  destruct dim as [|[|[|[|[|dim]]]]]; [symmetry; apply unstamped..|done|done|lia].
Qed.

Lemma Normalize_kept i m :
  Normalize i = Ok m ->
  structural i = true /\ md_Kind m = ei_Kind i /\ md_Scope m = ei_Scope i.
Proof.
  intros H. pose proof (Normalize_spec i) as Hs. destruct (structural i); [|destruct Hs; congruence].
  rewrite Hs in H. by injection H as <-.
Qed.

Lemma Normalize_attribution_valid i m dim :
  Normalize i = Ok m -> dim < 5 ->
  attribution_valid dim (stamp dim) (nth dim (attributions m) (md_Model m)) = true.
Proof.
  intros H Hd. pose proof (Normalize_spec i) as Hspec.
  destruct (Normalize_attribution _ _ _ H Hd) as [Hs ->]. rewrite Hs in Hspec.
  rewrite Hspec in H. injection H as <-. cbn [md_Model].
  rewrite <- rows_of_entries. destruct (dim =? providerDimension)%nat eqn:Hp.
  - apply Nat.eqb_eq in Hp as ->. by apply normalizeField_valid; [apply settled_providers_ok| |].
  - apply normalizeField_valid; [by apply settled_row_ok|done|]. intros _. apply settled_row_eligible.
Qed.

(** ** Evidence *)
Definition conveys (a : AttributionValue) : bool :=
  one_of (av_Status a) [Observed; Invalid; Conflict] || negb (length (av_Candidates a) =? 0)%nat.

Lemma normalizeField_conveys obs provider v :
  conveys (with_vocabulary v (normalizeField obs provider)) = existsb ob_present obs.
Proof.
  assert (existsb ob_present obs = negb (length (ob_candidate <$> List.filter counted_obs obs) =? 0)%nat
    || negb (length (List.filter rejected_obs obs) =? 0)%nat) as ->.
  { induction obs as [|o obs IH]; [done|]. simpl. rewrite IH. unfold counted_obs, rejected_obs.
    destruct (ob_present o), (ob_valid o); csimpl; rewrite ?orb_true_r; done. }
  rewrite normalizeField_spec. cbv zeta.
  assert (List.filter eligible_obs obs <> [] -> List.filter counted_obs obs <> []) as Hsub.
  { intros Hne Hn. destruct (List.filter eligible_obs obs) as [|o l] eqn:He; [done|].
    assert (o ∈ List.filter eligible_obs obs) as Ho by (rewrite He; left).
    apply filter_elem in Ho as [Ho [Hc _]%andb_true_iff].
    assert (o ∈ List.filter counted_obs obs) as Ho' by (by apply filter_elem).
    rewrite Hn in Ho'. by apply not_elem_of_nil in Ho'. }
  destruct (disagreement _) eqn:Hd.
  - unfold conveys. simpl. destruct (List.filter counted_obs obs); [|done].
    destruct (List.filter eligible_obs obs); [done|]. by destruct Hsub.
  - destruct (List.filter rejected_obs obs); [|by rewrite orb_true_r]. simpl. rewrite orb_false_r.
    destruct (List.filter eligible_obs obs); [by unfold conveys|].
    destruct (List.filter counted_obs obs); [by destruct Hsub|done].
Qed.

Lemma entries_present i m dim :
  existsb ob_present (entry_obs i m dim <$> entries i dim) = existsb rw_Present (raws_of i dim).
Proof.
  simpl. unfold entry_obs, obs_of. destruct (dim =? _)%nat; simpl;
    by repeat match goal with |- context [if ?b then _ else _] => destruct b; simpl end.
Qed.

(** An observed provider has an observed model. *)
Lemma Normalize_paired i m :
  Normalize i = Ok m ->
  negb (String.eqb (av_Status (md_Provider m)) Observed
        && negb (String.eqb (av_Status (md_Model m)) Observed)) = true.
Proof.
  intros H. destruct (Normalize_attribution _ _ 0 H ltac:(lia)) as [_ Hp]. cbn [nth attributions] in Hp.
  rewrite Hp. destruct (String.eqb_spec (av_Status (md_Model m)) Observed) as [_|Hn];
    [by rewrite andb_false_r|]. rewrite andb_true_r.
  cbn [with_vocabulary av_Status]. change (0 =? providerDimension)%nat with true.
  destruct (row_filters i (md_Model m) 0) as (Hc & Hr & He). rewrite normalizeField_spec. cbv zeta.
  assert (contenders i (md_Model m) 0 = []) as Hnone.
  { unfold contenders, counts. apply String.eqb_neq in Hn. rewrite Hn. simpl.
    generalize (supplied i 0) as l. clear. induction l as [|p l IH]; simpl; [done|].
    by rewrite andb_false_r. }
  rewrite He, Hr, Hnone. simpl. by destruct (refused i 0).
Qed.

(** Normalization refuses exactly the inputs that are not well formed, and
    what it settles passes the check that a stored record must pass: statuses
    match their values, reasons and candidates, candidates are valid, allowed
    and in priority order, and no rejected text is kept.  It conveys evidence
    exactly when a coordinate or a member was supplied. *)
Theorem Normalize_valid i :
  is_ok (Normalize i) = structural i /\
  forall m, Normalize i = Ok m ->
    ValidateMetadata m = true /\
    HasEvidence m = existsb (fun c => negb (is_empty c)) (coordinates (ei_Scope i))
                    || existsb (fun d => existsb rw_Present (members d)) (declarations i).
Proof.
  pose proof (Normalize_spec i) as Hspec. split.
  { destruct (structural i); [by rewrite Hspec|]. by destruct Hspec as [e ->]. }
  intros m H. destruct (Normalize_kept _ _ H) as (Hs & Hk & Hsc). split.
  - unfold ValidateMetadata. rewrite Hk, Hsc. unfold structural in Hs. rewrite !andb_true_iff in Hs.
    destruct Hs as [[[[-> ->] _] _] _].
    pose proof (fun dim => Normalize_attribution_valid i m dim H) as Hv.
    rewrite !andb_true_l, !andb_true_iff. split_and!; [apply (Hv 0)|apply (Hv 1)|apply (Hv 2)
      |apply (Hv 3)|apply (Hv 4)|by apply Normalize_paired with i]; lia.
  - unfold HasEvidence. rewrite Hsc. f_equal.
    assert (forall dim, dim < 5 -> conveys (nth dim (attributions m) (md_Model m))
      = existsb rw_Present (raws_of i dim)) as Hc.
    { intros dim Hd. destruct (Normalize_attribution _ _ _ H Hd) as [_ ->].
      by rewrite normalizeField_conveys, entries_present. }
    pose proof (Hc 0) as H0. pose proof (Hc 1) as H1. pose proof (Hc 2) as H2.
    pose proof (Hc 3) as H3. pose proof (Hc 4) as H4. cbn [nth attributions] in *.
    change (existsb conveys (attributions m)
      = existsb (fun d => existsb rw_Present (members d)) (declarations i)).
    cbn [existsb attributions]. rewrite H0, H1, H2, H3, H4 by lia.
    cbn [raws_of declarations fmap list_fmap nth members existsb].
    apply eq_true_iff_eq. rewrite !orb_true_iff. tauto.
Qed.

Definition host_entry : Declaration :=
  mk_Declaration (mk_Raw true HostProvider "anthropic") (mk_Raw true HostModelID "opus")
    absent absent absent.
(** A hook of OpenCode whose environment claims another model. *)
Definition contested : Inputs :=
  mk_Inputs Primary (mk_Scope "agent-1" EmptyString EmptyString) host_entry
    (Invocation_Declaration (mk_Invocation (Some "local") (Some "sonnet") (Some "worker")))
    no_declaration.
(** A registry entry that agrees with the host, and a padded role. *)
Definition agreed : Inputs :=
  mk_Inputs Primary (mk_Scope EmptyString EmptyString EmptyString) host_entry
    (Invocation_Declaration (mk_Invocation (Some "other") None (Some " worker")))
    (mk_Declaration absent (mk_Raw true RegistryModel "opus") absent absent absent).

Lemma Normalize_valid_witness :
  exists m, Normalize contested = Ok m /\ ValidateMetadata m = true /\ HasEvidence m = true /\
    av_Status (md_Model m) = Conflict /\ av_Status (md_Provider m) = Unavailable.
Proof.
  destruct (Normalize_valid contested) as [_ H].
  destruct (Normalize contested) as [m|e] eqn:Hm; [|vm_compute in Hm; discriminate].
  destruct (H m eq_refl) as [Hv He]. exists m. split; [reflexivity|]. split; [exact Hv|].
  split; [rewrite He; vm_compute; reflexivity|].
  revert Hm. clear. intros Hm. vm_compute in Hm. injection Hm as <-. split; reflexivity.
Defined.

Definition one_value (l : list (Source * Raw)) : Prop :=
  forall p q, p ∈ l -> q ∈ l -> rw_Value p.2 = rw_Value q.2.
Definition as_entry (c : Candidate) : Source * Raw := (cd_Source c, mk_Raw true (cd_Field c) (cd_Value c)).

(** The present entries are determined by their candidates. *)
Lemma as_entry_candidates i m dim (l : list (Source * Raw)) :
  (forall p, p ∈ l -> rw_Present p.2 = true /\ good dim p = true) ->
  as_entry <$> (ob_candidate <$> (entry_obs i m dim <$> l)) = l.
Proof.
  induction l as [|p l IH]; intros H; [done|]. csimpl.
  destruct (H p) as [Hp Hg]; [left|]. rewrite entry_candidate by done. f_equal.
  - destruct p as [s [pr me va]]. simpl in *. by subst pr.
  - apply IH. intros q Hq. apply H. by right.
Qed.

Lemma one_value_spec i m dim :
  disagreement (entry_obs i m dim <$> contenders i m dim) = false <-> one_value (contenders i m dim).
Proof.
  split.
  - intros Hd p q Hp Hq. destruct (decide (rw_Value p.2 = rw_Value q.2)) as [E|E]; [done|].
    assert (disagreement (entry_obs i m dim <$> contenders i m dim) = true) as Ht
      by (apply contenders_disagree; by exists p, q).
    congruence.
  - intros H1. apply not_true_iff_false. intros (p & q & Hp & Hq & Hne)%contenders_disagree.
    by apply Hne, H1.
Qed.

Lemma candidates_good i m dim :
  as_entry <$> (ob_candidate <$> (entry_obs i m dim <$> List.filter (good dim) (supplied i dim)))
  = List.filter (good dim) (supplied i dim).
Proof. apply as_entry_candidates. intros p. unfold supplied. rewrite !filter_elem. tauto. Qed.

Lemma contenders_all i m dim :
  dim <> providerDimension -> contenders i m dim = List.filter (good dim) (supplied i dim).
Proof.
  intros Hn%Nat.eqb_neq. unfold contenders, counts. apply filter_ext. intros p.
  by rewrite Hn, andb_true_r.
Qed.

(** The winner is the entry it came from. *)
Lemma winner_entry i m dim w rest :
  contenders i m dim = w :: rest ->
  w = (cd_Source (ob_candidate (entry_obs i m dim w)),
       mk_Raw true (cd_Field (ob_candidate (entry_obs i m dim w))) (obs_value (entry_obs i m dim w))).
Proof.
  intros Hc. assert (w ∈ contenders i m dim) as Hw by (rewrite Hc; left).
  rewrite (contender_value _ _ _ _ Hw). unfold contenders, supplied in Hw. rewrite !filter_elem in Hw.
  destruct Hw as [[_ Hp] [Hg _]%andb_true_iff]. rewrite entry_candidate by done.
  destruct w as [s [pr me va]]. simpl in *. by subst pr.
Qed.

(** What a member settles to, for every source priority and every
    combination of supplied values: a conflict exactly when two contenders
    differ, invalid exactly when they do not but something supplied was
    refused, unavailable exactly when there is neither, and otherwise the entry
    of the first source that supplies a contender.  An unsettled member keeps
    all valid entries in priority order.  Every valid entry contends, except
    that a provider contends only beside the very model that is observed. *)
Theorem Normalize_settles i m dim :
  Normalize i = Ok m -> dim < 5 ->
  let a := nth dim (attributions m) (md_Model m) in
  let c := contenders i (md_Model m) dim in
  (av_Status a = Conflict <-> ~ one_value c) /\
  (av_Status a = Invalid <-> one_value c /\ refused i dim <> []) /\
  (av_Status a = Unavailable <-> c = [] /\ refused i dim = []) /\
  (av_Status a = Observed ->
     one_value c /\ refused i dim = [] /\
     head c = Some (av_Source a, mk_Raw true (av_Field a) (av_Value a))) /\
  (av_Status a <> Observed ->
     as_entry <$> av_Candidates a = List.filter (good dim) (supplied i dim)) /\
  (dim <> providerDimension -> c = List.filter (good dim) (supplied i dim)).
Proof.
  intros H Hd a c. subst a. destruct (Normalize_attribution _ _ _ H Hd) as [_ ->].
  destruct (row_filters i (md_Model m) dim) as (Hc & Hr & He). fold c in He.
  rewrite normalizeField_spec. cbv zeta. rewrite Hc, Hr, He.
  pose proof (one_value_spec i (md_Model m) dim) as Hone. fold c in Hone.
  pose proof (candidates_good i (md_Model m) dim) as Hcand.
  pose proof (contenders_all i (md_Model m) dim) as Hall. fold c in Hall.
  assert (c = [] -> one_value c) as Hnil by (by intros -> ?? ?%not_elem_of_nil).
  destruct (disagreement (entry_obs i (md_Model m) dim <$> c)) eqn:Hdis.
  { assert (~ one_value c) as Hn by (rewrite <- Hone; discriminate).
    cbn [with_vocabulary av_Status av_Value av_Source av_Field av_Candidates].
    split; [by split|]. split; [split; [discriminate|by intros [? _]]|].
    split; [|split; [discriminate|by split]].
    split; [discriminate|]. intros [Hempty _]. by destruct Hn; apply Hnil. }
  assert (one_value c) as H1 by (by apply Hone).
  destruct (refused i dim) as [|r rest] eqn:Href.
  2:{ cbn [fmap list_fmap with_vocabulary av_Status av_Value av_Source av_Field av_Candidates].
      split; [split; [discriminate|by intros ?]|]. split; [by split|].
      split; [|split; [discriminate|by split]]. split; [discriminate|by intros [_ ?]]. }
  destruct c as [|w cs] eqn:Hcs;
    cbn [fmap list_fmap with_vocabulary av_Status av_Value av_Source av_Field av_Candidates].
  - split; [split; [discriminate|by intros ?]|]. split; [split; [discriminate|by intros [_ ?]]|].
    split; [by split|]. split; [discriminate|by split].
  - split; [split; [discriminate|by intros ?]|]. split; [split; [discriminate|by intros [_ ?]]|].
    split; [split; [discriminate|by intros [? _]]|]. split; [|by split].
    intros _. split; [done|]. split; [done|]. simpl. f_equal. by eapply winner_entry.
Qed.

Lemma Normalize_settles_witness :
  exists m, Normalize agreed = Ok m /\
    head (contenders agreed (md_Model m) modelDimension)
    = Some (Host, mk_Raw true HostModelID "opus") /\
    contenders agreed (md_Model m) providerDimension
    = [(Host, mk_Raw true HostProvider "anthropic")] /\
    av_Status (md_ProtocolRole m) = Invalid.
Proof.
  destruct (Normalize agreed) as [m|e] eqn:Hm; [|vm_compute in Hm; discriminate].
  exists m. split; [reflexivity|].
  destruct (Normalize_settles agreed m protocolRoleDimension Hm) as (_ & Hi & _);
    [unfold protocolRoleDimension; lia|].
  assert (av_Status (md_ProtocolRole m) = Invalid) as Hinv.
  { apply Hi. revert Hm. clear. intros Hm. vm_compute in Hm. injection Hm as <-.
    split; [intros p q Hp; vm_compute in Hp; inversion Hp|vm_compute; discriminate]. }
  revert Hm Hinv. clear. intros Hm Hinv. split; [|split; [|exact Hinv]];
    vm_compute in Hm; injection Hm as <-; vm_compute; reflexivity.
Defined.

(** ** The bound of the hook *)
Definition unbounded_declaration (i : Invocation) : Declaration :=
  mk_Declaration (raw_member (iv_Provider i) EnvironmentProvider)
    (raw_member (iv_Model i) EnvironmentModel) absent absent
    (raw_member (iv_Role i) EnvironmentRole).

Lemma observe_bounded dim value member :
  observe Environment dim (raw_member (bounded (bounded value)) member)
  = observe Environment dim (raw_member value member).
Proof.
  destruct value as [v|]; [|done]. simpl. unfold observe, raw_member. simpl.
  destruct (ValidValue v) eqn:Hv; [by rewrite Hv|].
  assert (valid_in dim v = false) as Hn by (unfold valid_in; by rewrite Hv).
  change (ValidValue EmptyString) with false. cbv iota. rewrite Hn. simpl.
  by destruct (allowed _ _ _).
Qed.

(** Bounding the invocation, once in the hook and again in the daemon, keeps
    what normalization makes of it. *)
Lemma bounding_invisible kind scope host registry i :
  Normalize (mk_Inputs kind scope host
    (Invocation_Declaration (BoundedInvocation (iv_Provider i) (iv_Model i) (iv_Role i))) registry)
  = Normalize (mk_Inputs kind scope host (unbounded_declaration i) registry).
Proof.
  unfold Normalize. cbn [ei_Kind ei_Scope ei_Host ei_Environment ei_ActorRegistry].
  replace (observe_from Environment 0 (members (Invocation_Declaration (BoundedInvocation _ _ _))))
    with (observe_from Environment 0 (members (unbounded_declaration i))); [done|].
  unfold members, Invocation_Declaration, unbounded_declaration, BoundedInvocation.
  cbn [iv_Provider iv_Model iv_Role dc_Provider dc_Model dc_Variant dc_Role dc_ProtocolRole
       observe_from]. by rewrite !observe_bounded.
Qed.
