(* ===== verification/NativeProfiles.v ===== *)
(** NativeProfiles: the four pinned lifecycle profiles
    (internal/runtime/lifecycle_profiles_claude.go, _codex.go, _opencode.go) and
    the failure lookup over them (lifecycle_profiles.go).

    Each harness keeps its closed event catalogue, the builder of its rows and
    the table itself.  The runtime contracts the tables are built on are pinned
    at a version floor (profiles.go); of them only the identity and the
    constraint are used here. *)

From Stdlib Require Import NArith Lia Ascii String.
From stdpp Require Import base tactics list strings gmap.
From S2P Require Import Prelude GoStrings Registration Verdict GatePolicy HostVersion NativeRows.
Local Open Scope string_scope.
Local Open Scope list_scope.

(** ** Event catalogues *)

(** The three methods every catalogue has, over its limit and names. *)
Definition event_valid (limit e : N) : bool := ((0 <? e) && (e <? limit))%N.
Definition event_name (limit : N) (names : list string) (e : N) : string :=
  if negb (event_valid limit e) then EmptyString
  else nth (N.to_nat e - 1) names EmptyString.
Fixpoint events_upto (fuel : nat) (event limit : N) : list N :=
  match fuel with
  | O => []
  | S f => if (event <? limit)%N then event :: events_upto f (event + 1)%N limit else []
  end.
Definition events_from (limit : N) : list N := events_upto (N.to_nat limit) 1%N limit.

Definition identities (base extra : list NativeIdentityField) : list NativeIdentityField :=
  base ++ extra.

(** ** Claude Code *)
Abbreviation ClaudeLifecycleEvent := N (only parsing).
Definition ClaudeEventSessionStart : ClaudeLifecycleEvent := 1%N.
Definition ClaudeEventSetup : ClaudeLifecycleEvent := 2%N.
Definition ClaudeEventSessionEnd : ClaudeLifecycleEvent := 3%N.
Definition ClaudeEventUserPromptSubmit : ClaudeLifecycleEvent := 4%N.
Definition ClaudeEventUserPromptExpansion : ClaudeLifecycleEvent := 5%N.
Definition ClaudeEventStop : ClaudeLifecycleEvent := 6%N.
Definition ClaudeEventStopFailure : ClaudeLifecycleEvent := 7%N.
Definition ClaudeEventPreToolUse : ClaudeLifecycleEvent := 8%N.
Definition ClaudeEventPermissionRequest : ClaudeLifecycleEvent := 9%N.
Definition ClaudeEventPermissionDenied : ClaudeLifecycleEvent := 10%N.
Definition ClaudeEventPostToolUse : ClaudeLifecycleEvent := 11%N.
Definition ClaudeEventPostToolUseFailure : ClaudeLifecycleEvent := 12%N.
Definition ClaudeEventPostToolBatch : ClaudeLifecycleEvent := 13%N.
Definition ClaudeEventFileChanged : ClaudeLifecycleEvent := 14%N.
Definition ClaudeEventCwdChanged : ClaudeLifecycleEvent := 15%N.
Definition ClaudeEventConfigChange : ClaudeLifecycleEvent := 16%N.
Definition ClaudeEventInstructionsLoaded : ClaudeLifecycleEvent := 17%N.
Definition ClaudeEventWorktreeCreate : ClaudeLifecycleEvent := 18%N.
Definition ClaudeEventWorktreeRemove : ClaudeLifecycleEvent := 19%N.
Definition ClaudeEventSubagentStart : ClaudeLifecycleEvent := 20%N.
Definition ClaudeEventSubagentStop : ClaudeLifecycleEvent := 21%N.
Definition ClaudeEventTeammateIdle : ClaudeLifecycleEvent := 22%N.
Definition ClaudeEventTaskCreated : ClaudeLifecycleEvent := 23%N.
Definition ClaudeEventTaskCompleted : ClaudeLifecycleEvent := 24%N.
Definition ClaudeEventPreCompact : ClaudeLifecycleEvent := 25%N.
Definition ClaudeEventPostCompact : ClaudeLifecycleEvent := 26%N.
Definition ClaudeEventNotification : ClaudeLifecycleEvent := 27%N.
Definition ClaudeEventMessageDisplay : ClaudeLifecycleEvent := 28%N.
Definition ClaudeEventElicitation : ClaudeLifecycleEvent := 29%N.
Definition ClaudeEventElicitationResult : ClaudeLifecycleEvent := 30%N.
Definition ClaudeEventPreModelSwitch : ClaudeLifecycleEvent := 31%N.
Definition ClaudeEventPostModelSwitch : ClaudeLifecycleEvent := 32%N.
Definition ClaudeEventDirectoryAdded : ClaudeLifecycleEvent := 33%N.
Definition claudeLifecycleEventLimit : ClaudeLifecycleEvent := 34%N.
Definition claudeLifecycleEventNames : list string :=
  ["SessionStart"; "Setup"; "SessionEnd"; "UserPromptSubmit"; "UserPromptExpansion"; "Stop";
   "StopFailure"; "PreToolUse"; "PermissionRequest"; "PermissionDenied"; "PostToolUse";
   "PostToolUseFailure"; "PostToolBatch"; "FileChanged"; "CwdChanged"; "ConfigChange";
   "InstructionsLoaded"; "WorktreeCreate"; "WorktreeRemove"; "SubagentStart"; "SubagentStop";
   "TeammateIdle"; "TaskCreated"; "TaskCompleted"; "PreCompact"; "PostCompact"; "Notification";
   "MessageDisplay"; "Elicitation"; "ElicitationResult"; "PreModelSwitch"; "PostModelSwitch";
   "DirectoryAdded"].
Definition ClaudeLifecycleEvent_IsValid (e : ClaudeLifecycleEvent) : bool := event_valid claudeLifecycleEventLimit e.
Definition ClaudeLifecycleEvent_NativeName (e : ClaudeLifecycleEvent) : string := event_name claudeLifecycleEventLimit claudeLifecycleEventNames e.
Definition ClaudeLifecycleEvents : list ClaudeLifecycleEvent := events_from claudeLifecycleEventLimit.

Definition claudeSessionIdentity := nativeIdentity IdentitySession "session_id" true.
Definition claudeRequestIdentity := nativeIdentity IdentityRequest "request_id" true.
Definition claudeToolCallIdentity := nativeIdentity IdentityToolCall "tool_use_id" true.
Definition claudeAgentIdentity := nativeIdentity IdentityAgent "agent_id" true.

Definition claudeHooksReference : string := "https://docs.claude.com/en/docs/claude-code/hooks".
Definition claudeInstalledBinaryHookTable2_1_261 : string :=
  ("claude-code 2.1.261 installed binary hook-event table (~/.local/share/claude/versions/2.1.261): PreModelSwitch "
   ++ quoted "Exit code 2 - block the switch and show stderr to user")%string.

Definition claudeLifecycleMapping (event : ClaudeLifecycleEvent) (semantic : EventSemantic)
    (blocking : BlockingMode) (mutation : MutationMode) (stopLoop : StopLoopPolicy)
    (evidence : FailureEvidence) (extra : list NativeIdentityField) : LifecycleEventMapping :=
  {| lm_nativeName := ClaudeLifecycleEvent_NativeName event;
     lm_semantic := semantic;
     lm_surface := SurfaceClaudeCommandJSON;
     lm_blocking := blocking;
     lm_identities := identities [claudeSessionIdentity] extra;
     lm_unresolved := [];
     lm_mutation := mutation;
     lm_order := OrderConcurrentNative;
     lm_reconciliation :=
       if negb (semantic =? SemanticObservation)%N then ReconcileHostNative else ReconcileNone;
     lm_failure :=
       evidenceBoundFailure blocking evidence FailureExitTwoBlocks FailureReportAndContinue;
     lm_declaredFailure :=
       declaredFailureArm blocking FailureExitTwoBlocks FailureReportAndContinue;
     lm_evidence := evidence;
     lm_stopLoop := stopLoop;
     lm_preAction := (semantic =? SemanticGateConsultation)%N
                     && negb (event =? ClaudeEventPostToolBatch)%N;
     lm_askEvidence := unevidenced;
     lm_response := CapabilityUnset |}.

Definition claudeRows : list (ClaudeLifecycleEvent * LifecycleEventMapping) :=
  let documented := mk_Evidence claudeHooksReference in
  let observe event extra :=
    claudeLifecycleMapping event SemanticObservation NonBlocking MutationNone
      StopLoopNotApplicable unevidenced extra in
  let gate event mutation extra :=
    claudeLifecycleMapping event SemanticGateConsultation Blocking mutation
      StopLoopNotApplicable unevidenced extra in
  let evidencedGate event mutation extra :=
    claudeLifecycleMapping event SemanticGateConsultation Blocking mutation
      StopLoopNotApplicable documented extra in
  let binaryEvidencedGate event mutation extra :=
    claudeLifecycleMapping event SemanticGateConsultation Blocking mutation
      StopLoopNotApplicable (mk_Evidence claudeInstalledBinaryHookTable2_1_261) extra in
  [(ClaudeEventSessionStart, observe ClaudeEventSessionStart []);
   (ClaudeEventSetup, observe ClaudeEventSetup []);
   (ClaudeEventSessionEnd, observe ClaudeEventSessionEnd []);
   (ClaudeEventUserPromptSubmit, evidencedGate ClaudeEventUserPromptSubmit MutationNone []);
   (ClaudeEventUserPromptExpansion, gate ClaudeEventUserPromptExpansion MutationNone []);
   (ClaudeEventStop, claudeLifecycleMapping ClaudeEventStop SemanticGateConsultation Blocking
      MutationNone StopLoopConsultWhenInactive documented []);
   (ClaudeEventStopFailure, observe ClaudeEventStopFailure []);
   (ClaudeEventPreToolUse, evidencedGate ClaudeEventPreToolUse MutationInput
      [claudeToolCallIdentity]);
   (ClaudeEventPermissionRequest, gate ClaudeEventPermissionRequest MutationNone
      [claudeRequestIdentity]);
   (ClaudeEventPermissionDenied, observe ClaudeEventPermissionDenied []);
   (ClaudeEventPostToolUse, observe ClaudeEventPostToolUse [claudeToolCallIdentity]);
   (ClaudeEventPostToolUseFailure, observe ClaudeEventPostToolUseFailure [claudeToolCallIdentity]);
   (ClaudeEventPostToolBatch, gate ClaudeEventPostToolBatch MutationNone []);
   (ClaudeEventFileChanged, observe ClaudeEventFileChanged []);
   (ClaudeEventCwdChanged, observe ClaudeEventCwdChanged []);
   (ClaudeEventConfigChange, claudeLifecycleMapping ClaudeEventConfigChange
      SemanticGateConsultation ConditionallyBlocking MutationNone StopLoopNotApplicable
      unevidenced []);
   (ClaudeEventInstructionsLoaded, observe ClaudeEventInstructionsLoaded []);
   (ClaudeEventWorktreeCreate, gate ClaudeEventWorktreeCreate MutationNone []);
   (ClaudeEventWorktreeRemove, observe ClaudeEventWorktreeRemove []);
   (ClaudeEventSubagentStart, observe ClaudeEventSubagentStart [claudeAgentIdentity]);
   (ClaudeEventSubagentStop, claudeLifecycleMapping ClaudeEventSubagentStop
      SemanticGateConsultation Blocking MutationNone StopLoopConsultWhenInactive documented
      [claudeAgentIdentity]);
   (ClaudeEventTeammateIdle, gate ClaudeEventTeammateIdle MutationNone []);
   (ClaudeEventTaskCreated, gate ClaudeEventTaskCreated MutationNone []);
   (ClaudeEventTaskCompleted, gate ClaudeEventTaskCompleted MutationNone []);
   (ClaudeEventPreCompact, gate ClaudeEventPreCompact MutationNone []);
   (ClaudeEventPostCompact, observe ClaudeEventPostCompact []);
   (ClaudeEventNotification, observe ClaudeEventNotification []);
   (ClaudeEventMessageDisplay, observe ClaudeEventMessageDisplay []);
   (ClaudeEventElicitation, gate ClaudeEventElicitation MutationNone [claudeRequestIdentity]);
   (ClaudeEventElicitationResult, claudeLifecycleMapping ClaudeEventElicitationResult
      SemanticExplicitHumanResponse Blocking MutationNone StopLoopNotApplicable unevidenced
      [claudeRequestIdentity]);
   (ClaudeEventPreModelSwitch, binaryEvidencedGate ClaudeEventPreModelSwitch MutationNone []);
   (ClaudeEventPostModelSwitch, observe ClaudeEventPostModelSwitch []);
   (ClaudeEventDirectoryAdded, observe ClaudeEventDirectoryAdded [])].

Definition set_unresolved (m : LifecycleEventMapping) (unresolved : list NativeIdentityKind)
    : LifecycleEventMapping :=
  mk_Mapping (lm_nativeName m) (lm_semantic m) (lm_surface m) (lm_blocking m) (lm_identities m)
    unresolved (lm_mutation m) (lm_order m) (lm_reconciliation m) (lm_failure m)
    (lm_declaredFailure m) (lm_evidence m) (lm_stopLoop m) (lm_preAction m) (lm_askEvidence m)
    (lm_response m).
Definition claudeLifecycleMappings : gmap ClaudeLifecycleEvent LifecycleEventMapping :=
  let mappings : gmap N LifecycleEventMapping := list_to_map claudeRows in
  <[ClaudeEventPostToolBatch :=
      set_unresolved (default zero_Mapping (mappings !! ClaudeEventPostToolBatch))
        [IdentityToolCall]]> mappings.

(** ** Codex *)
Abbreviation CodexLifecycleEvent := N (only parsing).
Definition CodexEventSessionStart : CodexLifecycleEvent := 1%N.
Definition CodexEventUserPromptSubmit : CodexLifecycleEvent := 2%N.
Definition CodexEventPreToolUse : CodexLifecycleEvent := 3%N.
Definition CodexEventPermissionRequest : CodexLifecycleEvent := 4%N.
Definition CodexEventPostToolUse : CodexLifecycleEvent := 5%N.
Definition CodexEventPreCompact : CodexLifecycleEvent := 6%N.
Definition CodexEventPostCompact : CodexLifecycleEvent := 7%N.
Definition CodexEventSubagentStart : CodexLifecycleEvent := 8%N.
Definition CodexEventSubagentStop : CodexLifecycleEvent := 9%N.
Definition CodexEventStop : CodexLifecycleEvent := 10%N.
Definition CodexEventSessionEnd : CodexLifecycleEvent := 11%N.
Definition CodexEventInterrupt : CodexLifecycleEvent := 12%N.
Definition codexLifecycleEventLimit : CodexLifecycleEvent := 13%N.
Definition codexLifecycleEventNames : list string :=
  ["SessionStart"; "UserPromptSubmit"; "PreToolUse"; "PermissionRequest"; "PostToolUse";
   "PreCompact"; "PostCompact"; "SubagentStart"; "SubagentStop"; "Stop"; "SessionEnd";
   "Interrupt"].
Definition CodexLifecycleEvent_IsValid (e : CodexLifecycleEvent) : bool := event_valid codexLifecycleEventLimit e.
Definition CodexLifecycleEvent_NativeName (e : CodexLifecycleEvent) : string := event_name codexLifecycleEventLimit codexLifecycleEventNames e.
Definition CodexLifecycleEvents : list CodexLifecycleEvent := events_from codexLifecycleEventLimit.

Definition codexSessionIdentity := nativeIdentity IdentitySession "session_id" true.
Definition codexTurnIdentity := nativeIdentity IdentityTurn "turn_id" true.
Definition codexToolCallIdentity := nativeIdentity IdentityToolCall "tool_use_id" true.
Definition codexAgentIdentity := nativeIdentity IdentityAgent "agent_id" true.

Definition codexLifecycleMapping (event : CodexLifecycleEvent) (semantic : EventSemantic)
    (blocking : BlockingMode) (mutation : MutationMode) (stopLoop : StopLoopPolicy)
    (turnScoped : bool) (evidence : FailureEvidence) (extra : list NativeIdentityField)
    : LifecycleEventMapping :=
  {| lm_nativeName := CodexLifecycleEvent_NativeName event;
     lm_semantic := semantic;
     lm_surface := SurfaceCodexStrictCommandJSON;
     lm_blocking := blocking;
     lm_identities :=
       identities (if turnScoped then [codexSessionIdentity] ++ [codexTurnIdentity]
                   else [codexSessionIdentity]) extra;
     lm_unresolved := [];
     lm_mutation := mutation;
     lm_order := OrderConcurrentNative;
     lm_reconciliation := ReconcileNoAdapterMerge;
     lm_failure :=
       evidenceBoundFailure blocking evidence FailureStrictExitTwoBlocks FailureStrictHook;
     lm_declaredFailure :=
       declaredFailureArm blocking FailureStrictExitTwoBlocks FailureStrictHook;
     lm_evidence := evidence;
     lm_stopLoop := stopLoop;
     lm_preAction := (semantic =? SemanticGateConsultation)%N
                     && negb (event =? CodexEventPostToolUse)%N
                     && negb (event =? CodexEventPostCompact)%N;
     lm_askEvidence := unevidenced;
     lm_response := CapabilityUnset |}.

Definition codexRows : list (CodexLifecycleEvent * LifecycleEventMapping) :=
  let gate event mutation extra :=
    codexLifecycleMapping event SemanticGateConsultation Blocking mutation
      StopLoopNotApplicable true unevidenced extra in
  [(CodexEventSessionStart, codexLifecycleMapping CodexEventSessionStart SemanticObservation
      NonBlocking MutationNone StopLoopNotApplicable false unevidenced []);
   (CodexEventUserPromptSubmit, gate CodexEventUserPromptSubmit MutationNone []);
   (CodexEventPreToolUse, gate CodexEventPreToolUse MutationInput [codexToolCallIdentity]);
   (CodexEventPermissionRequest, gate CodexEventPermissionRequest MutationNone []);
   (CodexEventPostToolUse, gate CodexEventPostToolUse MutationOutput [codexToolCallIdentity]);
   (CodexEventPreCompact, gate CodexEventPreCompact MutationNone []);
   (CodexEventPostCompact, gate CodexEventPostCompact MutationNone []);
   (CodexEventSubagentStart, codexLifecycleMapping CodexEventSubagentStart SemanticObservation
      NonBlocking MutationNone StopLoopNotApplicable true unevidenced [codexAgentIdentity]);
   (CodexEventSubagentStop, codexLifecycleMapping CodexEventSubagentStop SemanticGateConsultation
      Blocking MutationNone StopLoopConsultWhenInactive true unevidenced [codexAgentIdentity]);
   (CodexEventStop, codexLifecycleMapping CodexEventStop SemanticGateConsultation Blocking
      MutationNone StopLoopConsultWhenInactive true unevidenced []);
   (CodexEventSessionEnd, codexLifecycleMapping CodexEventSessionEnd SemanticObservation
      NonBlocking MutationNone StopLoopNotApplicable false unevidenced []);
   (CodexEventInterrupt, codexLifecycleMapping CodexEventInterrupt SemanticObservation
      NonBlocking MutationNone StopLoopNotApplicable true unevidenced [])].
Definition codexLifecycleMappings : gmap CodexLifecycleEvent LifecycleEventMapping :=
  list_to_map codexRows.

(** ** OpenCode 1.18.29 *)
Abbreviation OpenCodeLifecycleEvent := N (only parsing).
Definition OpenCodeEventCommandExecuted : OpenCodeLifecycleEvent := 1%N.
Definition OpenCodeEventFileEdited : OpenCodeLifecycleEvent := 2%N.
Definition OpenCodeEventFileWatcherUpdated : OpenCodeLifecycleEvent := 3%N.
Definition OpenCodeEventInstallationUpdated : OpenCodeLifecycleEvent := 4%N.
Definition OpenCodeEventInstallationUpdateAvailable : OpenCodeLifecycleEvent := 5%N.
Definition OpenCodeEventLSPClientDiagnostics : OpenCodeLifecycleEvent := 6%N.
Definition OpenCodeEventLSPUpdated : OpenCodeLifecycleEvent := 7%N.
Definition OpenCodeEventMessageUpdated : OpenCodeLifecycleEvent := 8%N.
Definition OpenCodeEventMessageRemoved : OpenCodeLifecycleEvent := 9%N.
Definition OpenCodeEventMessagePartUpdated : OpenCodeLifecycleEvent := 10%N.
Definition OpenCodeEventMessagePartRemoved : OpenCodeLifecycleEvent := 11%N.
Definition OpenCodeEventPermissionUpdated : OpenCodeLifecycleEvent := 12%N.
Definition OpenCodeEventPermissionReplied : OpenCodeLifecycleEvent := 13%N.
Definition OpenCodeEventServerConnected : OpenCodeLifecycleEvent := 14%N.
Definition OpenCodeEventServerInstanceDisposed : OpenCodeLifecycleEvent := 15%N.
Definition OpenCodeEventSessionCreated : OpenCodeLifecycleEvent := 16%N.
Definition OpenCodeEventSessionUpdated : OpenCodeLifecycleEvent := 17%N.
Definition OpenCodeEventSessionDeleted : OpenCodeLifecycleEvent := 18%N.
Definition OpenCodeEventSessionCompacted : OpenCodeLifecycleEvent := 19%N.
Definition OpenCodeEventSessionDiff : OpenCodeLifecycleEvent := 20%N.
Definition OpenCodeEventSessionError : OpenCodeLifecycleEvent := 21%N.
Definition OpenCodeEventSessionIdle : OpenCodeLifecycleEvent := 22%N.
Definition OpenCodeEventSessionStatus : OpenCodeLifecycleEvent := 23%N.
Definition OpenCodeEventTodoUpdated : OpenCodeLifecycleEvent := 24%N.
Definition OpenCodeEventTUIPromptAppend : OpenCodeLifecycleEvent := 25%N.
Definition OpenCodeEventTUICommandExecute : OpenCodeLifecycleEvent := 26%N.
Definition OpenCodeEventTUIToastShow : OpenCodeLifecycleEvent := 27%N.
Definition OpenCodeEventPTYCreated : OpenCodeLifecycleEvent := 28%N.
Definition OpenCodeEventPTYUpdated : OpenCodeLifecycleEvent := 29%N.
Definition OpenCodeEventPTYExited : OpenCodeLifecycleEvent := 30%N.
Definition OpenCodeEventPTYDeleted : OpenCodeLifecycleEvent := 31%N.
Definition OpenCodeEventVCSBranchUpdated : OpenCodeLifecycleEvent := 32%N.
Definition OpenCodeEventChatMessage : OpenCodeLifecycleEvent := 33%N.
Definition OpenCodeEventChatParams : OpenCodeLifecycleEvent := 34%N.
Definition OpenCodeEventChatHeaders : OpenCodeLifecycleEvent := 35%N.
Definition OpenCodeEventPermissionAsk : OpenCodeLifecycleEvent := 36%N.
Definition OpenCodeEventCommandExecuteBefore : OpenCodeLifecycleEvent := 37%N.
Definition OpenCodeEventToolExecuteBefore : OpenCodeLifecycleEvent := 38%N.
Definition OpenCodeEventShellEnv : OpenCodeLifecycleEvent := 39%N.
Definition OpenCodeEventToolExecuteAfter : OpenCodeLifecycleEvent := 40%N.
Definition OpenCodeEventExperimentalChatMessagesTransform : OpenCodeLifecycleEvent := 41%N.
Definition OpenCodeEventExperimentalChatSystemTransform : OpenCodeLifecycleEvent := 42%N.
Definition OpenCodeEventExperimentalProviderSmallModel : OpenCodeLifecycleEvent := 43%N.
Definition OpenCodeEventExperimentalSessionCompacting : OpenCodeLifecycleEvent := 44%N.
Definition OpenCodeEventExperimentalCompactionAutocontinue : OpenCodeLifecycleEvent := 45%N.
Definition OpenCodeEventExperimentalTextComplete : OpenCodeLifecycleEvent := 46%N.
Definition OpenCodeEventToolDefinition : OpenCodeLifecycleEvent := 47%N.
Definition openCodeLifecycleEventLimit : OpenCodeLifecycleEvent := 48%N.
Definition openCodeLifecycleEventNames : list string :=
  ["command.executed"; "file.edited"; "file.watcher.updated"; "installation.updated";
   "installation.update-available"; "lsp.client.diagnostics"; "lsp.updated"; "message.updated";
   "message.removed"; "message.part.updated"; "message.part.removed"; "permission.updated";
   "permission.replied"; "server.connected"; "server.instance.disposed"; "session.created";
   "session.updated"; "session.deleted"; "session.compacted"; "session.diff"; "session.error";
   "session.idle"; "session.status"; "todo.updated"; "tui.prompt.append"; "tui.command.execute";
   "tui.toast.show"; "pty.created"; "pty.updated"; "pty.exited"; "pty.deleted";
   "vcs.branch.updated"; "chat.message"; "chat.params"; "chat.headers"; "permission.ask";
   "command.execute.before"; "tool.execute.before"; "shell.env"; "tool.execute.after";
   "experimental.chat.messages.transform"; "experimental.chat.system.transform";
   "experimental.provider.small_model"; "experimental.session.compacting";
   "experimental.compaction.autocontinue"; "experimental.text.complete"; "tool.definition"].
Definition OpenCodeLifecycleEvent_IsValid (e : OpenCodeLifecycleEvent) : bool := event_valid openCodeLifecycleEventLimit e.
Definition OpenCodeLifecycleEvent_NativeName (e : OpenCodeLifecycleEvent) : string := event_name openCodeLifecycleEventLimit openCodeLifecycleEventNames e.
Definition OpenCodeLifecycleEvents : list OpenCodeLifecycleEvent := events_from openCodeLifecycleEventLimit.

Definition openCodeSessionIdentity := nativeIdentity IdentitySession "sessionID" true.
Definition openCodeOptionalSessionIdentity := nativeIdentity IdentitySession "sessionID" false.
Definition openCodeCallIdentity := nativeIdentity IdentityToolCall "callID" true.
Definition openCodeOptionalCallIdentity := nativeIdentity IdentityToolCall "callID" false.
Definition openCodeMessageIdentity := nativeIdentity IdentityMessage "messageID" false.

Definition openCodeNamedMapping (event : OpenCodeLifecycleEvent)
    (eventIdentities : list NativeIdentityField) : LifecycleEventMapping :=
  {| lm_nativeName := OpenCodeLifecycleEvent_NativeName event;
     lm_semantic := SemanticGateConsultation;
     lm_surface := SurfaceOpenCodeNamedOutput;
     lm_blocking := Blocking;
     lm_identities := eventIdentities;
     lm_unresolved := [];
     lm_mutation := MutationOutputObject;
     lm_order := OrderSequentialLoad;
     lm_reconciliation := ReconcileSequentialMutation;
     lm_failure := FailureThrowFailFast;
     lm_declaredFailure := FailureThrowFailFast;
     lm_evidence := unevidenced;
     lm_stopLoop := StopLoopNotApplicable;
     lm_preAction := negb (event =? OpenCodeEventToolExecuteAfter)%N;
     lm_askEvidence := unevidenced;
     lm_response := CapabilityUnset |}.

Definition openCodeObservationMapping (event : OpenCodeLifecycleEvent)
    (eventIdentities : list NativeIdentityField) : LifecycleEventMapping :=
  {| lm_nativeName := OpenCodeLifecycleEvent_NativeName event;
     lm_semantic := SemanticObservation;
     lm_surface := SurfaceOpenCodeCatchAllSSE;
     lm_blocking := NonBlocking;
     lm_identities := eventIdentities;
     lm_unresolved := [];
     lm_mutation := MutationNone;
     lm_order := OrderObservationStream;
     lm_reconciliation := ReconcileNone;
     lm_failure := FailureObserveOnly;
     lm_declaredFailure := FailureObserveOnly;
     lm_evidence := unevidenced;
     lm_stopLoop := StopLoopNotApplicable;
     lm_preAction := false;
     lm_askEvidence := unevidenced;
     lm_response := CapabilityUnset |}.

Definition openCodeRows : list (OpenCodeLifecycleEvent * LifecycleEventMapping) :=
  let observe := openCodeObservationMapping in
  let named := openCodeNamedMapping in
  [(OpenCodeEventCommandExecuted, observe OpenCodeEventCommandExecuted [openCodeSessionIdentity]);
   (OpenCodeEventFileEdited, observe OpenCodeEventFileEdited []);
   (OpenCodeEventFileWatcherUpdated, observe OpenCodeEventFileWatcherUpdated []);
   (OpenCodeEventInstallationUpdated, observe OpenCodeEventInstallationUpdated []);
   (OpenCodeEventInstallationUpdateAvailable, observe OpenCodeEventInstallationUpdateAvailable []);
   (OpenCodeEventLSPClientDiagnostics, observe OpenCodeEventLSPClientDiagnostics []);
   (OpenCodeEventLSPUpdated, observe OpenCodeEventLSPUpdated []);
   (OpenCodeEventMessageUpdated, observe OpenCodeEventMessageUpdated []);
   (OpenCodeEventMessageRemoved, observe OpenCodeEventMessageRemoved []);
   (OpenCodeEventMessagePartUpdated, observe OpenCodeEventMessagePartUpdated []);
   (OpenCodeEventMessagePartRemoved, observe OpenCodeEventMessagePartRemoved []);
   (OpenCodeEventPermissionUpdated, observe OpenCodeEventPermissionUpdated []);
   (OpenCodeEventPermissionReplied, observe OpenCodeEventPermissionReplied []);
   (OpenCodeEventServerConnected, observe OpenCodeEventServerConnected []);
   (OpenCodeEventServerInstanceDisposed, observe OpenCodeEventServerInstanceDisposed []);
   (OpenCodeEventSessionCreated, observe OpenCodeEventSessionCreated [openCodeSessionIdentity]);
   (OpenCodeEventSessionUpdated, observe OpenCodeEventSessionUpdated []);
   (OpenCodeEventSessionDeleted, observe OpenCodeEventSessionDeleted []);
   (OpenCodeEventSessionCompacted, observe OpenCodeEventSessionCompacted []);
   (OpenCodeEventSessionDiff, observe OpenCodeEventSessionDiff []);
   (OpenCodeEventSessionError, observe OpenCodeEventSessionError []);
   (OpenCodeEventSessionIdle, observe OpenCodeEventSessionIdle []);
   (OpenCodeEventSessionStatus, observe OpenCodeEventSessionStatus []);
   (OpenCodeEventTodoUpdated, observe OpenCodeEventTodoUpdated []);
   (OpenCodeEventTUIPromptAppend, observe OpenCodeEventTUIPromptAppend []);
   (OpenCodeEventTUICommandExecute, observe OpenCodeEventTUICommandExecute []);
   (OpenCodeEventTUIToastShow, observe OpenCodeEventTUIToastShow []);
   (OpenCodeEventPTYCreated, observe OpenCodeEventPTYCreated []);
   (OpenCodeEventPTYUpdated, observe OpenCodeEventPTYUpdated []);
   (OpenCodeEventPTYExited, observe OpenCodeEventPTYExited []);
   (OpenCodeEventPTYDeleted, observe OpenCodeEventPTYDeleted []);
   (OpenCodeEventVCSBranchUpdated, observe OpenCodeEventVCSBranchUpdated []);
   (OpenCodeEventChatMessage, named OpenCodeEventChatMessage [openCodeSessionIdentity;
      openCodeMessageIdentity]);
   (OpenCodeEventChatParams, named OpenCodeEventChatParams [openCodeSessionIdentity]);
   (OpenCodeEventChatHeaders, named OpenCodeEventChatHeaders [openCodeSessionIdentity]);
   (OpenCodeEventPermissionAsk, named OpenCodeEventPermissionAsk []);
   (OpenCodeEventCommandExecuteBefore, named OpenCodeEventCommandExecuteBefore
      [openCodeSessionIdentity]);
   (OpenCodeEventToolExecuteBefore, named OpenCodeEventToolExecuteBefore
      [openCodeSessionIdentity; openCodeCallIdentity]);
   (OpenCodeEventShellEnv, named OpenCodeEventShellEnv [openCodeOptionalSessionIdentity;
      openCodeOptionalCallIdentity]);
   (OpenCodeEventToolExecuteAfter, named OpenCodeEventToolExecuteAfter [openCodeSessionIdentity;
      openCodeCallIdentity]);
   (OpenCodeEventExperimentalChatMessagesTransform, named
      OpenCodeEventExperimentalChatMessagesTransform []);
   (OpenCodeEventExperimentalChatSystemTransform, named
      OpenCodeEventExperimentalChatSystemTransform [openCodeOptionalSessionIdentity]);
   (OpenCodeEventExperimentalProviderSmallModel, named
      OpenCodeEventExperimentalProviderSmallModel []);
   (OpenCodeEventExperimentalSessionCompacting, named OpenCodeEventExperimentalSessionCompacting
      [openCodeSessionIdentity]);
   (OpenCodeEventExperimentalCompactionAutocontinue, named
      OpenCodeEventExperimentalCompactionAutocontinue [openCodeSessionIdentity]);
   (OpenCodeEventExperimentalTextComplete, named OpenCodeEventExperimentalTextComplete
      [openCodeSessionIdentity; openCodeMessageIdentity]);
   (OpenCodeEventToolDefinition, named OpenCodeEventToolDefinition [])].
Definition openCodeLifecycleMappings : gmap OpenCodeLifecycleEvent LifecycleEventMapping :=
  list_to_map openCodeRows.

(** ** OpenCode 2.0.20 *)
Abbreviation OpenCode2LifecycleEvent := N (only parsing).
Definition OpenCode2EventSessionCreated : OpenCode2LifecycleEvent := 1%N.
Definition OpenCode2EventSessionPrompt : OpenCode2LifecycleEvent := 2%N.
Definition OpenCode2EventSessionContext : OpenCode2LifecycleEvent := 3%N.
Definition OpenCode2EventSessionCompaction : OpenCode2LifecycleEvent := 4%N.
Definition OpenCode2EventSessionGenerate : OpenCode2LifecycleEvent := 5%N.
Definition OpenCode2EventSessionTitle : OpenCode2LifecycleEvent := 6%N.
Definition OpenCode2EventSessionModelRequest : OpenCode2LifecycleEvent := 7%N.
Definition OpenCode2EventSessionHTTPRequest : OpenCode2LifecycleEvent := 8%N.
Definition OpenCode2EventSessionHTTPResponse : OpenCode2LifecycleEvent := 9%N.
Definition OpenCode2EventSessionExperimentalWSHandshake : OpenCode2LifecycleEvent := 10%N.
Definition OpenCode2EventSessionExperimentalWSSend : OpenCode2LifecycleEvent := 11%N.
Definition OpenCode2EventSessionExperimentalWSReceive : OpenCode2LifecycleEvent := 12%N.
Definition OpenCode2EventSessionRetry : OpenCode2LifecycleEvent := 13%N.
Definition OpenCode2EventToolExecuteBefore : OpenCode2LifecycleEvent := 14%N.
Definition OpenCode2EventToolExecuteAfter : OpenCode2LifecycleEvent := 15%N.
Definition OpenCode2EventPermissionEvaluate : OpenCode2LifecycleEvent := 16%N.
Definition OpenCode2EventShellCreateBefore : OpenCode2LifecycleEvent := 17%N.
Definition openCode2LifecycleEventLimit : OpenCode2LifecycleEvent := 18%N.
Definition openCode2LifecycleEventNames : list string :=
  ["session.created"; "session.prompt"; "session.context"; "session.compaction";
   "session.generate"; "session.title"; "session.model.request"; "session.http.request";
   "session.http.response"; "session.experimental.ws.handshake"; "session.experimental.ws.send";
   "session.experimental.ws.receive"; "session.retry"; "tool.execute.before";
   "tool.execute.after"; "permission.evaluate"; "shell.create.before"].
Definition OpenCode2LifecycleEvent_IsValid (e : OpenCode2LifecycleEvent) : bool := event_valid openCode2LifecycleEventLimit e.
Definition OpenCode2LifecycleEvent_NativeName (e : OpenCode2LifecycleEvent) : string := event_name openCode2LifecycleEventLimit openCode2LifecycleEventNames e.
Definition OpenCode2LifecycleEvents : list OpenCode2LifecycleEvent := events_from openCode2LifecycleEventLimit.

Definition openCode2SessionIdentity := nativeIdentity IdentitySession "sessionID" true.
Definition openCode2CallIdentity := nativeIdentity IdentityToolCall "id" true.
Definition openCode2PermissionEvaluateDenyCitation : FailureEvidence :=
  mk_Evidence "opencode 2.0.21 live capture internal/lifecycle/ingress/opencode/testdata/fixtures/opencode_tool_execute_after_2_0_21.3.json (clearance: internal/lifecycle/ingress/opencode/testdata/fixtures/CLEARANCE.md): the host honoured pasture's permission.evaluate deny — Permission.BlockedError with reason unknown-actor, tool not run".

Definition openCode2NamedMapping (event : OpenCode2LifecycleEvent) (evidence : FailureEvidence)
    (eventIdentities : list NativeIdentityField) : LifecycleEventMapping :=
  {| lm_nativeName := OpenCode2LifecycleEvent_NativeName event;
     lm_semantic := SemanticGateConsultation;
     lm_surface := SurfaceOpenCodeNamedOutput;
     lm_blocking := Blocking;
     lm_identities := eventIdentities;
     lm_unresolved := [];
     lm_mutation := MutationOutputObject;
     lm_order := OrderSequentialLoad;
     lm_reconciliation := ReconcileSequentialMutation;
     lm_failure := FailureThrowFailFast;
     lm_declaredFailure := FailureThrowFailFast;
     lm_evidence := evidence;
     lm_stopLoop := StopLoopNotApplicable;
     lm_preAction := negb (event =? OpenCode2EventToolExecuteAfter)%N;
     lm_askEvidence := unevidenced;
     lm_response := CapabilityUnset |}.

Definition openCode2ObservationMapping (event : OpenCode2LifecycleEvent)
    (eventIdentities : list NativeIdentityField) : LifecycleEventMapping :=
  {| lm_nativeName := OpenCode2LifecycleEvent_NativeName event;
     lm_semantic := SemanticObservation;
     lm_surface := SurfaceOpenCodeCatchAllSSE;
     lm_blocking := NonBlocking;
     lm_identities := eventIdentities;
     lm_unresolved := [];
     lm_mutation := MutationNone;
     lm_order := OrderObservationStream;
     lm_reconciliation := ReconcileNone;
     lm_failure := FailureObserveOnly;
     lm_declaredFailure := FailureObserveOnly;
     lm_evidence := unevidenced;
     lm_stopLoop := StopLoopNotApplicable;
     lm_preAction := false;
     lm_askEvidence := unevidenced;
     lm_response := CapabilityUnset |}.

Definition openCode2Rows : list (OpenCode2LifecycleEvent * LifecycleEventMapping) :=
  let named := openCode2NamedMapping in
  let observe := openCode2ObservationMapping in
  [(OpenCode2EventSessionCreated, observe OpenCode2EventSessionCreated [openCode2SessionIdentity]);
   (OpenCode2EventSessionPrompt, named OpenCode2EventSessionPrompt unevidenced
      [openCode2SessionIdentity]);
   (OpenCode2EventSessionContext, named OpenCode2EventSessionContext unevidenced
      [openCode2SessionIdentity]);
   (OpenCode2EventSessionCompaction, named OpenCode2EventSessionCompaction unevidenced
      [openCode2SessionIdentity]);
   (OpenCode2EventSessionGenerate, named OpenCode2EventSessionGenerate unevidenced
      [openCode2SessionIdentity]);
   (OpenCode2EventSessionTitle, named OpenCode2EventSessionTitle unevidenced
      [openCode2SessionIdentity]);
   (OpenCode2EventSessionModelRequest, named OpenCode2EventSessionModelRequest unevidenced
      [openCode2SessionIdentity]);
   (OpenCode2EventSessionHTTPRequest, named OpenCode2EventSessionHTTPRequest unevidenced
      [openCode2SessionIdentity]);
   (OpenCode2EventSessionHTTPResponse, named OpenCode2EventSessionHTTPResponse unevidenced
      [openCode2SessionIdentity]);
   (OpenCode2EventSessionExperimentalWSHandshake, named
      OpenCode2EventSessionExperimentalWSHandshake unevidenced [openCode2SessionIdentity]);
   (OpenCode2EventSessionExperimentalWSSend, named OpenCode2EventSessionExperimentalWSSend
      unevidenced [openCode2SessionIdentity]);
   (OpenCode2EventSessionExperimentalWSReceive, named OpenCode2EventSessionExperimentalWSReceive
      unevidenced [openCode2SessionIdentity]);
   (OpenCode2EventSessionRetry, named OpenCode2EventSessionRetry unevidenced
      [openCode2SessionIdentity]);
   (OpenCode2EventToolExecuteBefore, named OpenCode2EventToolExecuteBefore unevidenced
      [openCode2SessionIdentity; openCode2CallIdentity]);
   (OpenCode2EventToolExecuteAfter, named OpenCode2EventToolExecuteAfter unevidenced
      [openCode2SessionIdentity; openCode2CallIdentity]);
   (OpenCode2EventPermissionEvaluate, named OpenCode2EventPermissionEvaluate
      openCode2PermissionEvaluateDenyCitation [openCode2SessionIdentity]);
   (OpenCode2EventShellCreateBefore, named OpenCode2EventShellCreateBefore unevidenced [])].
Definition openCode2LifecycleMappings : gmap OpenCode2LifecycleEvent LifecycleEventMapping :=
  list_to_map openCode2Rows.

(** ** The pinned contracts *)

(** [mustFloorContract]: the contract of an exact profile accepts its version
    and every later one. *)
Definition pinned_base (id version : string) : RuntimeContract :=
  match ParseHostVersion (to_bytes version) with
  | Ok host =>
      match NewVersionFloor host with
      | Ok c => mk_RuntimeContract id c true
      | Err _ => mk_RuntimeContract id (mk_Constraint host host false false false) false
      end
  | Err _ =>
      mk_RuntimeContract id (mk_Constraint zero_HostVersion zero_HostVersion false false false) false
  end.
Definition ClaudeCode2_1_261 : RuntimeContract := pinned_base "claude-code@2.1.261" "2.1.261".
Definition Codex0_153_0 : RuntimeContract := pinned_base "codex@0.153.0" "0.153.0".
Definition OpenCode2_0_20 : RuntimeContract := pinned_base "opencode@2.0.20" "2.0.20".
Definition OpenCode1_18_29 : RuntimeContract := pinned_base "opencode@1.18.29" "1.18.29".

(** The value a panic stands for: a contract that was never constructed. *)
Definition zero_Contract : LifecycleContract :=
  mk_Contract EmptyString (mk_Constraint zero_HostVersion zero_HostVersion false false false)
    [] ∅ false.
Definition mustLifecycleContract (r : result ContractError LifecycleContract) : LifecycleContract :=
  match r with Ok c => c | Err _ => zero_Contract end.

Definition claudeContract : result ContractError LifecycleContract :=
  newLifecycleContract ClaudeCode2_1_261 ClaudeLifecycleEvents claudeLifecycleMappings.
Definition codexContract : result ContractError LifecycleContract :=
  newLifecycleContract Codex0_153_0 CodexLifecycleEvents codexLifecycleMappings.
Definition openCode2Contract : result ContractError LifecycleContract :=
  newLifecycleContract OpenCode2_0_20 OpenCode2LifecycleEvents openCode2LifecycleMappings.
Definition openCodeContract : result ContractError LifecycleContract :=
  newLifecycleContract OpenCode1_18_29 OpenCodeLifecycleEvents openCodeLifecycleMappings.

Definition ClaudeCode2_1_261Lifecycle : LifecycleContract := mustLifecycleContract claudeContract.
Definition Codex0_153_0Lifecycle : LifecycleContract := mustLifecycleContract codexContract.
Definition OpenCode2_0_20Lifecycle : LifecycleContract := mustLifecycleContract openCode2Contract.
Definition OpenCode1_18_29Lifecycle : LifecycleContract := mustLifecycleContract openCodeContract.

Definition ValidatePinnedLifecycleProfiles : result ContractError unit :=
  match claudeContract with
  | Err e => Err e
  | Ok _ => match codexContract with
    | Err e => Err e
    | Ok _ => match openCode2Contract with
      | Err e => Err e
      | Ok _ => match openCodeContract with Err e => Err e | Ok _ => Ok tt end
      end
    end
  end.

Definition LookupLifecycleFailure (harness : HarnessID) (nativeName : string)
    : option LifecycleFailurePolicy :=
  if String.eqb harness HarnessClaudeCode then
    lookupLifecycleFailure ClaudeCode2_1_261Lifecycle ClaudeLifecycleEvents nativeName
  else if String.eqb harness HarnessCodex then
    lookupLifecycleFailure Codex0_153_0Lifecycle CodexLifecycleEvents nativeName
  else if String.eqb harness HarnessOpenCode then
    match lookupLifecycleFailure OpenCode2_0_20Lifecycle OpenCode2LifecycleEvents nativeName with
    | Some policy => Some policy
    | None => lookupLifecycleFailure OpenCode1_18_29Lifecycle OpenCodeLifecycleEvents nativeName
    end
  else None.

(** * Theorems *)

(** Every row of the four tables passes the contract validation, so none of
    the constructors panics. *)
Lemma pinned_profiles_validate : ValidatePinnedLifecycleProfiles = Ok tt.
Proof. vm_compute. reflexivity. Qed.

Definition pinned_profiles : list (HarnessID * LifecycleContract) :=
  [(HarnessClaudeCode, ClaudeCode2_1_261Lifecycle); (HarnessCodex, Codex0_153_0Lifecycle);
   (HarnessOpenCode, OpenCode2_0_20Lifecycle); (HarnessOpenCode, OpenCode1_18_29Lifecycle)].

Lemma mustLifecycleContract_built r :
  is_ok r = true -> exists c, r = Ok c /\ mustLifecycleContract r = c.
Proof. destruct r as [c|e]; [by exists c|done]. Qed.

(** Each pinned contract is one that [newLifecycleContract] built. *)
Lemma pinned_profile_built h c :
  (h, c) ∈ pinned_profiles ->
  exists base mappings, newLifecycleContract base (lc_events c) mappings = Ok c.
Proof.
  assert (forall base events mappings,
    is_ok (newLifecycleContract base events mappings) = true ->
    mustLifecycleContract (newLifecycleContract base events mappings) = c ->
    exists base mappings, newLifecycleContract base (lc_events c) mappings = Ok c) as Hgen.
  { intros base events mappings Hok Hc. destruct (mustLifecycleContract_built _ Hok) as (c' & Hr & Hc').
    rewrite Hc in Hc'. subst c'. exists base, mappings.
    by destruct (newLifecycleContract_Mapping _ _ _ _ Hr) as (_ & -> & _). }
  unfold pinned_profiles. rewrite !elem_of_cons.
  intros [H|[H|[H|[H|H%not_elem_of_nil]]]]; [..|done]; apply pair_equal_spec in H as [_ Hc].
  - apply (Hgen ClaudeCode2_1_261 ClaudeLifecycleEvents claudeLifecycleMappings);
      [vm_compute; reflexivity|by rewrite Hc].
  - apply (Hgen Codex0_153_0 CodexLifecycleEvents codexLifecycleMappings);
      [vm_compute; reflexivity|by rewrite Hc].
  - apply (Hgen OpenCode2_0_20 OpenCode2LifecycleEvents openCode2LifecycleMappings);
      [vm_compute; reflexivity|by rewrite Hc].
  - apply (Hgen OpenCode1_18_29 OpenCodeLifecycleEvents openCodeLifecycleMappings);
      [vm_compute; reflexivity|by rewrite Hc].
Qed.

Lemma profile_row_sound h c e m :
  (h, c) ∈ pinned_profiles -> Mapping c e = Ok m ->
  row_sound m /\ Mapping_IsValid m = true /\ lm_response m = derivedResponse m.
Proof.
  intros (base & mappings & Hb)%pinned_profile_built Hm.
  destruct (newLifecycleContract_Mapping _ _ _ _ Hb) as (_ & _ & _ & Hrow).
  destruct (Hrow e m Hm) as (row & _ & -> & Hv). by apply owned_row_valid.
Qed.

Lemma lookupLifecycleFailure_Some c events name p :
  lookupLifecycleFailure c events name = Some p ->
  exists e m, e ∈ events /\ Mapping c e = Ok m /\ lm_nativeName m = name /\ p = policy_of m.
Proof.
  induction events as [|e rest IH]; simpl; [done|].
  destruct (Mapping c e) as [m|err] eqn:Hm.
  - destruct (String.eqb_spec (lm_nativeName m) name) as [Hn|_].
    + intros [= <-]. exists e, m. by split; [left|].
    + intros (x & mx & Hx & Hrest)%IH. exists x, mx. by split; [right|].
  - intros (x & mx & Hx & Hrest)%IH. exists x, mx. by split; [right|].
Qed.

Lemma lookupLifecycleFailure_None c events name :
  lookupLifecycleFailure c events name = None <->
  forall e m, e ∈ events -> Mapping c e = Ok m -> lm_nativeName m <> name.
Proof.
  induction events as [|e rest IH]; simpl; [split; [by intros _ ?? ?%not_elem_of_nil|done]|].
  destruct (Mapping c e) as [m|err] eqn:Hm.
  - destruct (String.eqb_spec (lm_nativeName m) name) as [Hn|Hn].
    + split; [done|]. intros H. by destruct (H e m); [left| |].
    + rewrite IH. split; intros H x mx Hx Hmx; [|by apply (H x); [right|]].
      apply elem_of_cons in Hx as [->|Hx]; [congruence|by apply (H x)].
  - rewrite IH. split; intros H x mx Hx Hmx; [|by apply (H x); [right|]].
    apply elem_of_cons in Hx as [->|Hx]; [congruence|by apply (H x)].
Qed.

(** The demotion rule over every declared row: the effective mode differs from
    the declared one only on a blocking row with no citation, which runs as
    report-and-continue. *)
Definition demotion_ok (p : LifecycleFailurePolicy) : bool :=
  (fp_Mode p =? fp_DeclaredMode p)%N
  || (BlocksByExitCode (fp_DeclaredMode p) && negb (IsPresent (fp_Evidence p))
      && (fp_Mode p =? FailureReportAndContinue)%N).

Definition profile_policies (c : LifecycleContract) : list LifecycleFailurePolicy :=
  omap (fun e => match Mapping c e with Ok m => Some (policy_of m) | Err _ => None end)
    (lc_events c).

Lemma profiles_demotion_ok :
  forallb (fun hc => forallb demotion_ok (profile_policies hc.2)) pinned_profiles = true.
Proof. vm_compute. reflexivity. Qed.

Lemma profile_row_demotion h c e m :
  (h, c) ∈ pinned_profiles -> Mapping c e = Ok m -> demotion_ok (policy_of m) = true.
Proof.
  intros Hc Hm. pose proof profiles_demotion_ok as H.
  rewrite forallb_forall in H. specialize (H _ (proj1 (list_elem_of_In _ _) Hc)). simpl in H.
  rewrite forallb_forall in H. apply H, list_elem_of_In. unfold profile_policies.
  apply list_elem_of_omap. exists e. rewrite Hm. split; [|done].
  destruct (pinned_profile_built _ _ Hc) as (base & mappings & Hb).
  destruct (newLifecycleContract_Mapping _ _ _ _ Hb) as (_ & _ & He & _).
  apply He. by rewrite Hm.
Qed.

Lemma profile_events h c e m :
  (h, c) ∈ pinned_profiles -> Mapping c e = Ok m -> e ∈ lc_events c.
Proof.
  intros (base & mappings & Hb)%pinned_profile_built Hm.
  destruct (newLifecycleContract_Mapping _ _ _ _ Hb) as (_ & _ & He & _).
  apply He. by rewrite Hm.
Qed.

Lemma claude_events : lc_events ClaudeCode2_1_261Lifecycle = ClaudeLifecycleEvents.
Proof. vm_compute. reflexivity. Qed.
Lemma codex_events : lc_events Codex0_153_0Lifecycle = CodexLifecycleEvents.
Proof. vm_compute. reflexivity. Qed.
Lemma openCode2_events : lc_events OpenCode2_0_20Lifecycle = OpenCode2LifecycleEvents.
Proof. vm_compute. reflexivity. Qed.
Lemma openCode_events : lc_events OpenCode1_18_29Lifecycle = OpenCodeLifecycleEvents.
Proof. vm_compute. reflexivity. Qed.

(** The lookup as one scan over the profiles of the harness, in the order it
    tries them. *)
Fixpoint scan_profiles (h : HarnessID) (ps : list (HarnessID * LifecycleContract)) (name : string)
    : option LifecycleFailurePolicy :=
  match ps with
  | [] => None
  | (h', c) :: rest =>
      match (if String.eqb h h' then lookupLifecycleFailure c (lc_events c) name else None) with
      | Some p => Some p
      | None => scan_profiles h rest name
      end
  end.

Lemma LookupLifecycleFailure_scan h name :
  LookupLifecycleFailure h name = scan_profiles h pinned_profiles name.
Proof.
  unfold LookupLifecycleFailure, pinned_profiles. cbn [scan_profiles].
  rewrite claude_events, codex_events, openCode2_events, openCode_events.
  destruct (String.eqb_spec h HarnessClaudeCode) as [->|].
  - change (String.eqb HarnessClaudeCode HarnessCodex) with false.
    change (String.eqb HarnessClaudeCode HarnessOpenCode) with false. by case_match.
  - destruct (String.eqb_spec h HarnessCodex) as [->|].
    + change (String.eqb HarnessCodex HarnessOpenCode) with false. by case_match.
    + destruct (String.eqb h HarnessOpenCode); [|done]. by repeat case_match.
Qed.

Lemma scan_profiles_Some h ps name p :
  scan_profiles h ps name = Some p ->
  exists c e m, (h, c) ∈ ps /\ Mapping c e = Ok m /\ lm_nativeName m = name /\ p = policy_of m.
Proof.
  induction ps as [|[h' c] rest IH]; simpl; [done|].
  destruct (String.eqb_spec h h') as [->|_].
  - destruct (lookupLifecycleFailure _ _ _) as [q|] eqn:Hq.
    + intros [= <-]. apply lookupLifecycleFailure_Some in Hq as (e & m & _ & Hm & Hn & Hp).
      exists c, e, m. by split; [left|].
    + intros H. destruct (IH H) as (c' & e & m & Hc & Hrest). exists c', e, m.
      by split; [right|].
  - intros H. destruct (IH H) as (c' & e & m & Hc & Hrest). exists c', e, m. by split; [right|].
Qed.

Lemma LookupLifecycleFailure_row h name p :
  LookupLifecycleFailure h name = Some p ->
  exists c e m, (h, c) ∈ pinned_profiles /\ Mapping c e = Ok m /\ lm_nativeName m = name /\
    p = policy_of m.
Proof. rewrite LookupLifecycleFailure_scan. apply scan_profiles_Some. Qed.

Lemma scan_profiles_None h ps name :
  scan_profiles h ps name = None ->
  forall c e m, (h, c) ∈ ps -> e ∈ lc_events c -> Mapping c e = Ok m -> lm_nativeName m <> name.
Proof.
  induction ps as [|[h' c'] rest IH]; simpl; [by intros _ ??? ?%not_elem_of_nil|].
  intros H c e m [Hc|Hc]%elem_of_cons He Hm.
  - apply pair_equal_spec in Hc as [-> ->]. rewrite String.eqb_refl in H.
    destruct (lookupLifecycleFailure _ _ _) eqn:Hq; [done|].
    by apply (proj1 (lookupLifecycleFailure_None _ _ _) Hq e).
  - case_match; [done|]. by apply (IH H c e).
Qed.

Lemma LookupLifecycleFailure_miss h name :
  LookupLifecycleFailure h name = None <->
  forall c e m, (h, c) ∈ pinned_profiles -> Mapping c e = Ok m -> lm_nativeName m <> name.
Proof.
  split.
  - rewrite LookupLifecycleFailure_scan. intros H c e m Hc Hm.
    by apply (scan_profiles_None _ _ _ H c e); [|eapply profile_events|].
  - intros H. destruct (LookupLifecycleFailure h name) as [p|] eqn:Hl; [|done].
    apply LookupLifecycleFailure_row in Hl as (c & e & m & Hc & Hm & Hn & _).
    by destruct (H c e m Hc Hm).
Qed.

(** The two OpenCode profiles agree on every name both declare, so the order
    in which they are tried cannot be observed. *)
Lemma OpenCode_shared_names :
  forallb (fun name =>
    match lookupLifecycleFailure OpenCode1_18_29Lifecycle OpenCodeLifecycleEvents name,
          lookupLifecycleFailure OpenCode2_0_20Lifecycle OpenCode2LifecycleEvents name with
    | Some p, Some q => bool_decide (p = q)
    | _, _ => true
    end) openCode2LifecycleEventNames = true.
Proof. vm_compute. reflexivity. Qed.

Lemma OpenCode2_names_listed e m :
  Mapping OpenCode2_0_20Lifecycle e = Ok m -> e ∈ OpenCode2LifecycleEvents ->
  lm_nativeName m ∈ openCode2LifecycleEventNames.
Proof.
  assert (forallb (fun e => match Mapping OpenCode2_0_20Lifecycle e with
    | Ok m => one_of (lm_nativeName m) openCode2LifecycleEventNames | Err _ => true end)
    OpenCode2LifecycleEvents = true) as H by (vm_compute; reflexivity).
  rewrite forallb_forall in H. intros Hm He%list_elem_of_In. specialize (H e He).
  rewrite Hm in H. by apply one_of_spec.
Qed.

Lemma OpenCode_names_agree name p q :
  lookupLifecycleFailure OpenCode1_18_29Lifecycle OpenCodeLifecycleEvents name = Some p ->
  lookupLifecycleFailure OpenCode2_0_20Lifecycle OpenCode2LifecycleEvents name = Some q ->
  p = q.
Proof.
  intros Hp Hq. destruct (lookupLifecycleFailure_Some _ _ _ _ Hq) as (e & m & He & Hm & Hn & _).
  pose proof (OpenCode2_names_listed e m Hm He) as Hin. rewrite Hn in Hin.
  pose proof OpenCode_shared_names as H. rewrite forallb_forall in H.
  specialize (H name (proj1 (list_elem_of_In _ _) Hin)). cbv beta in H. rewrite Hp, Hq in H.
  by apply bool_decide_eq_true in H as ->.
Qed.

Lemma OpenCode_lookup_order name :
  match lookupLifecycleFailure OpenCode1_18_29Lifecycle OpenCodeLifecycleEvents name with
  | Some p => Some p
  | None => lookupLifecycleFailure OpenCode2_0_20Lifecycle OpenCode2LifecycleEvents name
  end = LookupLifecycleFailure HarnessOpenCode name.
Proof.
  unfold LookupLifecycleFailure.
  change (String.eqb HarnessOpenCode HarnessClaudeCode) with false.
  change (String.eqb HarnessOpenCode HarnessCodex) with false.
  change (String.eqb HarnessOpenCode HarnessOpenCode) with true. cbv iota.
  pose proof (OpenCode_names_agree name) as Hag.
  destruct (lookupLifecycleFailure OpenCode2_0_20Lifecycle _ name) as [q|];
    destruct (lookupLifecycleFailure OpenCode1_18_29Lifecycle _ name) as [p|];
    [by rewrite (Hag p q)|reflexivity..].
Qed.

(** Whatever row the command line names, the failure policy the hook obeys
    is a checked one: it is declared, it blocks by exit code only with a
    citation, its effective mode differs from the declared one only where a
    blocking row without a citation was demoted to report-and-continue, and it
    may refuse only as a cited blocking gate.  The lookup misses a name only
    when no pinned profile of the harness declares it. *)
Theorem LookupLifecycleFailure_sound h name :
  (forall p, LookupLifecycleFailure h name = Some p ->
     Declared p = true /\
     (BlocksByExitCode (fp_Mode p) = true -> IsPresent (fp_Evidence p) = true) /\
     (fp_Mode p <> fp_DeclaredMode p ->
        BlocksByExitCode (fp_DeclaredMode p) = true /\ IsPresent (fp_Evidence p) = false /\
        fp_Mode p = FailureReportAndContinue) /\
     (AllowsDeny (fp_Response p) = true ->
        fp_Semantic p = SemanticGateConsultation /\ fp_Blocking p <> NonBlocking /\
        IsPresent (fp_Evidence p) = true)) /\
  (LookupLifecycleFailure h name = None <->
     forall c e m, (h, c) ∈ pinned_profiles -> Mapping c e = Ok m -> lm_nativeName m <> name).
Proof.
  split.
  - intros p (c & e & m & Hc & Hm & Hn & ->)%LookupLifecycleFailure_row.
    destruct (profile_row_sound _ _ _ _ Hc Hm) as (Hs & _ & Hr). simpl. split_and!.
    + pose proof (rs_behavior _ Hs) as Hb. unfold behavior_valid in Hb.
      unfold Declared. simpl. by destruct (EventSemantic_IsValid (lm_semantic m)).
    + apply (rs_block _ Hs).
    + intros Hne. pose proof (profile_row_demotion _ _ _ _ Hc Hm) as Hd.
      unfold demotion_ok in Hd. simpl in Hd. apply N.eqb_neq in Hne. rewrite Hne in Hd.
      apply andb_true_iff in Hd as [[Hb He]%andb_true_iff Hd].
      apply negb_true_iff in He. by apply N.eqb_eq in Hd.
    + rewrite Hr. by intros (_ & ? & ? & ?)%AllowsDeny_derived.
  - apply LookupLifecycleFailure_miss.
Qed.

Lemma LookupLifecycleFailure_sound_witness :
  exists p, LookupLifecycleFailure HarnessCodex "PreToolUse" = Some p /\ Declared p = true /\
    fp_Mode p = FailureReportAndContinue.
Proof.
  destruct (LookupLifecycleFailure HarnessCodex "PreToolUse") as [p|] eqn:Hp;
    [|vm_compute in Hp; discriminate].
  exists p. split; [reflexivity|].
  destruct (proj1 (LookupLifecycleFailure_sound HarnessCodex "PreToolUse") p Hp)
    as (Hd & _ & Hm & _).
  split; [exact Hd|]. apply Hm.
  rewrite <- (f_equal (fun o => match o with Some x => x | None => p end) Hp).
  vm_compute. discriminate.
Defined.
