(* ===== verification/HostExit.v ===== *)
(** HostExit: the sole exit authority of the lifecycle hook
    (internal/lifecycle/hostexit/hostexit.go, internal/codegen/ir/diagnostic.go).

    [ForFault] maps an internal fault to what the host receives, [ForDecision]
    carries an evaluated decision through unchanged.  Byte slices and strings
    are both [string]; a nil slice and an empty one are the same here, as they
    are to every reader of the package. *)

From Stdlib Require Import NArith Lia Ascii String.
From stdpp Require Import base tactics list strings.
From S2P Require Import Prelude GoStrings Registration GatePolicy NativeRows.
Local Open Scope string_scope.

(** ** Go errors

    An error is the text it renders and the errors it wraps.  A package-level
    sentinel has an identity of its own, an error made in place has none, so
    [errors.Is] finds a sentinel in the tree and nothing else. *)
Inductive GoError := mk_error (identity : option string) (text : string) (wrapped : list GoError).
Definition error_text (e : GoError) : string := let '(mk_error _ t _) := e in t.
Definition sentinel (name text : string) : GoError := mk_error (Some name) text [].
Definition wrap_error (text : string) (wrapped : list GoError) : GoError := mk_error None text wrapped.
Fixpoint errors_Is (e : GoError) (name : string) : bool :=
  let '(mk_error i _ ws) := e in
  match i with Some n => String.eqb n name | None => false end
  || existsb (fun w => errors_Is w name) ws.

(** ** Exit statuses *)
Abbreviation ExitStatus := N (only parsing).
Definition ExitStatusUnset : ExitStatus := 0%N.
Definition ExitContinue : ExitStatus := 1%N.
Definition ExitNonBlockingError : ExitStatus := 2%N.
Definition ExitBlock : ExitStatus := 3%N.
Definition ExitStatus_IsValid (s : ExitStatus) : bool :=
  ((ExitContinue <=? s) && (s <=? ExitBlock))%N.
Definition Code (s : ExitStatus) : Z * bool :=
  if (s =? ExitContinue)%N then (0%Z, true)
  else if (s =? ExitNonBlockingError)%N then (1%Z, true)
  else if (s =? ExitBlock)%N then (2%Z, true)
  else (0%Z, false).
Definition ExitStatus_String (s : ExitStatus) : string :=
  if (s =? ExitContinue)%N then "continue"
  else if (s =? ExitNonBlockingError)%N then "non-blocking-error"
  else if (s =? ExitBlock)%N then "block"
  else EmptyString.

(** ** Continuations *)
Record Continuation := mk_Continuation { co_set : bool; co_bytes : string }.
Definition zero_Continuation : Continuation := mk_Continuation false EmptyString.
Definition EmptyContinuation : Continuation := mk_Continuation true EmptyString.
Definition ContinuationOf (bytes : string) : Continuation := mk_Continuation true bytes.
Definition IsSet (c : Continuation) : bool := co_set c.
Definition Continuation_Bytes (c : Continuation) : string := co_bytes c.

(** ** Stages and policies *)
Abbreviation FaultStage := N (only parsing).
Definition FaultStageUnset : FaultStage := 0%N.
Definition FaultStageNotRecorded : FaultStage := 1%N.
Definition FaultStageRecordUnknown : FaultStage := 2%N.
Definition FaultStageRecorded : FaultStage := 3%N.
Definition FaultStage_IsValid (s : FaultStage) : bool :=
  ((s =? FaultStageNotRecorded) || (s =? FaultStageRecordUnknown) || (s =? FaultStageRecorded))%N.
Definition FaultStage_String (s : FaultStage) : string :=
  if (s =? FaultStageNotRecorded)%N then "not-recorded"
  else if (s =? FaultStageRecordUnknown)%N then "record-unknown"
  else if (s =? FaultStageRecorded)%N then "recorded"
  else EmptyString.

Record Outcome := mk_Outcome { oc_Exit : ExitStatus; oc_Stdout : string; oc_Stderr : string }.
#[export] Instance Outcome_eq_dec : EqDecision Outcome.
Proof. solve_decision. Defined.
Definition zero_Outcome : Outcome := mk_Outcome ExitStatusUnset EmptyString EmptyString.

Abbreviation FaultPolicy := N (only parsing).
Definition FaultPolicyUnset : FaultPolicy := 0%N.
Definition FaultFailOpen : FaultPolicy := 1%N.
Definition FaultFailClosed : FaultPolicy := 2%N.
Definition FaultPolicy_IsValid (p : FaultPolicy) : bool :=
  ((p =? FaultFailOpen) || (p =? FaultFailClosed))%N.
Definition FaultPolicy_String (p : FaultPolicy) : string :=
  if (p =? FaultFailOpen)%N then "fail-open"
  else if (p =? FaultFailClosed)%N then "fail-closed"
  else EmptyString.

Record Fault := mk_Fault {
  fa_Mode : FailureMode;
  fa_DeclaredMode : FailureMode;
  fa_Undeclared : bool;
  fa_Evidence : FailureEvidence;
  fa_Policy : FaultPolicy;
  fa_Stage : FaultStage;
  fa_Continuation : Continuation;
  fa_Cause : option GoError;
}.

Definition UnusableInputs (f : Fault) : list string :=
  ((if negb (FailureMode_IsValid (fa_Mode f)) then ["the effective failure mode is unset or not a known mode"] else [])
   ++ (if negb (FailureMode_IsValid (fa_DeclaredMode f))
       then ["the declared failure mode is unset or not a known mode"] else [])
   ++ (if negb (FaultPolicy_IsValid (fa_Policy f)) then ["the fault policy is unset or not a known policy"] else [])
   ++ (if negb (FaultStage_IsValid (fa_Stage f)) then ["the fault stage is unset or not a known stage"] else [])
   ++ (if negb (IsSet (fa_Continuation f))
       then ["the host continuation was never set, so there are no proceed bytes to emit"] else [])
   ++ (match fa_Cause f with
       | None => ["the cause is nil, so there is no fault to report"]
       | Some _ => [] end))%list.

(** ** Diagnostics *)
Record Diagnostic := mk_Diagnostic {
  dg_What : string;
  dg_Why : string;
  dg_Where : string;
  dg_Phase : string;
  dg_Impact : string;
  dg_Fix : string;
  dg_Cause : option GoError;
}.
Definition Diagnostic_Error (d : Diagnostic) : string :=
  let message := "what: " ++ dg_What d ++ "; why: " ++ dg_Why d ++ "; where: " ++ dg_Where d
    ++ "; phase: " ++ dg_Phase d ++ "; impact: " ++ dg_Impact d ++ "; fix: " ++ dg_Fix d in
  match dg_Cause d with
  | Some cause => message ++ ": " ++ error_text cause
  | None => message
  end.

Definition recordClause (s : FaultStage) : string :=
  if (s =? FaultStageRecorded)%N then
    "the delivery for it IS committed in the lifecycle occurrence journal, so look for it there rather than concluding it was lost"
  else if (s =? FaultStageRecordUnknown)%N then
    "pasture stopped before it learned whether this event was recorded, so an occurrence for it MAY OR MAY NOT exist — look for it in the lifecycle occurrence journal"
  else "no occurrence was recorded for it".

Definition failClosedAdvice (f : Fault) (exit : ExitStatus) : string :=
  if (fa_Policy f =? FaultFailClosed)%N && negb (exit =? ExitBlock)%N then
    if fa_Undeclared f then
      "PASTURE_HOOK_FAIL_CLOSED is already set and it had no channel on this event: no row of this build's registration declares the event, so it is treated as "
      ++ FailureMode_String (fa_DeclaredMode f)
      ++ ", which does not refuse through a process exit code; there is no exit code the opt-in could turn into a refusal and the event continued; the opt-in reaches only the events whose declared mode blocks by exit code and that cite host evidence for it"
    else if BlocksByExitCode (fa_DeclaredMode f) then
      "PASTURE_HOOK_FAIL_CLOSED is already set and it had no channel on this event: the event declares the blocking exit code but carries no host evidence for it, and pasture will not refuse a user's operation on an unevidenced claim, so the event continued; to make this event able to block, add the host documentation or a committed capture showing the host refuses on that exit code"
    else
      "PASTURE_HOOK_FAIL_CLOSED is already set and it had no channel on this event: its declared failure mode "
      ++ FailureMode_String (fa_DeclaredMode f)
      ++ " does not refuse through a process exit code, so there is no exit code the opt-in could turn into a refusal and the event continued; the opt-in reaches only the events whose declared mode blocks by exit code and that cite host evidence for it"
  else "to make an evaluation fault of an evidenced blocking event stop the host instead of letting it continue, set PASTURE_HOOK_FAIL_CLOSED=1 on a host that refuses by exit code".

Definition throws (f : Fault) : bool :=
  (fa_Policy f =? FaultFailClosed)%N && (fa_Mode f =? FailureThrowFailFast)%N.

Definition impact (f : Fault) (exit : ExitStatus) : string :=
  if (exit =? ExitBlock)%N then
    "the host refuses the operation, because this event is configured to fail closed and the host documents that it blocks on this exit code"
  else if throws f then
    "the host continues with its own default answer, and " ++ recordClause (fa_Stage f) ++ "; "
    ++ "fail-closed has no channel on OpenCode named callbacks until the typed refusal object exists; this invocation continued"
  else if (fa_Stage f =? FaultStageRecordUnknown)%N then
    "the host continues with its own default answer; " ++ recordClause (fa_Stage f)
    ++ ", and the fault record file beside the database carries a line for this invocation "
    ++ "unless a loss of that record was reported on this stream"
  else "the host continues with its own default answer, and " ++ recordClause (fa_Stage f).

Definition fix_text (f : Fault) (exit : ExitStatus) : string :=
  if (exit =? ExitBlock)%N then
    "read the cause below and fix the reported condition; to let the host continue through an evaluation fault, unset PASTURE_HOOK_FAIL_CLOSED"
  else if throws f then
    "read the cause below and fix the reported condition; PASTURE_HOOK_FAIL_CLOSED refuses through the process exit code, which this host does not read as a refusal, "
    ++ "so it cannot stop this event today; unset it if you expected it to"
  else "read the cause below and fix the reported condition; " ++ failClosedAdvice f exit.

Definition declaredModeClause (f : Fault) : string :=
  if fa_Undeclared f then
    "declared failure mode none (no row of this build's registration declares this event, so it is treated as "
    ++ FailureMode_String (fa_DeclaredMode f) ++ ")"
  else "declared failure mode " ++ FailureMode_String (fa_DeclaredMode f).

Definition evidenceState (e : FailureEvidence) : string :=
  if IsPresent e then fe_Source e else "none".

Definition faultDiagnostic (f : Fault) (exit : ExitStatus) : Diagnostic :=
  {| dg_What := "pasture could not evaluate this lifecycle hook event";
     dg_Why := "an internal fault stopped the evaluation before it produced a decision, and a hook that cannot evaluate must say so rather than stay silent, "
       ++ "because silence reads as a proceed";
     dg_Where := "internal/lifecycle/hostexit.ForFault";
     dg_Phase := "hook lifecycle fault handling, before any decision was written; "
       ++ declaredModeClause f
       ++ ", effective failure mode " ++ FailureMode_String (fa_Mode f)
       ++ ", fault policy " ++ FaultPolicy_String (fa_Policy f)
       ++ ", host evidence " ++ evidenceState (fa_Evidence f)
       ++ ", durable state " ++ FaultStage_String (fa_Stage f)
       ++ ", exit " ++ ExitStatus_String exit;
     dg_Impact := impact f exit;
     dg_Fix := fix_text f exit;
     dg_Cause := fa_Cause f |}.

(** ** The two doors *)
Definition fault_blocks (f : Fault) : bool :=
  (fa_Policy f =? FaultFailClosed)%N && BlocksByExitCode (fa_Mode f)
  && IsPresent (fa_Evidence f).

Definition ForFault (f : Fault) : Outcome * bool :=
  if (0 <? length (UnusableInputs f))%nat then (zero_Outcome, false)
  else if fault_blocks f then
    (mk_Outcome ExitBlock EmptyString (Diagnostic_Error (faultDiagnostic f ExitBlock)), true)
  else
    (mk_Outcome ExitContinue (Continuation_Bytes (fa_Continuation f))
       (Diagnostic_Error (faultDiagnostic f ExitContinue)), true).

Definition ForDecision (native : string) (exit : ExitStatus) (stderr : string) : Outcome :=
  mk_Outcome exit native stderr.

(** * Theorems *)

(** The members a fault must carry. *)
Record usable (f : Fault) : Prop := {
  us_mode : FailureMode_IsValid (fa_Mode f) = true;
  us_declared : FailureMode_IsValid (fa_DeclaredMode f) = true;
  us_policy : FaultPolicy_IsValid (fa_Policy f) = true;
  us_stage : FaultStage_IsValid (fa_Stage f) = true;
  us_continuation : IsSet (fa_Continuation f) = true;
  us_cause : fa_Cause f <> None;
}.

Lemma UnusableInputs_nil f : UnusableInputs f = [] <-> usable f.
Proof.
  unfold UnusableInputs. split.
  - intros H. repeat apply app_nil in H as [? H].
    split; [..|by destruct (fa_Cause f)];
      by match goal with |- ?b = true => destruct b end.
  - intros [-> -> -> -> -> Hc]. by destruct (fa_Cause f).
Qed.

Lemma ForFault_mapped f : (ForFault f).2 = true <-> usable f.
Proof.
  rewrite <- UnusableInputs_nil. unfold ForFault.
  destruct (UnusableInputs f); simpl; [|by split]. by case_match.
Qed.

Lemma ForFault_usable f :
  usable f ->
  let exit := if fault_blocks f then ExitBlock else ExitContinue in
  ForFault f =
  (mk_Outcome exit (if fault_blocks f then EmptyString else Continuation_Bytes (fa_Continuation f))
     (Diagnostic_Error (faultDiagnostic f exit)), true).
Proof.
  intros Hu%UnusableInputs_nil. unfold ForFault. rewrite Hu. simpl. by destruct (fault_blocks f).
Qed.

Lemma FailureMode_members m : FailureMode_IsValid m = true -> m ∈ [1; 2; 3; 4; 5; 6]%N.
Proof.
  unfold FailureMode_IsValid. intros [Hl%N.leb_le Hu%N.leb_le]%andb_true_iff.
  unfold FailureReportAndContinue, FailureObserveOnly in *. rewrite !elem_of_cons. lia.
Qed.

Lemma FaultStage_members s : FaultStage_IsValid s = true -> s ∈ [1; 2; 3]%N.
Proof.
  unfold FaultStage_IsValid. rewrite !orb_true_iff, !N.eqb_eq, !elem_of_cons. tauto.
Qed.

Lemma FaultPolicy_members p : FaultPolicy_IsValid p = true -> p ∈ [1; 2]%N.
Proof. unfold FaultPolicy_IsValid. rewrite !orb_true_iff, !N.eqb_eq, !elem_of_cons. tauto. Qed.

Definition mentions (sub s : string) : bool :=
  match String.index 0 sub s with Some _ => true | None => false end.

(** The texts depend on closed members only, so what they mention is decided by
    evaluating them on every combination of those members. *)
Definition fault_modes : list N := [1; 2; 3; 4; 5; 6]%N.
Definition host_exits : list ExitStatus := [ExitContinue; ExitBlock].
Definition closed_fault (m dm : FailureMode) (u : bool) (po : FaultPolicy) (st : FaultStage) : Fault :=
  mk_Fault m dm u unevidenced po st zero_Continuation None.

Definition on_every_fault (check : Fault -> ExitStatus -> bool) : bool :=
  forallb (fun m => forallb (fun dm => forallb (fun u => forallb (fun po => forallb (fun st =>
    forallb (fun e => check (closed_fault m dm u po st) e) host_exits) [1; 2; 3]%N)
    [1; 2]%N) [true; false]) fault_modes) fault_modes.

Lemma forallb_elem {A} (p : A -> bool) l : forallb p l = true -> forall x, x ∈ l -> p x = true.
Proof. rewrite forallb_forall. intros H x Hx. by apply H, list_elem_of_In. Qed.

Lemma on_every_fault_spec check f exit :
  on_every_fault check = true -> usable f -> exit ∈ host_exits ->
  check (closed_fault (fa_Mode f) (fa_DeclaredMode f) (fa_Undeclared f) (fa_Policy f) (fa_Stage f))
    exit = true.
Proof.
  intros H [Hm%FailureMode_members Hdm%FailureMode_members Hpo%FaultPolicy_members
            Hst%FaultStage_members _ _] He. unfold on_every_fault in H.
  pose proof (forallb_elem _ _ H _ Hm) as H1. pose proof (forallb_elem _ _ H1 _ Hdm) as H2.
  pose proof (forallb_elem _ _ H2 (fa_Undeclared f)) as H3.
  assert (fa_Undeclared f ∈ [true; false]) as Hu
    by (destruct (fa_Undeclared f); [left|right; left]).
  pose proof (forallb_elem _ _ (H3 Hu) _ Hpo) as H4.
  exact (forallb_elem _ _ (forallb_elem _ _ H4 _ Hst) _ He).
Qed.

(** What the impact line says about the durable state follows the stage. *)
Definition impact_claims (f : Fault) (exit : ExitStatus) : bool :=
  let shown := negb (exit =? ExitBlock)%N in
  Bool.eqb (mentions "no occurrence was recorded" (impact f exit))
    (shown && (fa_Stage f =? FaultStageNotRecorded)%N)
  && Bool.eqb (mentions "IS committed" (impact f exit))
       (shown && (fa_Stage f =? FaultStageRecorded)%N)
  && Bool.eqb (mentions "MAY OR MAY NOT exist" (impact f exit))
       (shown && (fa_Stage f =? FaultStageRecordUnknown)%N).

(** The advice to opt in is printed exactly to those who have not, and the one
    about a missing citation exactly for declared blocking rows. *)
Definition fix_claims (f : Fault) (exit : ExitStatus) : bool :=
  ((fa_Policy f =? FaultFailOpen)%N && (exit =? ExitBlock)%N)
  || (Bool.eqb (mentions "set PASTURE_HOOK_FAIL_CLOSED=1" (fix_text f exit))
        (fa_Policy f =? FaultFailOpen)%N
      && Bool.eqb (mentions "carries no host evidence" (fix_text f exit))
           ((fa_Policy f =? FaultFailClosed)%N && negb (exit =? ExitBlock)%N && negb (throws f)
            && negb (fa_Undeclared f) && BlocksByExitCode (fa_DeclaredMode f))).

Lemma texts_claim :
  on_every_fault (fun f exit => impact_claims f exit && fix_claims f exit) = true.
Proof. vm_compute. reflexivity. Qed.

Lemma impact_record_claim f exit :
  usable f -> exit ∈ host_exits ->
  let shown := negb (exit =? ExitBlock)%N in
  mentions "no occurrence was recorded" (impact f exit)
  = shown && (fa_Stage f =? FaultStageNotRecorded)%N /\
  mentions "IS committed" (impact f exit) = shown && (fa_Stage f =? FaultStageRecorded)%N /\
  mentions "MAY OR MAY NOT exist" (impact f exit)
  = shown && (fa_Stage f =? FaultStageRecordUnknown)%N.
Proof.
  intros Hu He. pose proof (on_every_fault_spec _ _ _ texts_claim Hu He) as H.
  apply andb_true_iff in H as [H _].
  apply andb_true_iff in H as [[H1 H2]%andb_true_iff H3].
  apply Bool.eqb_prop in H1, H2, H3. done.
Qed.

Lemma fix_advice f exit :
  usable f -> exit ∈ host_exits -> (fa_Policy f = FaultFailOpen -> exit <> ExitBlock) ->
  mentions "set PASTURE_HOOK_FAIL_CLOSED=1" (fix_text f exit)
  = (fa_Policy f =? FaultFailOpen)%N /\
  mentions "carries no host evidence" (fix_text f exit)
  = (fa_Policy f =? FaultFailClosed)%N && negb (exit =? ExitBlock)%N && negb (throws f)
    && negb (fa_Undeclared f) && BlocksByExitCode (fa_DeclaredMode f).
Proof.
  intros Hu He Hopen. pose proof (on_every_fault_spec _ _ _ texts_claim Hu He) as H.
  apply andb_true_iff in H as [_ H]. apply orb_true_iff in H as [H|H].
  - apply andb_true_iff in H as [Hp Hx]. apply N.eqb_eq in Hp, Hx. by destruct (Hopen Hp).
  - apply andb_true_iff in H as [H1 H2]. apply Bool.eqb_prop in H1, H2. done.
Qed.

(** [ForFault] maps a fault exactly when all six of its required members
    are usable, and otherwise answers an outcome with no exit code.  A mapped
    fault refuses the host exactly under a fail-closed policy on a cited mode
    that blocks by exit code, with nothing on standard output; every other
    fault continues with the host's own bytes.  The diagnostic carries the
    cause, claims that no occurrence was recorded only when the stage says so,
    and advises the opt-in exactly to the operators who have not taken it. *)
Theorem ForFault_spec f :
  ((ForFault f).2 = true <-> usable f) /\
  (~ usable f -> ForFault f = (zero_Outcome, false)) /\
  (usable f -> exists o d,
     ForFault f = (o, true) /\ oc_Stderr o = Diagnostic_Error d /\ dg_Cause d = fa_Cause f /\
     (oc_Exit o = ExitBlock <->
        fa_Policy f = FaultFailClosed /\ BlocksByExitCode (fa_Mode f) = true /\
        IsPresent (fa_Evidence f) = true) /\
     (oc_Exit o = ExitBlock -> oc_Stdout o = EmptyString) /\
     (oc_Exit o <> ExitBlock ->
        oc_Exit o = ExitContinue /\ oc_Stdout o = Continuation_Bytes (fa_Continuation f)) /\
     (mentions "no occurrence was recorded" (dg_Impact d) = true ->
        fa_Stage f = FaultStageNotRecorded) /\
     (mentions "set PASTURE_HOOK_FAIL_CLOSED=1" (dg_Fix d) = true <->
        fa_Policy f = FaultFailOpen)).
Proof.
  split; [apply ForFault_mapped|]. split.
  - intros Hn. rewrite <- ForFault_mapped in Hn. unfold ForFault in *.
    case_match; [done|]. by case_match.
  - intros Hu. pose proof (ForFault_usable f Hu) as HF. simpl in HF.
    assert (fault_blocks f = true <-> fa_Policy f = FaultFailClosed /\
      BlocksByExitCode (fa_Mode f) = true /\ IsPresent (fa_Evidence f) = true) as Hb
      by (unfold fault_blocks; rewrite !andb_true_iff, N.eqb_eq; tauto).
    set (exit := if fault_blocks f then ExitBlock else ExitContinue) in HF.
    assert (exit ∈ host_exits) as He
      by (subst exit; destruct (fault_blocks f); [right; left|left]).
    assert (fa_Policy f = FaultFailOpen -> exit <> ExitBlock) as Hopen.
    { intros Ho. subst exit. destruct (fault_blocks f); [|done].
      destruct (proj1 Hb eq_refl) as [Hc _]. by rewrite Ho in Hc. }
    eexists _, _. split_and!; [exact HF|reflexivity|reflexivity|..]; simpl.
    + rewrite <- Hb. subst exit. by destruct (fault_blocks f).
    + subst exit. by destruct (fault_blocks f).
    + subst exit. by destruct (fault_blocks f).
    + destruct (impact_record_claim f exit Hu He) as [-> _].
      intros [_ Hs]%andb_true_iff. by apply N.eqb_eq.
    + destruct (fix_advice f exit Hu He Hopen) as [-> _]. apply N.eqb_eq.
Qed.

Lemma ForFault_spec_witness :
  let f := mk_Fault FailureExitTwoBlocks FailureExitTwoBlocks false
    (mk_Evidence "https://docs.claude.com/en/docs/claude-code/hooks") FaultFailClosed
    FaultStageRecordUnknown EmptyContinuation (Some (wrap_error "deadline" [])) in
  usable f /\ oc_Exit (ForFault f).1 = ExitBlock.
Proof.
  set (f := mk_Fault _ _ _ _ _ _ _ _). cbv zeta.
  assert (usable f) as Hu by (by split; [vm_compute; reflexivity..|]).
  split; [exact Hu|].
  destruct (proj2 (proj2 (ForFault_spec f)) Hu) as (o & d & HF & _ & _ & Hb & _).
  rewrite HF. apply Hb. split_and!; vm_compute; reflexivity.
Defined.
