(* ===== verification/HookEnvironment.v ===== *)
(** HookEnvironment: the process environment of one lifecycle hook
    (cmd/pasture/hook_environment.go).

    The lookup is a function, [None] for an unset variable.
    [time.ParseDuration] and the text of the generic actor are parameters. *)

From Stdlib Require Import ZArith Lia Ascii String.
From stdpp Require Import base tactics list strings.
From S2P Require Import Prelude GoStrings Timeouts NativeRows Execution HostExit.
Local Open Scope string_scope.
Local Open Scope list_scope.

Definition hookFailClosedEnv : string := "PASTURE_HOOK_FAIL_CLOSED".
Definition hookCaptureDirEnv : string := "PASTURE_CAPTURE_DIR".
Definition hookActorIDEnv : string := "PASTURE_ACTOR_ID".
Definition hookInvocationTimeoutEnv : string := "PASTURE_HOOK_INVOCATION_TIMEOUT".
Definition hookIngressTimeoutEnv : string := "PASTURE_INGRESS_TIMEOUT".
Definition hookStartSliceTimeoutEnv : string := "PASTURE_START_SLICE_TIMEOUT".
Definition hookWriteLaneEnv : string := "PASTURE_WRITE_LANE".
Definition hookWriteLaneSocketEnv : string := "PASTURE_WRITE_LANE_SOCKET".

Abbreviation WriteLaneMode := string (only parsing).
Definition WriteLaneAuto : WriteLaneMode := "auto".
Definition WriteLaneDirect : WriteLaneMode := "direct".

Record HookEnvironment := mk_Environment {
  he_Execution : Invocation;
  he_FaultPolicy : FaultPolicy;
  he_CaptureDir : string;
  he_ActorClaim : string;
  he_ImplicitClaim : bool;
  he_BudgetOverride : Override;
  he_WriteLane : WriteLaneMode;
  he_WriteLaneSocket : string;
}.

Inductive EnvError :=
  | NotAMode (env raw : string)
  | PaddedValue (env raw : string)
  | NotADuration (env raw : string)
  | NotPositive (env raw : string).

Section environment.
Variable ParseDuration : string -> option Duration.
Variable DefaultLLMActor : string.

Definition parseHookDuration (name raw : string) : result EnvError Duration :=
  if padded raw || bool_decide (trimmed raw = []) then Err (PaddedValue name raw)
  else match ParseDuration raw with
  | None => Err (NotADuration name raw)
  | Some d => if (d <=? 0)%Z then Err (NotPositive name raw) else Ok d
  end.

(** [present && raw != ""]. *)
Definition set_value (lookup : string -> option string) (name : string) : option string :=
  match lookup name with
  | Some raw => if String.eqb raw EmptyString then None else Some raw
  | None => None
  end.

(** An exact string, or its default when unset. *)
Definition exact_value (lookup : string -> option string) (name unset : string)
    : result EnvError string :=
  match set_value lookup name with
  | None => Ok unset
  | Some raw =>
      if padded raw || bool_decide (trimmed raw = []) then Err (PaddedValue name raw) else Ok raw
  end.

Definition duration_value (lookup : string -> option string) (name : string)
    : result EnvError Duration :=
  match set_value lookup name with
  | None => Ok 0%Z
  | Some raw => parseHookDuration name raw
  end.

Definition write_lane_value (lookup : string -> option string) : result EnvError WriteLaneMode :=
  match set_value lookup hookWriteLaneEnv with
  | None => Ok WriteLaneAuto
  | Some raw =>
      if one_of raw [WriteLaneAuto; WriteLaneDirect] then Ok raw
      else Err (NotAMode hookWriteLaneEnv raw)
  end.

Definition fail_closed_value (lookup : string -> option string) : result EnvError FaultPolicy :=
  match set_value lookup hookFailClosedEnv with
  | None => Ok FaultFailOpen
  | Some raw =>
      if String.eqb raw "1" then Ok FaultFailClosed
      else if String.eqb raw "0" then Ok FaultFailOpen
      else Err (NotAMode hookFailClosedEnv raw)
  end.

(** The parser, for a lookup that was supplied. *)
Definition HookEnvironmentFromOS (lookup : string -> option string)
    : result EnvError HookEnvironment :=
  let execution := BoundedInvocation (lookup EnvironmentProvider) (lookup EnvironmentModel)
                     (lookup EnvironmentRole) in
  lane ← write_lane_value lookup;
  socket ← exact_value lookup hookWriteLaneSocketEnv EmptyString;
  policy ← fail_closed_value lookup;
  capture ← exact_value lookup hookCaptureDirEnv EmptyString;
  actor ← exact_value lookup hookActorIDEnv DefaultLLMActor;
  let implicit := match set_value lookup hookActorIDEnv with None => true | Some _ => false end in
  invocation ← duration_value lookup hookInvocationTimeoutEnv;
  ing ← duration_value lookup hookIngressTimeoutEnv;
  start ← duration_value lookup hookStartSliceTimeoutEnv;
  Ok (mk_Environment execution policy capture actor implicit (mk_Override invocation ing start)
        lane socket).

(** * Theorems *)

Lemma bind_Ok {E A B} (r : result E A) (f : A -> result E B) b :
  (r ≫= f) = Ok b <-> exists a, r = Ok a /\ f a = Ok b.
Proof.
  destruct r as [a|e]; simpl; split; [by exists a|by intros (a' & [= <-] & ?)|done|by intros (? & ? & _)].
Qed.

Lemma set_value_Some lookup name raw :
  set_value lookup name = Some raw <-> lookup name = Some raw /\ raw <> EmptyString.
Proof.
  unfold set_value. destruct (lookup name) as [v|]; [|split; [done|by intros [? _]]].
  destruct (String.eqb_spec v EmptyString) as [->|]; split; [done|by intros [[= <-] ?]| |].
  - by intros [= <-].
  - by intros [[= <-] _].
Qed.

Lemma exact_value_Ok lookup name unset v :
  exact_value lookup name unset = Ok v ->
  set_value lookup name = None /\ v = unset \/ set_value lookup name = Some v /\ padded v = false.
Proof.
  unfold exact_value. destruct (set_value lookup name) as [raw|] eqn:Hs; [|intros [= <-]; by left].
  destruct (padded raw || _) eqn:Hp; [done|]. intros [= <-]. right. split; [done|].
  by apply orb_false_iff in Hp as [? _].
Qed.

Lemma duration_value_Ok lookup name d :
  duration_value lookup name = Ok d ->
  set_value lookup name = None /\ d = 0%Z \/
  exists raw, set_value lookup name = Some raw /\ ParseDuration raw = Some d /\ (0 < d)%Z.
Proof.
  unfold duration_value, parseHookDuration.
  destruct (set_value lookup name) as [raw|] eqn:Hs; [|intros [= <-]; by left].
  destruct (_ || _); [done|]. destruct (ParseDuration raw) as [x|] eqn:Hp; [|done].
  destruct (Z.leb_spec x 0); [done|]. intros [= <-]. right. by exists raw.
Qed.

Lemma fail_closed_value_Ok lookup p :
  fail_closed_value lookup = Ok p ->
  FaultPolicy_IsValid p = true /\
  (p = FaultFailClosed <-> lookup hookFailClosedEnv = Some "1").
Proof.
  unfold fail_closed_value. destruct (set_value lookup hookFailClosedEnv) as [raw|] eqn:Hs.
  - apply set_value_Some in Hs as [Hl _]. rewrite Hl.
    destruct (String.eqb_spec raw "1") as [->|H1]; [by intros [= <-]|].
    destruct (String.eqb raw "0"); [|done]. intros [= <-]. split; [done|]. split; [done|congruence].
  - intros [= <-]. split; [done|]. split; [done|]. intros Hl.
    assert (set_value lookup hookFailClosedEnv = Some "1") by (by apply set_value_Some). congruence.
Qed.

(** A set variable that is empty is read as unset. *)
Definition without_empty (lookup : string -> option string) : string -> option string :=
  set_value lookup.

Lemma set_value_idem lookup name :
  set_value (without_empty lookup) name = set_value lookup name.
Proof. 
  unfold without_empty. unfold set_value at 1. destruct (set_value lookup name) as [raw|] eqn:Hs; [|done].
  apply set_value_Some in Hs as [_ Hn]. by apply String.eqb_neq in Hn as ->.
Qed.

(** The environment of a parse with its execution members replaced. *)
Definition set_Execution (e : HookEnvironment) (i : Invocation) : HookEnvironment :=
  mk_Environment i (he_FaultPolicy e) (he_CaptureDir e) (he_ActorClaim e) (he_ImplicitClaim e)
    (he_BudgetOverride e) (he_WriteLane e) (he_WriteLaneSocket e).

Lemma empties_unset lookup :
  match HookEnvironmentFromOS lookup with
  | Ok e => HookEnvironmentFromOS (without_empty lookup)
            = Ok (set_Execution e (BoundedInvocation (set_value lookup EnvironmentProvider)
                    (set_value lookup EnvironmentModel) (set_value lookup EnvironmentRole)))
  | Err x => HookEnvironmentFromOS (without_empty lookup) = Err x
  end.
Proof.
  unfold HookEnvironmentFromOS, write_lane_value, exact_value, fail_closed_value, duration_value.
  rewrite !set_value_idem. unfold without_empty.
  repeat match goal with
  | |- context [match ?r with Ok _ => _ | Err _ => _ end] =>
      match r with
      | (?x ≫= _) => destruct x; cbn [mbind result_bind]
      end
  end; done.
Qed.

Lemma HookEnvironment_policy lookup e :
  HookEnvironmentFromOS lookup = Ok e ->
  FaultPolicy_IsValid (he_FaultPolicy e) = true /\
  (he_FaultPolicy e = FaultFailClosed <-> lookup hookFailClosedEnv = Some "1").
Proof.
  unfold HookEnvironmentFromOS. intros (lane & _ & H)%bind_Ok. apply bind_Ok in H as (socket & _ & H).
  apply bind_Ok in H as (policy & Hpolicy & H).
  repeat (apply bind_Ok in H as (? & _ & H)). injection H as <-. by apply fail_closed_value_Ok.
Qed.

(** The parsed environment never guesses.  A fault blocks the host only
    where the operator wrote exactly 1, the lane is one of its two modes, paths
    and identifiers are the exact strings that were set, a budget is the
    positive duration that was set or no override at all, the generic actor is
    claimed exactly when no other is set, and a variable that is set but empty
    is read as unset, except for the execution members, whose presence is
    evidence. *)
Theorem HookEnvironment_exact lookup e :
  HookEnvironmentFromOS lookup = Ok e ->
  FaultPolicy_IsValid (he_FaultPolicy e) = true /\
  (he_FaultPolicy e = FaultFailClosed <-> lookup hookFailClosedEnv = Some "1") /\
  (he_WriteLane e = WriteLaneAuto \/ he_WriteLane e = WriteLaneDirect) /\
  (he_WriteLane e = WriteLaneDirect <-> lookup hookWriteLaneEnv = Some WriteLaneDirect) /\
  (he_CaptureDir e = EmptyString \/
     lookup hookCaptureDirEnv = Some (he_CaptureDir e) /\ padded (he_CaptureDir e) = false) /\
  (if he_ImplicitClaim e then he_ActorClaim e = DefaultLLMActor
   else lookup hookActorIDEnv = Some (he_ActorClaim e) /\ padded (he_ActorClaim e) = false) /\
  Forall (fun p => p.2 = 0%Z \/ exists raw, lookup p.1 = Some raw /\ ParseDuration raw = Some p.2 /\ (0 < p.2)%Z)
    [(hookInvocationTimeoutEnv, o_HookInvocation (he_BudgetOverride e));
     (hookIngressTimeoutEnv, o_Ingress (he_BudgetOverride e));
     (hookStartSliceTimeoutEnv, o_StartSlice (he_BudgetOverride e))] /\
  exists e', HookEnvironmentFromOS (without_empty lookup) = Ok e' /\
    set_Execution e' (he_Execution e) = e.
Proof.
  intros H. pose proof (empties_unset lookup) as Hempty. rewrite H in Hempty.
  unfold HookEnvironmentFromOS in H. cbv zeta in H.
  apply bind_Ok in H as (lane & Hlane & H). apply bind_Ok in H as (socket & _ & H).
  apply bind_Ok in H as (policy & Hpolicy & H). apply bind_Ok in H as (capture & Hcapture & H).
  apply bind_Ok in H as (actor & Hactor & H). apply bind_Ok in H as (inv & Hinv & H).
  apply bind_Ok in H as (ing & Hing & H). apply bind_Ok in H as (start & Hstart & H).
  injection H as <-.
  cbn [he_FaultPolicy he_WriteLane he_CaptureDir he_ActorClaim he_ImplicitClaim he_BudgetOverride
       o_HookInvocation o_Ingress o_StartSlice he_Execution].
  destruct (fail_closed_value_Ok _ _ Hpolicy) as [Hpv Hpc].
  assert (forall name d, duration_value lookup name = Ok d ->
    d = 0%Z \/ exists raw, lookup name = Some raw /\ ParseDuration raw = Some d /\ (0 < d)%Z) as Hdur.
  { intros name d [[_ ->]|(raw & [Hl _]%set_value_Some & Hp & Hpos)]%duration_value_Ok; [by left|].
    right. by exists raw. }
  split; [done|]. split; [done|].
  assert ((lane = WriteLaneAuto \/ lane = WriteLaneDirect) /\
    (lane = WriteLaneDirect <-> lookup hookWriteLaneEnv = Some WriteLaneDirect)) as [Hl1 Hl2].
  { unfold write_lane_value in Hlane. destruct (set_value lookup hookWriteLaneEnv) as [raw|] eqn:Hs.
    - apply set_value_Some in Hs as [Hl _]. rewrite Hl. destruct (one_of _ _) eqn:Hone; [|done].
      injection Hlane as <-. apply one_of_spec in Hone.
      split; [|split; congruence]. rewrite !elem_of_cons in Hone.
      destruct Hone as [?|[?|?%not_elem_of_nil]]; auto; done.
    - injection Hlane as <-. split; [by left|]. split; [done|]. intros Hl.
      assert (set_value lookup hookWriteLaneEnv = Some WriteLaneDirect) by (by apply set_value_Some).
      congruence. }
  split; [done|]. split; [done|]. split.
  { destruct (exact_value_Ok _ _ _ _ Hcapture) as [[_ ->]|[[Hl _]%set_value_Some Hp]]; [by left|by right]. }
  split.
  { destruct (exact_value_Ok _ _ _ _ Hactor) as [[-> ->]|[Hs Hp]]; [done|]. rewrite Hs.
    by apply set_value_Some in Hs as [Hl _]. }
  split; [repeat apply Forall_cons_2; [by apply Hdur..|apply Forall_nil_2]|]. eexists. split; [exact Hempty|done].
Qed.
End environment.

Definition opted_in (name : string) : option string :=
  if String.eqb name hookFailClosedEnv then Some "1"
  else if String.eqb name hookInvocationTimeoutEnv then Some "750ms"
  else if String.eqb name hookCaptureDirEnv then Some EmptyString
  else if String.eqb name EnvironmentModel then Some EmptyString
  else None.
Definition parse_sample (s : string) : option Duration :=
  if String.eqb s "750ms" then Some 750000000%Z else None.

Lemma HookEnvironment_exact_witness :
  exists e, HookEnvironmentFromOS parse_sample "default" opted_in = Ok e /\
    he_FaultPolicy e = FaultFailClosed /\ he_CaptureDir e = EmptyString.
Proof.
  destruct (HookEnvironmentFromOS parse_sample "default" opted_in) as [e|x] eqn:He;
    [|vm_compute in He; discriminate].
  destruct (HookEnvironment_exact parse_sample "default" opted_in e He) as (_ & Hp & _ & _ & Hc & _).
  exists e. split; [reflexivity|]. split; [apply Hp; reflexivity|].
  destruct Hc as [Hc|[Hc Hn]]; [exact Hc|].
  change (Some EmptyString = Some (he_CaptureDir e)) in Hc. congruence.
Defined.
