(* ===== verification/NativeResponse.v ===== *)
(** NativeResponse: the response constructed for the native host
    (internal/lifecycle/backend/backend.go) and its per-host encoders
    (internal/lifecycle/nativeresponse/nativeresponse.go).

    Bodies on standard output are strings; the errors keep the branch that
    refused. *)

From Stdlib Require Import NArith Lia Ascii String.
From stdpp Require Import base tactics list strings gmap.
From S2P Require Import Prelude GoStrings Registration GateAuthority Verdict GatePolicy HostVersion NativeRows NativeProfiles HostExit.
Local Open Scope string_scope.
Local Open Scope list_scope.

(** ** Host responses *)
Record HostResponse := mk_HostResponse {
  hr_decision : Decision;
  hr_fault : bool;
  hr_constructed : bool;
}.

Inductive ResponseError :=
  | InvalidVerdict
  | UnconstructedResponse
  | InvalidMapping
  | WrongSurface (surface : HookSurface)
  | UnevaluatedGate
  | UnsupportedResponse (event : string) (surface : HookSurface) (capability : ResponseCapability)
      (kind : DecisionKind)
  | RejectedVerdict (e : DecisionError)
  | ProceedOnly
  | UnsupportedHarness (harness : HarnessID).

Definition NewHostResponse (decision : Decision) : result ResponseError HostResponse :=
  if negb (Decision_IsValid decision) then Err InvalidVerdict
  else Ok (mk_HostResponse decision false true).

Definition NewEvaluationFaultResponse : HostResponse := mk_HostResponse zero_Decision true true.
Definition zero_HostResponse : HostResponse := mk_HostResponse zero_Decision false false.

Definition HostResponse_IsValid (r : HostResponse) : bool :=
  hr_constructed r
  && ((hr_fault r && bool_decide (hr_decision r = zero_Decision))
      || (negb (hr_fault r) && Decision_IsValid (hr_decision r))).
Definition IsEvaluationFault (r : HostResponse) : bool := HostResponse_IsValid r && hr_fault r.
Definition Response_Reason (r : HostResponse) : DecisionReason :=
  if negb (HostResponse_IsValid r) then ReasonUnset
  else if hr_fault r then ReasonEvaluationFault else d_reason (hr_decision r).
Definition Response_Decision (r : HostResponse) : DecisionKind :=
  if negb (HostResponse_IsValid r) then DecisionKindUnset
  else if hr_fault r then DecisionDeny else d_kind (hr_decision r).

(** One-member records, whose value needs no escape. *)
Definition decision_json (kind : string) : string :=
  ("{" ++ quoted "decision" ++ ":" ++ quoted kind ++ "}")%string.
Definition Response_MarshalJSON (r : HostResponse) : result ResponseError string :=
  if negb (HostResponse_IsValid r) then Err UnconstructedResponse
  else if (Response_Decision r =? DecisionProceed)%N then Ok (decision_json "proceed")
  else Ok (wire_json (DecisionKind_String (Response_Decision r))
             (DecisionReason_String (Response_Reason r))).

(** ** Continuation bytes *)
Definition codexProceedContinuation : string := ("{" ++ quoted "continue" ++ ":true}")%string.
Definition codexObservationContinuation : string := "{}".
Definition canonicalProceedContinuation : string := decision_json "proceed".

Definition CodexContinuation (r : HostResponse) : result ResponseError string :=
  if HostResponse_IsValid r then
    if negb (Response_Decision r =? DecisionProceed)%N then Err ProceedOnly
    else Ok codexProceedContinuation
  else Ok codexObservationContinuation.

Definition CanonicalProceed (r : HostResponse) : result ResponseError string :=
  if negb (HostResponse_IsValid r) then Ok EmptyString
  else if negb (Response_Decision r =? DecisionProceed)%N then Err ProceedOnly
  else Response_MarshalJSON r.

Definition ClaudeContinuation (r : HostResponse) : result ResponseError string :=
  if HostResponse_IsValid r && negb (Response_Decision r =? DecisionProceed)%N then Err ProceedOnly
  else Ok EmptyString.

(** ** Encoders *)
Definition unsupported (m : LifecycleEventMapping) (kind : DecisionKind) : ResponseError :=
  UnsupportedResponse (lm_nativeName m) (lm_surface m) (lm_response m) kind.

Definition nativeDecision (m : LifecycleEventMapping) (r : HostResponse)
    (surfaces : list HookSurface) : result ResponseError DecisionKind :=
  if negb (Mapping_IsValid m) then Err InvalidMapping
  else if negb (existsb (fun s => (lm_surface m =? s)%N) surfaces)
  then Err (WrongSurface (lm_surface m))
  else if negb (HostResponse_IsValid r) then
    if (lm_semantic m =? SemanticObservation)%N then Ok DecisionProceed else Err UnevaluatedGate
  else
    let kind := Response_Decision r in
    if IsEvaluationFault r && negb (AllowsDeny (lm_response m)) then Err (unsupported m kind)
    else if ((kind =? DecisionDeny) || (kind =? DecisionRequireHuman))%N then
      if negb (AllowsDeny (lm_response m)) then Ok DecisionProceed
      else if (kind =? DecisionRequireHuman)%N && negb (AllowsAsk (lm_response m))
      then Ok DecisionDeny
      else Ok kind
    else Ok kind.

Definition NormalizeDecision (m : LifecycleEventMapping) (decision : Decision)
    : result ResponseError Decision :=
  match NewHostResponse decision with
  | Err e => Err e
  | Ok response =>
      match nativeDecision m response [lm_surface m] with
      | Err e => Err e
      | Ok kind =>
          let reason :=
            if (kind =? DecisionProceed)%N && negb (d_kind decision =? DecisionProceed)%N
            then ReasonUnenforcedDeny else d_reason decision in
          match NewDecision kind reason with
          | Err e => Err (RejectedVerdict e)
          | Ok d => Ok d
          end
      end
  end.

Definition EncodeClaude (m : LifecycleEventMapping) (r : HostResponse)
    : result ResponseError Outcome :=
  match nativeDecision m r [SurfaceClaudeCommandJSON] with
  | Err e => Err e
  | Ok kind =>
      if (kind =? DecisionProceed)%N then Ok (ForDecision EmptyString ExitContinue EmptyString)
      else if (kind =? DecisionDeny)%N then
        if negb (BlocksByExitCode (lm_failure m)) || negb (IsPresent (lm_evidence m))
        then Err (unsupported m kind)
        else Ok (ForDecision EmptyString ExitBlock (DecisionReason_Message (Response_Reason r)))
      else Err (unsupported m kind)
  end.

Definition EncodeCodex (m : LifecycleEventMapping) (r : HostResponse)
    : result ResponseError Outcome :=
  match nativeDecision m r [SurfaceCodexStrictCommandJSON] with
  | Err e => Err e
  | Ok kind =>
      if negb (kind =? DecisionProceed)%N then Err (unsupported m kind)
      else if (lm_semantic m =? SemanticObservation)%N
      then Ok (ForDecision codexObservationContinuation ExitContinue EmptyString)
      else Ok (ForDecision codexProceedContinuation ExitContinue EmptyString)
  end.

Definition EncodeOpenCode (m : LifecycleEventMapping) (r : HostResponse)
    : result ResponseError Outcome :=
  match nativeDecision m r [SurfaceOpenCodeNamedOutput; SurfaceOpenCodeCatchAllSSE] with
  | Err e => Err e
  | Ok kind =>
      if (kind =? DecisionProceed)%N then
        if (lm_semantic m =? SemanticObservation)%N
        then Ok (ForDecision EmptyString ExitContinue EmptyString)
        else Ok (ForDecision canonicalProceedContinuation ExitContinue EmptyString)
      else if (kind =? DecisionDeny)%N then
        if IsEvaluationFault r then Err (unsupported m kind)
        else if negb (AllowsDeny (lm_response m)) then Err (unsupported m kind)
        else match Response_MarshalJSON r with
             | Err e => Err e
             | Ok encoded => Ok (ForDecision encoded ExitContinue EmptyString)
             end
      else Err (unsupported m kind)
  end.

(** ** The fault continuation *)
Definition FaultContinuation (harness : HarnessID) (semantic : EventSemantic)
    : result ResponseError Continuation :=
  if String.eqb harness HarnessClaudeCode then Ok EmptyContinuation
  else if String.eqb harness HarnessCodex then
    if (semantic =? SemanticObservation)%N then Ok (ContinuationOf codexObservationContinuation)
    else Ok (ContinuationOf codexProceedContinuation)
  else if String.eqb harness HarnessOpenCode then
    if (semantic =? SemanticObservation)%N then Ok EmptyContinuation
    else Ok (ContinuationOf canonicalProceedContinuation)
  else Err (UnsupportedHarness harness).

(** ** Preparing a delivery (internal/handlers/hook_lifecycle.go)

    The dispatch row of a harness names its encoder.  [replace] stands for
    [receipt.ReplaceConsultationDecision], which puts the normalized decision
    into the effects. *)
Definition encode (harness : HarnessID) (m : LifecycleEventMapping) (r : HostResponse)
    : result ResponseError Outcome :=
  if String.eqb harness HarnessClaudeCode then EncodeClaude m r
  else if String.eqb harness HarnessCodex then EncodeCodex m r
  else if String.eqb harness HarnessOpenCode then EncodeOpenCode m r
  else Err (UnsupportedHarness harness).

Section prepare.
Context {Effects : Type} (replace : Effects -> Decision -> result ResponseError Effects).

Definition prepareDelivery (harness : HarnessID) (m : LifecycleEventMapping)
    (response : HostResponse) (effects : Effects) (decision : option Decision)
    : result ResponseError (HostResponse * Effects * Outcome) :=
  if bool_decide (is_Some decision) && negb (HostResponse_IsValid response)
  then Err UnevaluatedGate
  else
    settled ←
      (if HostResponse_IsValid response then
         if hr_fault response then Err InvalidVerdict
         else
           normalized ← NormalizeDecision m (default (hr_decision response) decision);
           response' ← NewHostResponse normalized;
           effects' ← replace effects normalized;
           Ok (response', effects')
       else Ok (response, effects));
    outcome ← encode harness m settled.1;
    Ok (settled, outcome).
End prepare.

(** * Theorems *)

Lemma NewHostResponse_Ok d :
  Decision_IsValid d = true -> NewHostResponse d = Ok (mk_HostResponse d false true).
Proof. unfold NewHostResponse. by intros ->. Qed.

(** A response built from a decision carries exactly that decision. *)
Lemma built_response d :
  Decision_IsValid d = true ->
  let r := mk_HostResponse d false true in
  HostResponse_IsValid r = true /\ IsEvaluationFault r = false /\
  Response_Decision r = d_kind d /\ Response_Reason r = d_reason d.
Proof.
  intros Hd. simpl. unfold IsEvaluationFault, Response_Decision, Response_Reason,
    HostResponse_IsValid. simpl. by rewrite Hd.
Qed.

Definition surface_listed (m : LifecycleEventMapping) (surfaces : list HookSurface) : bool :=
  existsb (fun s => (lm_surface m =? s)%N) surfaces.

(** The capability downgrade, as a table over the decision and the row. *)
Definition settled_kind (m : LifecycleEventMapping) (kind : DecisionKind) : DecisionKind :=
  if (kind =? DecisionProceed)%N then DecisionProceed
  else if negb (AllowsDeny (lm_response m)) then DecisionProceed
  else if (kind =? DecisionRequireHuman)%N && negb (AllowsAsk (lm_response m)) then DecisionDeny
  else kind.

Lemma valid_kinds d :
  Decision_IsValid d = true ->
  d_kind d = DecisionProceed \/ d_kind d = DecisionDeny \/ d_kind d = DecisionRequireHuman.
Proof.
  intros H. apply (forall_valid (fun d => (d_kind d =? DecisionProceed)%N
    || ((d_kind d =? DecisionDeny)%N || (d_kind d =? DecisionRequireHuman)%N))) in H;
    [|vm_compute; reflexivity].
  by rewrite !orb_true_iff, !N.eqb_eq in H.
Qed.

Lemma nativeDecision_built m d surfaces :
  Mapping_IsValid m = true -> Decision_IsValid d = true -> surface_listed m surfaces = true ->
  nativeDecision m (mk_HostResponse d false true) surfaces = Ok (settled_kind m (d_kind d)).
Proof.
  intros Hm Hd Hs. destruct (built_response d Hd) as (Hv & Hf & Hk & _).
  unfold nativeDecision. rewrite Hm. unfold surface_listed in Hs. rewrite Hs, Hv, Hf, Hk.
  cbv zeta. simpl. unfold settled_kind.
  destruct (valid_kinds d Hd) as [->|[->| ->]]; simpl; by repeat case_match.
Qed.

(** The verdict that is persisted before the commit. *)
Definition settled (m : LifecycleEventMapping) (d : Decision) : Decision :=
  let kind := settled_kind m (d_kind d) in
  mk_Decision kind
    (if (kind =? DecisionProceed)%N && negb (d_kind d =? DecisionProceed)%N
     then ReasonUnenforcedDeny else d_reason d).

Lemma reasons_shared d k :
  Decision_IsValid d = true -> d_kind d <> DecisionProceed ->
  k = DecisionDeny \/ k = DecisionRequireHuman -> Decision_IsValid (mk_Decision k (d_reason d)) = true.
Proof.
  intros Hd Hk Hk'. apply Decision_IsValid_elem in Hd. unfold valid_decisions in Hd. simpl in Hd.
  elim_members Hd; simpl in *; try done; by destruct Hk' as [-> | ->].
Qed.

Lemma settled_valid m d : Decision_IsValid d = true -> Decision_IsValid (settled m d) = true.
Proof.
  intros Hd. unfold settled. cbv zeta. unfold settled_kind.
  destruct (N.eqb_spec (d_kind d) DecisionProceed) as [Hp|Hp].
  - simpl. rewrite <- Hp. by destruct d.
  - destruct (AllowsDeny _); simpl; [|done].
    destruct (valid_kinds d Hd) as [Hk|[Hk|Hk]]; [done|..]; rewrite Hk; simpl.
    + apply reasons_shared; auto.
    + destruct (AllowsAsk _); simpl; apply reasons_shared; auto.
Qed.

Lemma NormalizeDecision_settled m d :
  Mapping_IsValid m = true -> Decision_IsValid d = true ->
  NormalizeDecision m d = Ok (settled m d).
Proof.
  intros Hm Hd. unfold NormalizeDecision. rewrite (NewHostResponse_Ok d Hd).
  rewrite nativeDecision_built; [|done..|by unfold surface_listed; simpl; rewrite N.eqb_refl].
  pose proof (settled_valid m d Hd) as Hs. unfold settled in *. cbv zeta in *.
  unfold NewDecision. by rewrite Hs.
Qed.

Lemma settled_kind_idem m k : settled_kind m (settled_kind m k) = settled_kind m k.
Proof.
  unfold settled_kind. destruct (N.eqb_spec k DecisionProceed); [done|].
  destruct (AllowsDeny (lm_response m)); [|done].
  destruct (k =? DecisionRequireHuman)%N eqn:E1, (AllowsAsk (lm_response m)) eqn:E2; simpl;
    rewrite ?E1, ?E2; try done; apply N.eqb_neq in n; rewrite n; try done; by rewrite E1.
Qed.

(** Normalizing is idempotent: the verdict that was persisted is the one the
    encoder finds. *)
Lemma settled_idem m d : settled m (settled m d) = settled m d.
Proof.
  unfold settled. cbv zeta. simpl. rewrite settled_kind_idem. f_equal.
  by destruct (settled_kind m (d_kind d) =? DecisionProceed)%N.
Qed.

(** What the pinned tables give the encoders: the surface of the harness, no
    ask channel, and a denial channel only where the host reads one. *)
Definition row_encodable (h : HarnessID) (m : LifecycleEventMapping) : bool :=
  negb (AllowsAsk (lm_response m)) &&
  (if String.eqb h HarnessClaudeCode then
     (lm_surface m =? SurfaceClaudeCommandJSON)%N
     && (negb (AllowsDeny (lm_response m))
         || (BlocksByExitCode (lm_failure m) && IsPresent (lm_evidence m)))
   else if String.eqb h HarnessCodex then
     (lm_surface m =? SurfaceCodexStrictCommandJSON)%N && negb (AllowsDeny (lm_response m))
   else if String.eqb h HarnessOpenCode then
     surface_listed m [SurfaceOpenCodeNamedOutput; SurfaceOpenCodeCatchAllSSE]
   else false).

Lemma profiles_encodable :
  forallb (fun hc => forallb (fun e =>
    match Mapping hc.2 e with Ok m => row_encodable hc.1 m | Err _ => true end)
    (lc_events hc.2)) pinned_profiles = true.
Proof. vm_compute. reflexivity. Qed.

Lemma profile_row_encodable h c e m :
  (h, c) ∈ pinned_profiles -> Mapping c e = Ok m -> row_encodable h m = true.
Proof.
  intros Hc Hm. pose proof profiles_encodable as H.
  pose proof (forallb_elem _ _ H _ Hc) as H1. cbv beta in H1. cbn [fst snd] in H1.
  pose proof (forallb_elem _ _ H1 e (profile_events _ _ _ _ Hc Hm)) as H2. cbv beta in H2.
  by rewrite Hm in H2.
Qed.

(** The host reads the very bytes a fail-open fault would emit. *)
Definition host_proceeds (h : HarnessID) (m : LifecycleEventMapping) (o : Outcome) : Prop :=
  exists c, FaultContinuation h (lm_semantic m) = Ok c /\
    o = mk_Outcome ExitContinue (Continuation_Bytes c) EmptyString.

(** The host reads a refusal naming the reason: exit 2 with its message on
    Claude Code, a typed body at exit 0 on OpenCode. *)
Definition host_refuses (h : HarnessID) (d : Decision) (o : Outcome) : Prop :=
  (h = HarnessClaudeCode /\
   o = mk_Outcome ExitBlock EmptyString (DecisionReason_Message (d_reason d))) \/
  (h = HarnessOpenCode /\
   o = mk_Outcome ExitContinue (wire_json "deny" (DecisionReason_String (d_reason d))) EmptyString).

Lemma settled_kind_cases m d :
  Decision_IsValid d = true -> AllowsAsk (lm_response m) = false ->
  let k := d_kind (settled m d) in
  settled_kind m k = k /\
  (k = DecisionProceed \/ k = DecisionDeny /\ AllowsDeny (lm_response m) = true).
Proof.
  intros Hd Ha. simpl. split; [apply settled_kind_idem|].
  unfold settled_kind. rewrite Ha.
  destruct (valid_kinds d Hd) as [->|[->| ->]]; [by left|..]; simpl;
    destruct (AllowsDeny (lm_response m)); simpl; auto.
Qed.

Lemma encode_settled h m d :
  Mapping_IsValid m = true -> row_encodable h m = true -> Decision_IsValid d = true ->
  let s := settled m d in
  exists o, encode h m (mk_HostResponse s false true) = Ok o /\
    (d_kind s = DecisionProceed /\ host_proceeds h m o \/
     d_kind s = DecisionDeny /\ AllowsDeny (lm_response m) = true /\ host_refuses h s o).
Proof.
  intros Hm He Hd. cbv zeta. unfold row_encodable in He.
  apply andb_true_iff in He as [Ha%negb_true_iff He].
  pose proof (settled_valid m d Hd) as Hs.
  destruct (settled_kind_cases m d Hd Ha) as [Hidem Hk].
  destruct (built_response _ Hs) as (Hv & Hf & Hrk & Hrr).
  revert Hs Hk Hidem Hv Hf Hrk Hrr. generalize (settled m d) as s.
  intros s Hs Hk Hidem Hv Hf Hrk Hrr. unfold encode, host_proceeds, FaultContinuation.
  destruct (String.eqb_spec h HarnessClaudeCode) as [->|].
  { apply andb_true_iff in He as [Hsur He]. unfold EncodeClaude.
    rewrite nativeDecision_built, Hidem by (done || unfold surface_listed; simpl; by rewrite Hsur).
    destruct Hk as [Hk|[Hk Hal]]; rewrite Hk; simpl.
    - eexists. split; [done|]. left. split; [done|]. by eexists.
    - rewrite Hal in He. simpl in He. apply andb_true_iff in He as [-> ->]. simpl.
      rewrite Hrr. eexists. split; [done|]. right. split_and!; [done..|]. by left. }
  destruct (String.eqb_spec h HarnessCodex) as [->|].
  { apply andb_true_iff in He as [Hsur Hal%negb_true_iff]. unfold EncodeCodex.
    rewrite nativeDecision_built, Hidem by (done || unfold surface_listed; simpl; by rewrite Hsur).
    destruct Hk as [Hk|[Hk Hal']]; [|congruence]. rewrite Hk; simpl.
    destruct (lm_semantic m =? _)%N; eexists; (split; [done|]); left; split; [done| |done|];
      by eexists. }
  destruct (String.eqb_spec h HarnessOpenCode) as [->|]; [|done].
  unfold EncodeOpenCode. rewrite nativeDecision_built, Hidem by done.
  destruct Hk as [Hk|[Hk Hal]]; rewrite Hk; simpl.
  - destruct (lm_semantic m =? _)%N; eexists; (split; [done|]); left; split; [done| |done|];
      by eexists.
  - rewrite Hf, Hal. simpl. unfold Response_MarshalJSON. rewrite Hv, Hrk, Hrr, Hk. simpl.
    eexists. split; [done|]. right. split_and!; [done..|]. by right.
Qed.

(** Two encodings never coincide: a host that is told to proceed is not told
    to refuse. *)
Lemma proceeds_not_refuses h m d o :
  Decision_IsValid d = true -> host_proceeds h m o -> host_refuses h d o -> False.
Proof.
  intros Hd (c & Hc & ->) [[-> Ho]|[-> Ho]]; [done|].
  injection Ho as Ho. revert Hc. unfold FaultContinuation.
  change (String.eqb HarnessOpenCode HarnessClaudeCode) with false.
  change (String.eqb HarnessOpenCode HarnessCodex) with false.
  change (String.eqb HarnessOpenCode HarnessOpenCode) with true. cbv iota.
  destruct (lm_semantic m =? _)%N; intros [= <-]; [done|].
  revert Ho. apply Decision_IsValid_elem in Hd. unfold valid_decisions in Hd.
  simpl in Hd. elim_members Hd; discriminate.
Qed.

(** For every row of every pinned profile and every evaluated verdict, the
    delivery can be prepared and the host is told exactly the verdict that goes
    into the effects: to proceed, with the very bytes a fail-open fault would
    emit, or to refuse with its reason.  The verdict is downgraded only from a
    refusal on a row without an evidenced channel, and preparing the persisted
    verdict again changes nothing. *)
Theorem prepareDelivery_honest {Effects} (replace : Effects -> Decision -> result ResponseError Effects)
    h c e m response effects effects' d s :
  (h, c) ∈ pinned_profiles -> Mapping c e = Ok m ->
  HostResponse_IsValid response = true -> hr_fault response = false ->
  Decision_IsValid d = true -> NormalizeDecision m d = Ok s -> replace effects s = Ok effects' ->
  exists o,
    prepareDelivery replace h m response effects (Some d)
    = Ok (mk_HostResponse s false true, effects', o) /\
    (d_kind s = DecisionProceed <-> host_proceeds h m o) /\
    (d_kind s <> DecisionProceed <-> host_refuses h s o) /\
    (s <> d -> d_kind d <> DecisionProceed /\ AllowsAsk (lm_response m) = false /\
       (AllowsDeny (lm_response m) = true -> d_kind d = DecisionRequireHuman)) /\
    NormalizeDecision m s = Ok s.
Proof.
  intros Hc Hm Hr Hnf Hd Hs Heff.
  destruct (profile_row_sound _ _ _ _ Hc Hm) as (_ & Hval & _).
  pose proof (profile_row_encodable _ _ _ _ Hc Hm) as Henc.
  assert (AllowsAsk (lm_response m) = false) as Hask
    by (unfold row_encodable in Henc; by apply andb_true_iff in Henc as [?%negb_true_iff _]).
  rewrite (NormalizeDecision_settled m d Hval Hd) in Hs. injection Hs as <-.
  pose proof (settled_valid m d Hd) as Hsv.
  destruct (encode_settled h m d Hval Henc Hd) as (o & Ho & Hcase). exists o. split_and!.
  - unfold prepareDelivery. simpl. rewrite Hr, Hnf. simpl.
    rewrite (NormalizeDecision_settled m d Hval Hd). simpl.
    rewrite (NewHostResponse_Ok _ Hsv). simpl. rewrite Heff. simpl. by rewrite Ho.
  - destruct Hcase as [[Hk Hp]|(Hk & _ & Href)]; [done|]. split; [by rewrite Hk|].
    intros Hp. by destruct (proceeds_not_refuses h m _ o Hsv Hp).
  - destruct Hcase as [[Hk Hp]|(Hk & _ & Href)]; [|by split; [|rewrite Hk]].
    split; [done|]. intros Href. by destruct (proceeds_not_refuses h m _ o Hsv Hp).
  - intros Hne. split_and!; [|done|].
    + intros Hp. apply Hne. unfold settled, settled_kind. rewrite Hp. simpl. rewrite <- Hp.
      by destruct d.
    + intros Hal. destruct (valid_kinds d Hd) as [Hp|[Hp|Hp]]; [..|done]; exfalso; apply Hne;
        unfold settled, settled_kind; rewrite Hp, ?Hal; simpl; rewrite <- Hp; by destruct d.
  - rewrite (NormalizeDecision_settled m _ Hval Hsv). by rewrite settled_idem.
Qed.

Lemma prepareDelivery_honest_witness :
  exists o, prepareDelivery (fun (_ : unit) d => Ok tt) HarnessOpenCode
    (match Mapping OpenCode2_0_20Lifecycle OpenCode2EventPermissionEvaluate with
     | Ok m => m | Err _ => zero_Mapping end)
    (mk_HostResponse (mk_Decision DecisionProceed ReasonLegal) false true) tt
    (Some (mk_Decision DecisionRequireHuman ReasonUnknownActor))
  = Ok (mk_HostResponse (mk_Decision DecisionDeny ReasonUnknownActor) false true, tt, o).
Proof.
  destruct (Mapping OpenCode2_0_20Lifecycle OpenCode2EventPermissionEvaluate) as [m|err] eqn:Hm;
    [|vm_compute in Hm; discriminate].
  assert (NormalizeDecision m (mk_Decision DecisionRequireHuman ReasonUnknownActor)
    = Ok (mk_Decision DecisionDeny ReasonUnknownActor)) as Hn.
  { rewrite <- (f_equal (fun r => match r with Ok x => x | Err _ => m end) Hm).
    vm_compute. reflexivity. }
  destruct (prepareDelivery_honest (fun (_ : unit) d => Ok tt) HarnessOpenCode
    OpenCode2_0_20Lifecycle OpenCode2EventPermissionEvaluate m
    (mk_HostResponse (mk_Decision DecisionProceed ReasonLegal) false true) tt tt
    (mk_Decision DecisionRequireHuman ReasonUnknownActor)
    (mk_Decision DecisionDeny ReasonUnknownActor)) as (o & Ho & _).
  - right. right. left.
  - exact Hm.
  - reflexivity.
  - reflexivity.
  - reflexivity.
  - exact Hn.
  - reflexivity.
  - exists o. exact Ho.
Defined.

(** A verdict of the assignment policy is a denial only where the row has a
    response capability, and never asks a human. *)
Lemma Decide_denies i r d :
  Decide i = Ok r -> Result_Decision r = (d, true) -> d_kind d <> DecisionProceed ->
  d_kind d = DecisionDeny /\ in_Capability i <> CapabilityNone.
Proof.
  assert (forall cap reason r d, denied cap reason = Ok r -> Result_Decision r = (d, true) ->
    d_kind d <> DecisionProceed -> d_kind d = DecisionDeny /\ cap <> CapabilityNone) as Hden.
  { clear. intros cap reason r d. unfold denied, decision, NewDecision. cbv zeta.
    destruct (N.eqb_spec cap CapabilityNone) as [->|Hc].
    - simpl. intros [= <-]. intros [= <-]. done.
    - destruct (Decision_IsValid _) eqn:Hv; [|done]. simpl. intros [= <-].
      unfold Decided. rewrite Hv. simpl. unfold Result_Decision. simpl. rewrite Hv. simpl.
      intros [= <-] _. done. }
  assert (forall reason r d, decision DecisionProceed reason = Ok r ->
    Result_Decision r = (d, true) -> d_kind d = DecisionProceed) as Hpro.
  { clear. intros reason r d. unfold decision, NewDecision. cbv zeta.
    destruct (Decision_IsValid _) eqn:Hv; [|done]. simpl. intros [= <-].
    unfold Decided. rewrite Hv. simpl. unfold Result_Decision. simpl. rewrite Hv. simpl.
    by intros [= <-]. }
  assert (forall k r d, refusal k = Ok r -> Result_Decision r = (d, true) -> False) as Href.
  { clear. intros k r d. unfold refusal, NewRefusal. destruct (RefusalKind_IsValid k) eqn:Hk; [|done].
    simpl. intros [= <-]. unfold Refused, Refusal_IsValid. simpl. rewrite Hk. done. }
  unfold Decide. intros H Hr Hd.
  repeat match type of H with
  | (if ?b then _ else _) = _ => destruct b
  | match ?x with Some _ => _ | None => _ end = _ => destruct x as [[??]|]
  end; try done; try (by destruct (Href _ _ _ H Hr)); try (by destruct (Hd (Hpro _ _ _ H Hr)));
    exact (Hden _ _ _ _ H Hr Hd).
Qed.

(** C15: A verdict of the assignment policy, taken with the response capability
    of the row it is delivered on, is persisted and delivered as it was
    evaluated; and the host is refused only on a pre-action gate that is
    blocking and cites its refusal channel. *)
Theorem policy_verdict_delivered h c e m i r d :
  (h, c) ∈ pinned_profiles -> Mapping c e = Ok m ->
  in_Capability i = lm_response m -> Decide i = Ok r -> Result_Decision r = (d, true) ->
  exists o,
    NormalizeDecision m d = Ok d /\ encode h m (mk_HostResponse d false true) = Ok o /\
    (d_kind d = DecisionProceed /\ host_proceeds h m o \/
     d_kind d = DecisionDeny /\ host_refuses h d o /\
     lm_preAction m = true /\ lm_semantic m = SemanticGateConsultation /\
     lm_blocking m <> NonBlocking /\ IsPresent (lm_evidence m) = true).
Proof.
  intros Hc Hm Hcap Hdec Hr.
  destruct (profile_row_sound _ _ _ _ Hc Hm) as (_ & Hval & Hder).
  pose proof (profile_row_encodable _ _ _ _ Hc Hm) as Henc.
  assert (Decision_IsValid d = true) as Hd.
  { unfold Result_Decision in Hr. destruct (_ || _) eqn:E; [done|]. injection Hr as <-.
    by apply orb_false_iff in E as [?%negb_false_iff _]. }
  assert (d_kind d <> DecisionProceed ->
    d_kind d = DecisionDeny /\ AllowsDeny (lm_response m) = true) as Hdeny.
  { intros Hk. destruct (Decide_denies _ _ _ Hdec Hr Hk) as [Hdk Hne]. split; [done|].
    rewrite Hcap, Hder in Hne. rewrite Hder. unfold derivedResponse in *.
    destruct (_ || _); [done|]. by destruct (IsPresent _). }
  assert (settled m d = d) as Hset.
  { unfold settled, settled_kind. destruct (N.eqb_spec (d_kind d) DecisionProceed) as [Hk|Hk].
    - simpl. rewrite <- Hk. by destruct d.
    - destruct (Hdeny Hk) as [Hdk Hal]. rewrite Hal, Hdk. simpl. rewrite <- Hdk. by destruct d. }
  destruct (encode_settled h m d Hval Henc Hd) as (o & Ho & Hcase). rewrite Hset in *.
  exists o. split; [rewrite (NormalizeDecision_settled m d Hval Hd); by rewrite Hset|].
  split; [done|]. destruct Hcase as [[Hk Hp]|(Hk & Hal & Href)]; [by left|right].
  rewrite Hder in Hal. by apply AllowsDeny_derived in Hal as (?&?&?&?).
Qed.

Lemma policy_verdict_delivered_witness :
  exists m o, Mapping ClaudeCode2_1_261Lifecycle ClaudeEventPreToolUse = Ok m /\
    encode HarnessClaudeCode m
      (mk_HostResponse (mk_Decision DecisionDeny ReasonPhaseForbidsAction) false true) = Ok o /\
    oc_Exit o = ExitBlock.
Proof.
  destruct (Mapping ClaudeCode2_1_261Lifecycle ClaudeEventPreToolUse) as [m|err] eqn:Hm;
    [|vm_compute in Hm; discriminate].
  assert (lm_response m = CapabilityDeny) as Hcap.
  { rewrite <- (f_equal (fun r => match r with Ok x => x | Err _ => m end) Hm).
    vm_compute. reflexivity. }
  destruct (policy_verdict_delivered HarnessClaudeCode ClaudeCode2_1_261Lifecycle
    ClaudeEventPreToolUse m
    (consultation ActionWorktree [axis_reviewer_in PhaseReview; owner_in PhaseRatify])
    (mk_Result (mk_Decision DecisionDeny ReasonPhaseForbidsAction) zero_Refusal)
    (mk_Decision DecisionDeny ReasonPhaseForbidsAction)) as (o & _ & Ho & Hcase).
  - left.
  - exact Hm.
  - rewrite Hcap. reflexivity.
  - vm_compute. reflexivity.
  - vm_compute. reflexivity.
  - exists m, o. split; [reflexivity|]. split; [exact Ho|].
    destruct Hcase as [[Hk _]|(_ & [[_ ->]|[Hh _]] & _)]; [discriminate|reflexivity|discriminate].
Defined.
