(* ===== verification/Settlement.v ===== *)
(** Settlement: the commit fence between the deadline of a hook and the
    journal append of its event (internal/lifecycle/receipt/settlement.go).

    Each critical section of the mutex is one function on the fence.  The
    channel is nil, open or closed; closing a nil or closed channel panics, and
    that is [None] here.  [run] is split at the callback, which runs outside the
    mutex. *)

From Stdlib Require Import NArith ZArith Lia Ascii String.
From stdpp Require Import base tactics list strings.
From S2P Require Import Prelude NativeRows HostExit.
Local Open Scope string_scope.
Local Open Scope list_scope.

Inductive settlementState :=
  | settlementIdle
  | settlementActive
  | settlementFinished
  | settlementAbandoned.
#[export] Instance settlementState_eq_dec : EqDecision settlementState.
Proof. solve_decision. Defined.

(** [Some closed] is a channel, [None] is nil. *)
Abbreviation Signal := (option bool) (only parsing).
Definition made (c : Signal) : Signal := match c with None => Some false | Some b => Some b end.
Definition closed (c : Signal) : option (option bool) :=
  match c with Some false => Some (Some true) | _ => None end.
Definition is_closed (c : Signal) : bool := match c with Some true => true | _ => false end.

Record CommitSettlement := mk_Settlement {
  cs_state : settlementState;
  cs_done : option bool;
  cs_outcome : Outcome;
  cs_committed : bool;
}.
Definition NewCommitSettlement : CommitSettlement :=
  mk_Settlement settlementIdle (Some false) zero_Outcome false.

Inductive FenceError :=
  | UnknownExit
  | AlreadySettled
  | CancelledBeforeEntry (cause : GoError)
  | NoOccurrence
  | AppendError (cause : GoError).

(** What the first critical section decides. *)
Inductive Entry :=
  | Refused (e : FenceError) (s : CommitSettlement)
  | Entered (s : CommitSettlement)
  | EntryPanic.

Definition run_enter (s : CommitSettlement) (ctx : option GoError) (outcome : Outcome)
    (publish : bool) : Entry :=
  if publish && negb (Code (oc_Exit outcome)).2 then Refused UnknownExit s
  else if negb (bool_decide (cs_state s = settlementIdle)) then Refused AlreadySettled s
  else match ctx with
  | Some err =>
      match closed (made (cs_done s)) with
      | None => EntryPanic
      | Some d =>
          Refused (CancelledBeforeEntry err)
            (mk_Settlement settlementAbandoned d (cs_outcome s) (cs_committed s))
      end
  | None =>
      Entered (mk_Settlement settlementActive (made (cs_done s)) (cs_outcome s) (cs_committed s))
  end.

(** How the append callback ends. *)
Inductive Appended :=
  | AppendReturned (id : Z) (err : option GoError)
  | AppendPanicked.

(** What [run] returns, [None] when the panic of the callback goes on. *)
Definition run_result (a : Appended) : option (result FenceError Z) :=
  match a with
  | AppendPanicked => None
  | AppendReturned id (Some e) => Some (Err (AppendError e))
  | AppendReturned id None => Some (if (id =? 0)%Z then Err NoOccurrence else Ok id)
  end.
Definition append_committed (publish : bool) (a : Appended) : bool :=
  match a with
  | AppendPanicked => false
  | AppendReturned id err => publish && bool_decide (err = None) && (0 <? id)%Z
  end.

(** The deferred section, which runs on a panic of the callback too. *)
Definition run_finish (s : CommitSettlement) (outcome : Outcome) (committed : bool)
    : option CommitSettlement :=
  d ← closed (cs_done s);
  Some (mk_Settlement settlementFinished d (if committed then outcome else cs_outcome s) committed).

Definition Expire (s : CommitSettlement) : option CommitSettlement :=
  let d := made (cs_done s) in
  if bool_decide (cs_state s = settlementIdle) then
    d' ← closed d;
    Some (mk_Settlement settlementAbandoned d' (cs_outcome s) (cs_committed s))
  else Some (mk_Settlement (cs_state s) d (cs_outcome s) (cs_committed s)).

Definition CommittedOutcome (s : CommitSettlement) : Outcome * bool := (cs_outcome s, cs_committed s).

(** * Theorems *)

(** The invariant of a fence, with [run] as the history of the one admitted
    append: not begun, in flight, or ended. *)
Record fence_ok (s : CommitSettlement) : Prop := {
  fo_closed : is_closed (cs_done s) = true <->
    cs_state s = settlementFinished \/ cs_state s = settlementAbandoned;
  fo_made : cs_state s = settlementActive -> cs_done s = Some false;
  fo_committed : cs_committed s = true -> cs_state s = settlementFinished;
  fo_exit : cs_committed s = true -> (Code (oc_Exit (cs_outcome s))).2 = true;
}.

Lemma fence_ok_new : fence_ok NewCommitSettlement.
Proof. split; simpl; try done. split; [done|by intros [|]]. Qed.

(** The states a fence never leaves. *)
Definition settled_fence (s : CommitSettlement) : Prop :=
  cs_state s = settlementFinished \/ cs_state s = settlementAbandoned.

Lemma idle_open s : fence_ok s -> cs_state s = settlementIdle -> made (cs_done s) = Some false.
Proof.
  intros [Hc _ _ _] Hi. destruct (cs_done s) as [[|]|]; try done. simpl in Hc.
  destruct (proj1 Hc eq_refl) as [H|H]; congruence.
Qed.

Lemma run_enter_ok s ctx outcome publish :
  fence_ok s ->
  match run_enter s ctx outcome publish with
  | EntryPanic => False
  | Entered s' =>
      fence_ok s' /\ cs_state s = settlementIdle /\ cs_state s' = settlementActive /\
      cs_committed s' = false /\ ctx = None /\
      (publish = true -> (Code (oc_Exit outcome)).2 = true)
  | Refused e s' =>
      fence_ok s' /\ cs_committed s' = cs_committed s /\ cs_outcome s' = cs_outcome s /\
      (s' = s \/ cs_state s = settlementIdle /\ cs_state s' = settlementAbandoned /\ is_Some ctx)
  end.
Proof.
  intros Hok. unfold run_enter. destruct (publish && _) eqn:Hp; [split_and!; auto|].
  case_bool_decide as Hi; simpl; [|split_and!; auto].
  assert (cs_committed s = false) as Hc.
  { destruct (cs_committed s) eqn:E; [|done]. apply (fo_committed _ Hok) in E. congruence. }
  rewrite (idle_open s Hok Hi). destruct ctx as [err|]; simpl.
  - split_and!; [split; simpl; rewrite ?Hc; try done; split; auto|done..|right; by eauto].
  - split_and!; [split; simpl; rewrite ?Hc; try done; by split; [|intros [|]]|done..|].
    intros ->. simpl in Hp. by apply negb_false_iff.
Qed.

Lemma run_finish_ok s outcome committed :
  fence_ok s -> cs_state s = settlementActive -> cs_committed s = false ->
  (committed = true -> (Code (oc_Exit outcome)).2 = true) ->
  exists s', run_finish s outcome committed = Some s' /\ fence_ok s' /\
    cs_state s' = settlementFinished /\ is_closed (cs_done s') = true /\
    cs_committed s' = committed /\ (committed = true -> cs_outcome s' = outcome).
Proof.
  intros Hok Ha Hc Hx. unfold run_finish. rewrite (fo_made _ Hok Ha). simpl.
  eexists. split; [done|]. simpl. split_and!; [|done..|by intros ->].
  split; simpl; [by split; [left|]|done|done|]. intros ->. auto.
Qed.

Lemma Expire_ok s :
  fence_ok s ->
  exists s', Expire s = Some s' /\ fence_ok s' /\
    cs_committed s' = cs_committed s /\ cs_outcome s' = cs_outcome s /\
    (cs_state s = settlementIdle /\ cs_state s' = settlementAbandoned \/
     cs_state s <> settlementIdle /\ cs_state s' = cs_state s).
Proof.
  intros Hok. unfold Expire. case_bool_decide as Hi.
  - assert (cs_committed s = false) as Hc.
    { destruct (cs_committed s) eqn:E; [|done]. apply (fo_committed _ Hok) in E. congruence. }
    rewrite (idle_open s Hok Hi). simpl. eexists. split; [done|]. simpl.
    split_and!; [|done..|by left]. split; simpl; rewrite ?Hc; try done. split; auto.
  - eexists. split; [done|]. simpl. split_and!; [|done..|by right].
    destruct Hok as [H1 H2 H3 H4]. split; simpl; [|intros Ha; by rewrite (H2 Ha)|done..].
    destruct (cs_done s) as [b|]; simpl; [done|]. rewrite <- H1. done.
Qed.

(** Nothing changes a settled fence: no append is admitted, and what it
    published stays. *)
Lemma settled_fence_stable s :
  fence_ok s -> settled_fence s ->
  Expire s = Some s /\
  forall ctx outcome publish, exists e, run_enter s ctx outcome publish = Refused e s.
Proof.
  intros Hok Hs. assert (cs_state s <> settlementIdle) as Hn by (destruct Hs as [-> | ->]; done).
  split.
  - unfold Expire. rewrite bool_decide_false by done.
    apply (fo_closed _ Hok) in Hs. destruct s as [st [[|]|] o c]; done.
  - intros ctx outcome publish. unfold run_enter.
    destruct (publish && _); [by eexists|]. rewrite bool_decide_false by done. by eexists.
Qed.
