(* ===== verification/LaneWire.v ===== *)
(** LaneWire: the frames of the lifecycle write lane and the conversation of
    its two ends (internal/lifecycle/lanewire/wire.go,
    internal/lifecycle/laneclient/client.go,
    internal/lifecycle/laneserve/serve.go).

    The JSON codec of the frame headers is an interface.  A connection is what
    the peer makes readable on it, how it will accept the writes still to come,
    and what it has accepted so far; both scripts are arbitrary, so the
    theorems hold against any peer. *)

From Stdlib Require Import NArith ZArith Lia Ascii String.
From stdpp Require Import base tactics list strings.
From S2P Require Import Prelude GoStrings NativeRows Execution HostExit.
Local Open Scope string_scope.
Local Open Scope list_scope.

(** ** The protocol *)
Definition ProtocolVersion : Z := 4.
Definition KindCommitted : string := "committed".
Definition KindRefused : string := "refused".
Definition KindReady : string := "ready".
Definition MaxHeaderBytes : N := 65536.
Definition MaxBodyBytes : N := 4194304.

Record Request := mk_Request {
  rq_Version : Z;
  rq_Harness : string;
  rq_Event : string;
  rq_HostVersion : string;
  rq_HostVersionSource : string;
  rq_ActorClaim : string;
  rq_ImplicitClaim : bool;
  rq_Execution : Invocation;
}.
Definition version_only (v : Z) : Request :=
  mk_Request v EmptyString EmptyString EmptyString EmptyString EmptyString false zero_Invocation.
Definition set_Version (r : Request) (v : Z) : Request :=
  mk_Request v (rq_Harness r) (rq_Event r) (rq_HostVersion r) (rq_HostVersionSource r)
    (rq_ActorClaim r) (rq_ImplicitClaim r) (rq_Execution r).

Record Response := mk_Response {
  rs_Version : Z;
  rs_Kind : string;
  rs_ExitStatus : Z;
  rs_Stdout : string;
  rs_Stderr : string;
  rs_OccurrenceID : string;
  rs_ClaimState : string;
  rs_Stage : string;
  rs_Refusal : string;
}.
Definition ready_response : Response :=
  mk_Response ProtocolVersion KindReady 0 EmptyString EmptyString EmptyString EmptyString
    EmptyString EmptyString.

(** [json.Marshal] of a header, and the strict decode of one: no unknown
    member, and nothing after the object.  The round trip is promised for the
    headers whose strings JSON can carry. *)
Class HeaderCodec (A : Type) := {
  json_Marshal : A -> option bytes;
  json_strict : bytes -> option A;
  json_carries : A -> Prop;
  json_round a b : json_carries a -> json_Marshal a = Some b -> json_strict b = Some a;
}.

(** ** Connections *)
Inductive WriteResult :=
  | Accepts (n : nat)
  | WriteFails (cause : string).
Record Conn := mk_Conn {
  cn_readable : bytes;
  cn_writes : list WriteResult;
  cn_sent : bytes;
}.

Inductive WireError :=
  | EncodeFailed
  | HeaderTooLarge (n : N)
  | BodyTooLarge (n : N)
  | StreamFailed (cause : string)
  | StreamStalled
  | ShortRead
  | DecodeFailed
  | VersionMismatch (version : Z).

(** [binary.BigEndian.AppendUint32] and [Uint32]. *)
Definition AppendUint32 (n : N) : bytes :=
  [ascii_of_N (n / 16777216 mod 256); ascii_of_N (n / 65536 mod 256);
   ascii_of_N (n / 256 mod 256); ascii_of_N (n mod 256)]%N.
Definition Uint32 (b : bytes) : N := foldl (fun acc c => acc * 256 + N_of_ascii c)%N 0%N b.

(** The loop over the rest of the frame.  A writer accepts at most what it was
    given; [Write] returning nothing and no error ends the loop. *)
Fixpoint write_loop (frame : bytes) (writes : list WriteResult) (sent : bytes)
    : result WireError unit * list WriteResult * bytes :=
  match frame with
  | [] => (Ok tt, writes, sent)
  | _ :: _ =>
      match writes with
      | [] => (Err (StreamFailed "closed"), [], sent)
      | WriteFails cause :: rest => (Err (StreamFailed cause), rest, sent)
      | Accepts n :: rest =>
          if (n =? 0)%nat then (Err StreamStalled, rest, sent)
          else write_loop (drop n frame) rest (sent ++ take n frame)
      end
  end.

Definition frame_of (encoded body : bytes) : bytes :=
  AppendUint32 (N.of_nat (length encoded)) ++ encoded
  ++ AppendUint32 (N.of_nat (length body)) ++ body.

Definition WriteMessage {A} `{HeaderCodec A} (c : Conn) (header : A) (body : bytes)
    : result WireError unit * Conn :=
  match json_Marshal header with
  | None => (Err EncodeFailed, c)
  | Some encoded =>
      let hlen := N.of_nat (length encoded) in
      let blen := N.of_nat (length body) in
      if (MaxHeaderBytes <? hlen)%N then (Err (HeaderTooLarge hlen), c)
      else if (MaxBodyBytes <? blen)%N then (Err (BodyTooLarge blen), c)
      else
        let '(r, writes, sent) := write_loop (frame_of encoded body) (cn_writes c) (cn_sent c) in
        (r, mk_Conn (cn_readable c) writes sent)
  end.

(** [io.ReadFull]: the bytes asked for, or an error once they run out. *)
Definition ReadFull (b : bytes) (n : N) : option (bytes * bytes) :=
  let k := N.to_nat n in
  if (k <=? length b)%nat then Some (take k b, drop k b) else None.
Definition readUint32 (b : bytes) : option (N * bytes) :=
  '(h, rest) ← ReadFull b 4; Some (Uint32 h, rest).

(** The header and the body of one frame, and what is left to read. *)
Definition ReadMessage {A} `{HeaderCodec A} (b : bytes) : result WireError (A * bytes) * bytes :=
  match readUint32 b with
  | None => (Err ShortRead, [])
  | Some (headerLength, b1) =>
      if (MaxHeaderBytes <? headerLength)%N then (Err (HeaderTooLarge headerLength), b1)
      else match ReadFull b1 headerLength with
      | None => (Err ShortRead, [])
      | Some (encoded, b2) =>
          match json_strict encoded with
          | None => (Err DecodeFailed, b2)
          | Some header =>
              match readUint32 b2 with
              | None => (Err ShortRead, [])
              | Some (bodyLength, b3) =>
                  if (MaxBodyBytes <? bodyLength)%N then (Err (BodyTooLarge bodyLength), b3)
                  else match ReadFull b3 bodyLength with
                  | None => (Err ShortRead, [])
                  | Some (body, b4) => (Ok (header, body), b4)
                  end
              end
          end
      end
  end.

Definition read_conn {A} `{HeaderCodec A} (c : Conn) : result WireError (A * bytes) * Conn :=
  let '(r, rest) := ReadMessage (cn_readable c) in
  (r, mk_Conn rest (cn_writes c) (cn_sent c)).

Definition CheckVersion (version : Z) : result WireError unit :=
  if negb (version =? ProtocolVersion)%Z then Err (VersionMismatch version) else Ok tt.

(** ** The client *)
Inductive ClientError :=
  | ErrUnavailable
  | ErrRecordUnknown.

Section client.
Context `{!HeaderCodec Request, !HeaderCodec Response}.

(** What follows the version probe on the connection. *)
Definition Consult_request (c : Conn) (request : Request) (payload : bytes)
    : result ClientError Response * Conn :=
  match WriteMessage c request payload with
  | (Err _, c) => (Err ErrRecordUnknown, c)
  | (Ok _, c) =>
      match read_conn (A:=Response) c with
      | (Err _, c) => (Err ErrRecordUnknown, c)
      | (Ok (response, _), c) =>
          if negb (is_ok (CheckVersion (rs_Version response))) then (Err ErrRecordUnknown, c)
          else if one_of (rs_Kind response) [KindCommitted; KindRefused]
          then (Ok response, c) else (Err ErrRecordUnknown, c)
      end
  end.

(** [dial] is the connection, or [None] when it could not be made. *)
Definition Consult (dial : option Conn) (request : Request) (payload : bytes)
    : result ClientError Response * option Conn :=
  match dial with
  | None => (Err ErrUnavailable, None)
  | Some c =>
      match WriteMessage c (version_only ProtocolVersion) [] with
      | (Err _, c) => (Err ErrUnavailable, Some c)
      | (Ok _, c) =>
          match read_conn (A:=Response) c with
          | (Err _, c) => (Err ErrUnavailable, Some c)
          | (Ok (ready, _), c) =>
              if negb (is_ok (CheckVersion (rs_Version ready)))
                 || negb (String.eqb (rs_Kind ready) KindReady)
              then (Err ErrUnavailable, Some c)
              else
                let '(r, c) :=
                  Consult_request c (set_Version request ProtocolVersion) payload in
                (r, Some c)
          end
      end
  end.

(** ** The server *)

(** What the daemon's handler answers for one request: the outcome with its
    occurrence and claim state, or the stage and the text of its error. *)
Inductive Served :=
  | ServedOutcome (o : Outcome) (occurrence claim : string)
  | ServeFailed (stage : FaultStage) (text : string).
Variable Serve : Request -> bytes -> Served.
(** The text [CheckVersion] refuses a version with. *)
Variable version_text : Z -> string.

Definition refuse (c : Conn) (stage : FaultStage) (cause : string) : Conn :=
  (WriteMessage c (mk_Response ProtocolVersion KindRefused 0 EmptyString EmptyString EmptyString
    EmptyString (FaultStage_String stage) cause) []).2.

Definition is_probe (request : Request) (payload : bytes) : bool :=
  String.eqb (rq_Harness request) EmptyString && String.eqb (rq_Event request) EmptyString
  && String.eqb (rq_HostVersion request) EmptyString
  && String.eqb (rq_HostVersionSource request) EmptyString
  && String.eqb (rq_ActorClaim request) EmptyString && negb (rq_ImplicitClaim request)
  && bool_decide (rq_Execution request = zero_Invocation) && bool_decide (payload = []).

Definition answer (c : Conn) (served : Served) : Conn :=
  match served with
  | ServeFailed stage text => refuse c stage text
  | ServedOutcome o occurrence claim =>
      if negb (Code (oc_Exit o)).2 then
        refuse c FaultStageRecordUnknown
          ("the served lifecycle outcome named no exit status, so no host answer can be constructed; the occurrence "
           ++ occurrence
           ++ " may or may not be committed and the answer is record-unknown")%string
      else
        (WriteMessage c (mk_Response ProtocolVersion KindCommitted (Z.of_N (oc_Exit o))
           (oc_Stdout o) (oc_Stderr o) occurrence claim EmptyString EmptyString) []).2
  end.

(** The requests handed to the handler, in order, and the connection after. *)
Definition ServeConn (c : Conn) : list (Request * bytes) * Conn :=
  match read_conn (A:=Request) c with
  | (Err _, c) => ([], c)
  | (Ok (request, payload), c) =>
      match CheckVersion (rq_Version request) with
      | Err _ =>
          ([], refuse c FaultStageNotRecorded
            (version_text (rq_Version request)
             ++ "; nothing was read past the frame, so nothing was committed for this event")%string)
      | Ok _ =>
          if negb (is_probe request payload) then
            ([], refuse c FaultStageNotRecorded
              "lifecycle lane expected a version-only probe before receipt work; reconnect with a compatible client")
          else match WriteMessage c ready_response [] with
          | (Err _, c) => ([], c)
          | (Ok _, c) =>
              match read_conn (A:=Request) c with
              | (Err _, c) => ([], c)
              | (Ok (request, payload), c) =>
                  match CheckVersion (rq_Version request) with
                  | Err _ => ([], refuse c FaultStageNotRecorded (version_text (rq_Version request)))
                  | Ok _ => ([(request, payload)], answer c (Serve request payload))
                  end
              end
          end
      end
  end.
End client.

(** * Theorems *)

(** ** Frames *)
Lemma N_of_ascii_of_N n : (n < 256)%N -> N_of_ascii (ascii_of_N n) = n.
Proof. apply N_ascii_embedding. Qed.

Lemma Uint32_AppendUint32 n : (n < 4294967296)%N -> Uint32 (AppendUint32 n) = n.
Proof.
  intros Hn. unfold Uint32, AppendUint32. cbn [foldl].
  assert (forall k, k mod 256 < 256)%N as Hm by (intros; apply N.mod_lt; lia).
  rewrite !N_of_ascii_of_N by auto.
  pose proof (N.div_mod n 256 ltac:(lia)) as D0. pose proof (Hm n) as M0.
  pose proof (N.div_mod (n / 256) 256 ltac:(lia)) as D1. pose proof (Hm (n / 256)%N) as M1.
  pose proof (N.div_mod (n / 65536) 256 ltac:(lia)) as D2. pose proof (Hm (n / 65536)%N) as M2.
  assert (n / 256 / 256 = n / 65536)%N as E1 by (rewrite N.Div0.div_div; reflexivity).
  assert (n / 65536 / 256 = n / 16777216)%N as E2 by (rewrite N.Div0.div_div; reflexivity).
  assert (n / 16777216 < 256)%N as E3 by (apply N.Div0.div_lt_upper_bound; lia).
  rewrite (N.mod_small (n / 16777216) 256) by done. lia.
Qed.

Lemma write_loop_prefix frame writes sent r writes' sent' :
  write_loop frame writes sent = (r, writes', sent') ->
  exists p, sent' = sent ++ p /\ p `prefix_of` frame /\ (r = Ok tt -> p = frame).
Proof.
  revert frame sent. induction writes as [|w writes IH]; intros frame sent.
  - destruct frame as [|b frame]; simpl; intros [= <- <- <-]; exists [];
      rewrite app_nil_r; (split_and!; [done|apply prefix_nil|done]).
  - destruct frame as [|b frame]; simpl.
    { intros [= <- <- <-]. exists []. rewrite app_nil_r. by split_and!. }
    destruct w as [n|cause].
    + destruct n as [|n]; simpl.
      { intros [= <- <- <-]. exists []. rewrite app_nil_r. split_and!; [done|apply prefix_nil|done]. }
      intros (p & -> & [k Hk] & Hr)%IH. exists (b :: take n frame ++ p).
      rewrite <- app_assoc. split_and!; [done| |].
      * exists k. simpl. rewrite <- app_assoc, <- Hk. by rewrite take_drop.
      * intros Ho. rewrite (Hr Ho). by rewrite take_drop.
    + intros [= <- <- <-]. exists []. rewrite app_nil_r. split_and!; [done|apply prefix_nil|done].
Qed.

(** The loop ends within as many writes as the frame has bytes, since each one
    that does not fail takes at least one. *)
Lemma write_loop_completes frame writes sent :
  Forall (fun w => exists n, w = Accepts (S n)) writes -> (length frame <= length writes)%nat ->
  exists writes', write_loop frame writes sent = (Ok tt, writes', sent ++ frame).
Proof.
  revert frame sent. induction writes as [|w writes IH]; intros frame sent Hw Hl.
  - destruct frame; [|simpl in Hl; lia]. exists []. by rewrite app_nil_r.
  - destruct frame as [|b frame]; [eexists; simpl; by rewrite app_nil_r|].
    apply Forall_cons in Hw as [[n ->] Hw]. simpl in Hl |- *.
    destruct (IH (drop n frame) (sent ++ b :: take n frame) Hw) as [writes' H'].
    { rewrite length_drop. lia. }
    exists writes'. rewrite H'. by rewrite <- app_assoc; simpl; rewrite take_drop.
Qed.

Lemma length_AppendUint32 n : length (AppendUint32 n) = 4%nat.
Proof. done. Qed.

Lemma ReadFull_app a b : ReadFull (a ++ b) (N.of_nat (length a)) = Some (a, b).
Proof.
  unfold ReadFull. rewrite Nat2N.id, length_app.
  replace (length a <=? length a + length b)%nat with true by (symmetry; apply Nat.leb_le; lia).
  by rewrite take_app_length, drop_app_length.
Qed.

Lemma ReadFull_Some b n x rest :
  ReadFull b n = Some (x, rest) -> b = x ++ rest /\ length x = N.to_nat n.
Proof.
  unfold ReadFull. destruct (Nat.leb_spec (N.to_nat n) (length b)); [|done].
  intros [= <- <-]. rewrite take_drop. split; [done|]. by rewrite length_take_le.
Qed.

Lemma readUint32_Append n b :
  (n < 4294967296)%N -> readUint32 (AppendUint32 n ++ b) = Some (n, b).
Proof.
  intros Hn. unfold readUint32. change 4%N with (N.of_nat (length (AppendUint32 n))).
  rewrite ReadFull_app. simpl. by rewrite Uint32_AppendUint32.
Qed.

Lemma readUint32_Some b n rest :
  readUint32 b = Some (n, rest) -> exists h, b = h ++ rest /\ length h = 4%nat /\ Uint32 h = n.
Proof.
  unfold readUint32. destruct (ReadFull b 4) as [[h r]|] eqn:E; [|done]. simpl.
  intros [= <- <-]. apply ReadFull_Some in E as [-> Hl]. by exists h.
Qed.

Definition fits (encoded body : bytes) : Prop :=
  (N.of_nat (length encoded) <= MaxHeaderBytes)%N /\ (N.of_nat (length body) <= MaxBodyBytes)%N.

Section frames.
Context {A} `{!HeaderCodec A}.

Lemma ReadMessage_frame (a : A) encoded body rest :
  json_strict encoded = Some a -> fits encoded body ->
  ReadMessage (frame_of encoded body ++ rest) = (Ok (a, body), rest).
Proof.
  unfold fits, MaxHeaderBytes, MaxBodyBytes. intros Hd [Hh Hb].
  unfold ReadMessage, frame_of. rewrite <- !app_assoc.
  rewrite readUint32_Append by lia. unfold MaxHeaderBytes.
  rewrite (proj2 (N.ltb_ge _ _) Hh), ReadFull_app, Hd.
  rewrite readUint32_Append by lia. unfold MaxBodyBytes.
  by rewrite (proj2 (N.ltb_ge _ _) Hb), ReadFull_app.
Qed.

(** Everything [ReadMessage] does with its input. *)
Lemma ReadMessage_Ok b (a : A) body rest :
  ReadMessage b = (Ok (a, body), rest) ->
  exists h encoded l, b = h ++ encoded ++ l ++ body ++ rest /\
    length h = 4%nat /\ Uint32 h = N.of_nat (length encoded) /\
    length l = 4%nat /\ Uint32 l = N.of_nat (length body) /\
    json_strict encoded = Some a /\ fits encoded body.
Proof.
  unfold ReadMessage, fits.
  destruct (readUint32 b) as [[hl b1]|] eqn:E1; [|done].
  destruct (N.ltb_spec MaxHeaderBytes hl) as [|Hh]; [done|].
  destruct (ReadFull b1 hl) as [[enc b2]|] eqn:E2; [|done].
  destruct (json_strict enc) as [x|] eqn:E3; [|done].
  destruct (readUint32 b2) as [[bl b3]|] eqn:E4; [|done].
  destruct (N.ltb_spec MaxBodyBytes bl) as [|Hb]; [done|].
  destruct (ReadFull b3 bl) as [[bd b4]|] eqn:E5; [|done].
  intros [= <- <- <-].
  apply readUint32_Some in E1 as (h & -> & Hl1 & <-). apply ReadFull_Some in E2 as [-> Hl2].
  apply readUint32_Some in E4 as (l & -> & Hl3 & <-). apply ReadFull_Some in E5 as [-> Hl4].
  exists h, enc, l. rewrite Hl2, Hl4, !N2Nat.id. by split_and!.
Qed.

(** What is left after a read is a suffix of what was there. *)
Lemma ReadMessage_suffix b r rest :
  ReadMessage (A:=A) b = (r, rest) -> exists p, b = p ++ rest.
Proof.
  unfold ReadMessage.
  destruct (readUint32 b) as [[hl b1]|] eqn:E1; [|intros [= _ <-]; exists b; by rewrite app_nil_r].
  apply readUint32_Some in E1 as (h & -> & _).
  destruct (_ <? _)%N; [intros [= _ <-]; by exists h|].
  destruct (ReadFull b1 hl) as [[enc b2]|] eqn:E2;
    [|intros [= _ <-]; eexists; by rewrite app_nil_r].
  apply ReadFull_Some in E2 as [-> _].
  destruct (json_strict enc); [|intros [= _ <-]; exists (h ++ enc); by rewrite <- app_assoc].
  destruct (readUint32 b2) as [[bl b3]|] eqn:E4;
    [|intros [= _ <-]; eexists; by rewrite app_nil_r].
  apply readUint32_Some in E4 as (l & -> & _).
  destruct (_ <? _)%N; [intros [= _ <-]; exists (h ++ enc ++ l); by rewrite <- !app_assoc|].
  destruct (ReadFull b3 bl) as [[bd b4]|] eqn:E5;
    [|intros [= _ <-]; eexists; by rewrite app_nil_r].
  apply ReadFull_Some in E5 as [-> _]. intros [= _ <-].
  exists (h ++ enc ++ l ++ bd). by rewrite <- !app_assoc.
Qed.

(** A frame is found in a prefix of it only when nothing is missing. *)
Lemma ReadMessage_prefix encoded body p (a : A) b rest :
  fits encoded body -> p `prefix_of` frame_of encoded body ->
  ReadMessage p = (Ok (a, b), rest) -> rest = [].
Proof.
  unfold fits, MaxHeaderBytes, MaxBodyBytes. intros [Hh Hb] [k Hk] H.
  apply ReadMessage_Ok in H as (h & enc & l & -> & Hl1 & Hu1 & Hl2 & Hu2 & _ & _).
  unfold frame_of in Hk. rewrite <- !app_assoc in Hk.
  apply app_inj_1 in Hk as [Eh Hk]; [|by rewrite Hl1].
  rewrite <- Eh, Uint32_AppendUint32 in Hu1 by lia. apply Nat2N.inj in Hu1.
  apply app_inj_1 in Hk as [Ee Hk]; [|done].
  apply app_inj_1 in Hk as [El Hk]; [|by rewrite Hl2].
  rewrite <- El, Uint32_AppendUint32 in Hu2 by lia. apply Nat2N.inj in Hu2.
  apply (f_equal length) in Hk. rewrite !length_app in Hk.
  destruct rest; [done|simpl in Hk; lia].
Qed.

Lemma WriteMessage_sent c (a : A) body r c' :
  WriteMessage c a body = (r, c') ->
  exists p, cn_sent c' = cn_sent c ++ p /\ cn_readable c' = cn_readable c /\
    match json_Marshal a with
    | Some encoded => p `prefix_of` frame_of encoded body /\
                      (p <> [] \/ r = Ok tt -> fits encoded body) /\
                      (r = Ok tt -> p = frame_of encoded body)
    | None => p = [] /\ r = Err EncodeFailed
    end.
Proof.
  unfold WriteMessage. destruct (json_Marshal a) as [encoded|].
  2:{ intros [= <- <-]. exists []. by rewrite app_nil_r. }
  destruct (N.ltb_spec MaxHeaderBytes (N.of_nat (length encoded))) as [Hh|Hh].
  { intros [= <- <-]. exists []. rewrite app_nil_r. split_and!; [done..| | |done].
    - apply prefix_nil.
    - by intros [|]. }
  destruct (N.ltb_spec MaxBodyBytes (N.of_nat (length body))) as [Hb|Hb].
  { intros [= <- <-]. exists []. rewrite app_nil_r. split_and!; [done..| | |done].
    - apply prefix_nil.
    - by intros [|]. }
  destruct (write_loop _ _ _) as [[r1 w1] s1] eqn:E. intros [= <- <-].
  apply write_loop_prefix in E as (p & -> & Hp & Hr). exists p. by split_and!.
Qed.
End frames.

(** ** The two ends *)
Section conversation.
Context `{!HeaderCodec Request, !HeaderCodec Response}.
Variable Serve : Request -> bytes -> Served.
Variable version_text : Z -> string.
Let serve := ServeConn Serve version_text.

(** A server that can read at most one frame hands nothing to its handler. *)
Lemma ServeConn_one_frame encoded body c :
  fits encoded body -> cn_readable c `prefix_of` frame_of encoded body -> (serve c).1 = [].
Proof.
  intros Hf Hp. unfold serve, ServeConn, read_conn.
  destruct (ReadMessage (cn_readable c)) as [[[q pl]|e] rest] eqn:E; [|done].
  pose proof (ReadMessage_prefix _ _ _ _ _ _ Hf Hp E) as ->.
  destruct (CheckVersion _); [|done]. destruct (negb _); [done|].
  destruct (WriteMessage _ _ _) as [[u|e] c'] eqn:Hw; [|done].
  apply WriteMessage_sent in Hw as (_ & _ & Hr & _). simpl in Hr. rewrite Hr. done.
Qed.

Lemma ServeConn_nothing c : cn_readable c = [] -> (serve c).1 = [].
Proof. intros Hc. unfold serve, ServeConn, read_conn. by rewrite Hc. Qed.

Lemma Consult_request_not_unavailable c q payload r c' :
  Consult_request c q payload = (r, c') -> r <> Err ErrUnavailable.
Proof.
  unfold Consult_request. destruct (WriteMessage _ _ _) as [[u|e] c1]; [|by intros [= <- _]].
  destruct (read_conn c1) as [[[x b]|e] c2]; [|by intros [= <- _]].
  destruct (negb _); [by intros [= <- _]|]. by destruct (one_of _ _); intros [= <- _].
Qed.

Lemma Consult_connected c q payload r d : Consult (Some c) q payload = (r, d) -> is_Some d.
Proof.
  unfold Consult. destruct (WriteMessage _ _ _) as [[u|e] c1]; [|by intros [= _ <-]].
  destruct (read_conn c1) as [[[x b]|e] c2]; [|by intros [= _ <-]].
  destruct (_ || _); [by intros [= _ <-]|].
  destruct (Consult_request _ _ _) as [r2 c3]. by intros [= _ <-].
Qed.

Lemma Consult_unavailable_sent c q payload c' :
  Consult (Some c) q payload = (Err ErrUnavailable, Some c') ->
  exists p, cn_sent c' = cn_sent c ++ p /\
    (p = [] \/ exists encoded, json_Marshal (version_only ProtocolVersion) = Some encoded /\
       fits encoded [] /\ p `prefix_of` frame_of encoded []).
Proof.
  unfold Consult. intros H.
  destruct (WriteMessage c (version_only ProtocolVersion) []) as [r1 c1] eqn:E.
  apply WriteMessage_sent in E as (p & Hs & _ & Hp). exists p.
  assert (cn_sent c' = cn_sent c1) as ->.
  { destruct r1 as [u|e]; [|by injection H as <-].
    unfold read_conn in H. destruct (ReadMessage (cn_readable c1)) as [[[x b]|e] rest];
      [|by injection H as <-].
    destruct (_ || _); [by injection H as <-|].
    destruct (Consult_request _ _ _) as [r2 c2] eqn:E2. injection H as -> _.
    by destruct (Consult_request_not_unavailable _ _ _ _ _ E2). }
  split; [done|]. destruct (json_Marshal _) as [encoded|]; [|by left; destruct Hp].
  destruct Hp as (Hp & Hf & _). destruct p as [|b p]; [by left|right].
  exists encoded. split_and!; [done| |done]. apply Hf. by left.
Qed.
End conversation.

(** When the client reports the lane unavailable, which is its licence to
    write to the store directly, the daemon hands no request to its handler,
    whatever part of the client's bytes reaches it and however its own writes
    fare: nothing this event could duplicate was committed. *)
Theorem Consult_unavailable_safe `{!HeaderCodec Request, !HeaderCodec Response}
    (Serve : Request -> bytes -> Served) version_text dial q payload dial' :
  Consult dial q payload = (Err ErrUnavailable, dial') ->
  match dial, dial' with
  | Some c, Some c' =>
      exists p, cn_sent c' = cn_sent c ++ p /\
        forall received writes, received `prefix_of` p ->
          (ServeConn Serve version_text (mk_Conn received writes [])).1 = []
  | None, None => True
  | _, _ => False
  end.
Proof.
  destruct dial as [c|], dial' as [c'|]; intros H; [| |done|done].
  - destruct (Consult_unavailable_sent _ _ _ _ H) as (p & Hs & Hp). exists p. split; [done|].
    intros received writes Hr. destruct Hp as [->|(encoded & _ & Hf & Hp)].
    + apply ServeConn_nothing. simpl. by apply prefix_nil_inv in Hr.
    + eapply ServeConn_one_frame; [exact Hf|]. simpl. by etransitivity.
  - by destruct (Consult_connected _ _ _ _ _ H).
Qed.

(** Both ends, when the writes of each are taken whole and their headers fit. *)
Section exchange.
Context `{!HeaderCodec Request, !HeaderCodec Response}.
Variable Serve : Request -> bytes -> Served.
Variable version_text : Z -> string.

(** A header the codec carries, in a frame within the bounds. *)
Definition sendable {A} `{HeaderCodec A} (a : A) (body : bytes) : Prop :=
  json_carries a /\ exists encoded, json_Marshal a = Some encoded /\ fits encoded body.
Definition message {A} `{HeaderCodec A} (a : A) (body : bytes) : bytes :=
  match json_Marshal a with Some encoded => frame_of encoded body | None => [] end.
Definition takes {A} `{HeaderCodec A} (a : A) (body : bytes) (writes : list WriteResult) : Prop :=
  exists n rest, writes = Accepts n :: rest /\ (0 < n)%nat /\ (length (message a body) <= n)%nat.

Lemma WriteMessage_whole {A} `{!HeaderCodec A} (a : A) body c n rest :
  sendable a body -> cn_writes c = Accepts n :: rest -> (0 < n)%nat ->
  (length (message a body) <= n)%nat ->
  WriteMessage c a body = (Ok tt, mk_Conn (cn_readable c) rest (cn_sent c ++ message a body)).
Proof.
  intros (_ & encoded & He & Hh & Hb) Hw Hn Hl. unfold WriteMessage, message in *.
  rewrite He in *. rewrite (proj2 (N.ltb_ge _ _) Hh), (proj2 (N.ltb_ge _ _) Hb), Hw.
  destruct (frame_of encoded body) as [|b f] eqn:E; [by rewrite app_nil_r|].
  simpl. destruct n as [|n]; [lia|]. simpl in Hl |- *.
  rewrite drop_ge, take_ge by lia. by destruct rest.
Qed.

Lemma read_conn_message {A} `{!HeaderCodec A} (a : A) body rest writes sent :
  sendable a body ->
  read_conn (mk_Conn (message a body ++ rest) writes sent)
  = (Ok (a, body), mk_Conn rest writes sent).
Proof.
  intros (Hc & encoded & He & Hf). unfold read_conn, message. rewrite He. cbn [cn_readable].
  by rewrite (ReadMessage_frame a encoded body rest (json_round _ _ Hc He) Hf).
Qed.

(** The one response the server gives to the request it served. *)
Definition served_response (s : Served) : Response :=
  match s with
  | ServedOutcome o occurrence claim =>
      mk_Response ProtocolVersion KindCommitted (Z.of_N (oc_Exit o)) (oc_Stdout o) (oc_Stderr o)
        occurrence claim EmptyString EmptyString
  | ServeFailed stage text =>
      mk_Response ProtocolVersion KindRefused 0 EmptyString EmptyString EmptyString EmptyString
        (FaultStage_String stage) text
  end.
Definition answerable (s : Served) : Prop :=
  match s with ServedOutcome o _ _ => (Code (oc_Exit o)).2 = true | ServeFailed _ _ => True end.
End exchange.

(** When nothing cuts the connection, the two ends agree: the daemon hands
    its handler exactly the request and the payload bytes the hook sent, once,
    and the hook gets exactly the handler's answer. *)
Theorem lane_conversation `{!HeaderCodec Request, !HeaderCodec Response}
    (Serve : Request -> bytes -> Served) version_text q payload n m n1 n2 :
  let probe := version_only ProtocolVersion in
  let request := set_Version q ProtocolVersion in
  let response := served_response (Serve request payload) in
  sendable probe [] -> sendable request payload -> sendable ready_response [] ->
  sendable response [] -> answerable (Serve request payload) ->
  (0 < n)%nat -> (length (message probe []) <= n)%nat ->
  (0 < m)%nat -> (length (message request payload) <= m)%nat ->
  (0 < n1)%nat -> (length (message ready_response []) <= n1)%nat ->
  (0 < n2)%nat -> (length (message response []) <= n2)%nat ->
  exists client server,
    Consult (Some (mk_Conn (cn_sent server) [Accepts n; Accepts m] [])) q payload
    = (Ok response, Some client) /\
    ServeConn Serve version_text (mk_Conn (cn_sent client) [Accepts n1; Accepts n2] [])
    = ([(request, payload)], server).
Proof.
  intros probe request response Hp Hq Hr Ha Hans Hn Hnl Hm Hml Hn1 Hn1l Hn2 Hn2l.
  set (up := message probe [] ++ message request payload).
  set (down := message ready_response [] ++ message response []).
  exists (mk_Conn [] [] up), (mk_Conn [] [] down). split.
  - unfold Consult. rewrite (WriteMessage_whole probe [] _ n [Accepts m]) by done. simpl.
    unfold down. rewrite (read_conn_message ready_response [] _ _ _ Hr). simpl.
    unfold Consult_request.
    rewrite (WriteMessage_whole request payload _ m []) by done. simpl.
    rewrite <- (app_nil_r (message response [])).
    rewrite (read_conn_message response [] [] _ _ Ha).
    unfold response, served_response. by destruct (Serve request payload).
  - unfold ServeConn. simpl. unfold up.
    rewrite (read_conn_message probe [] _ _ _ Hp). simpl.
    rewrite (WriteMessage_whole ready_response [] _ n1 [Accepts n2]) by done. simpl.
    rewrite <- (app_nil_r (message request payload)).
    rewrite (read_conn_message request payload [] _ _ Hq). simpl.
    f_equal. unfold answer, refuse. unfold response, served_response, answerable in *.
    destruct (Serve request payload) as [o occ cl|stage text].
    + rewrite Hans. simpl. by rewrite (WriteMessage_whole _ [] _ n2 []) by done.
    + by rewrite (WriteMessage_whole _ [] _ n2 []) by done.
Qed.

(** ** Examples

    A codec that carries a listed set of headers, each by its index. *)
#[export] Instance Request_eq_dec : EqDecision Request.
Proof. solve_decision. Defined.
#[export] Instance Response_eq_dec : EqDecision Response.
Proof. solve_decision. Defined.

Definition index_of {A} `{EqDecision A} (l : list A) (a : A) : option nat :=
  fst <$> list_find (fun x => x = a) l.

Lemma index_round {A} `{EqDecision A} (l : list A) a (b : bytes) :
  a ∈ l -> (fun i => replicate i "x"%char) <$> index_of l a = Some b -> l !! length b = Some a.
Proof.
  intros _. unfold index_of. destruct (list_find _ l) as [[i x]|] eqn:E; [|done].
  simpl. intros [= <-]. apply list_find_Some in E as (Hl & <- & _). by rewrite length_replicate.
Qed.

Definition listed_codec {A} `{EqDecision A} (l : list A) : HeaderCodec A := {|
  json_Marshal a := (fun i => replicate i "x"%char) <$> index_of l a;
  json_strict b := l !! length b;
  json_carries a := a ∈ l;
  json_round a b := index_round l a b;
|}.

Definition sample_request : Request :=
  mk_Request ProtocolVersion "claude-code" "PreToolUse" "2.1.261" EmptyString EmptyString false
    zero_Invocation.
Definition sample_answer : Response :=
  mk_Response ProtocolVersion KindCommitted 1 EmptyString EmptyString "7" EmptyString EmptyString
    EmptyString.
Definition sample_requests : HeaderCodec Request :=
  listed_codec [version_only ProtocolVersion; sample_request].
Definition sample_responses : HeaderCodec Response :=
  listed_codec [ready_response; sample_answer].
Definition sample_serve (_ : Request) (_ : bytes) : Served :=
  ServedOutcome (mk_Outcome ExitContinue EmptyString EmptyString) "7" EmptyString.

Lemma Consult_unavailable_safe_witness :
  exists c', @Consult sample_requests sample_responses
    (Some (mk_Conn [] [Accepts 3; WriteFails "broken pipe"] [])) sample_request ["b"%char]
  = (Err ErrUnavailable, Some c') /\
  (@ServeConn sample_requests sample_responses sample_serve (fun _ => EmptyString)
     (mk_Conn (take 2 (cn_sent c')) [] [])).1 = [].
Proof.
  eexists. split; [vm_compute; reflexivity|].
  destruct (@Consult_unavailable_safe sample_requests sample_responses sample_serve
    (fun _ => EmptyString) (Some (mk_Conn [] [Accepts 3; WriteFails "broken pipe"] []))
    sample_request ["b"%char] _ eq_refl) as (p & Hs & Hsafe).
  apply Hsafe. exists (drop 2 p). rewrite <- (take_drop 2 p) at 1. f_equal.
  simpl in Hs. rewrite <- Hs. reflexivity.
Defined.

Lemma lane_conversation_witness :
  exists client server,
    @Consult sample_requests sample_responses
      (Some (mk_Conn (cn_sent server) [Accepts 99; Accepts 99] [])) sample_request ["b"%char]
    = (Ok sample_answer, Some client) /\
    @ServeConn sample_requests sample_responses sample_serve (fun _ => EmptyString)
      (mk_Conn (cn_sent client) [Accepts 99; Accepts 99] [])
    = ([(sample_request, ["b"%char])], server).
Proof.
  apply (@lane_conversation sample_requests sample_responses sample_serve (fun _ => EmptyString)
    sample_request ["b"%char] 99 99 99 99);
    [split; [left|]|split; [right; left|]|split; [left|]|split; [right; left|]|reflexivity|..];
    try (apply Nat.ltb_lt; reflexivity); try (apply Nat.leb_le; vm_compute; reflexivity);
    eexists; (split; [vm_compute; reflexivity|]); split; vm_compute; discriminate.
Defined.
