(* ===== verification/HookCommand.v ===== *)
(** HookCommand: one invocation of the lifecycle hook
    (cmd/pasture/hook_lifecycle.go, hook_lifecycle_lane.go, and
    [HookLifecycleNative] of internal/handlers/hook_lifecycle.go).

    The invocation first prepares its coordinates, policy and budget; each
    failure there is a fault.  Then a worker asks the daemon's lane or writes
    directly through the settlement fence, while the command waits for it or for
    the deadline.  The two are one step relation: every lock region, channel
    operation and return of the code is one step, and what the daemon, the
    handler and the clock do in between is arbitrary.

    The formatted texts of the causes and [strconv.Quote] are parameters, on
    which no exit status depends.  The fault record file, the capture sink and
    the standard streams are not modelled. *)

From Stdlib Require Import NArith ZArith Lia Ascii String.
From stdpp Require Import base tactics list strings relations.
From S2P Require Import Prelude GoStrings Registration Verdict GatePolicy HostVersion Timeouts NativeRows NativeProfiles Execution HostExit HookEnvironment NativeResponse Settlement LaneWire.
Local Open Scope string_scope.
Local Open Scope list_scope.

(** ** Coordinates and policy *)
Record Coordinates := mk_Coordinates {
  co_Harness : HarnessID;
  co_Event : string;
  co_HostVersion : string;
}.

Definition undeclared_policy : LifecycleFailurePolicy :=
  mk_FailurePolicy FailureObserveOnly FailureObserveOnly unevidenced 0%N 0%N 0%N.
Definition lifecycleFailurePolicy (coords : Coordinates) : LifecycleFailurePolicy :=
  match LookupLifecycleFailure (co_Harness coords) (co_Event coords) with
  | Some policy => policy
  | None => undeclared_policy
  end.

Definition lifecycleContinuation (coords : Coordinates) (failure : LifecycleFailurePolicy)
    : Continuation :=
  match FaultContinuation (co_Harness coords) (fp_Semantic failure) with
  | Err _ => EmptyContinuation
  | Ok c => c
  end.

(** ** Stages of a work error *)
Definition ErrLifecycleCommittedWithoutContinuation : GoError :=
  sentinel "ErrLifecycleCommittedWithoutContinuation"
    "the lifecycle receipt was committed but the host received no continuation".
Definition ErrLifecycleDeliveryRefused : GoError :=
  sentinel "ErrLifecycleDeliveryRefused"
    "the lifecycle delivery was recorded but its capture could not be bound".
Definition ErrLifecycleBeforeDurableWrite : GoError :=
  sentinel "ErrLifecycleBeforeDurableWrite"
    "the lifecycle fault happened before any durable write was attempted".
Definition errLifecycleWorkPanicked : GoError :=
  sentinel "errLifecycleWorkPanicked" "the lifecycle work panicked after it began".

Definition faultStageByError : list (string * FaultStage) :=
  [("ErrLifecycleCommittedWithoutContinuation", FaultStageRecorded);
   ("ErrLifecycleDeliveryRefused", FaultStageRecorded);
   ("ErrLifecycleBeforeDurableWrite", FaultStageNotRecorded);
   ("errLifecycleWorkPanicked", FaultStageRecordUnknown)].

Fixpoint stage_row (rows : list (string * FaultStage)) (err : GoError) : FaultStage :=
  match rows with
  | [] => FaultStageRecordUnknown
  | (name, stage) :: rest => if errors_Is err name then stage else stage_row rest err
  end.
Definition faultStageForWorkError (err : GoError) : FaultStage := stage_row faultStageByError err.

(** ** Faults of the command *)
Inductive HookCause :=
  | EnvironmentInvalid (e : EnvError)
  | PositionalArguments (args : list string)
  | OverrideRejected (e : TimeoutError)
  | VersionUnresolved (e : GoError)
  | DeadlineExpired
  | WorkFailed (e : GoError)
  | HookPanicked (value : string)
  | LaneNoAnswer (e : ClientError)
  | LaneUndeclaredExit (status : Z) (occurrence : string)
  | LaneRefused (text : string)
  | NoPublishedOutcome
  | ReceiptFailed (e : FenceError).

Definition numbered (i : nat) (input : string) : string :=
  ("(" ++ format_int (Z.of_nat i) ++ ") " ++ input)%string.
Definition unusableInputSentence (unusable : list string) : string :=
  match unusable with
  | [] => ("the exit authority refused the fault although it named no unusable input, "
           ++ "which is a defect in the refusal itself rather than in the fault")%string
  | [one] => ("one input of the fault was not usable: " ++ numbered 1 one)%string
  | _ => (format_int (Z.of_nat (length unusable)) ++ " inputs of the fault were not usable: "
          ++ String.concat "; " (imap (fun i x => numbered (S i) x) unusable))%string
  end.

Section command.
Variable Render : Coordinates -> HookCause -> string.
Variable Quote : string -> string.

Definition caused (coords : Coordinates) (c : HookCause) (wrapped : list GoError) : GoError :=
  wrap_error (Render coords c) wrapped.

Definition unclassifiableFaultDiagnostic (coords : Coordinates) (unusable : list string)
    (cause : option GoError) : string :=
  ("pasture hook lifecycle could not classify a fault on event " ++ Quote (co_Event coords)
   ++ " of harness " ++ Quote (co_Harness coords) ++ ", because "
   ++ unusableInputSentence unusable ++ ". "
   ++ "This happened in lifecycleFault (cmd/pasture/hook_lifecycle.go) after the event "
   ++ "coordinates were read; pasture did not ask the host to block, and this event was "
   ++ "not evaluated; the hook still leaves with exit 1, and a host that reads any "
   ++ "non-zero exit as a broken pasture installation stops the tool call on the one "
   ++ "generated OpenCode row that throws — tool.execute.before does, while every other "
   ++ "generated row catches the same failure and only logs it; "
   ++ "report this with the cause below, which is: "
   ++ match cause with Some e => error_text e | None => "<nil>" end)%string.

Definition lifecycleFault (coords : Coordinates) (failure : LifecycleFailurePolicy)
    (policy : FaultPolicy) (continuation : Continuation) (stage : FaultStage)
    (cause : option GoError) : Outcome :=
  let fault := mk_Fault (fp_Mode failure) (fp_DeclaredMode failure) (negb (Declared failure))
                 (fp_Evidence failure) policy stage continuation cause in
  let '(outcome, mapped) := ForFault fault in
  if negb mapped then
    mk_Outcome ExitNonBlockingError EmptyString
      (unclassifiableFaultDiagnostic coords (UnusableInputs fault) cause)
  else outcome.

(** ** The exit *)
Definition noExitDecisionExit : ExitStatus := ExitNonBlockingError.
(** The process exit code [emitLifecycleOutcome] leaves with. *)
Definition emitted_code (o : Outcome) : Z :=
  let '(code, known) := Code (oc_Exit o) in
  if negb known then (Code noExitDecisionExit).1 else code.

(** ** Preparation *)
(** What the rest of the invocation runs with. *)
Record Prepared := mk_Prepared {
  in_coords : Coordinates;
  in_failure : LifecycleFailurePolicy;
  in_policy : FaultPolicy;
  in_continuation : Continuation;
  in_laneDirect : bool;
  in_tier : Duration;
  in_connect : Duration;
}.

Definition lifecycleLaneConnectTimeout (budget : Profile) : Duration :=
  let timeout := (hookInvocation budget / 100)%Z in
  if (timeout <? Millisecond)%Z then Millisecond else timeout.

(** [resolve] is [resolveLifecycleHostVersion] under the deadline of the tier. *)
Definition prepare (coords : Coordinates) (env : result EnvError HookEnvironment)
    (args : list string) (budget : Profile)
    (resolve : Duration -> result GoError string) : Outcome + Prepared :=
  let failure := lifecycleFailurePolicy coords in
  let continuation := lifecycleContinuation coords failure in
  let policy := match env with Ok e => he_FaultPolicy e | Err _ => FaultFailOpen end in
  let fault cause :=
    inl (lifecycleFault coords failure policy continuation FaultStageNotRecorded (Some cause)) in
  match env with
  | Err e => fault (caused coords (EnvironmentInvalid e) [])
  | Ok e =>
      if negb (length args =? 0)%nat then fault (caused coords (PositionalArguments args) [])
      else
        let budget := if Profile_IsZero budget
                      then default budget ProductionProfile else budget in
        let adjusted := if negb (Override_IsZero (he_BudgetOverride e))
                        then WithOverride budget (he_BudgetOverride e) else Ok budget in
        match adjusted with
        | Err err => fault (caused coords (OverrideRejected err) [])
        | Ok budget =>
            let tier := hookInvocation budget in
            match resolve tier with
            | Err err => fault err
            | Ok version =>
                inr (mk_Prepared (mk_Coordinates (co_Harness coords) (co_Event coords) version)
                       failure policy continuation
                       (String.eqb (he_WriteLane e) WriteLaneDirect) tier
                       (lifecycleLaneConnectTimeout budget))
            end
        end
  end.

(** ** The lane *)
Record Work := mk_Work {
  wk_outcome : Outcome;
  wk_err : option GoError;
  wk_stage : FaultStage;
}.

Definition faultStageFromName (name : string) : FaultStage * bool :=
  if String.eqb name (FaultStage_String FaultStageNotRecorded) then (FaultStageNotRecorded, true)
  else if String.eqb name (FaultStage_String FaultStageRecordUnknown)
  then (FaultStageRecordUnknown, true)
  else if String.eqb name (FaultStage_String FaultStageRecorded) then (FaultStageRecorded, true)
  else (FaultStageRecordUnknown, false).

(** [ExitStatus(n)] of an int keeps the low eight bits. *)
Definition exit_of_int (n : Z) : ExitStatus := Z.to_N (n mod 256).

Definition lifecycleLaneAnswered (coords : Coordinates) (response : Response) : Work :=
  if String.eqb (rs_Kind response) KindCommitted then
    let status := exit_of_int (rs_ExitStatus response) in
    if negb (ExitStatus_IsValid status) then
      mk_Work zero_Outcome
        (Some (caused coords
                 (LaneUndeclaredExit (rs_ExitStatus response) (rs_OccurrenceID response)) []))
        FaultStageUnset
    else mk_Work (mk_Outcome status (rs_Stdout response) (rs_Stderr response)) None FaultStageUnset
  else
    let '(stage, known) := faultStageFromName (rs_Stage response) in
    mk_Work zero_Outcome (Some (caused coords (LaneRefused (rs_Refusal response)) []))
      (if negb known then FaultStageRecordUnknown else stage).

(** [None] is the fallback to the direct path: the lane is off, the platform
    has no transport, standard input failed, or nothing reached the daemon. *)
Definition lifecycleLaneAttempt (inv : Prepared) (windows readFails : bool)
    (consulted : result ClientError Response) : option Work :=
  if in_laneDirect inv then None
  else if windows then None
  else if readFails then None
  else match consulted with
  | Ok response => Some (lifecycleLaneAnswered (in_coords inv) response)
  | Err ErrUnavailable => None
  | Err ErrRecordUnknown =>
      Some (mk_Work zero_Outcome
              (Some (caused (in_coords inv) (LaneNoAnswer ErrRecordUnknown) [])) FaultStageUnset)
  end.

(** ** The direct path

    What [HookLifecycleNative] returns once [HookLifecycleResponse] has, given
    the errors of that call and of the commit barrier. *)
Definition HookLifecycleNative_return (coords : Coordinates) (s : CommitSettlement)
    (response_err barrier_err : option GoError) : Outcome * option GoError :=
  let published := if (CommittedOutcome s).2 then (CommittedOutcome s).1 else zero_Outcome in
  match response_err with
  | Some err => (published, Some err)
  | None =>
      match barrier_err with
      | Some err =>
          (published,
           Some (wrap_error EmptyString [ErrLifecycleCommittedWithoutContinuation; err]))
      | None =>
          if negb (CommittedOutcome s).2
          then (zero_Outcome, Some (caused coords NoPublishedOutcome []))
          else ((CommittedOutcome s).1, None)
      end
  end.

(** ** The end of the wait *)

(** After the worker has reported. *)
Definition answer_completed (inv : Prepared) (s : CommitSettlement) (w : Work) : Outcome :=
  let '(committed, ok) := CommittedOutcome s in
  if ok then committed
  else match wk_err w with
  | Some err =>
      let stage := if negb (FaultStage_IsValid (wk_stage w))
                   then faultStageForWorkError err else wk_stage w in
      lifecycleFault (in_coords inv) (in_failure inv) (in_policy inv) (in_continuation inv) stage
        (Some (caused (in_coords inv) (WorkFailed err) [err]))
  | None => wk_outcome w
  end.

(** After the deadline, once the fence has settled. *)
Definition answer_expired (inv : Prepared) (s : CommitSettlement) : Outcome :=
  let '(committed, ok) := CommittedOutcome s in
  if ok then committed
  else lifecycleFault (in_coords inv) (in_failure inv) (in_policy inv) (in_continuation inv)
         FaultStageRecordUnknown (Some (caused (in_coords inv) DeadlineExpired [])).

(** ** The invocation as two processes *)
Inductive WorkerPC :=
  | AtLane
  | AtHandler
  | InAppend (o : Outcome) (publish : bool)
  | AfterAppend (o : Outcome) (publish : bool) (a : Appended)
  | Returning
  | Unwinding
  | Reported.
Inductive WaiterPC :=
  | Selecting
  | Draining
  | Answered (o : Outcome).

(** What an append leaves in the journal: the receipt of an evaluated event,
    with the outcome that was to be told, or the receipt of a capture that
    could not be bound. *)
Inductive Entry :=
  | Evaluated (o : Outcome)
  | CaptureRefused.
Definition entry_of (o : Outcome) (publish : bool) : Entry :=
  if publish then Evaluated o else CaptureRefused.

(** [sy_journal] is what this invocation has made durable, [sy_lane] the
    response the daemon gave; neither is read by the code. *)
Record Sys := mk_Sys {
  sy_fence : CommitSettlement;
  sy_worker : WorkerPC;
  sy_completed : option Work;
  sy_cancelled : bool;
  sy_waiter : WaiterPC;
  sy_journal : list Entry;
  sy_lane : option Response;
}.
Definition init_Sys : Sys := mk_Sys NewCommitSettlement AtLane None false Selecting [] None.

(** The append returned an occurrence identity and no error. *)
Definition acknowledged (a : Appended) : bool := append_committed true a.

Definition consulted_response (consulted : result ClientError Response) : option Response :=
  match consulted with Ok response => Some response | Err _ => None end.

Definition panicked (inv : Prepared) (value : string) : Work :=
  mk_Work zero_Outcome
    (Some (wrap_error EmptyString
             [errLifecycleWorkPanicked; caused (in_coords inv) (HookPanicked value) []]))
    FaultStageUnset.

(** An append that was acknowledged is durable; one that failed or panicked may
    be durable all the same, since the journal commits before it looks for the
    receipt's identity.  A handler that has entered the append no longer returns
    [ErrLifecycleBeforeDurableWrite]: it wraps that error only before its first
    write. *)
Inductive hook_step (inv : Prepared) : Sys -> Sys -> Prop :=
  | lane_decides f c v j l windows readFails consulted w :
      lifecycleLaneAttempt inv windows readFails consulted = Some w ->
      hook_step inv (mk_Sys f AtLane None c v j l)
        (mk_Sys f Reported (Some w) c v j (consulted_response consulted))
  | lane_falls_back f c v j l windows readFails consulted :
      lifecycleLaneAttempt inv windows readFails consulted = None ->
      hook_step inv (mk_Sys f AtLane None c v j l) (mk_Sys f AtHandler None c v j l)
  | handler_stops f c v j l :
      hook_step inv (mk_Sys f AtHandler None c v j l) (mk_Sys f Returning None c v j l)
  | handler_enters f f' c v j l ctx o publish :
      (c = false \/ is_Some ctx) -> run_enter f ctx o publish = Entered f' ->
      hook_step inv (mk_Sys f AtHandler None c v j l) (mk_Sys f' (InAppend o publish) None c v j l)
  | handler_refused f f' c v j l ctx o publish e :
      (c = false \/ is_Some ctx) -> run_enter f ctx o publish = Refused e f' ->
      hook_step inv (mk_Sys f AtHandler None c v j l) (mk_Sys f' Returning None c v j l)
  | append_ends f c v j l o publish a (durable : bool) :
      (acknowledged a = true -> durable = true) ->
      hook_step inv (mk_Sys f (InAppend o publish) None c v j l)
        (mk_Sys f (AfterAppend o publish a) None c v
           (j ++ if durable then [entry_of o publish] else []) l)
  | append_settles f f' c v j l o publish a :
      run_finish f o (append_committed publish a) = Some f' ->
      hook_step inv (mk_Sys f (AfterAppend o publish a) None c v j l)
        (mk_Sys f' (match a with AppendPanicked => Unwinding | _ => Returning end) None c v j l)
  | handler_returns f c v j l response_err barrier_err o err :
      (forall e, cs_state f = settlementFinished -> response_err = Some e ->
         errors_Is e "ErrLifecycleBeforeDurableWrite" = false) ->
      HookLifecycleNative_return (in_coords inv) f response_err barrier_err = (o, err) ->
      hook_step inv (mk_Sys f Returning None c v j l)
        (mk_Sys f Reported (Some (mk_Work o err FaultStageUnset)) c v j l)
  | worker_panics f pc c v j l :
      pc = AtLane \/ pc = AtHandler \/ pc = Returning ->
      hook_step inv (mk_Sys f pc None c v j l) (mk_Sys f Unwinding None c v j l)
  | worker_recovers f c v j l value :
      hook_step inv (mk_Sys f Unwinding None c v j l)
        (mk_Sys f Reported (Some (panicked inv value)) c v j l)
  | deadline_expires f pc w v j l :
      hook_step inv (mk_Sys f pc w false v j l) (mk_Sys f pc w true v j l)
  | command_receives f pc w c j l :
      hook_step inv (mk_Sys f pc (Some w) c Selecting j l)
        (mk_Sys f pc None c (Answered (answer_completed inv f w)) j l)
  | command_expires f f' pc w j l :
      Expire f = Some f' ->
      hook_step inv (mk_Sys f pc w true Selecting j l) (mk_Sys f' pc w true Draining j l)
  | command_drains f pc w c j l :
      is_closed (cs_done f) = true ->
      hook_step inv (mk_Sys f pc w c Draining j l)
        (mk_Sys f pc w c (Answered (answer_expired inv f)) j l).

Definition reachable (inv : Prepared) : Sys -> Prop := rtc (hook_step inv) init_Sys.
End command.

(** * Theorems *)
Section proofs.
Variable Render : Coordinates -> HookCause -> string.
Variable Quote : string -> string.
Local Abbreviation step := (hook_step Render Quote).
Local Abbreviation reach := (reachable Render Quote).
Local Abbreviation fault_of := (lifecycleFault Quote).

(** ** The invariant *)
Definition in_append (pc : WorkerPC) : bool :=
  match pc with InAppend _ _ | AfterAppend _ _ _ => true | _ => false end.
(** At most one entry; the acknowledged append's own when the fence has
    published; none while the fence has admitted no append. *)
Record journal_ok (f : CommitSettlement) (j : list Entry) : Prop := {
  jo_one : length j <= 1;
  jo_published : cs_committed f = true -> j = [Evaluated (cs_outcome f)];
  jo_entered : j <> [] -> cs_state f = settlementFinished;
}.

(** Where the worker stands agrees with the fence and the journal. *)
Definition worker_ok (f : CommitSettlement) (pc : WorkerPC) (j : list Entry) : Prop :=
  match pc with
  | InAppend o publish =>
      cs_state f = settlementActive /\ cs_committed f = false /\ j = [] /\
      (publish = true -> (Code (oc_Exit o)).2 = true)
  | AfterAppend o publish a =>
      cs_state f = settlementActive /\ cs_committed f = false /\
      (j = [] /\ acknowledged a = false \/ j = [entry_of o publish]) /\
      (publish = true -> (Code (oc_Exit o)).2 = true)
  | AtLane | AtHandler => cs_state f <> settlementActive /\ cs_committed f = false /\ j = []
  | _ => cs_state f <> settlementActive /\ journal_ok f j
  end.

(** The stage the completed arm reports for an error. *)
Definition reported_stage (w : Work) (err : GoError) : FaultStage :=
  if negb (FaultStage_IsValid (wk_stage w)) then faultStageForWorkError err else wk_stage w.

(** A result without an error came from the daemon, or is what was published;
    an error never claims that nothing was recorded when something was. *)
Definition result_ok (inv : Prepared) (f : CommitSettlement) (j : list Entry)
    (l : option Response) (w : Work) : Prop :=
  match wk_err w with
  | None => cs_committed f = true \/
      j = [] /\ exists response, l = Some response /\
        lifecycleLaneAnswered Render (in_coords inv) response = w
  | Some err => j <> [] -> reported_stage w err <> FaultStageNotRecorded
  end.

(** Where an answer may come from. *)
Inductive answer_source (inv : Prepared) (f : CommitSettlement) (j : list Entry)
    (l : option Response) : Outcome -> Prop :=
  | from_commit : cs_committed f = true -> answer_source inv f j l (cs_outcome f)
  | from_lane response w :
      cs_committed f = false -> j = [] -> l = Some response ->
      lifecycleLaneAnswered Render (in_coords inv) response = w -> wk_err w = None ->
      answer_source inv f j l (wk_outcome w)
  | from_fault stage cause :
      cs_committed f = false -> FaultStage_IsValid stage = true ->
      (j <> [] -> stage <> FaultStageNotRecorded) ->
      answer_source inv f j l
        (fault_of (in_coords inv) (in_failure inv) (in_policy inv) (in_continuation inv) stage
           (Some cause)).

Definition waiter_ok (inv : Prepared) (f : CommitSettlement) (pc : WorkerPC) (j : list Entry)
    (l : option Response) (v : WaiterPC) : Prop :=
  match v with
  | Selecting => True
  | Draining => cs_state f <> settlementIdle
  | Answered o => (pc = Reported \/ settled_fence f) /\ answer_source inv f j l o
  end.

Record sys_ok (inv : Prepared) (s : Sys) : Prop := {
  so_fence : fence_ok (sy_fence s);
  so_worker : worker_ok (sy_fence s) (sy_worker s) (sy_journal s);
  so_reported : forall w, sy_completed s = Some w ->
    sy_worker s = Reported /\ result_ok inv (sy_fence s) (sy_journal s) (sy_lane s) w;
  so_pending : sy_worker s = Reported -> sy_waiter s = Selecting -> sy_completed s <> None;
  so_waiter : waiter_ok inv (sy_fence s) (sy_worker s) (sy_journal s) (sy_lane s) (sy_waiter s);
  so_lane : sy_worker s = AtLane -> sy_lane s = None;
}.

Lemma sys_ok_init inv : sys_ok inv init_Sys.
Proof. split; simpl; [apply fence_ok_new|by split|naive_solver..]. Qed.

Lemma idle_unpublished f : fence_ok f -> cs_state f <> settlementFinished -> cs_committed f = false.
Proof.
  intros Hf Hn. destruct (cs_committed f) eqn:E; [|done]. by apply (fo_committed _ Hf) in E.
Qed.

Lemma stage_row_valid rows err :
  Forall (fun r => FaultStage_IsValid r.2 = true) rows -> FaultStage_IsValid (stage_row rows err) = true.
Proof. induction 1 as [|[n s] rows Hs _ IH]; simpl; [done|]. by destruct (errors_Is err n). Qed.

Lemma faultStageForWorkError_valid err : FaultStage_IsValid (faultStageForWorkError err) = true.
Proof. apply stage_row_valid. unfold faultStageByError. by repeat constructor. Qed.

Lemma stage_not_unwritten err :
  errors_Is err "ErrLifecycleBeforeDurableWrite" = false ->
  faultStageForWorkError err <> FaultStageNotRecorded.
Proof.
  intros E. unfold faultStageForWorkError, faultStageByError, stage_row. rewrite E.
  by repeat match goal with |- context [errors_Is err ?n] => destruct (errors_Is err n) end.
Qed.

(** What a finished worker makes the command answer. *)
Lemma answer_completed_source inv f j l w :
  result_ok inv f j l w -> answer_source inv f j l (answer_completed Render Quote inv f w).
Proof.
  intros Hw. unfold answer_completed, CommittedOutcome.
  destruct (cs_committed f) eqn:Hc; [by apply from_commit|].
  unfold result_ok in Hw. destruct (wk_err w) as [err|] eqn:He.
  - apply from_fault; [done| |exact Hw]. destruct (FaultStage_IsValid (wk_stage w)) eqn:Hs; [done|].
    apply faultStageForWorkError_valid.
  - destruct Hw as [?|(Hj & response & Hl & Hr)]; [congruence|]. by eapply from_lane.
Qed.

Lemma answer_expired_source inv f j l :
  answer_source inv f j l (answer_expired Render Quote inv f).
Proof.
  unfold answer_expired, CommittedOutcome.
  destruct (cs_committed f) eqn:Hc; [by apply from_commit|by apply from_fault].
Qed.

(** The journal's record and the answer's depend on the fence's commit only. *)
Lemma journal_ok_eq f f' j :
  cs_committed f' = cs_committed f -> cs_outcome f' = cs_outcome f ->
  (cs_state f = settlementFinished -> cs_state f' = settlementFinished) ->
  journal_ok f j -> journal_ok f' j.
Proof. intros Hc Ho Hs [H1 H2 H3]. split; [done|by rewrite Hc, Ho|auto]. Qed.

Lemma answer_source_eq inv f f' j l o :
  cs_committed f' = cs_committed f -> cs_outcome f' = cs_outcome f ->
  answer_source inv f j l o -> answer_source inv f' j l o.
Proof.
  intros Hc Ho [H|response w H Hj Hl Hw He|stage cause H Hs Hn].
  - rewrite <- Ho. apply from_commit. congruence.
  - eapply from_lane; [congruence|eassumption..].
  - apply from_fault; [congruence|done..].
Qed.

(** The waiter's conjunct when only the worker moves, and when the lane has just
    answered a worker that had no answer before. *)
Lemma waiter_moves inv f pc pc' j l l' v :
  pc <> Reported -> (l = None \/ l' = l) -> waiter_ok inv f pc j l v -> waiter_ok inv f pc' j l' v.
Proof.
  intros Hn Hl. destruct v as [| |o]; simpl; [done..|]. intros [[?|?] Hs]; [done|].
  split; [by right|]. destruct Hl as [Hl| ->]; [|done].
  destruct Hs; [by apply from_commit|congruence|by apply from_fault].
Qed.

Local Ltac keep_waiter :=
  match goal with
  | H : waiter_ok _ _ _ _ _ _ |- _ => eapply waiter_moves; [| |exact H]; first [done|by right]
  end.

(** Before the append the fence of an answered command is settled already. *)
Lemma waiter_enters inv f f' pc pc' j l v ctx o publish :
  fence_ok f -> pc <> Reported -> run_enter f ctx o publish = Entered f' ->
  waiter_ok inv f pc j l v -> waiter_ok inv f' pc' j l v.
Proof.
  intros Hf Hn He Hv. pose proof (run_enter_ok f ctx o publish Hf) as H. rewrite He in H.
  destruct H as (_ & Hidle & Ha & _). destruct v as [| |a]; simpl in *; [done|congruence|].
  destruct Hv as [[?|[Hs|Hs]] _]; congruence.
Qed.

(** No command has answered while an append is in flight. *)
Lemma active_unanswered inv f pc j l o :
  pc <> Reported -> cs_state f = settlementActive -> ~ waiter_ok inv f pc j l (Answered o).
Proof. intros Hn Ha [[?|[?|?]] _]; congruence. Qed.

Lemma lane_decided inv f windows readFails consulted w :
  lifecycleLaneAttempt Render inv windows readFails consulted = Some w ->
  result_ok inv f [] (consulted_response consulted) w.
Proof.
  intros Hl. unfold lifecycleLaneAttempt in Hl.
  destruct (in_laneDirect inv), windows, readFails; try done.
  destruct consulted as [response|[]]; [|done|]; injection Hl as <-; [|by unfold result_ok].
  unfold result_ok. destruct (wk_err _) eqn:E; [done|]. right. split; [done|]. by exists response.
Qed.

(** The end of an append, settled: published when it was acknowledged. *)
Lemma settles inv f f' c v j l o publish a :
  sys_ok inv (mk_Sys f (AfterAppend o publish a) None c v j l) ->
  run_finish f o (append_committed publish a) = Some f' ->
  fence_ok f' /\ cs_state f' = settlementFinished /\ journal_ok f' j.
Proof.
  intros [Hf (Ha & Hc & Hj & Hx) _ _ _ _] Hfin. simpl in *.
  destruct (run_finish_ok f o (append_committed publish a) Hf Ha Hc) as
    (f'' & Hfin' & Hf'' & Hs & Hd & Hcm & Hout).
  { destruct a as [id [er|]|]; simpl; rewrite ?andb_false_r; try done.
    intros [[? _]%andb_true_iff _]%andb_true_iff. auto. }
  rewrite Hfin in Hfin'. injection Hfin' as <-. split_and!; [done|done|]. split.
  - destruct Hj as [[-> _]| ->]; simpl; lia.
  - rewrite Hcm. intros Hok. rewrite (Hout Hok).
    destruct Hj as [[_ Hna]| ->].
    + unfold acknowledged in Hna. destruct publish; simpl in *; [congruence|]. by destruct a.
    + destruct publish; [done|]. by destruct a.
  - done.
Qed.

Lemma returned_ok inv f j l re be o err :
  journal_ok f j ->
  (forall e, cs_state f = settlementFinished -> re = Some e ->
     errors_Is e "ErrLifecycleBeforeDurableWrite" = false) ->
  HookLifecycleNative_return Render (in_coords inv) f re be = (o, err) ->
  result_ok inv f j l (mk_Work o err FaultStageUnset).
Proof.
  intros Hj Hg Hret. unfold result_ok, reported_stage. simpl.
  unfold HookLifecycleNative_return, CommittedOutcome in Hret.
  destruct re as [e|]; [injection Hret as _ <-|destruct be as [e|]; [injection Hret as _ <-|]].
  - intros Hne. apply stage_not_unwritten, Hg; [|done]. by apply (jo_entered _ _ Hj).
  - intros _. vm_compute. discriminate.
  - destruct (cs_committed f) eqn:Hc; injection Hret as _ <-; [by left|].
    intros _. vm_compute. discriminate.
Qed.

Lemma worker_ok_journal f pc j :
  fence_ok f -> cs_state f <> settlementActive -> worker_ok f pc j -> journal_ok f j.
Proof.
  intros Hf Hn Hw. destruct pc as [| |o publish|o publish a| | |]; simpl in Hw; try (by destruct Hw);
    try (by destruct Hw as (? & _)); destruct Hw as (_ & Hc & ->);
    (split; simpl; [lia|congruence|done]).
Qed.

Lemma expires inv f f' pc w j l :
  Expire f = Some f' -> sys_ok inv (mk_Sys f pc w true Selecting j l) ->
  sys_ok inv (mk_Sys f' pc w true Draining j l).
Proof.
  intros Hex [Hf Hw Hr Hp Hv Hl]. simpl in *.
  destruct (Expire_ok f Hf) as (f'' & Hex' & Hf' & Hc & Ho & Hcase).
  rewrite Hex in Hex'. injection Hex' as <-.
  assert (cs_state f = settlementFinished -> cs_state f' = settlementFinished) as Hfin
    by (destruct Hcase as [[? _]|[_ ->]]; congruence).
  assert (cs_state f <> settlementActive -> cs_state f' <> settlementActive) as Hna
    by (destruct Hcase as [[_ ->]|[_ ->]]; done).
  assert (cs_state f = settlementActive -> cs_state f' = settlementActive) as Hact
    by (destruct Hcase as [[? _]|[_ ->]]; congruence).
  split; simpl; [done| | |done| |done].
  - destruct pc; simpl in *; destruct_and?; split_and?; rewrite ?Hc; auto;
      by eapply journal_ok_eq.
  - intros w' Hw'. destruct (Hr w' Hw') as [? Hres]. split; [done|].
    unfold result_ok in *. by rewrite Hc.
  - destruct Hcase as [[_ ->]|[? ->]]; done.
Qed.

Lemma enters inv f f' c v j l ctx o publish :
  run_enter f ctx o publish = Entered f' -> sys_ok inv (mk_Sys f AtHandler None c v j l) ->
  sys_ok inv (mk_Sys f' (InAppend o publish) None c v j l).
Proof.
  intros He [Hf Hw Hr Hp Hv Hl]. simpl in *.
  pose proof (run_enter_ok f ctx o publish Hf) as H. rewrite He in H.
  destruct H as (Hf' & Hidle & Ha & Hc & _ & Hx). destruct Hw as (_ & _ & ->).
  split; simpl; [done|by split_and!|done|done| |done]. by eapply (waiter_enters inv f f' AtHandler).
Qed.

Lemma refuses inv f f' c v j l ctx o publish e :
  run_enter f ctx o publish = Refused e f' -> sys_ok inv (mk_Sys f AtHandler None c v j l) ->
  sys_ok inv (mk_Sys f' Returning None c v j l).
Proof.
  intros He [Hf Hw Hr Hp Hv Hl]. simpl in *.
  pose proof (run_enter_ok f ctx o publish Hf) as H. rewrite He in H.
  destruct H as (Hf' & Hc & Ho & Hcase). destruct Hw as (Hna & Hcf & ->).
  split; simpl; [done| |done|done| |done].
  - split; [destruct Hcase as [->|(_ & -> & _)]; done|]. split; simpl; [lia|congruence|done].
  - destruct Hcase as [->|(Hi & Hs & _)]; [keep_waiter|].
    destruct v as [| |a]; simpl in *; [done|congruence|]. destruct Hv as [[?|[?|?]] _]; congruence.
Qed.

Lemma sys_ok_step inv s s' : step inv s s' -> sys_ok inv s -> sys_ok inv s'.
Proof.
  intros Hst Hok. destruct Hst as
    [f c v j l windows readFails consulted w Hla|f c v j l windows readFails consulted Hla|f c v j l
    |f f' c v j l ctx o publish Hctx He|f f' c v j l ctx o publish e Hctx He
    |f c v j l o publish a durable Hd|f f' c v j l o publish a Hfin|f c v j l re be o err Hg Hret
    |f pc c v j l Hpc|f c v j l value|f pc w v j l|f pc w c j l|f f' pc w j l Hex|f pc w c j l Hcl].
  4: by eapply enters. 4: by eapply refuses. 11: by eapply expires.
  all: pose proof Hok as [Hf Hw Hr Hp Hv Hl]; simpl in *.
  - destruct Hw as (Hna & Hcf & ->).
    split; simpl; [done| | |done| |done].
    + split; [done|]. split; simpl; [lia|congruence|done].
    + intros w' [= <-]. split; [done|]. by eapply lane_decided.
    + eapply waiter_moves; [| |exact Hv]; [done|left; auto].
  - split; simpl; [done..|keep_waiter|done].
  - destruct Hw as (Hna & Hcf & ->).
    split; simpl; [done| |done|done|keep_waiter|done].
    split; [done|]. split; simpl; [lia|congruence|done].
  - destruct Hw as (Ha & Hc & -> & Hx). simpl.
    split; simpl; [done| |done|done| |done].
    + split_and!; [done|done| |done]. destruct durable; [by right|]. left. split; [done|].
      destruct (acknowledged a); [|done]. by discriminate (Hd eq_refl).
    + destruct v as [| |ans]; [done|done|].
      by destruct (active_unanswered inv f (InAppend o publish) [] l ans).
  - destruct (settles _ _ _ _ _ _ _ _ _ _ Hok Hfin) as (Hf' & Hs & Hj).
    destruct Hw as (Ha & _).
    assert (waiter_ok inv f' Unwinding j l v) as Hv'.
    { destruct v as [| |ans]; simpl; [done|congruence|].
      by destruct (active_unanswered inv f (AfterAppend o publish a) j l ans). }
    destruct a; (split; simpl; [done|by rewrite Hs|done|done|keep_waiter|done]).
  - destruct Hw as [Hna Hj]. split; simpl; [done|done| |done|keep_waiter|done].
    intros w' [= <-]. split; [done|]. by eapply returned_ok.
  - assert (pc <> Reported) as Hn by (by destruct Hpc as [->|[->| ->]]).
    assert (cs_state f <> settlementActive) as Hna by (destruct Hpc as [->|[->| ->]]; apply Hw).
    split; simpl; [done| |done|done|keep_waiter|done]. split; [done|]. by eapply worker_ok_journal.
  - destruct Hw as [Hna Hj]. split; simpl; [done|done| |done|keep_waiter|done].
    intros w' [= <-]. split; [done|]. intros _. vm_compute. discriminate.
  - done.
  - destruct (Hr w eq_refl) as [-> Hres].
    split; simpl; [done|done|done|done| |done]. split; [by left|]. by apply answer_completed_source.
  - assert (settled_fence f) as Hs by (by apply (fo_closed _ Hf)).
    split; simpl; [done|done|done|done| |done]. split; [by right|]. apply answer_expired_source.
Qed.

Lemma reachable_ok inv s : reach inv s -> sys_ok inv s.
Proof.
  intros H. unfold reachable in H. revert H. generalize (sys_ok_init inv). generalize init_Sys as s0.
  intros s0 H0 H. induction H as [s|s1 s2 s3 Hst _ IH]; [done|]. apply IH. by eapply sys_ok_step.
Qed.

(** ** Faults *)

(** What a host is told for a fault: to go on, with its own bytes, or to stop,
    under a policy the operator chose and a refusal the row cites. *)
Definition host_told (failure : LifecycleFailurePolicy) (policy : FaultPolicy)
    (continuation : Continuation) (o : Outcome) : Prop :=
  oc_Exit o = ExitContinue /\ oc_Stdout o = Continuation_Bytes continuation \/
  oc_Exit o = ExitBlock /\ oc_Stdout o = EmptyString /\ policy = FaultFailClosed /\
  BlocksByExitCode (fp_Mode failure) = true /\ IsPresent (fp_Evidence failure) = true.

Lemma lifecycleContinuation_set coords failure : IsSet (lifecycleContinuation coords failure) = true.
Proof.
  unfold lifecycleContinuation, FaultContinuation.
  by repeat match goal with |- context [if ?b then _ else _] => destruct b end.
Qed.

Lemma lifecycleFailurePolicy_valid coords :
  FailureMode_IsValid (fp_Mode (lifecycleFailurePolicy coords)) = true /\
  FailureMode_IsValid (fp_DeclaredMode (lifecycleFailurePolicy coords)) = true.
Proof.
  unfold lifecycleFailurePolicy.
  destruct (LookupLifecycleFailure _ _) as [p|] eqn:Hl; [|by split; vm_compute].
  apply LookupLifecycleFailure_row in Hl as (c & e & m & Hc & Hm & _ & ->).
  destruct (profile_row_sound _ _ _ _ Hc Hm) as [Hs _]. apply rs_behavior in Hs.
  unfold behavior_valid in Hs. rewrite !andb_true_iff in Hs. destruct_and!. by split.
Qed.

(** The exit-1 arm of [lifecycleFault] is not reached from the command. *)
Lemma lifecycleFault_told coords c' failure policy continuation stage cause :
  failure = lifecycleFailurePolicy coords ->
  FaultPolicy_IsValid policy = true -> IsSet continuation = true ->
  FaultStage_IsValid stage = true ->
  let o := fault_of c' failure policy continuation stage (Some cause) in
  host_told failure policy continuation o /\ (Code (oc_Exit o)).2 = true.
Proof.
  intros -> Hp Hc Hs. destruct (lifecycleFailurePolicy_valid coords) as [Hm Hd].
  set (f := mk_Fault (fp_Mode (lifecycleFailurePolicy coords))
    (fp_DeclaredMode (lifecycleFailurePolicy coords))
    (negb (Declared (lifecycleFailurePolicy coords))) (fp_Evidence (lifecycleFailurePolicy coords))
    policy stage continuation (Some cause)).
  assert (usable f) as Hu by (by split).
  pose proof (ForFault_usable f Hu) as HF. cbv zeta in HF.
  unfold lifecycleFault. fold f. rewrite HF. cbn [negb].
  unfold host_told, fault_blocks. cbn [fa_Policy fa_Mode fa_Evidence fa_Continuation f].
  destruct (_ && _ && _) eqn:Hb; cbn [oc_Exit oc_Stdout]; split; try reflexivity; [right|by left].
  rewrite !andb_true_iff, N.eqb_eq in Hb. tauto.
Qed.

(** ** Preparation *)

(** What [prepare] hands to the worker. *)
Record prepared_ok (inv : Prepared) : Prop := {
  po_failure : exists coords, in_failure inv = lifecycleFailurePolicy coords /\
    co_Harness coords = co_Harness (in_coords inv) /\ co_Event coords = co_Event (in_coords inv) /\
    in_continuation inv = lifecycleContinuation coords (in_failure inv);
  po_policy : FaultPolicy_IsValid (in_policy inv) = true;
}.

Lemma answer_fault inv stage cause :
  prepared_ok inv -> FaultStage_IsValid stage = true ->
  let o := fault_of (in_coords inv) (in_failure inv) (in_policy inv) (in_continuation inv) stage
             (Some cause) in
  host_told (in_failure inv) (in_policy inv) (in_continuation inv) o /\ (Code (oc_Exit o)).2 = true.
Proof.
  intros [(coords & Hf & _ & _ & Hc) Hp] Hs. apply (lifecycleFault_told coords); try done.
  rewrite Hc. apply lifecycleContinuation_set.
Qed.

(** Before any work starts, every way the preparation can fail answers the
    host: it goes on with its own bytes, or it is stopped, and stopped only if
    the operator wrote exactly 1, the environment parsed and the row cites its
    refusal.  Otherwise the worker starts with the failure policy of the very
    harness and event on the command line, a usable policy, a deadline from an
    ordered hierarchy of timeouts, and a connection timeout of a hundredth of it,
    but at least a millisecond. *)
Theorem prepare_answers ParseDuration actor lookup coords args budget resolve :
  let env := HookEnvironmentFromOS ParseDuration actor lookup in
  match prepare Render Quote coords env args budget resolve with
  | inl o =>
      emitted_code o ∈ [0; 2]%Z /\
      exists policy, (policy = FaultFailClosed -> is_ok env = true /\ lookup hookFailClosedEnv = Some "1") /\
        let failure := lifecycleFailurePolicy coords in
        host_told failure policy (lifecycleContinuation coords failure) o
  | inr inv =>
      prepared_ok inv /\ is_ok env = true /\ args = [] /\
      co_Harness (in_coords inv) = co_Harness coords /\ co_Event (in_coords inv) = co_Event coords /\
      resolve (in_tier inv) = Ok (co_HostVersion (in_coords inv)) /\
      in_connect inv = Z.max Millisecond (in_tier inv / 100) /\
      (Profile_IsZero budget = true \/ Validate budget = Ok tt ->
         exists p, Validate p = Ok tt /\ in_tier inv = hookInvocation p)
  end.
Proof.
  cbv zeta. set (env := HookEnvironmentFromOS _ _ _). unfold prepare. cbv zeta.
  set (failure := lifecycleFailurePolicy coords). set (cont := lifecycleContinuation coords failure).
  set (policy := match env with Ok e => he_FaultPolicy e | Err _ => FaultFailOpen end).
  assert (FaultPolicy_IsValid policy = true /\
    (policy = FaultFailClosed -> is_ok env = true /\ lookup hookFailClosedEnv = Some "1")) as [Hpv Hpc].
  { subst policy. destruct env as [e|x] eqn:He; [|done]. subst env.
    pose proof (HookEnvironment_policy _ _ _ _ He) as [? H]. split; [done|]. intros Hc.
    split; [done|]. by apply H. }
  assert (forall cause, let o := fault_of coords failure policy cont FaultStageNotRecorded (Some cause) in
    emitted_code o ∈ [0; 2]%Z /\
    exists policy, (policy = FaultFailClosed -> is_ok env = true /\ lookup hookFailClosedEnv = Some "1") /\
      host_told failure policy cont o) as Hfault.
  { intros cause. destruct (lifecycleFault_told coords coords failure policy cont
      FaultStageNotRecorded cause eq_refl Hpv (lifecycleContinuation_set _ _) eq_refl) as [Ht _].
    split; [|by exists policy]. unfold emitted_code.
    destruct Ht as [[-> _]|[-> _]]; simpl; [left|right; left]. }
  destruct env as [e|x] eqn:He; [|apply Hfault].
  destruct args as [|a args]; cbn [length Nat.eqb negb]; [|apply Hfault].
  set (base := if Profile_IsZero budget then default budget ProductionProfile else budget).
  assert (Profile_IsZero budget = true \/ Validate budget = Ok tt -> Validate base = Ok tt) as Hbase.
  { subst base. destruct (Profile_IsZero budget) eqn:Hz; [reflexivity|by intros [?|?]]. }
  destruct (if negb _ then WithOverride base _ else Ok base) as [b|err] eqn:Hb; [|apply Hfault].
  destruct (resolve (hookInvocation b)) as [version|err] eqn:Hv; [|apply Hfault].
  split; [|cbn [is_ok in_coords co_Harness co_Event in_tier co_HostVersion in_connect]].
  - split; [|done]. by exists coords.
  - split_and!; try done.
    + unfold lifecycleLaneConnectTimeout.
      destruct (Z.ltb_spec (hookInvocation b / 100) Millisecond); lia.
    + intros Hbudget. exists b. split; [|done].
      destruct (negb _); [|injection Hb as <-; by apply Hbase].
      by apply (WithOverride_ordered base _ _ (Hbase Hbudget) Hb).
Qed.

(** ** Answers *)

Lemma answered_settled inv s o :
  sys_ok inv s -> sy_waiter s = Answered o ->
  cs_state (sy_fence s) <> settlementActive /\ journal_ok (sy_fence s) (sy_journal s) /\
  answer_source inv (sy_fence s) (sy_journal s) (sy_lane s) o.
Proof.
  intros [Hf Hw _ _ Hv _] Ho. rewrite Ho in Hv. destruct Hv as [Hset Hsrc].
  assert (cs_state (sy_fence s) <> settlementActive) as Hna.
  { destruct Hset as [E|[E|E]]; [|congruence..]. rewrite E in Hw. apply Hw. }
  split_and!; [done| |done]. by eapply worker_ok_journal.
Qed.

Lemma answered_step inv s s' o :
  step inv s s' -> sys_ok inv s -> sy_waiter s = Answered o ->
  sy_waiter s' = Answered o /\ sy_journal s' = sy_journal s /\
  cs_committed (sy_fence s') = cs_committed (sy_fence s).
Proof.
  intros Hst Hok Ho. destruct (answered_settled _ _ _ Hok Ho) as [Hna _].
  destruct Hok as [Hf Hw _ _ Hv _]. rewrite Ho in Hv. destruct Hst; simpl in *; try done.
  - pose proof (run_enter_ok f ctx o0 publish Hf) as H1. rewrite H0 in H1.
    destruct Hv as [[?|[?|?]] _]; [done|destruct H1 as (_ & ? & _); congruence..].
  - pose proof (run_enter_ok f ctx o0 publish Hf) as H1. rewrite H0 in H1.
    by destruct H1 as (_ & ? & _).
  - by destruct Hw.
  - by destruct Hw.
Qed.

(** What the command tells when its own append may have recorded something that
    it cannot vouch for: a fault, which does not say that nothing is there. *)
Definition doubtful_fault (inv : Prepared) (o : Outcome) : Prop :=
  exists stage cause, FaultStage_IsValid stage = true /\ stage <> FaultStageNotRecorded /\
    o = fault_of (in_coords inv) (in_failure inv) (in_policy inv) (in_continuation inv) stage
          (Some cause).

Lemma answered_record inv s o :
  sys_ok inv s -> sy_waiter s = Answered o ->
  match sy_journal s with
  | [] => cs_committed (sy_fence s) = false
  | [e] => if cs_committed (sy_fence s) then e = Evaluated o else doubtful_fault inv o
  | _ => False
  end.
Proof.
  intros Hok Ho. destruct (answered_settled _ _ _ Hok Ho) as (_ & [H1 Hpub _] & Hsrc).
  destruct (sy_journal s) as [|e [|e' j]]; [| |simpl in H1; lia].
  - destruct (cs_committed _) eqn:Hc; [by discriminate (Hpub eq_refl)|done].
  - destruct Hsrc as [Hc|response w Hc Hj _ _ _|stage cause Hc Hs Hn]; [|done|].
    + rewrite Hc. by injection (Hpub Hc).
    + rewrite Hc. exists stage, cause. by split_and!; [|apply Hn|].
Qed.

(** C7: The command answers once, and its answer is true to what it recorded.
    Whatever the daemon, the handler, the journal and the clock do, an append
    that fails after it has committed included, once the command has answered no
    later step changes the answer, records anything more, or takes back an
    acknowledgment. At most one receipt is recorded. When the append was
    acknowledged, the receipt holds the very outcome that is told: no host goes
    on while a refusal is in the journal, or the other way around. When a
    receipt may be there without an acknowledgment, or is that of a capture that
    could not be bound, the answer is a fault, and one that does not claim that
    nothing was recorded. *)
Theorem hook_answers_once inv s s' o :
  reachable Render Quote inv s -> sy_waiter s = Answered o -> rtc (hook_step Render Quote inv) s s' ->
  sy_waiter s' = Answered o /\ sy_journal s' = sy_journal s /\
  cs_committed (sy_fence s') = cs_committed (sy_fence s) /\
  match sy_journal s with
  | [] => cs_committed (sy_fence s) = false
  | [e] => if cs_committed (sy_fence s) then e = Evaluated o else doubtful_fault inv o
  | _ => False
  end.
Proof.
  intros Hr%reachable_ok Ho Hrun. pose proof (answered_record _ _ _ Hr Ho) as Hrec.
  assert (sy_waiter s' = Answered o /\ sy_journal s' = sy_journal s /\
    cs_committed (sy_fence s') = cs_committed (sy_fence s)) as (? & ? & ?); [|by split_and!].
  clear Hrec. induction Hrun as [s|s1 s2 s3 Hst _ IH]; [done|].
  destruct (answered_step _ _ _ _ Hst Hr Ho) as (Ho' & Hj & Hc).
  destruct (IH (sys_ok_step _ _ _ Hst Hr) Ho') as (? & ? & ?). split_and!; congruence.
Qed.

Lemma exit_known n : ExitStatus_IsValid n = true -> (Code n).2 = true.
Proof.
  unfold ExitStatus_IsValid, ExitContinue, ExitBlock. intros [H1%N.leb_le H2%N.leb_le]%andb_true_iff.
  assert (n = 1 \/ n = 2 \/ n = 3)%N as [->|[->| ->]] by lia; done.
Qed.

(** The outcome encoded in the response this invocation got from the daemon. *)
Definition daemon_answered (s : Sys) (o : Outcome) : Prop :=
  exists response, sy_lane s = Some response /\ rs_Kind response = KindCommitted /\
    o = mk_Outcome (exit_of_int (rs_ExitStatus response)) (rs_Stdout response) (rs_Stderr response) /\
    ExitStatus_IsValid (oc_Exit o) = true.

Lemma lane_outcome coords s response w :
  sy_lane s = Some response -> lifecycleLaneAnswered Render coords response = w ->
  wk_err w = None -> daemon_answered s (wk_outcome w).
Proof.
  intros Hl <-. unfold lifecycleLaneAnswered.
  destruct (String.eqb_spec (rs_Kind response) KindCommitted) as [Hk|].
  - destruct (ExitStatus_IsValid _) eqn:Hv; [|done]. simpl. intros _. by exists response.
  - by destruct (faultStageFromName _).
Qed.

(** C8: Every answer has one of three origins, and a declared exit status, so
    the arm for a missing decision is never taken: the outcome in the receipt
    whose append was acknowledged; the outcome in the response this invocation
    got from the daemon, which says that the daemon committed it, and then this
    process has recorded nothing itself; or a fault, which lets the host go
    on with its own bytes unless the operator opted in and the row cites a
    refusal. The hook makes up no other answer. *)
Theorem hook_answer_origin inv s o :
  prepared_ok inv -> reachable Render Quote inv s -> sy_waiter s = Answered o ->
  (cs_committed (sy_fence s) = true /\ sy_journal s = [Evaluated o] \/
   sy_journal s = [] /\ daemon_answered s o \/
   cs_committed (sy_fence s) = false /\
     host_told (in_failure inv) (in_policy inv) (in_continuation inv) o) /\
  ExitStatus_IsValid (oc_Exit o) = true /\ emitted_code o = (Code (oc_Exit o)).1.
Proof.
  intros Hp Hr%reachable_ok Ho. destruct (answered_settled _ _ _ Hr Ho) as (_ & Hj & Hsrc).
  destruct Hr as [Hf _ _ _ _ _].
  assert ((Code (oc_Exit o)).2 = true -> ExitStatus_IsValid (oc_Exit o) = true /\
    emitted_code o = (Code (oc_Exit o)).1) as Hcode.
  { unfold emitted_code. intros Hc. split.
    - unfold Code in Hc. repeat case_match; try done; by apply N.eqb_eq in H as ->
        || (by apply N.eqb_eq in H0 as ->) || (by apply N.eqb_eq in H1 as ->).
    - destruct (Code (oc_Exit o)) as [code known]. simpl in Hc. by subst known. }
  destruct Hsrc as [Hc|response w Hc Hj0 Hl Hw He|stage cause Hc Hs _].
  - split; [left; split; [done|]; by apply (jo_published _ _ Hj)|].
    apply Hcode. by apply (fo_exit _ Hf).
  - pose proof (lane_outcome _ _ _ _ Hl Hw He) as Hd. split; [right; left; by split|].
    apply Hcode. destruct Hd as (? & _ & _ & _ & Hx). by apply exit_known.
  - destruct (answer_fault inv stage cause Hp Hs) as [Ht Hc'].
    split; [right; right; by split|]. by apply Hcode.
Qed.

(** ** Termination *)
Definition in_reported (pc : WorkerPC) : bool := match pc with Reported => true | _ => false end.
Definition worker_rank (pc : WorkerPC) : nat :=
  match pc with
  | AtLane => 6 | AtHandler => 5 | InAppend _ _ => 4 | AfterAppend _ _ _ => 3
  | Returning => 2 | Unwinding => 1 | Reported => 0
  end.
Definition waiter_rank (v : WaiterPC) : nat :=
  match v with Selecting => 2 | Draining => 1 | Answered _ => 0 end.
Definition rank (s : Sys) : nat :=
  worker_rank (sy_worker s) + waiter_rank (sy_waiter s) + (if sy_cancelled s then 0 else 1).

Lemma step_rank inv s s' : step inv s s' -> rank s' < rank s.
Proof.
  destruct 1; unfold rank; cbn [sy_worker sy_waiter sy_cancelled];
    repeat match goal with
    | H : _ = AtLane \/ _ |- _ => destruct H as [->|[->| ->]]
    | a : Appended |- _ => destruct a
    end; simpl; lia.
Qed.

Lemma nsteps_rank inv n s s' : nsteps (step inv) n s s' -> n + rank s' <= rank s.
Proof. induction 1 as [|n s1 s2 s3 Hst _ IH]; [lia|]. pose proof (step_rank _ _ _ Hst). lia. Qed.

(** A worker that has not reported has a next step. *)
Lemma worker_progress inv s :
  sys_ok inv s -> sy_worker s <> Reported -> exists s', step inv s s'.
Proof.
  intros [Hf Hw Hr _ _ _] Hn. destruct s as [f pc c x v j l]. simpl in *.
  assert (c = None) as -> by (destruct c as [w|]; [by destruct (Hr w eq_refl)|done]).
  destruct pc as [| |o publish|o publish a| | |].
  - eexists. by apply (lane_falls_back _ _ inv f x v j l true false (Err ErrUnavailable));
      unfold lifecycleLaneAttempt; destruct (in_laneDirect inv).
  - eexists. apply handler_stops.
  - eexists. by apply (append_ends _ _ inv f x v j l o publish AppendPanicked false).
  - destruct Hw as (Ha & Hc & _ & Hx).
    destruct (run_finish_ok f o (append_committed publish a) Hf Ha Hc) as (f' & Hfin & _).
    { destruct a as [id [er|]|]; simpl; rewrite ?andb_false_r; try done.
      intros [[? _]%andb_true_iff _]%andb_true_iff. auto. }
    eexists. by apply append_settles.
  - eexists. eapply (handler_returns _ _ inv f x v j l None None); [done|apply surjective_pairing].
  - eexists. by apply (worker_recovers _ _ inv f x v j l EmptyString).
  - done.
Qed.

(** C9: An invocation ends: it has at most nine steps, whichever are taken, and
    until the command has answered there is always one to take.  No lock order,
    panic or refused append leaves it waiting for a channel nobody closes, and
    no channel is closed twice. *)
Theorem hook_terminates inv n s :
  nsteps (hook_step Render Quote inv) n init_Sys s ->
  n <= 9 /\ ((exists o, sy_waiter s = Answered o) \/ exists s', hook_step Render Quote inv s s').
Proof.
  intros Hn. split; [apply nsteps_rank in Hn; change (rank init_Sys) with 9 in Hn; lia|].
  assert (sys_ok inv s) as Hok by (apply reachable_ok; apply rtc_nsteps; by exists n).
  destruct (decide (in_reported (sy_worker s) = true)) as [Hrep|Hrep].
  2:{ right. apply (worker_progress _ _ Hok). intros E. by rewrite E in Hrep. }
  destruct s as [f pc c x v j l]. destruct Hok as [Hf Hw _ Hp Hv _]. simpl in *.
  destruct pc; try done. destruct v as [| |o]; [|right|left; by exists o].
  - right. destruct c as [w|]; [|by destruct (Hp eq_refl eq_refl)].
    eexists. apply command_receives.
  - eexists. apply command_drains. apply (fo_closed _ Hf). destruct Hw as [Hna _].
    unfold settled_fence. simpl in Hv. destruct (cs_state f); auto; done.
Qed.

(** C10: The deadline answers without the worker: when it has fired and no append
    is in flight, two steps of the command alone, which no step of the worker
    need precede, leave it answered. *)
Theorem hook_deadline_answers inv s :
  reachable Render Quote inv s -> sy_cancelled s = true -> sy_waiter s = Selecting -> in_append (sy_worker s) = false ->
  exists s' o, nsteps (hook_step Render Quote inv) 2 s s' /\ sy_waiter s' = Answered o /\
    sy_worker s' = sy_worker s /\ sy_completed s' = sy_completed s /\ sy_journal s' = sy_journal s /\
    settled_fence (sy_fence s').
Proof.
  intros Hr%reachable_ok Hc Hsel Hin. destruct s as [f pc c x v j l]. simpl in *. subst x v.
  destruct Hr as [Hf Hw _ _ _ _]. simpl in *.
  destruct (Expire_ok f Hf) as (f' & Hex & Hf' & _ & _ & Hcase).
  assert (settled_fence f') as Hs.
  { unfold settled_fence. destruct Hcase as [[_ ->]|[Hni Hst]]; [by right|]. rewrite Hst.
    assert (cs_state f <> settlementActive) by (destruct pc; try done; by destruct Hw).
    destruct (cs_state f); auto; done. }
  exists (mk_Sys f' pc c true (Answered (answer_expired Render Quote inv f')) j l),
    (answer_expired Render Quote inv f'). split; [|by split_and!].
  eapply nsteps_l; [by apply command_expires|]. eapply nsteps_l; [|apply nsteps_O].
  apply command_drains. by apply (fo_closed _ Hf').
Qed.
End proofs.

(** ** An invocation whose deadline fires while a refusal is being recorded *)
Definition plain_render (_ : Coordinates) (_ : HookCause) : string := EmptyString.
Definition plain_quote (s : string) : string := s.
Definition pre_tool_use : Coordinates := mk_Coordinates HarnessClaudeCode "PreToolUse" "2.1.261".
Definition sample_inv : Prepared :=
  mk_Prepared pre_tool_use (lifecycleFailurePolicy pre_tool_use) FaultFailClosed EmptyContinuation
    false (5 * Second) (50 * Millisecond).
Definition denial : Outcome := mk_Outcome ExitBlock EmptyString "denied".
Definition active_fence : CommitSettlement :=
  mk_Settlement settlementActive (Some false) zero_Outcome false.
Definition denied_fence : CommitSettlement :=
  mk_Settlement settlementFinished (Some true) denial true.
Definition appending_Sys (cancelled : bool) (v : WaiterPC) : Sys :=
  mk_Sys active_fence (InAppend denial true) None cancelled v [] None.
Definition denied_Sys (v : WaiterPC) : Sys :=
  mk_Sys denied_fence Returning None true v [Evaluated denial] None.
Definition expired_Sys : Sys := mk_Sys NewCommitSettlement AtLane None true Selecting [] None.

Lemma sample_appending cancelled :
  reachable plain_render plain_quote sample_inv (appending_Sys cancelled Selecting).
Proof.
  eapply rtc_l; [apply (lane_falls_back _ _ _ _ _ _ _ _ true false (Err ErrUnavailable)); reflexivity|].
  eapply rtc_l; [apply (handler_enters _ _ _ _ active_fence _ _ _ _ None denial true);
    [by left|reflexivity]|].
  destruct cancelled; [|apply rtc_refl]. eapply rtc_l; [apply deadline_expires|]. apply rtc_refl.
Qed.

Lemma sample_denied :
  reachable plain_render plain_quote sample_inv (denied_Sys (Answered denial)).
Proof.
  unfold reachable. etrans; [apply (sample_appending true)|].
  eapply rtc_l; [by apply (command_expires _ _ _ _ active_fence)|].
  eapply rtc_l; [by apply (append_ends _ _ _ _ _ _ _ _ _ _ (AppendReturned 7 None) true)|].
  eapply rtc_l; [by apply (append_settles _ _ _ _ denied_fence)|].
  eapply rtc_l; [by apply command_drains|]. apply rtc_refl.
Qed.

(** The same, but the journal commits and then fails to name the receipt. *)
Definition doubtful_fence : CommitSettlement :=
  mk_Settlement settlementFinished (Some true) zero_Outcome false.
Definition doubtful_answer : Outcome :=
  answer_expired plain_render plain_quote sample_inv doubtful_fence.
Definition doubtful_Sys : Sys :=
  mk_Sys doubtful_fence Returning None true (Answered doubtful_answer) [Evaluated denial] None.

Lemma sample_doubtful : reachable plain_render plain_quote sample_inv doubtful_Sys.
Proof.
  unfold reachable. etrans; [apply (sample_appending true)|].
  eapply rtc_l; [by apply (command_expires _ _ _ _ active_fence)|].
  eapply rtc_l; [by apply (append_ends _ _ _ _ _ _ _ _ _ _
    (AppendReturned 0 (Some (caused plain_render pre_tool_use NoPublishedOutcome []))) true)|].
  eapply rtc_l; [by apply (append_settles _ _ _ _ doubtful_fence)|].
  eapply rtc_l; [by apply command_drains|]. apply rtc_refl.
Qed.

Lemma sample_prepared : prepared_ok sample_inv.
Proof. split; [|reflexivity]. by exists pre_tool_use. Qed.

Lemma hook_answers_once_witness :
  sy_waiter (mk_Sys denied_fence Reported (Some (mk_Work denial None FaultStageUnset)) true
    (Answered denial) [Evaluated denial] None) = Answered denial /\
  doubtful_fault plain_quote sample_inv doubtful_answer.
Proof.
  split.
  - apply (hook_answers_once plain_render plain_quote sample_inv (denied_Sys (Answered denial))).
    + apply sample_denied.
    + reflexivity.
    + eapply rtc_l; [eapply (handler_returns _ _ _ _ _ _ _ _ None None); [done|reflexivity]|].
      apply rtc_refl.
  - apply (hook_answers_once plain_render plain_quote sample_inv doubtful_Sys doubtful_Sys).
    + apply sample_doubtful.
    + reflexivity.
    + apply rtc_refl.
Defined.

Lemma hook_answer_origin_witness :
  ExitStatus_IsValid (oc_Exit denial) = true /\ emitted_code denial = 2%Z.
Proof.
  destruct (hook_answer_origin plain_render plain_quote sample_inv (denied_Sys (Answered denial))
    denial sample_prepared sample_denied eq_refl) as (_ & Hv & He).
  split; [exact Hv|]. rewrite He. reflexivity.
Defined.

Lemma hook_terminates_witness :
  exists s', hook_step plain_render plain_quote sample_inv expired_Sys s'.
Proof.
  destruct (hook_terminates plain_render plain_quote sample_inv 1 expired_Sys) as [_ [[o Ho]|H]].
  - eapply nsteps_l; [apply deadline_expires|]. apply nsteps_O.
  - discriminate Ho.
  - exact H.
Defined.

Lemma hook_deadline_answers_witness :
  exists s' o, nsteps (hook_step plain_render plain_quote sample_inv) 2 expired_Sys s' /\
    sy_waiter s' = Answered o /\ sy_worker s' = AtLane.
Proof.
  destruct (hook_deadline_answers plain_render plain_quote sample_inv expired_Sys) as
    (s' & o & Hn & Ha & Hw & _).
  - eapply rtc_l; [apply deadline_expires|]. apply rtc_refl.
  - reflexivity.
  - reflexivity.
  - reflexivity.
  - exists s', o. split; [exact Hn|]. split; [exact Ha|exact Hw].
Defined.

Definition fail_closed_only (name : string) : option string :=
  if String.eqb name hookFailClosedEnv then Some "1" else None.

Lemma prepare_answers_witness :
  exists inv, prepare plain_render plain_quote pre_tool_use
    (HookEnvironmentFromOS parse_sample "default" fail_closed_only) []
    (mk_Profile 0 0 0 0 0 0) (fun _ => Ok "2.1.261") = inr inv /\
    prepared_ok inv /\ in_policy inv = FaultFailClosed /\ in_connect inv = (in_tier inv / 100)%Z.
Proof.
  pose proof (prepare_answers plain_render plain_quote parse_sample "default" fail_closed_only pre_tool_use []
    (mk_Profile 0 0 0 0 0 0) (fun _ => Ok "2.1.261")) as H. cbv zeta in H.
  destruct (prepare plain_render plain_quote pre_tool_use
    (HookEnvironmentFromOS parse_sample "default" fail_closed_only) [] (mk_Profile 0 0 0 0 0 0)
    (fun _ => Ok "2.1.261")) as [o|inv] eqn:Hp; [vm_compute in Hp; discriminate|].
  exists inv. split; [reflexivity|]. destruct H as (Hok & _). split; [exact Hok|].
  revert Hp. clear. intros Hp. vm_compute in Hp. injection Hp as <-. split; reflexivity.
Defined.
