(* ===== verification/DecisionLedger.v ===== *)
(** DecisionLedger: typed decision descriptors, drafts, the catalog, stored
    encodings and the coverage digest's text form
    (internal/tasks/decision_ledger.go).

    A descriptor's token is the address of an object allocated by its
    constructor: an optional number, [None] for the nil token of the zero
    descriptor.  Functions that may be nil are options.  A type-erased binding
    is the record of the interface's methods.  [E] is the error type of the
    caller's codec functions; [copyPayload] is the identity on values. *)

From Stdlib Require Import ZArith Lia Ascii String.
From stdpp Require Import base tactics list strings gmap.
From S2P Require Import Prelude GoStrings.
Local Open Scope list_scope.

Abbreviation DecisionKindID := string (only parsing).
Abbreviation DecisionCodecID := string (only parsing).
Abbreviation DecisionSchemaDigest := bytes (only parsing).
Abbreviation CanonicalDecisionPayload := bytes (only parsing).
Abbreviation DecisionLedgerEntryID := string (only parsing).
Abbreviation DocumentRevisionID := string (only parsing).
Abbreviation PlanUATDecisionID := string (only parsing).
Abbreviation token := (option nat) (only parsing).

Definition zero_schema : DecisionSchemaDigest := replicate 32 (ascii_of_N 0).

Record DecisionEncoding := mk_Encoding {
  en_Kind : DecisionKindID;
  en_Codec : DecisionCodecID;
  en_Schema : DecisionSchemaDigest;
  en_Payload : CanonicalDecisionPayload;
}.

Record DecisionCatalogEntry := mk_CatalogEntry {
  ce_Kind : DecisionKindID;
  ce_Codec : DecisionCodecID;
  ce_Schema : DecisionSchemaDigest;
}.

(** ** Digest text *)
Abbreviation CoverageDigest := bytes (only parsing).

Definition coverageDigestPrefix : bytes := to_bytes "sha256:".

Definition MarshalText (d : CoverageDigest) : bytes := coverageDigestPrefix ++ HexEncode d.

Inductive DigestError :=
  | MissingPrefix (text : bytes)
  | InvalidHex (body : bytes)
  | WrongLength (n : nat).

Definition ParseCoverageDigest (text : bytes) : result DigestError CoverageDigest :=
  match strip_prefix coverageDigestPrefix text with
  | None => Err (MissingPrefix text)
  | Some body =>
      match HexDecode body with
      | None => Err (InvalidHex body)
      | Some raw => if negb (length raw =? 32)%nat then Err (WrongLength (length raw)) else Ok raw
      end
  end.

Section ledger.
Context {E : Type}.

Inductive LedgerError :=
  | EmptyKind
  | EmptyCodec
  | ZeroSchema
  | NilFunction
  | ZeroDescriptor
  | InvalidValue (kind : DecisionKindID) (cause : E)
  | EncodeFailed (kind : DecisionKindID) (cause : E)
  | DecodeFailed (kind : DecisionKindID) (cause : E)
  | IdentityMismatch (kind : DecisionKindID)
  | NotCanonical (kind : DecisionKindID)
  | NilBinding (i : nat)
  | EmptyBindingKind (i : nat)
  | DuplicateKind (kind : DecisionKindID)
  | NotRegistered (kind : DecisionKindID)
  | UnregisteredToken (kind : DecisionKindID)
  | DraftMismatch (kind : DecisionKindID).

(** ** Descriptors *)
Record DecisionDescriptor (T : Type) := mk_Descriptor {
  dd_kind : DecisionKindID;
  dd_codec : DecisionCodecID;
  dd_schema : DecisionSchemaDigest;
  dd_token : token;
  dd_validate : T -> option E;
  dd_encode : T -> result E CanonicalDecisionPayload;
  dd_decode : CanonicalDecisionPayload -> result E T;
}.
#[global] Arguments mk_Descriptor {T}.
#[global] Arguments dd_kind {T}.
#[global] Arguments dd_codec {T}.
#[global] Arguments dd_schema {T}.
#[global] Arguments dd_token {T}.
#[global] Arguments dd_validate {T}.
#[global] Arguments dd_encode {T}.
#[global] Arguments dd_decode {T}.

(** [fresh] is the address of the token allocated by this call. *)
Definition NewDecisionDescriptor {T} (fresh : nat) (kind : DecisionKindID)
    (codec : DecisionCodecID) (schema : DecisionSchemaDigest)
    (validate : option (T -> option E))
    (encode : option (T -> result E CanonicalDecisionPayload))
    (decode : option (CanonicalDecisionPayload -> result E T))
    : result LedgerError (DecisionDescriptor T) :=
  if String.eqb kind EmptyString then Err EmptyKind
  else if String.eqb codec EmptyString then Err EmptyCodec
  else if bool_decide (schema = zero_schema) then Err ZeroSchema
  else match validate, encode, decode with
       | Some validate, Some encode, Some decode =>
           Ok (mk_Descriptor kind codec schema (Some fresh) validate encode decode)
       | _, _, _ => Err NilFunction
       end.

Definition constructed {T} (d : DecisionDescriptor T) : bool := bool_decide (dd_token d <> None).

Record DecisionDraft := mk_Draft {
  dr_kind : DecisionKindID;
  dr_codec : DecisionCodecID;
  dr_schema : DecisionSchemaDigest;
  dr_token : token;
  dr_payload : CanonicalDecisionPayload;
}.

Definition Draft {T} (d : DecisionDescriptor T) (value : T) : result LedgerError DecisionDraft :=
  if negb (constructed d) then Err ZeroDescriptor
  else match dd_validate d value with
  | Some e => Err (InvalidValue (dd_kind d) e)
  | None =>
      match dd_encode d value with
      | Err e => Err (EncodeFailed (dd_kind d) e)
      | Ok payload => Ok (mk_Draft (dd_kind d) (dd_codec d) (dd_schema d) (dd_token d) payload)
      end
  end.

Definition encoding (d : DecisionDraft) : DecisionEncoding :=
  mk_Encoding (dr_kind d) (dr_codec d) (dr_schema d) (dr_payload d).

(** ** Bindings and the catalog *)
Record DecisionBinding := mk_Binding {
  bd_entry : DecisionCatalogEntry;
  bd_token : token;
  bd_validateStored : DecisionEncoding -> option LedgerError;
}.

(** Decode, revalidate, re-encode and compare. *)
Definition decode_canonical {T} (d : DecisionDescriptor T) (enc : DecisionEncoding)
    : result LedgerError T :=
  match dd_decode d (en_Payload enc) with
  | Err e => Err (DecodeFailed (en_Kind enc) e)
  | Ok value =>
      match dd_validate d value with
      | Some e => Err (InvalidValue (en_Kind enc) e)
      | None =>
          match dd_encode d value with
          | Err e => Err (EncodeFailed (en_Kind enc) e)
          | Ok reencoded =>
              if negb (bool_decide (reencoded = en_Payload enc)) then Err (NotCanonical (en_Kind enc))
              else Ok value
          end
      end
  end.

Definition validateStored {T} (d : DecisionDescriptor T) (enc : DecisionEncoding)
    : option LedgerError :=
  if negb (String.eqb (en_Kind enc) (dd_kind d)) || negb (String.eqb (en_Codec enc) (dd_codec d))
     || negb (bool_decide (en_Schema enc = dd_schema d))
  then Some (IdentityMismatch (en_Kind enc))
  else match decode_canonical d enc with
       | Err e => Some e
       | Ok _ => None
       end.

Definition BindDecision {T} (d : DecisionDescriptor T) : DecisionBinding :=
  mk_Binding (mk_CatalogEntry (dd_kind d) (dd_codec d) (dd_schema d)) (dd_token d)
    (validateStored d).

Record DecisionCatalog := mk_Catalog {
  ct_byKind : gmap DecisionKindID DecisionBinding;
  ct_manifest : list DecisionCatalogEntry;
}.

(** The loop over the bindings, from index [i]; [None] is a nil binding. *)
Fixpoint bind_loop (i : nat) (bindings : list (option DecisionBinding)) (c : DecisionCatalog)
    : result LedgerError DecisionCatalog :=
  match bindings with
  | [] => Ok c
  | None :: _ => Err (NilBinding i)
  | Some b :: rest =>
      let e := bd_entry b in
      if String.eqb (ce_Kind e) EmptyString then Err (EmptyBindingKind i)
      else match ct_byKind c !! ce_Kind e with
      | Some _ => Err (DuplicateKind (ce_Kind e))
      | None => bind_loop (S i) rest
                  (mk_Catalog (<[ce_Kind e := b]> (ct_byKind c)) (ct_manifest c ++ [e]))
      end
  end.

Definition NewDecisionCatalog (bindings : list (option DecisionBinding))
    : result LedgerError DecisionCatalog :=
  bind_loop 0 bindings (mk_Catalog ∅ []).

Definition ValidateDraft (c : DecisionCatalog) (draft : DecisionDraft) : option LedgerError :=
  match ct_byKind c !! dr_kind draft with
  | None => Some (NotRegistered (dr_kind draft))
  | Some b =>
      if negb (bool_decide (bd_token b = dr_token draft))
      then Some (UnregisteredToken (dr_kind draft))
      else let e := bd_entry b in
           if negb (String.eqb (dr_codec draft) (ce_Codec e))
              || negb (bool_decide (dr_schema draft = ce_Schema e))
           then Some (DraftMismatch (dr_kind draft)) else None
  end.

Definition ValidateStored (c : DecisionCatalog) (enc : DecisionEncoding) : option LedgerError :=
  match ct_byKind c !! en_Kind enc with
  | None => Some (NotRegistered (en_Kind enc))
  | Some b => bd_validateStored b enc
  end.

Definition DecodeDecision {T} (catalog : DecisionCatalog) (descriptor : DecisionDescriptor T)
    (enc : DecisionEncoding) : result LedgerError T :=
  if negb (constructed descriptor) then Err ZeroDescriptor
  else match ct_byKind catalog !! en_Kind enc with
  | None => Err (NotRegistered (en_Kind enc))
  | Some b =>
      if negb (bool_decide (bd_token b = dd_token descriptor))
      then Err (UnregisteredToken (en_Kind enc))
      else if negb (String.eqb (en_Codec enc) (dd_codec descriptor))
              || negb (bool_decide (en_Schema enc = dd_schema descriptor))
              || negb (String.eqb (en_Kind enc) (dd_kind descriptor))
      then Err (IdentityMismatch (en_Kind enc))
      else decode_canonical descriptor enc
  end.

(** * Theorems *)

(** A descriptor is registered when the catalog holds its binding. *)
Definition registered {T} (c : DecisionCatalog) (d : DecisionDescriptor T) : Prop :=
  constructed d = true /\ ct_byKind c !! dd_kind d = Some (BindDecision d).

Lemma decode_canonical_Ok {T} (d : DecisionDescriptor T) enc v :
  decode_canonical d enc = Ok v <->
  dd_decode d (en_Payload enc) = Ok v /\ dd_validate d v = None /\
  dd_encode d v = Ok (en_Payload enc).
Proof.
  unfold decode_canonical. split.
  - destruct (dd_decode d _) as [v'|]; [|done]. destruct (dd_validate d v') eqn:Hv; [done|].
    destruct (dd_encode d v') as [p|] eqn:He; [|done].
    case_bool_decide as Hp; [|done]. simpl. intros [= <-]. by rewrite <- Hp.
  - intros (-> & -> & ->). by rewrite bool_decide_eq_true_2.
Qed.

Lemma DecodeDecision_Ok {T} c (d : DecisionDescriptor T) enc v :
  DecodeDecision c d enc = Ok v ->
  en_Kind enc = dd_kind d /\ en_Codec enc = dd_codec d /\ en_Schema enc = dd_schema d /\
  decode_canonical d enc = Ok v.
Proof.
  unfold DecodeDecision. destruct (constructed d); [|done]. simpl.
  destruct (ct_byKind c !! _); [|done]. case_bool_decide; [|done]. simpl.
  destruct (String.eqb_spec (en_Codec enc) (dd_codec d)); [|done]. simpl.
  case_bool_decide; [|done]. simpl.
  destruct (String.eqb_spec (en_Kind enc) (dd_kind d)); [|done]. done.
Qed.

Lemma DecodeDecision_registered {T} c (d : DecisionDescriptor T) enc :
  registered c d ->
  en_Kind enc = dd_kind d -> en_Codec enc = dd_codec d -> en_Schema enc = dd_schema d ->
  DecodeDecision c d enc = decode_canonical d enc /\
  ValidateStored c enc = match decode_canonical d enc with Ok _ => None | Err e => Some e end.
Proof.
  intros [Hc Hr] Hk Hco Hs. unfold DecodeDecision, ValidateStored. rewrite Hc, Hk, Hr. simpl.
  rewrite bool_decide_eq_true_2 by done. unfold validateStored.
  by rewrite Hco, Hs, Hk, !String.eqb_refl, bool_decide_eq_true_2.
Qed.

Lemma Draft_Ok {T} (d : DecisionDescriptor T) v dr :
  Draft d v = Ok dr <->
  constructed d = true /\ dd_validate d v = None /\
  exists p, dd_encode d v = Ok p /\
    dr = mk_Draft (dd_kind d) (dd_codec d) (dd_schema d) (dd_token d) p.
Proof.
  unfold Draft. split.
  - destruct (constructed d); [|done]. destruct (dd_validate d v); [done|].
    destruct (dd_encode d v) as [p|]; [|done]. intros [= <-]. eauto.
  - by intros (-> & -> & p & -> & ->).
Qed.

(** The append gate accepts what a registered descriptor drafts. *)
Lemma Draft_admitted {T} c (d : DecisionDescriptor T) v dr :
  registered c d -> Draft d v = Ok dr ->
  ValidateDraft c dr = None /\ dd_validate d v = None /\ dr_kind dr = dd_kind d.
Proof.
  intros [_ Hr] (_ & Hv & p & _ & ->)%Draft_Ok. split; [|done].
  unfold ValidateDraft. simpl. rewrite Hr. simpl.
  by rewrite !bool_decide_eq_true_2, String.eqb_refl.
Qed.

Lemma draft_decodes {T} c (d : DecisionDescriptor T) v dr :
  registered c d ->
  (forall p, dd_encode d v = Ok p -> dd_decode d p = Ok v) ->
  Draft d v = Ok dr ->
  ValidateDraft c dr = None /\ ValidateStored c (encoding dr) = None /\
  DecodeDecision c d (encoding dr) = Ok v.
Proof.
  intros Hr Hcodec (Hc & Hv & p & Hp & ->)%Draft_Ok.
  assert (decode_canonical d (encoding (mk_Draft (dd_kind d) (dd_codec d) (dd_schema d)
            (dd_token d) p)) = Ok v) as Hd by (apply decode_canonical_Ok; simpl; auto).
  destruct (DecodeDecision_registered c d (encoding (mk_Draft (dd_kind d) (dd_codec d)
            (dd_schema d) (dd_token d) p)) Hr eq_refl eq_refl eq_refl) as [-> ->].
  rewrite Hd. split; [|done].
  by eapply Draft_admitted; [exact Hr|apply Draft_Ok; eauto].
Qed.

(** C38: what a registered descriptor drafts is accepted by the append gate and
    by the stored-row check, and decodes to the value that was drafted, as long
    as the codec decodes what it encodes. *)
Theorem draft_round_trip {T} c (d : DecisionDescriptor T) v dr :
  registered c d ->
  (forall p, dd_encode d v = Ok p -> dd_decode d p = Ok v) ->
  Draft d v = Ok dr ->
  ValidateDraft c dr = None /\ ValidateStored c (encoding dr) = None /\
  DecodeDecision c d (encoding dr) = Ok v.
Proof. apply draft_decodes. Qed.

(** Decoding is sound and canonical: a decoded value is valid and encodes
    back to the stored bytes, so two rows of one descriptor that decode to the
    same value are the same row. *)
Lemma DecodeDecision_canonical {T} c (d : DecisionDescriptor T) enc v :
  DecodeDecision c d enc = Ok v ->
  dd_validate d v = None /\ dd_encode d v = Ok (en_Payload enc) /\
  (forall c' enc', DecodeDecision c' d enc' = Ok v -> enc' = enc).
Proof.
  intros (Hk & Hc & Hs & (_ & Hv & He)%decode_canonical_Ok)%DecodeDecision_Ok.
  split; [done|split; [done|]].
  intros c' enc' (Hk' & Hc' & Hs' & (_ & _ & He')%decode_canonical_Ok)%DecodeDecision_Ok.
  destruct enc, enc'; simpl in *. congruence.
Qed.

(** ** The catalog *)

Definition binding_kind (b : DecisionBinding) : DecisionKindID := ce_Kind (bd_entry b).

Lemma bind_loop_Ok i bindings c c' :
  bind_loop i bindings c = Ok c' <->
  exists bs, bindings = map Some bs /\
    Forall (fun b => binding_kind b <> EmptyString /\ ct_byKind c !! binding_kind b = None) bs /\
    NoDup (map binding_kind bs) /\
    c' = mk_Catalog (list_to_map (map (fun b => (binding_kind b, b)) bs) ∪ ct_byKind c)
           (ct_manifest c ++ map bd_entry bs).
Proof.
  revert i c. induction bindings as [|[b|] bindings IH]; intros i c; cbn [bind_loop].
  - split.
    + intros [= <-]. exists []. split_and!; [done|constructor|constructor|].
      destruct c; simpl. by rewrite (left_id_L ∅ (∪)), app_nil_r.
    + intros (bs & Hbs & _ & _ & ->). destruct bs; [|done].
      destruct c; simpl. by rewrite (left_id_L ∅ (∪)), app_nil_r.
  - fold (binding_kind b). split.
    + destruct (String.eqb_spec (binding_kind b) EmptyString) as [|Hne]; [done|].
      destruct (ct_byKind c !! binding_kind b) eqn:Hb; [done|].
      intros (bs & -> & HF & Hnd & ->)%IH. simpl in *. exists (b :: bs).
      assert (binding_kind b ∉ map binding_kind bs) as Hnot.
      { intros (b' & Hb' & Hin)%list_elem_of_fmap. rewrite Forall_forall in HF.
        specialize (HF b' Hin) as [_ HF]. rewrite <- Hb', lookup_insert_eq in HF. done. }
      split_and!; [done| |by constructor|].
      * constructor; [done|]. eapply Forall_impl; [exact HF|]. intros b' [? Hl]. split; [done|].
        by apply lookup_insert_None in Hl as [? _].
      * f_equal; [|simpl; by rewrite <- app_assoc]. simpl.
        rewrite <- insert_union_l. rewrite insert_union_r; [done|].
        apply not_elem_of_list_to_map_1. by rewrite <- list_fmap_compose.
    + intros (bs & Hbs & HF & Hnd & ->). destruct bs as [|b' bs]; [done|].
      simpl in Hbs. injection Hbs as <- Hbs. inversion_clear HF as [|? ? [Hne Hb] HF'].
      simpl in Hnd. inversion_clear Hnd as [|? ? Hnot Hnd'].
      destruct (String.eqb_spec (binding_kind b) EmptyString) as [|_]; [done|]. rewrite Hb.
      apply IH. exists bs. simpl. split_and!; [done| |done|].
      * rewrite Forall_forall in HF' |- *. intros b' Hin. destruct (HF' b' Hin) as [? Hl].
        split; [done|]. apply lookup_insert_None. split; [done|]. intros Hk.
        apply Hnot. rewrite Hk. by apply list_elem_of_fmap_2.
      * f_equal; [|simpl; by rewrite <- app_assoc]. rewrite <- insert_union_l.
        rewrite insert_union_r; [done|].
        apply not_elem_of_list_to_map_1. by rewrite <- list_fmap_compose.
  - split; [done|]. intros (bs & Hbs & _). by destruct bs.
Qed.

(** Catalog construction succeeds exactly on non-nil bindings of distinct,
    non-empty kinds, whatever their order, and the catalog then maps each kind
    to its binding and lists the bindings in the order given. *)
Lemma NewDecisionCatalog_spec bindings c :
  NewDecisionCatalog bindings = Ok c <->
  exists bs, bindings = map Some bs /\
    Forall (fun b => binding_kind b <> EmptyString) bs /\
    NoDup (map binding_kind bs) /\
    (forall k b, ct_byKind c !! k = Some b <-> b ∈ bs /\ binding_kind b = k) /\
    ct_manifest c = map bd_entry bs.
Proof.
  unfold NewDecisionCatalog. rewrite bind_loop_Ok. simpl.
  assert (Hl : forall bs k b, NoDup (map binding_kind bs) ->
    (list_to_map (map (fun b => (binding_kind b, b)) bs) ∪ ∅ : gmap string DecisionBinding) !! k = Some b
      <-> b ∈ bs /\ binding_kind b = k).
  { intros bs k b Hnd. rewrite (right_id_L ∅ (∪)), <- elem_of_list_to_map.
    - rewrite list_elem_of_fmap. naive_solver.
    - by rewrite <- list_fmap_compose. }
  split; intros (bs & -> & HF & Hnd & Hc); exists bs; (split; [done|]).
  - split_and!; [|done| |by subst].
    + eapply Forall_impl; [exact HF|]. by intros b [? _].
    + subst. intros. by apply Hl.
  - split_and!; [|done|].
    + eapply Forall_impl; [exact HF|]. done.
    + destruct Hc as [Hk Hm], c as [m l]. simpl in *. f_equal; [|done].
      apply map_eq. intros k. apply option_eq. intros b. by rewrite Hk, Hl.
Qed.

End ledger.

(** ** Digest text *)

Lemma strip_prefix_app p s : strip_prefix p (p ++ s) = Some s.
Proof. induction p as [|a p IH]; [done|]. simpl. by rewrite Ascii.eqb_refl. Qed.

(** The text form of a digest parses back to it, and what parses has 32
    bytes. *)
Lemma digest_text_round_trip d :
  (length d = 32 -> ParseCoverageDigest (MarshalText d) = Ok d) /\
  (forall text, ParseCoverageDigest text = Ok d -> length d = 32).
Proof.
  unfold ParseCoverageDigest, MarshalText. split.
  - intros Hd. by rewrite strip_prefix_app, HexDecode_HexEncode, Hd.
  - intros text. destruct (strip_prefix _ _); [|done]. destruct (HexDecode _); [|done].
    destruct (Nat.eqb_spec (length l0) 32); [|done]. by intros [= <-].
Qed.

(** Upper-case hexadecimal is accepted too. *)
Lemma digest_text_upper_case :
  ParseCoverageDigest (coverageDigestPrefix ++ replicate 64 "A"%char)
  = ParseCoverageDigest (coverageDigestPrefix ++ replicate 64 "a"%char) /\
  is_ok (ParseCoverageDigest (coverageDigestPrefix ++ replicate 64 "A"%char)) = true.
Proof. split; vm_compute; reflexivity. Qed.

(** ** A concrete descriptor *)

Definition flag_encode (b : bool) : result unit bytes :=
  Ok (to_bytes (if b then "true" else "false")%string).
Definition flag_decode (p : bytes) : result unit bool :=
  if bool_decide (p = to_bytes "true") then Ok true
  else if bool_decide (p = to_bytes "false") then Ok false else Err tt.
Definition flag_descriptor : DecisionDescriptor (E := unit) bool :=
  mk_Descriptor "flag/v1" "canonical-json/v1" (replicate 32 "s"%char) (Some 7%nat)
    (fun _ => None) flag_encode flag_decode.
Definition flag_catalog : DecisionCatalog (E := unit) :=
  mk_Catalog {["flag/v1"%string := BindDecision flag_descriptor]} [].

Lemma flag_registered : registered flag_catalog flag_descriptor.
Proof. split; reflexivity. Qed.

Lemma draft_round_trip_witness :
  exists dr, Draft flag_descriptor true = Ok dr /\
    ValidateDraft flag_catalog dr = None /\
    DecodeDecision flag_catalog flag_descriptor (encoding dr) = Ok true.
Proof.
  exists (mk_Draft "flag/v1" "canonical-json/v1" (replicate 32 "s"%char) (Some 7%nat)
            (to_bytes "true")).
  split; [reflexivity|].
  destruct (draft_round_trip flag_catalog flag_descriptor true
    (mk_Draft "flag/v1" "canonical-json/v1" (replicate 32 "s"%char) (Some 7%nat) (to_bytes "true"))
    flag_registered ltac:(intros p [= <-]; reflexivity) eq_refl) as (H1 & _ & H2).
  split; [exact H1|exact H2].
Defined.

Lemma DecodeDecision_canonical_witness :
  let enc := mk_Encoding "flag/v1" "canonical-json/v1" (replicate 32 "s"%char) (to_bytes "false") in
  DecodeDecision flag_catalog flag_descriptor enc = Ok false /\
  dd_encode flag_descriptor false = Ok (en_Payload enc).
Proof.
  intros enc. assert (H : DecodeDecision flag_catalog flag_descriptor enc = Ok false) by reflexivity.
  split; [exact H|].
  exact (proj1 (proj2 (DecodeDecision_canonical flag_catalog flag_descriptor enc false H))).
Defined.
