(* ===== verification/UatPolicy.v ===== *)
(** UatPolicy: the acceptance payloads and their validation, the production
    policy set, interaction modes, and the deferral and ratification of a plan
    away from the keyboard (internal/tasks/uat_policy.go, policy_set.go,
    interaction_mode.go, afk_ratify.go).

    Task identifiers and agent kinds belong to the Provenance library and JSON
    and SHA-256 to Go's: they are classes.  Verdicts and resolution kinds are
    open integers.  A validator returns its first error; [where] names the
    field or the function it reports. *)

From Stdlib Require Import ZArith Lia Ascii String.
From stdpp Require Import base tactics list strings gmap.
From S2P Require Import Prelude GoStrings DecisionLedger.
Local Open Scope string_scope.

Class Provenance := {
  TaskID : Type;
  TaskID_eq_dec :: EqDecision TaskID;
  zero_TaskID : TaskID;
  ActorID : Type;
  AgentKind : Type;
  AgentKind_eq_dec :: EqDecision AgentKind;
  AgentKindHuman : AgentKind;
}.

Class Sha256 := Sum256 : bytes -> bytes.

(** ** Payload data *)
Record UATInteraction := mk_Interaction { ui_Prompt : string; ui_Response : string }.

Record UATFeedbackItem := mk_Feedback {
  fi_ID : string;
  fi_Body : string;
  fi_FixNow : bool;
}.

Record HeldUATQuestion := mk_Held {
  hq_ID : string;
  hq_Question : string;
  hq_Stable : bool;
}.

Definition PlanUATAccepted : Z := 1.
Definition PlanUATChangesRequested : Z := 2.
Definition PlanUATDeferredByAFK : Z := 3.
Definition PlanUATVerdict_valid (v : Z) : bool :=
  ((v =? PlanUATAccepted) || (v =? PlanUATChangesRequested) || (v =? PlanUATDeferredByAFK))%Z.

Definition ImplUATAccepted : Z := 1.
Definition ImplUATChangesRequested : Z := 2.
Definition ImplementationUATVerdict_valid (v : Z) : bool :=
  ((v =? ImplUATAccepted) || (v =? ImplUATChangesRequested))%Z.
Definition ImplementationUATVerdict_String (v : Z) : string :=
  if (v =? ImplUATAccepted)%Z then "accepted"
  else if (v =? ImplUATChangesRequested)%Z then "changes_requested"
  else "ImplementationUATVerdict(" ++ format_int v ++ ")".

Definition ResolutionConfirm : Z := 1.
Definition ResolutionDefer : Z := 2.
Definition ResolutionReplace : Z := 3.
Definition ResolutionKind_valid (k : Z) : bool :=
  ((k =? ResolutionConfirm) || (k =? ResolutionDefer) || (k =? ResolutionReplace))%Z.
Definition ResolutionKind_String (k : Z) : string :=
  if (k =? ResolutionConfirm)%Z then "confirm"
  else if (k =? ResolutionDefer)%Z then "defer"
  else if (k =? ResolutionReplace)%Z then "replace"
  else "ResolutionKind(" ++ format_int k ++ ")".

(** The three resolution types differ in the type of their target only. *)
Record Resolution := mk_Resolution {
  rs_Target : string;
  rs_Kind : Z;
  rs_Note : string;
}.

Record ImplUATPayload := mk_ImplUATPayload {
  iu_Interactions : list UATInteraction;
  iu_Feedback : list UATFeedbackItem;
  iu_HeldAnswers : list Resolution;
  iu_PlanFeedback : list Resolution;
  iu_LedgerDecisions : list Resolution;
}.

Definition InteractionNormal : string := "normal".
Definition InteractionAFK : string := "afk".
Definition InteractionMode_valid (m : string) : bool :=
  String.eqb m InteractionNormal || String.eqb m InteractionAFK.

Record InteractionModeCursor := mk_Cursor {
  mc_Entry : option DecisionLedgerEntryID;
  mc_Mode : string;
}.

Record InteractionModeChanged := mk_ModeChanged { im_From : string; im_To : string }.

Record PlanRatified := mk_PlanRatified {
  pr_Proposal : string;
  pr_ReviewRound : string;
  pr_PlanUAT : DecisionLedgerEntryID;
}.

Record EpochLanded := mk_EpochLanded {
  el_Candidate : string;
  el_ImplementationUAT : DecisionLedgerEntryID;
}.

Record implementationUATRecord := mk_implUATRecord {
  ir_Outcome : Z;
  ir_Payload : ImplUATPayload;
}.

Inductive PolicyFailure :=
  | EmptyPrompt (where_ : string) (i : nat)
  | EmptyResponse (where_ : string) (i : nat)
  | EmptyItemID (where_ : string) (i : nat)
  | DuplicateItemID (where_ : string) (id : string)
  | InvalidResolutionKind (where_ : string) (i : nat) (kind : Z)
  | EmptyTarget (where_ : string) (i : nat)
  | ResolvedTwice (where_ : string) (target : string)
  | InvalidVerdict (where_ : string) (verdict : Z)
  | FixNowConflict (where_ : string)
  | SnapshotIncomplete (where_ : string) (part : string)
  | NoModeEntry (where_ : string)
  | NoStableHeldQuestion (where_ : string)
  | HeldQuestionsNotDeferred (verdict : Z)
  | ModeNotAFK (where_ : string) (mode : string)
  | ModeEntryReplaced (current recorded : DecisionLedgerEntryID)
  | UnknownMode (where_ : string) (mode : string)
  | BrokenModeChain (id : DecisionLedgerEntryID) (from mode : string)
  | MissingEvidence (where_ : string).

(** ** Validation *)
Fixpoint validate_interactions (where_ : string) (i : nat) (xs : list UATInteraction)
    : option PolicyFailure :=
  match xs with
  | [] => None
  | x :: rest =>
      if String.eqb (ui_Prompt x) EmptyString then Some (EmptyPrompt where_ i)
      else if String.eqb (ui_Response x) EmptyString then Some (EmptyResponse where_ i)
      else validate_interactions where_ (S i) rest
  end.
Definition validateInteractions (where_ : string) := validate_interactions where_ 0.

(** The loop that refuses empty and repeated identifiers. *)
Fixpoint validate_ids (where_ : string) (i : nat) (seen : gset string) (ids : list string)
    : option PolicyFailure :=
  match ids with
  | [] => None
  | id :: rest =>
      if String.eqb id EmptyString then Some (EmptyItemID where_ i)
      else if bool_decide (id ∈ seen) then Some (DuplicateItemID where_ id)
      else validate_ids where_ (S i) ({[id]} ∪ seen) rest
  end.
Definition validateFeedback (where_ : string) (xs : list UATFeedbackItem) :=
  validate_ids where_ 0 ∅ (map fi_ID xs).
Definition validateHeldQuestions (where_ : string) (xs : list HeldUATQuestion) :=
  validate_ids where_ 0 ∅ (map hq_ID xs).

Definition hasFixNowFeedback (xs : list UATFeedbackItem) : bool := existsb fi_FixNow xs.
Definition hasStableHeldQuestion (xs : list HeldUATQuestion) : bool := existsb hq_Stable xs.

Definition replaces (xs : list Resolution) : bool :=
  existsb (fun r => (rs_Kind r =? ResolutionReplace)%Z) xs.

Definition forcesChangesRequested (p : ImplUATPayload) : bool :=
  if hasFixNowFeedback (iu_Feedback p) then true
  else replaces (iu_HeldAnswers p) || replaces (iu_PlanFeedback p)
       || replaces (iu_LedgerDecisions p).

Fixpoint validate_resolutions (where_ : string) (i : nat) (seen : gset string)
    (rs : list Resolution) : option PolicyFailure :=
  match rs with
  | [] => None
  | r :: rest =>
      if negb (ResolutionKind_valid (rs_Kind r))
      then Some (InvalidResolutionKind where_ i (rs_Kind r))
      else if String.eqb (rs_Target r) EmptyString then Some (EmptyTarget where_ i)
      else if bool_decide (rs_Target r ∈ seen) then Some (ResolvedTwice where_ (rs_Target r))
      else validate_resolutions where_ (S i) ({[rs_Target r]} ∪ seen) rest
  end.

(** Go's sequence of early returns: the first error. *)
Definition first_error {X} (a b : option X) : option X :=
  match a with Some e => Some e | None => b end.

Definition validateImplUATPayloadContents (p : ImplUATPayload) : option PolicyFailure :=
  first_error (validateInteractions "ImplUATPayload.Interactions" (iu_Interactions p))
  (first_error (validateFeedback "ImplUATPayload.Feedback" (iu_Feedback p))
  (first_error (validate_resolutions "ImplUATPayload.HeldAnswers" 0 ∅ (iu_HeldAnswers p))
  (first_error (validate_resolutions "ImplUATPayload.PlanFeedback" 0 ∅ (iu_PlanFeedback p))
    (validate_resolutions "ImplUATPayload.LedgerDecisions" 0 ∅ (iu_LedgerDecisions p))))).

Definition validateImplUATPayload (verdict : Z) (p : ImplUATPayload) : option PolicyFailure :=
  if negb (ImplementationUATVerdict_valid verdict)
  then Some (InvalidVerdict "ImplementationUATVerdict" verdict)
  else match validateImplUATPayloadContents p with
  | Some e => Some e
  | None =>
      if forcesChangesRequested p && negb (verdict =? ImplUATChangesRequested)%Z
      then Some (FixNowConflict "ImplementationUATVerdict") else None
  end.

Definition validateImplementationUATRecord (r : implementationUATRecord) :=
  validateImplUATPayload (ir_Outcome r) (ir_Payload r).

Definition validateInteractionModeChanged (c : InteractionModeChanged) : option PolicyFailure :=
  if negb (InteractionMode_valid (im_From c)) then Some (UnknownMode "From" (im_From c))
  else if negb (InteractionMode_valid (im_To c)) then Some (UnknownMode "To" (im_To c))
  else None.

Definition validatePlanRatified (v : PlanRatified) : option PolicyFailure :=
  if String.eqb (pr_Proposal v) EmptyString || String.eqb (pr_ReviewRound v) EmptyString
     || String.eqb (pr_PlanUAT v) EmptyString
  then Some (MissingEvidence "PlanRatified") else None.

Definition validateEpochLanded (v : EpochLanded) : option PolicyFailure :=
  if String.eqb (el_Candidate v) EmptyString || String.eqb (el_ImplementationUAT v) EmptyString
  then Some (MissingEvidence "EpochLanded") else None.

Section policy.
Context {prov : Provenance}.

Record PlanUATSnapshot := mk_Snapshot {
  ss_ID : PlanUATDecisionID;
  ss_UATTaskID : TaskID;
  ss_Proposal : DocumentRevisionID;
  ss_DecisionEntry : DecisionLedgerEntryID;
  ss_InputLedger : DocumentRevisionID;
  ss_OutputLedger : DocumentRevisionID;
}.

Definition validatePlanSnapshot (where_ : string) (s : PlanUATSnapshot) : option PolicyFailure :=
  if String.eqb (ss_ID s) EmptyString then Some (SnapshotIncomplete where_ "id")
  else if bool_decide (ss_UATTaskID s = zero_TaskID) then Some (SnapshotIncomplete where_ "task")
  else if String.eqb (ss_Proposal s) EmptyString then Some (SnapshotIncomplete where_ "proposal")
  else if String.eqb (ss_DecisionEntry s) EmptyString then Some (SnapshotIncomplete where_ "entry")
  else if String.eqb (ss_InputLedger s) EmptyString || String.eqb (ss_OutputLedger s) EmptyString
  then Some (SnapshotIncomplete where_ "ledger")
  else None.

Record PlanAccepted := mk_PlanAccepted {
  pa_Snapshot : PlanUATSnapshot;
  pa_Interactions : list UATInteraction;
  pa_Feedback : list UATFeedbackItem;
}.

Definition validatePlanAccepted (p : PlanAccepted) : option PolicyFailure :=
  first_error (validatePlanSnapshot "PlanAccepted.Snapshot" (pa_Snapshot p))
  (first_error (validateInteractions "PlanAccepted.Interactions" (pa_Interactions p))
  (first_error (validateFeedback "PlanAccepted.Feedback" (pa_Feedback p))
    (if hasFixNowFeedback (pa_Feedback p) then Some (FixNowConflict "PlanAccepted") else None))).

Record PlanChangesRequested := mk_PlanChanges {
  pc_Snapshot : PlanUATSnapshot;
  pc_Interactions : list UATInteraction;
  pc_Feedback : list UATFeedbackItem;
}.

Definition validatePlanChangesRequested (p : PlanChangesRequested) : option PolicyFailure :=
  first_error (validatePlanSnapshot "PlanChangesRequested.Snapshot" (pc_Snapshot p))
  (first_error (validateInteractions "PlanChangesRequested.Interactions" (pc_Interactions p))
    (validateFeedback "PlanChangesRequested.Feedback" (pc_Feedback p))).

Record PlanDeferredByAFK := mk_PlanDeferred {
  pd_Snapshot : PlanUATSnapshot;
  pd_Interactions : list UATInteraction;
  pd_Feedback : list UATFeedbackItem;
  pd_HeldQuestions : list HeldUATQuestion;
  pd_ModeEntry : DecisionLedgerEntryID;
}.

Definition validatePlanDeferredByAFK (p : PlanDeferredByAFK) : option PolicyFailure :=
  first_error (validatePlanSnapshot "PlanDeferredByAFK.Snapshot" (pd_Snapshot p))
  (first_error (validateInteractions "PlanDeferredByAFK.Interactions" (pd_Interactions p))
  (first_error (validateFeedback "PlanDeferredByAFK.Feedback" (pd_Feedback p))
  (first_error (validateHeldQuestions "PlanDeferredByAFK.HeldQuestions" (pd_HeldQuestions p))
    (if String.eqb (pd_ModeEntry p) EmptyString then Some (NoModeEntry "PlanDeferredByAFK")
     else if negb (hasStableHeldQuestion (pd_HeldQuestions p))
     then Some (NoStableHeldQuestion "PlanDeferredByAFK")
     else if hasFixNowFeedback (pd_Feedback p) then Some (FixNowConflict "PlanDeferredByAFK")
     else None)))).

Record PlanUATDecision := mk_PlanUATDecision {
  pu_Snapshot : PlanUATSnapshot;
  pu_ReportedVerdict : Z;
  pu_Interactions : list UATInteraction;
  pu_Feedback : list UATFeedbackItem;
  pu_HeldQuestions : list HeldUATQuestion;
  pu_Mode : InteractionModeCursor;
}.

Record DecisionAttribution := mk_Attribution {
  at_Decider : ActorID;
  at_DeciderKind : AgentKind;
  at_Recorder : ActorID;
  at_RecorderKind : AgentKind;
}.

Record DecisionLedgerEntry := mk_LedgerEntry {
  le_ID : DecisionLedgerEntryID;
  le_Epoch : string;
  le_Actor : DecisionAttribution;
  le_SourceRequest : option string;
  le_Context : option DecisionEncoding;
  le_Decision : DecisionEncoding;
}.
End policy.

(** ** The production policy set *)
Class Json (T : Type) := {
  JsonError : Type;
  canonicalJSON : T -> result JsonError bytes;
  Unmarshal : bytes -> result JsonError T;
}.
Arguments JsonError T {_}.

Definition policyCanonicalJSONCodec : DecisionCodecID := "pasture.canonical-json/v1".
Definition DecisionPlanUATAccepted : DecisionKindID := "pasture.plan-uat.accepted/v1".
Definition DecisionPlanUATChangesRequested : DecisionKindID :=
  "pasture.plan-uat.changes-requested/v1".
Definition DecisionPlanUATDeferredByAFK : DecisionKindID := "pasture.plan-uat.deferred-by-afk/v1".
Definition DecisionImplementationUAT : DecisionKindID := "pasture.implementation-uat/v1".
Definition DecisionPlanRatified : DecisionKindID := "pasture.plan.ratified/v1".
Definition DecisionLanded : DecisionKindID := "pasture.epoch.landed/v1".
Definition DecisionInteractionModeChanged : DecisionKindID :=
  "pasture.interaction-mode.changed/v1".

(** The errors of a descriptor's functions: a failed validation, or a failure
    of the JSON package, whose text is all that is kept of it. *)
Inductive CodecFailure :=
  | PolicyInvalid (e : PolicyFailure)
  | JsonFailed.

Definition zero_byte : bytes := [ascii_of_N 0].

Definition policySchemaDigest `{Sha256} (kind : DecisionKindID) (shape : string)
    : DecisionSchemaDigest :=
  Sum256 (to_bytes "pasture.decision-schema/v1" ++ zero_byte ++ to_bytes kind ++ zero_byte
          ++ to_bytes shape)%list.

Definition newJSONDescriptor {T} `{Sha256, Json T} (fresh : nat) (kind : DecisionKindID)
    (shape : string) (validate : T -> option PolicyFailure)
    : result LedgerError (DecisionDescriptor (E := CodecFailure) T) :=
  NewDecisionDescriptor fresh kind policyCanonicalJSONCodec (policySchemaDigest kind shape)
    (Some (fun v => PolicyInvalid <$> validate v))
    (Some (fun v => match canonicalJSON v with Ok p => Ok p | Err _ => Err JsonFailed end))
    (Some (fun p => match Unmarshal p with Ok v => Ok v | Err _ => Err JsonFailed end)).

Section policy_set.
Context {prov : Provenance} {sha : Sha256}.
Context `{!Json InteractionModeChanged, !Json PlanAccepted, !Json PlanChangesRequested,
          !Json PlanDeferredByAFK, !Json implementationUATRecord, !Json PlanRatified,
          !Json EpochLanded}.

Abbreviation Descriptor := (DecisionDescriptor (E := CodecFailure)).
Abbreviation Catalog := (DecisionCatalog (E := CodecFailure)).

Record PolicySet := mk_PolicySet {
  ps_Catalog : Catalog;
  ps_modeChanged : Descriptor InteractionModeChanged;
  ps_planAccepted : Descriptor PlanAccepted;
  ps_planChanges : Descriptor PlanChangesRequested;
  ps_planDeferred : Descriptor PlanDeferredByAFK;
  ps_implementationUAT : Descriptor implementationUATRecord;
  ps_planRatified : Descriptor PlanRatified;
  ps_landed : Descriptor EpochLanded;
}.

(** The seven tokens are allocated one after the other. *)
Definition NewProductionPolicySet (fresh : nat) : result LedgerError PolicySet :=
  modeChanged ← newJSONDescriptor fresh DecisionInteractionModeChanged
    "interaction-mode.changed{from,to}" validateInteractionModeChanged;
  planAccepted ← newJSONDescriptor (fresh + 1) DecisionPlanUATAccepted
    "plan-uat.accepted{snapshot,interactions,feedback}" validatePlanAccepted;
  planChanges ← newJSONDescriptor (fresh + 2) DecisionPlanUATChangesRequested
    "plan-uat.changes-requested{snapshot,interactions,feedback}" validatePlanChangesRequested;
  planDeferred ← newJSONDescriptor (fresh + 3) DecisionPlanUATDeferredByAFK
    "plan-uat.deferred-by-afk{snapshot,interactions,feedback,heldQuestions,modeEntry}"
    validatePlanDeferredByAFK;
  implementationUAT ← newJSONDescriptor (fresh + 4) DecisionImplementationUAT
    "implementation-uat{outcome,payload{interactions,feedback,heldAnswers,planFeedback,ledgerDecisions}}"
    validateImplementationUATRecord;
  planRatified ← newJSONDescriptor (fresh + 5) DecisionPlanRatified
    "plan.ratified{proposal,reviewRound,planUat}" validatePlanRatified;
  landed ← newJSONDescriptor (fresh + 6) DecisionLanded
    "epoch.landed{candidate,implementationUat}" validateEpochLanded;
  catalog ← NewDecisionCatalog
    [Some (BindDecision modeChanged); Some (BindDecision planAccepted);
     Some (BindDecision planChanges); Some (BindDecision planDeferred);
     Some (BindDecision implementationUAT); Some (BindDecision planRatified);
     Some (BindDecision landed)];
  Ok (mk_PolicySet catalog modeChanged planAccepted planChanges planDeferred
        implementationUAT planRatified landed).

(** ** Interaction modes *)
Inductive PolicyRefusal :=
  | Refuse (e : PolicyFailure)
  | RefuseLedger (e : LedgerError (E := CodecFailure))
  | RefuseModeEntry (id : DecisionLedgerEntryID) (e : LedgerError (E := CodecFailure)).

Fixpoint fold_modes (policy : PolicySet) (cursor : InteractionModeCursor)
    (entries : list DecisionLedgerEntry) : result PolicyRefusal InteractionModeCursor :=
  match entries with
  | [] => Ok cursor
  | entry :: rest =>
      if negb (String.eqb (en_Kind (le_Decision entry)) DecisionInteractionModeChanged)
      then fold_modes policy cursor rest
      else match DecodeDecision (ps_Catalog policy) (ps_modeChanged policy) (le_Decision entry) with
      | Err e => Err (RefuseModeEntry (le_ID entry) e)
      | Ok changed =>
          if negb (String.eqb (im_From changed) (mc_Mode cursor))
          then Err (Refuse (BrokenModeChain (le_ID entry) (im_From changed) (mc_Mode cursor)))
          else fold_modes policy (mk_Cursor (Some (le_ID entry)) (im_To changed)) rest
      end
  end.

Definition EffectiveMode (policy : PolicySet) (entries : list DecisionLedgerEntry)
    : result PolicyRefusal InteractionModeCursor :=
  fold_modes policy (mk_Cursor None InteractionNormal) entries.

(** ** Deferral and ratification *)
Definition EvaluatePlanDeferral (mode : InteractionModeCursor) (held : list HeldUATQuestion)
    (feedback : list UATFeedbackItem) (snapshot : PlanUATSnapshot) : option PolicyFailure :=
  if negb (String.eqb (mc_Mode mode) InteractionAFK)
  then Some (ModeNotAFK "EvaluatePlanDeferral" (mc_Mode mode))
  else match mc_Entry mode with
  | None => Some (NoModeEntry "EvaluatePlanDeferral")
  | Some _ =>
      if negb (hasStableHeldQuestion held)
      then Some (NoStableHeldQuestion "EvaluatePlanDeferral")
      else if hasFixNowFeedback feedback then Some (FixNowConflict "EvaluatePlanDeferral")
      else validatePlanSnapshot "EvaluatePlanDeferral.Snapshot" snapshot
  end.

Definition EvaluateRatify (policy : PolicySet) (deferred : PlanDeferredByAFK)
    (ledger : list DecisionLedgerEntry) : option PolicyRefusal :=
  match validatePlanDeferredByAFK deferred with
  | Some e => Some (Refuse e)
  | None =>
      match EffectiveMode policy ledger with
      | Err e => Some e
      | Ok cursor =>
          if negb (String.eqb (mc_Mode cursor) InteractionAFK)
          then Some (Refuse (ModeNotAFK "EvaluateRatify" (mc_Mode cursor)))
          else match mc_Entry cursor with
          | None => Some (Refuse (NoModeEntry "EvaluateRatify"))
          | Some entry =>
              if negb (String.eqb entry (pd_ModeEntry deferred))
              then Some (Refuse (ModeEntryReplaced entry (pd_ModeEntry deferred)))
              else None
          end
      end
  end.

(** ** Drafting *)
Definition policy_draft {T} (d : Descriptor T) (v : T) : option (result PolicyRefusal DecisionDraft) :=
  Some match Draft d v with Ok dr => Ok dr | Err e => Err (RefuseLedger e) end.

(** [None] is the run-time panic of reading a nil mode entry. *)
Definition DraftPlanUAT (s : PolicySet) (d : PlanUATDecision)
    : option (result PolicyRefusal DecisionDraft) :=
  let verdict := pu_ReportedVerdict d in
  if negb (PlanUATVerdict_valid verdict)
  then Some (Err (Refuse (InvalidVerdict "PlanUATDecision.ReportedVerdict" verdict)))
  else if (verdict =? PlanUATAccepted)%Z then
    if negb (length (pu_HeldQuestions d) =? 0)%nat
    then Some (Err (Refuse (HeldQuestionsNotDeferred verdict)))
    else policy_draft (ps_planAccepted s)
           (mk_PlanAccepted (pu_Snapshot d) (pu_Interactions d) (pu_Feedback d))
  else if (verdict =? PlanUATChangesRequested)%Z then
    if negb (length (pu_HeldQuestions d) =? 0)%nat
    then Some (Err (Refuse (HeldQuestionsNotDeferred verdict)))
    else policy_draft (ps_planChanges s)
           (mk_PlanChanges (pu_Snapshot d) (pu_Interactions d) (pu_Feedback d))
  else if (verdict =? PlanUATDeferredByAFK)%Z then
    match EvaluatePlanDeferral (pu_Mode d) (pu_HeldQuestions d) (pu_Feedback d) (pu_Snapshot d) with
    | Some e => Some (Err (Refuse e))
    | None =>
        match mc_Entry (pu_Mode d) with
        | None => None
        | Some entry =>
            policy_draft (ps_planDeferred s)
              (mk_PlanDeferred (pu_Snapshot d) (pu_Interactions d) (pu_Feedback d)
                 (pu_HeldQuestions d) entry)
        end
    end
  else Some (Err (Refuse (InvalidVerdict "PlanUATDecision.ReportedVerdict" verdict))).

Definition DraftModeChange (s : PolicySet) (c : InteractionModeChanged) :=
  Draft (ps_modeChanged s) c.
Definition DraftImplementationUAT (s : PolicySet) (verdict : Z) (p : ImplUATPayload) :=
  Draft (ps_implementationUAT s) (mk_implUATRecord verdict p).
Definition DraftPlanRatified (s : PolicySet) (v : PlanRatified) := Draft (ps_planRatified s) v.
Definition DraftLanded (s : PolicySet) (v : EpochLanded) := Draft (ps_landed s) v.
End policy_set.

(** * Theorems *)
Local Open Scope list_scope.

(** ** Payload validation *)

Lemma first_error_None {X} (a b : option X) : first_error a b = None <-> a = None /\ b = None.
Proof. destruct a; simpl; naive_solver. Qed.

Lemma validate_interactions_None w i xs :
  validate_interactions w i xs = None <->
  Forall (fun x => ui_Prompt x <> EmptyString /\ ui_Response x <> EmptyString) xs.
Proof.
  revert i. induction xs as [|x xs IH]; intros i; simpl; [done|]. rewrite Forall_cons.
  destruct (String.eqb_spec (ui_Prompt x) EmptyString); [naive_solver|].
  destruct (String.eqb_spec (ui_Response x) EmptyString); [naive_solver|]. rewrite IH. naive_solver.
Qed.

Lemma validate_ids_None w i seen ids :
  validate_ids w i seen ids = None <->
  Forall (fun id => id <> EmptyString /\ id ∉ seen) ids /\ NoDup ids.
Proof.
  revert i seen. induction ids as [|id ids IH]; intros i seen; simpl.
  { split; [split; constructor|done]. }
  rewrite Forall_cons, NoDup_cons.
  destruct (String.eqb_spec id EmptyString); [naive_solver|].
  case_bool_decide; [naive_solver|]. rewrite IH, !Forall_forall. split.
  - intros [HF Hnd]. split_and!; [done|done| | |done].
    + intros y Hy. destruct (HF y Hy) as [? Hn]. split; [done|]. intros ?. apply Hn.
      by apply elem_of_union_r.
    + intros Hin. destruct (HF id Hin) as [_ Hn]. apply Hn. apply elem_of_union_l, elem_of_singleton. done.
  - intros [[_ HF] [Hid Hnd]]. split; [|done]. intros y Hy. destruct (HF y Hy) as [? Hn].
    split; [done|]. intros [->%elem_of_singleton|?]%elem_of_union; done.
Qed.

Definition distinct_ids (ids : list string) : Prop :=
  Forall (fun id => id <> EmptyString) ids /\ NoDup ids.

Lemma distinct_ids_spec w i ids : validate_ids w i ∅ ids = None <-> distinct_ids ids.
Proof.
  rewrite validate_ids_None. unfold distinct_ids.
  assert (Forall (fun id => id <> EmptyString /\ id ∉ (∅ : gset string)) ids
          <-> Forall (fun id => id <> EmptyString) ids) as ->; [|done].
  apply Forall_iff. intros id. split; [by intros [? _]|]. split; [done|apply not_elem_of_empty].
Qed.

(** Every target is resolved once, with a known disposition. *)
Definition resolved_once (rs : list Resolution) : Prop :=
  Forall (fun r => rs_Kind r ∈ [ResolutionConfirm; ResolutionDefer; ResolutionReplace]) rs /\
  distinct_ids (map rs_Target rs).

Lemma ResolutionKind_valid_spec k :
  ResolutionKind_valid k = true <-> k ∈ [ResolutionConfirm; ResolutionDefer; ResolutionReplace].
Proof.
  unfold ResolutionKind_valid. rewrite !orb_true_iff, !Z.eqb_eq, !elem_of_cons.
  pose proof (not_elem_of_nil k). naive_solver.
Qed.

Lemma validate_resolutions_None w i seen rs :
  validate_resolutions w i seen rs = None <->
  Forall (fun r => ResolutionKind_valid (rs_Kind r) = true) rs /\
  validate_ids w i seen (map rs_Target rs) = None.
Proof.
  revert i seen. induction rs as [|r rs IH]; intros i seen; simpl; [done|]. rewrite Forall_cons.
  destruct (ResolutionKind_valid (rs_Kind r)); simpl; [|naive_solver].
  destruct (String.eqb_spec (rs_Target r) EmptyString); [naive_solver|].
  case_bool_decide; [naive_solver|]. rewrite IH. naive_solver.
Qed.

Lemma resolved_once_spec w i rs : validate_resolutions w i ∅ rs = None <-> resolved_once rs.
Proof.
  rewrite validate_resolutions_None, distinct_ids_spec. unfold resolved_once.
  assert (Forall (fun r => ResolutionKind_valid (rs_Kind r) = true) rs <->
    Forall (fun r => rs_Kind r ∈ [ResolutionConfirm; ResolutionDefer; ResolutionReplace]) rs)
    as ->; [|done].
  apply Forall_iff. intros r. apply ResolutionKind_valid_spec.
Qed.

Lemma existsb_elem {A} (f : A -> bool) l : existsb f l = true <-> exists x, x ∈ l /\ f x = true.
Proof.
  rewrite existsb_exists. split; intros (x & Hx & Hf); exists x; split; try done;
    by apply list_elem_of_In.
Qed.

Lemma forcesChangesRequested_spec p :
  forcesChangesRequested p = true <->
  (exists f, f ∈ iu_Feedback p /\ fi_FixNow f = true) \/
  (exists r, r ∈ iu_HeldAnswers p ++ iu_PlanFeedback p ++ iu_LedgerDecisions p /\
     rs_Kind r = ResolutionReplace).
Proof.
  unfold forcesChangesRequested, hasFixNowFeedback, replaces.
  destruct (existsb fi_FixNow (iu_Feedback p)) eqn:E.
  - split; [|done]. intros _. left. by apply existsb_elem.
  - assert (~ exists f, f ∈ iu_Feedback p /\ fi_FixNow f = true) as Hn
      by (rewrite <- existsb_elem, E; done).
    rewrite !orb_true_iff, !existsb_elem. setoid_rewrite Z.eqb_eq.
    setoid_rewrite elem_of_app. setoid_rewrite elem_of_app. naive_solver.
Qed.

Lemma validateImplUATPayload_valid v p :
  validateImplUATPayload v p = None <->
  v ∈ [ImplUATAccepted; ImplUATChangesRequested] /\
  Forall (fun x => ui_Prompt x <> EmptyString /\ ui_Response x <> EmptyString) (iu_Interactions p) /\
  distinct_ids (map fi_ID (iu_Feedback p)) /\
  resolved_once (iu_HeldAnswers p) /\ resolved_once (iu_PlanFeedback p) /\
  resolved_once (iu_LedgerDecisions p) /\
  ((exists f, f ∈ iu_Feedback p /\ fi_FixNow f = true) \/
   (exists r, r ∈ iu_HeldAnswers p ++ iu_PlanFeedback p ++ iu_LedgerDecisions p /\
      rs_Kind r = ResolutionReplace) -> v = ImplUATChangesRequested).
Proof.
  assert (Hc : validateImplUATPayloadContents p = None <->
    Forall (fun x => ui_Prompt x <> EmptyString /\ ui_Response x <> EmptyString) (iu_Interactions p) /\
    distinct_ids (map fi_ID (iu_Feedback p)) /\ resolved_once (iu_HeldAnswers p) /\
    resolved_once (iu_PlanFeedback p) /\ resolved_once (iu_LedgerDecisions p)).
  { unfold validateImplUATPayloadContents. rewrite !first_error_None.
    unfold validateInteractions, validateFeedback.
    by rewrite validate_interactions_None, distinct_ids_spec, !resolved_once_spec. }
  assert (Hv : ImplementationUATVerdict_valid v = true <->
    v ∈ [ImplUATAccepted; ImplUATChangesRequested]).
  { unfold ImplementationUATVerdict_valid. rewrite orb_true_iff, !Z.eqb_eq, !elem_of_cons.
    pose proof (not_elem_of_nil v). naive_solver. }
  rewrite <- Hv, <- forcesChangesRequested_spec. unfold validateImplUATPayload.
  destruct (ImplementationUATVerdict_valid v); simpl; [|by split; [|intros [? _]]].
  destruct (validateImplUATPayloadContents p) as [e|].
  - split; [done|]. intros (_ & H1 & H2 & H3 & H4 & H5 & _).
    by specialize (proj2 Hc (conj H1 (conj H2 (conj H3 (conj H4 H5))))).
  - destruct (proj1 Hc eq_refl) as (H1 & H2 & H3 & H4 & H5).
    destruct (forcesChangesRequested p), (Z.eqb_spec v ImplUATChangesRequested); simpl;
      (split; [intros; by split_and!|]); try done.
    intros (_ & _ & _ & _ & _ & _ & H). by specialize (H eq_refl).
Qed.

(** An implementation verdict is accepted exactly when it is a known one,
    its interactions carry both halves, its feedback identifiers are distinct,
    every carried target is resolved once with a known disposition, and any
    FIX-NOW feedback or REPLACE resolution comes with a changes-requested
    verdict. *)
Lemma validateImplUATPayload_spec v p :
  validateImplUATPayload v p = None <->
  v ∈ [ImplUATAccepted; ImplUATChangesRequested] /\
  Forall (fun x => ui_Prompt x <> EmptyString /\ ui_Response x <> EmptyString) (iu_Interactions p) /\
  distinct_ids (map fi_ID (iu_Feedback p)) /\
  resolved_once (iu_HeldAnswers p) /\ resolved_once (iu_PlanFeedback p) /\
  resolved_once (iu_LedgerDecisions p) /\
  ((exists f, f ∈ iu_Feedback p /\ fi_FixNow f = true) \/
   (exists r, r ∈ iu_HeldAnswers p ++ iu_PlanFeedback p ++ iu_LedgerDecisions p /\
      rs_Kind r = ResolutionReplace) -> v = ImplUATChangesRequested).
Proof. apply validateImplUATPayload_valid. Qed.

Section theorems.
Context {prov : Provenance} {sha : Sha256}.
Context `{!Json InteractionModeChanged, !Json PlanAccepted, !Json PlanChangesRequested,
          !Json PlanDeferredByAFK, !Json implementationUATRecord, !Json PlanRatified,
          !Json EpochLanded}.

(** ** The policy set *)

Lemma newJSONDescriptor_Ok {T} {J : Json T} fresh kind shape validate d :
  newJSONDescriptor (H := sha) (H0 := J) fresh kind shape validate = Ok d ->
  constructed d = true /\ dd_kind d = kind /\ dd_token d = Some fresh /\
  (forall v, dd_validate d v = PolicyInvalid <$> validate v).
Proof.
  unfold newJSONDescriptor, NewDecisionDescriptor. do 2 (case_match; [done|]).
  case_bool_decide; [done|]. by intros [= <-].
Qed.

(** The seven kinds are registered, each under its own descriptor. *)
Record production (s : PolicySet) : Prop := {
  reg_modeChanged : registered (ps_Catalog s) (ps_modeChanged s);
  reg_planAccepted : registered (ps_Catalog s) (ps_planAccepted s);
  reg_planChanges : registered (ps_Catalog s) (ps_planChanges s);
  reg_planDeferred : registered (ps_Catalog s) (ps_planDeferred s);
  reg_implementationUAT : registered (ps_Catalog s) (ps_implementationUAT s);
  reg_planRatified : registered (ps_Catalog s) (ps_planRatified s);
  reg_landed : registered (ps_Catalog s) (ps_landed s);
  kind_modeChanged : dd_kind (ps_modeChanged s) = DecisionInteractionModeChanged;
  kind_planAccepted : dd_kind (ps_planAccepted s) = DecisionPlanUATAccepted;
  kind_planChanges : dd_kind (ps_planChanges s) = DecisionPlanUATChangesRequested;
  kind_planDeferred : dd_kind (ps_planDeferred s) = DecisionPlanUATDeferredByAFK;
  val_modeChanged v : dd_validate (ps_modeChanged s) v
    = PolicyInvalid <$> validateInteractionModeChanged v;
  val_planAccepted v : dd_validate (ps_planAccepted s) v = PolicyInvalid <$> validatePlanAccepted v;
  val_planChanges v : dd_validate (ps_planChanges s) v
    = PolicyInvalid <$> validatePlanChangesRequested v;
  val_planDeferred v : dd_validate (ps_planDeferred s) v
    = PolicyInvalid <$> validatePlanDeferredByAFK v;
}.

Lemma NewProductionPolicySet_production fresh s :
  NewProductionPolicySet fresh = Ok s -> production s.
Proof.
  unfold NewProductionPolicySet. cbn [mbind result_bind].
  destruct (newJSONDescriptor fresh _ _ _) as [d1|] eqn:E1; [|done]. cbn [mbind result_bind].
  destruct (newJSONDescriptor (fresh + 1) _ _ _) as [d2|] eqn:E2; [|done]. cbn [mbind result_bind].
  destruct (newJSONDescriptor (fresh + 2) _ _ _) as [d3|] eqn:E3; [|done]. cbn [mbind result_bind].
  destruct (newJSONDescriptor (fresh + 3) _ _ _) as [d4|] eqn:E4; [|done]. cbn [mbind result_bind].
  destruct (newJSONDescriptor (fresh + 4) _ _ _) as [d5|] eqn:E5; [|done]. cbn [mbind result_bind].
  destruct (newJSONDescriptor (fresh + 5) _ _ _) as [d6|] eqn:E6; [|done]. cbn [mbind result_bind].
  destruct (newJSONDescriptor (fresh + 6) _ _ _) as [d7|] eqn:E7; [|done]. cbn [mbind result_bind].
  destruct (NewDecisionCatalog _) as [c|] eqn:Ec; [|done]. intros [= <-].
  apply newJSONDescriptor_Ok in E1 as (?&?&?&?), E2 as (?&?&?&?), E3 as (?&?&?&?),
    E4 as (?&?&?&?), E5 as (?&?&?&?), E6 as (?&?&?&?), E7 as (?&?&?&?).
  apply NewDecisionCatalog_spec in Ec as (bs & Hbs & _ & _ & Hl & _).
  destruct bs as [|b1 [|b2 [|b3 [|b4 [|b5 [|b6 [|b7 [|]]]]]]]]; try discriminate Hbs.
  injection Hbs as <- <- <- <- <- <- <-.
  split; cbn; try done; (split; [done|]); apply Hl; (split; [|done]);
    rewrite !elem_of_cons; tauto.
Qed.

Lemma validatePlanSnapshot_None w w' s :
  validatePlanSnapshot w s = None -> validatePlanSnapshot w' s = None.
Proof. unfold validatePlanSnapshot. by repeat case_match. Qed.

Lemma validatePlanAccepted_None p :
  validatePlanAccepted p = None ->
  validatePlanSnapshot "PlanAccepted.Snapshot" (pa_Snapshot p) = None /\
  Forall (fun x => ui_Prompt x <> EmptyString /\ ui_Response x <> EmptyString) (pa_Interactions p) /\
  distinct_ids (map fi_ID (pa_Feedback p)) /\ hasFixNowFeedback (pa_Feedback p) = false.
Proof.
  unfold validatePlanAccepted. rewrite !first_error_None. unfold validateInteractions, validateFeedback.
  rewrite validate_interactions_None, distinct_ids_spec.
  intros (? & ? & ? & ?). split_and!; try done. by destruct (hasFixNowFeedback _).
Qed.

Lemma validatePlanDeferredByAFK_None p :
  validatePlanDeferredByAFK p = None ->
  validatePlanSnapshot "PlanDeferredByAFK.Snapshot" (pd_Snapshot p) = None /\
  pd_ModeEntry p <> EmptyString /\ hasStableHeldQuestion (pd_HeldQuestions p) = true /\
  hasFixNowFeedback (pd_Feedback p) = false.
Proof.
  unfold validatePlanDeferredByAFK. rewrite !first_error_None. intros (? & _ & _ & _ & H).
  destruct (String.eqb_spec (pd_ModeEntry p) EmptyString); [done|].
  destruct (hasStableHeldQuestion _), (hasFixNowFeedback _); done.
Qed.

Lemma EvaluatePlanDeferral_None mode held feedback snapshot :
  EvaluatePlanDeferral mode held feedback snapshot = None ->
  mc_Mode mode = InteractionAFK /\ is_Some (mc_Entry mode) /\
  hasStableHeldQuestion held = true /\ hasFixNowFeedback feedback = false.
Proof.
  unfold EvaluatePlanDeferral. destruct (String.eqb_spec (mc_Mode mode) InteractionAFK); [|done].
  destruct (mc_Entry mode); [|done].
  destruct (hasStableHeldQuestion _), (hasFixNowFeedback _); done.
Qed.

Lemma policy_draft_Ok {T} c (d : DecisionDescriptor (E := CodecFailure) T) v dr
    (validate : T -> option PolicyFailure) :
  registered c d -> (forall v, dd_validate d v = PolicyInvalid <$> validate v) ->
  policy_draft d v = Some (Ok dr) ->
  ValidateDraft c dr = None /\ validate v = None /\ dr_kind dr = dd_kind d.
Proof.
  unfold policy_draft. intros Hr Hv. destruct (Draft d v) as [dr'|] eqn:E; [|done].
  intros [= ->]. destruct (Draft_admitted c d v dr Hr E) as (H1 & H2 & H3).
  split; [done|split; [|done]]. rewrite Hv in H2. by destruct (validate v).
Qed.

(** Drafting a plan verdict never reads a nil mode entry; a draft it
    returns passes the append gate of the production catalog; an acceptance
    carries no FIX-NOW feedback, only a deferral carries held questions, and a
    deferral happens in AFK mode, is anchored to the entry that set it, and has
    a stable held question and no FIX-NOW feedback. *)
Theorem DraftPlanUAT_sound fresh s d :
  NewProductionPolicySet fresh = Ok s ->
  exists r, DraftPlanUAT s d = Some r /\
  forall dr, r = Ok dr ->
    ValidateDraft (ps_Catalog s) dr = None /\
    validatePlanSnapshot "" (pu_Snapshot d) = None /\
    ((pu_ReportedVerdict d = PlanUATAccepted /\ dr_kind dr = DecisionPlanUATAccepted /\
      pu_HeldQuestions d = [] /\ hasFixNowFeedback (pu_Feedback d) = false) \/
     (pu_ReportedVerdict d = PlanUATChangesRequested /\
      dr_kind dr = DecisionPlanUATChangesRequested /\ pu_HeldQuestions d = []) \/
     (pu_ReportedVerdict d = PlanUATDeferredByAFK /\ dr_kind dr = DecisionPlanUATDeferredByAFK /\
      mc_Mode (pu_Mode d) = InteractionAFK /\
      (exists entry, mc_Entry (pu_Mode d) = Some entry /\ entry <> EmptyString) /\
      hasStableHeldQuestion (pu_HeldQuestions d) = true /\
      hasFixNowFeedback (pu_Feedback d) = false)).
Proof.
  intros Hs%NewProductionPolicySet_production. unfold DraftPlanUAT.
  destruct (PlanUATVerdict_valid (pu_ReportedVerdict d)); simpl; [|by eexists].
  destruct (Z.eqb_spec (pu_ReportedVerdict d) PlanUATAccepted) as [E|_];
    [|destruct (Z.eqb_spec (pu_ReportedVerdict d) PlanUATChangesRequested) as [E|_];
      [|destruct (Z.eqb_spec (pu_ReportedVerdict d) PlanUATDeferredByAFK) as [E|_]; [|by eexists]]].
  - destruct (pu_HeldQuestions d) eqn:Hq; simpl; [|by eexists].
    eexists. split; [reflexivity|]. intros dr Hdr. apply (f_equal Some) in Hdr.
    apply (policy_draft_Ok (ps_Catalog s) _ _ _ validatePlanAccepted) in Hdr
      as (H1 & (H2 & _ & _ & H3)%validatePlanAccepted_None & ->); [|apply Hs..].
    split_and!; [done|by eapply validatePlanSnapshot_None|]. left.
    rewrite (kind_planAccepted s Hs). by simpl in *.
  - destruct (pu_HeldQuestions d) eqn:Hq; simpl; [|by eexists].
    eexists. split; [reflexivity|]. intros dr Hdr. apply (f_equal Some) in Hdr.
    apply (policy_draft_Ok (ps_Catalog s) _ _ _ validatePlanChangesRequested) in Hdr
      as (H1 & H2 & ->); [|apply Hs..].
    unfold validatePlanChangesRequested in H2. apply first_error_None in H2 as [H2 _].
    split_and!; [done|by eapply validatePlanSnapshot_None|]. right; left.
    by rewrite (kind_planChanges s Hs).
  - destruct (EvaluatePlanDeferral _ _ _ _) eqn:Ed; [by eexists|].
    apply EvaluatePlanDeferral_None in Ed as (Hm & [entry He] & _). rewrite He.
    eexists. split; [reflexivity|]. intros dr Hdr. apply (f_equal Some) in Hdr.
    apply (policy_draft_Ok (ps_Catalog s) _ _ _ validatePlanDeferredByAFK) in Hdr
      as (H1 & H2 & ->); [|apply Hs..].
    apply validatePlanDeferredByAFK_None in H2 as (Hsn & Hent & Hst & Hfix). simpl in *.
    split_and!; [done|by eapply validatePlanSnapshot_None|]. right; right.
    rewrite (kind_planDeferred s Hs). split_and!; eauto.
Qed.

(** ** Interaction modes *)

Definition is_mode (e : DecisionLedgerEntry) : bool :=
  String.eqb (en_Kind (le_Decision e)) DecisionInteractionModeChanged.

Definition decoded (policy : PolicySet) (e : DecisionLedgerEntry) :=
  DecodeDecision (ps_Catalog policy) (ps_modeChanged policy) (le_Decision e).

Lemma fold_modes_app policy c a b :
  fold_modes policy c (a ++ b) =
    match fold_modes policy c a with Ok c' => fold_modes policy c' b | Err e => Err e end.
Proof.
  revert c. induction a as [|e a IH]; intros c; [done|]. cbn [app fold_modes].
  destruct (negb _); [apply IH|]. destruct (DecodeDecision _ _ _); [|done].
  destruct (negb _); [done|apply IH].
Qed.

Lemma fold_modes_skip policy c l :
  Forall (fun e => is_mode e = false) l -> fold_modes policy c l = Ok c.
Proof. induction 1 as [|e l He _ IH]; [done|]. cbn [fold_modes]. unfold is_mode in He. by rewrite He. Qed.

(** The entry that set the mode, what precedes it and what follows it. *)
Definition anchored (policy : PolicySet) (c : InteractionModeCursor)
    (l : list DecisionLedgerEntry) (id : DecisionLedgerEntryID) (mode : string) : Prop :=
  exists pre e post ch c0, l = pre ++ e :: post /\ le_ID e = id /\ is_mode e = true /\
    Forall (fun e => is_mode e = false) post /\ fold_modes policy c pre = Ok c0 /\
    decoded policy e = Ok ch /\ im_From ch = mc_Mode c0 /\ im_To ch = mode.

Lemma anchored_fold policy c l id mode :
  anchored policy c l id mode -> fold_modes policy c l = Ok (mk_Cursor (Some id) mode).
Proof.
  intros (pre & e & post & ch & c0 & -> & <- & He & Hpost & Hpre & Hd & Hf & <-).
  rewrite fold_modes_app, Hpre. cbn [fold_modes]. unfold is_mode in He. rewrite He. simpl.
  unfold decoded in Hd. rewrite Hd, Hf, String.eqb_refl. by apply fold_modes_skip.
Qed.

Lemma fold_anchored policy l : forall c c',
  fold_modes policy c l = Ok c' ->
  (Forall (fun e => is_mode e = false) l /\ c' = c) \/
  (exists id mode, c' = mk_Cursor (Some id) mode /\ anchored policy c l id mode).
Proof.
  induction l as [|e l IH] using rev_ind; intros c c'.
  { intros [= <-]. by left. }
  rewrite fold_modes_app. destruct (fold_modes policy c l) as [c0|] eqn:E; [|done].
  cbn [fold_modes]. destruct (is_mode e) eqn:He; unfold is_mode in He; rewrite He; simpl.
  - destruct (DecodeDecision _ _ _) as [ch|] eqn:Ed; [|done].
    destruct (String.eqb_spec (im_From ch) (mc_Mode c0)) as [Hf|]; [|done]. intros [= <-].
    right. exists (le_ID e), (im_To ch). split; [done|]. exists l, e, [], ch, c0. split_and!; done.
  - intros [= <-]. destruct (IH c c0 E) as [[HF ->]|(id & mode & -> & Ha)].
    + left. split; [|done]. by apply Forall_app_2; [|constructor].
    + right. exists id, mode. split; [done|].
      destruct Ha as (pre & e' & post & ch & c1 & -> & ? & ? & ? & ? & ? & ? & ?).
      exists pre, e', (post ++ [e]), ch, c1. rewrite <- app_assoc. split_and!; try done.
      by apply Forall_app_2; [|constructor].
Qed.

(** A deferral can be ratified exactly when it is valid and the latest
    mode change of the ledger, whose chain of source modes is unbroken, is the
    entry the deferral recorded and switches to AFK. *)
Theorem EvaluateRatify_spec policy d ledger :
  EvaluateRatify policy d ledger = None <->
  validatePlanDeferredByAFK d = None /\
  anchored policy (mk_Cursor None InteractionNormal) ledger (pd_ModeEntry d) InteractionAFK.
Proof.
  unfold EvaluateRatify. destruct (validatePlanDeferredByAFK d); [naive_solver|]. split.
  - unfold EffectiveMode. destruct (fold_modes _ _ _) as [c|] eqn:E; [|done].
    apply fold_anchored in E as [[_ ->]|(id & mode & -> & Ha)]; [done|]. simpl.
    destruct (String.eqb_spec mode InteractionAFK) as [->|]; [|done]. simpl.
    destruct (String.eqb_spec id (pd_ModeEntry d)) as [->|]; [|done]. done.
  - intros [_ Ha%anchored_fold]. unfold EffectiveMode. rewrite Ha. simpl. by rewrite String.eqb_refl.
Qed.

(** Ratification depends on the ledger only through its mode changes: later
    entries of other kinds do not matter, and any later mode change, even back
    to AFK, makes the deferral unratifiable, since entry identifiers are
    unique. *)
Lemma ratify_mode_changes policy d ledger later :
  (Forall (fun e => is_mode e = false) later ->
   EvaluateRatify policy d (ledger ++ later) = EvaluateRatify policy d ledger) /\
  (NoDup (map le_ID (ledger ++ later)) -> pd_ModeEntry d ∈ map le_ID ledger ->
   Exists (fun e => is_mode e = true) later ->
   EvaluateRatify policy d (ledger ++ later) <> None).
Proof.
  split.
  - intros HF. unfold EvaluateRatify, EffectiveMode. rewrite fold_modes_app.
    destruct (validatePlanDeferredByAFK d); [done|].
    destruct (fold_modes policy _ ledger); [|done]. by rewrite fold_modes_skip.
  - intros Hnd Hin Hex. unfold EvaluateRatify, EffectiveMode. rewrite fold_modes_app.
    destruct (validatePlanDeferredByAFK d); [done|].
    destruct (fold_modes policy _ ledger) as [c|]; [|done].
    destruct (fold_modes policy c later) as [c'|] eqn:E; [|done].
    apply fold_anchored in E as [[HF _]|(id & mode & -> & Ha)].
    { exfalso. apply Exists_exists in Hex as (e & Hin' & He). rewrite Forall_forall in HF.
      specialize (HF e Hin'). congruence. }
    simpl. destruct (negb (String.eqb mode InteractionAFK)); [done|].
    destruct (String.eqb_spec id (pd_ModeEntry d)) as [->|]; [|done]. exfalso.
    rewrite map_app in Hnd. apply NoDup_app in Hnd as (_ & Hdis & _).
    apply (Hdis _ Hin). destruct Ha as (pre & e & post & ch & c0 & -> & <- & _).
    apply list_elem_of_fmap_2, elem_of_app. right. left.
Qed.

(** An appended mode change that was drafted through the policy set with
    the effective mode as its source becomes the effective mode. *)
Lemma mode_change_takes_effect fresh s ledger c to dr e :
  NewProductionPolicySet fresh = Ok s ->
  EffectiveMode s ledger = Ok c ->
  (forall p, dd_encode (ps_modeChanged s) (mk_ModeChanged (mc_Mode c) to) = Ok p ->
     dd_decode (ps_modeChanged s) p = Ok (mk_ModeChanged (mc_Mode c) to)) ->
  DraftModeChange s (mk_ModeChanged (mc_Mode c) to) = Ok dr -> le_Decision e = encoding dr ->
  EffectiveMode s (ledger ++ [e]) = Ok (mk_Cursor (Some (le_ID e)) to) /\
  (to = InteractionNormal \/ to = InteractionAFK).
Proof.
  intros Hs%NewProductionPolicySet_production Hl Hcodec Hdr He.
  pose proof (draft_decodes (ps_Catalog s) _ _ _ (reg_modeChanged s Hs)
                Hcodec Hdr) as (_ & _ & Hd).
  pose proof (Draft_admitted (ps_Catalog s) _ _ _ (reg_modeChanged s Hs) Hdr) as (_ & Hv & Hk).
  rewrite (kind_modeChanged s Hs) in Hk. split.
  - unfold EffectiveMode in *. rewrite fold_modes_app, Hl. cbn [fold_modes].
    replace (en_Kind (le_Decision e)) with DecisionInteractionModeChanged by (by rewrite He).
    rewrite String.eqb_refl, He, Hd. simpl. by rewrite String.eqb_refl.
  - rewrite (val_modeChanged s Hs) in Hv. unfold validateInteractionModeChanged in Hv. simpl in Hv.
    destruct (InteractionMode_valid (mc_Mode c)); [|done]. simpl in Hv.
    destruct (InteractionMode_valid to) eqn:Hto; [|done]. unfold InteractionMode_valid in Hto.
    apply orb_true_iff in Hto as [?%String.eqb_eq|?%String.eqb_eq]; auto.
Qed.
End theorems.

(** ** A concrete policy set *)

Definition demo_prov : Provenance :=
  {| TaskID := nat; TaskID_eq_dec := _; zero_TaskID := 0%nat; ActorID := nat;
     AgentKind := bool; AgentKind_eq_dec := _; AgentKindHuman := true |}.

Definition demo_sha : Sha256 := fun _ => replicate 32 "h"%char.

(** Modes are stored as [from>to]; the other payloads are not decoded here. *)
Definition demo_mode_json : Json InteractionModeChanged :=
  {| JsonError := unit;
     canonicalJSON c := Ok (to_bytes (im_From c) ++ ">"%char :: to_bytes (im_To c));
     Unmarshal p := match Split p ">"%char with
                    | [a; b] => Ok (mk_ModeChanged (of_bytes a) (of_bytes b))
                    | _ => Err tt
                    end |}.

Definition opaque_json (T : Type) : Json T :=
  {| JsonError := unit; canonicalJSON _ := Ok []; Unmarshal _ := Err tt |}.

Definition demo_result : result (LedgerError (E := CodecFailure)) (PolicySet (prov := demo_prov)) :=
  NewProductionPolicySet (sha := demo_sha) (prov := demo_prov)
    (Json0 := demo_mode_json) (Json1 := opaque_json _) (Json2 := opaque_json _)
    (Json3 := opaque_json _) (Json4 := opaque_json _) (Json5 := opaque_json _)
    (Json6 := opaque_json _) 0.

Definition demo_set : PolicySet (prov := demo_prov) :=
  match demo_result as r return match r with Ok _ => PolicySet (prov := demo_prov) | Err _ => unit end
  with Ok s => s | Err _ => tt end.

Lemma demo_result_Ok : demo_result = Ok demo_set.
Proof. reflexivity. Qed.

Definition mode_row (id from to : string) : DecisionLedgerEntry (prov := demo_prov) :=
  mk_LedgerEntry (prov := demo_prov) id "epoch" (mk_Attribution (prov := demo_prov) 1%nat true 1%nat true)
    None None
    (mk_Encoding DecisionInteractionModeChanged policyCanonicalJSONCodec (replicate 32 "h"%char)
       (to_bytes from ++ ">"%char :: to_bytes to)).

Definition demo_snapshot : PlanUATSnapshot (prov := demo_prov) :=
  mk_Snapshot (prov := demo_prov) "uat-1" 4%nat "rev-2" "entry-9" "in" "out".

Definition demo_deferral (entry : string) : PlanDeferredByAFK (prov := demo_prov) :=
  mk_PlanDeferred (prov := demo_prov) demo_snapshot [] [] [mk_Held "q1" "which store?" true] entry.

(** The ledger of an epoch that goes AFK, back to normal and AFK again. *)
Definition afk_R1 := [mode_row "R1" "normal" "afk"].
Definition afk_R3 := [mode_row "R2" "afk" "normal"; mode_row "R3" "normal" "afk"].

Lemma ratify_mode_changes_witness :
  EvaluateRatify demo_set (demo_deferral "R1") afk_R1 = None /\
  EvaluateRatify demo_set (demo_deferral "R1") (afk_R1 ++ afk_R3) <> None.
Proof.
  split; [vm_compute; reflexivity|].
  apply (proj2 (ratify_mode_changes demo_set (demo_deferral "R1") afk_R1 afk_R3)).
  - apply (bool_decide_unpack _). vm_compute. exact I.
  - simpl. left.
  - left. reflexivity.
Defined.

Lemma DraftPlanUAT_sound_witness :
  let d := mk_PlanUATDecision (prov := demo_prov) demo_snapshot PlanUATDeferredByAFK [] []
             [mk_Held "q1" "which store?" true] (mk_Cursor (Some "R1") InteractionAFK) in
  exists dr, DraftPlanUAT demo_set d = Some (Ok dr) /\ ValidateDraft (ps_Catalog demo_set) dr = None.
Proof.
  intros d.
  destruct (DraftPlanUAT_sound 0 demo_set d demo_result_Ok) as (r & Hr & Hok).
  destruct r as [dr|e]; [|vm_compute in Hr; discriminate Hr].
  exists dr. split; [exact Hr|]. exact (proj1 (Hok dr eq_refl)).
Defined.

Lemma mode_change_takes_effect_witness :
  exists dr, DraftModeChange demo_set (mk_ModeChanged "normal" "afk") = Ok dr /\
    EffectiveMode demo_set ([] ++ [mode_row "R1" "normal" "afk"]) = Ok (mk_Cursor (Some "R1") "afk").
Proof.
  exists (mk_Draft DecisionInteractionModeChanged policyCanonicalJSONCodec (replicate 32 "h"%char)
            (Some 0%nat) (to_bytes "normal>afk")).
  assert (Hdr : DraftModeChange demo_set (mk_ModeChanged "normal" "afk")
    = Ok (mk_Draft DecisionInteractionModeChanged policyCanonicalJSONCodec (replicate 32 "h"%char)
            (Some 0%nat) (to_bytes "normal>afk"))) by (vm_compute; reflexivity).
  split; [exact Hdr|].
  refine (proj1 (mode_change_takes_effect 0 demo_set [] (mk_Cursor None InteractionNormal) "afk"
    _ (mode_row "R1" "normal" "afk") demo_result_Ok eq_refl _ Hdr eq_refl)).
  intros p Hp. vm_compute in Hp. injection Hp as <-. vm_compute. reflexivity.
Defined.
