(* ===== verification/UatCoverage.v ===== *)
(** UatCoverage: the decisions an implementation acceptance must resolve, and
    the digest that binds an acceptance to them
    (internal/tasks/uat_coverage.go).

    A set of resolved targets is a finite set; SHA-256 is the class of
    [UatPolicy].  Go's [sort.Slice] leaves the order of ties unspecified; the
    lists sorted here have no ties but equal elements, which the theorems show
    where they need it. *)

From Stdlib Require Import ZArith Lia Ascii String.
From stdpp Require Import base tactics list strings gmap sorting.
From S2P Require Import Prelude GoStrings DecisionLedger UatPolicy.
Local Open Scope string_scope.
Local Open Scope list_scope.

Definition RequiredLedgerDecision : Z := 1.
Definition RequiredHeldQuestion : Z := 2.
Definition RequiredDeferredFeedback : Z := 3.

Definition RequiredRefKind_String (k : Z) : string :=
  if (k =? RequiredLedgerDecision)%Z then "ledger-decision"
  else if (k =? RequiredHeldQuestion)%Z then "held-question"
  else if (k =? RequiredDeferredFeedback)%Z then "deferred-feedback"
  else String.append "RequiredRefKind(" (String.append (format_int k) ")").

Record RequiredRef := mk_Ref { rq_Kind : Z; rq_ID : string }.

#[export] Instance RequiredRef_eq_dec : EqDecision RequiredRef.
Proof. solve_decision. Defined.
#[export] Instance RequiredRef_countable : Countable RequiredRef.
Proof.
  refine (inj_countable' (fun r => (rq_Kind r, rq_ID r)) (fun '(k, i) => mk_Ref k i) _).
  by intros [].
Defined.

Definition ref_less (r o : RequiredRef) : bool :=
  if negb (rq_Kind r =? rq_Kind o)%Z then (rq_Kind r <? rq_Kind o)%Z
  else string_less (rq_ID r) (rq_ID o).

Section coverage.
Context {prov : Provenance}.

Record CoverageInput := mk_CoverageInput {
  ci_LedgerEntries : list DecisionLedgerEntry;
  ci_DeferredPlan : option PlanDeferredByAFK;
  ci_PriorResolutions : list ImplUATPayload;
}.

Definition isMaterialAgentJudgment (e : DecisionLedgerEntry) : bool :=
  negb (bool_decide (at_DeciderKind (le_Actor e) = AgentKindHuman)).

Fixpoint judgments_loop (seen : gset string) (out : list string)
    (entries : list DecisionLedgerEntry) : list string :=
  match entries with
  | [] => out
  | e :: rest =>
      if negb (isMaterialAgentJudgment e) then judgments_loop seen out rest
      else if bool_decide (le_ID e ∈ seen) then judgments_loop seen out rest
      else judgments_loop ({[le_ID e]} ∪ seen) (out ++ [le_ID e]) rest
  end.

Definition MaterialAgentJudgments (entries : list DecisionLedgerEntry) : list string :=
  sort_slice string_less (judgments_loop ∅ [] entries).

(** The targets the earlier payloads resolve in one domain. *)
Definition resolved (domain : ImplUATPayload -> list Resolution) (priors : list ImplUATPayload)
    : gset string :=
  foldl (fun acc prior => foldl (fun acc r => {[rs_Target r]} ∪ acc) acc (domain prior)) ∅ priors.

Definition add_ref (acc : gset RequiredRef * list RequiredRef) (ref : RequiredRef)
    : gset RequiredRef * list RequiredRef :=
  if bool_decide (ref ∈ acc.1) then acc else ({[ref]} ∪ acc.1, acc.2 ++ [ref]).

(** One domain's loop: every identifier that is not resolved. *)
Definition add_domain (kind : Z) (done_ : gset string) (ids : list string)
    (acc : gset RequiredRef * list RequiredRef) : gset RequiredRef * list RequiredRef :=
  foldl (fun acc id => if bool_decide (id ∈ done_) then acc else add_ref acc (mk_Ref kind id))
    acc ids.

(** The references in the order they are added. *)
Definition collect_required (in_ : CoverageInput) : list RequiredRef :=
  let priors := ci_PriorResolutions in_ in
  let acc := add_domain RequiredLedgerDecision (resolved iu_LedgerDecisions priors)
               (MaterialAgentJudgments (ci_LedgerEntries in_)) (∅, []) in
  match ci_DeferredPlan in_ with
  | None => acc.2
  | Some plan =>
      let acc := add_domain RequiredHeldQuestion (resolved iu_HeldAnswers priors)
                   (map hq_ID (pd_HeldQuestions plan)) acc in
      (add_domain RequiredDeferredFeedback (resolved iu_PlanFeedback priors)
         (map fi_ID (pd_Feedback plan)) acc).2
  end.

Definition RequiredDecisions (in_ : CoverageInput) : list RequiredRef :=
  sort_slice ref_less (collect_required in_).
End coverage.

(** ** The digest *)
Record CoverageDigestSpec := mk_Spec {
  cd_RequiredRefs : list RequiredRef;
  cd_Outcome : Z;
  cd_Payload : ImplUATPayload;
  cd_PlanDecision : PlanUATDecisionID;
  cd_IntegrationSet : string;
  cd_InputLedger : DocumentRevisionID;
}.

Definition coverageDigestVersion : string := "pasture.coverage-digest/v1".

Record resolution := mk_res { re_domain : string; re_target : string; re_kind : string }.

Definition resolution_less (a b : resolution) : bool :=
  if negb (String.eqb (re_domain a) (re_domain b)) then string_less (re_domain a) (re_domain b)
  else string_less (re_target a) (re_target b).

Definition tag_resolutions (domain : string) (rs : list Resolution) : list resolution :=
  map (fun r => mk_res domain (rs_Target r) (ResolutionKind_String (rs_Kind r))) rs.

Definition flatten_resolutions (p : ImplUATPayload) : list resolution :=
  tag_resolutions "ledger-decision" (iu_LedgerDecisions p)
  ++ tag_resolutions "held-question" (iu_HeldAnswers p)
  ++ tag_resolutions "deferred-feedback" (iu_PlanFeedback p).

(** [writeDelimited] of a string. *)
Definition writeDelimited (s : string) : bytes := delimited (to_bytes s).

Definition write_ref (r : RequiredRef) : bytes :=
  writeDelimited (RequiredRefKind_String (rq_Kind r)) ++ writeDelimited (rq_ID r).

Definition write_resolution (r : resolution) : bytes :=
  writeDelimited (re_domain r) ++ writeDelimited (re_target r) ++ writeDelimited (re_kind r).

(** The bytes that are hashed. *)
Definition digest_buffer (spec : CoverageDigestSpec) : bytes :=
  writeDelimited coverageDigestVersion
  ++ writeDelimited (cd_PlanDecision spec)
  ++ writeDelimited (cd_IntegrationSet spec)
  ++ writeDelimited (cd_InputLedger spec)
  ++ counted write_ref (sort_slice ref_less (cd_RequiredRefs spec))
  ++ counted write_resolution (sort_slice resolution_less (flatten_resolutions (cd_Payload spec)))
  ++ writeDelimited (ImplementationUATVerdict_String (cd_Outcome spec)).

Inductive CoverageFailure :=
  | InvalidPayload (e : PolicyFailure)
  | DigestMismatch (recomputed stored : CoverageDigest).

Definition ComputeCoverageDigest {sha : Sha256} (spec : CoverageDigestSpec)
    : result CoverageFailure CoverageDigest :=
  match validateImplUATPayload (cd_Outcome spec) (cd_Payload spec) with
  | Some e => Err (InvalidPayload e)
  | None => Ok (Sum256 (digest_buffer spec))
  end.

Definition VerifyCoverage {sha : Sha256} (stored : CoverageDigest) (spec : CoverageDigestSpec)
    : option CoverageFailure :=
  match ComputeCoverageDigest spec with
  | Err e => Some e
  | Ok recomputed =>
      if negb (bool_decide (recomputed = stored)) then Some (DigestMismatch recomputed stored)
      else None
  end.

(** * Theorems *)

(** ** The required decisions *)

Definition ref_compare : RequiredRef -> RequiredRef -> Z :=
  cmp_lex (fun a b => Z.sgn (rq_Kind a - rq_Kind b))
          (fun a b => string_compare (rq_ID a) (rq_ID b)).

#[export] Instance Zdiff_comparator : Comparator (fun a b => Z.sgn (a - b)).
Proof. split; intros; lia. Qed.

#[export] Instance ref_comparator : Comparator ref_compare.
Proof.
  apply cmp_lex_comparator; [apply (comparator_pull rq_Kind (fun a b => Z.sgn (a - b)))|].
  apply (comparator_pull rq_ID string_compare).
Qed.

Lemma ref_less_compare a b : ref_less a b = (ref_compare a b <? 0)%Z.
Proof.
  unfold ref_less, ref_compare, cmp_lex.
  destruct (Z.eqb_spec (rq_Kind a) (rq_Kind b)) as [->|Hn]; simpl.
  - by rewrite Z.sub_diag.
  - destruct (Z.eqb_spec (Z.sgn (rq_Kind a - rq_Kind b)) 0); simpl; [lia|].
    destruct (Z.ltb_spec (rq_Kind a) (rq_Kind b)), (Z.ltb_spec (Z.sgn (rq_Kind a - rq_Kind b)) 0);
      lia.
Qed.

Lemma ref_compare_eq a b : ref_compare a b = 0%Z -> a = b.
Proof.
  unfold ref_compare, cmp_lex. destruct a as [k i], b as [k' i']. simpl.
  destruct (Z.eqb_spec (Z.sgn (k - k')) 0); simpl; [|done].
  intros ->%string_compare_eq. f_equal. lia.
Qed.

Lemma string_less_compare a b : string_less a b = (string_compare a b <? 0)%Z.
Proof. done. Qed.

Section required.
Context {prov : Provenance}.

Lemma judgments_loop_spec entries : forall seen out,
  (forall id, id ∈ seen <-> id ∈ out) -> NoDup out ->
  NoDup (judgments_loop seen out entries) /\
  forall id, id ∈ judgments_loop seen out entries <->
    id ∈ out \/ exists e, e ∈ entries /\ isMaterialAgentJudgment e = true /\ le_ID e = id.
Proof.
  induction entries as [|e entries IH]; intros seen out Hseen Hnd; cbn [judgments_loop].
  { split; [done|]. intros id. rewrite exists_elem_nil. tauto. }
  setoid_rewrite exists_elem_cons.
  destruct (isMaterialAgentJudgment e); cbn [negb].
  2:{ destruct (IH seen out Hseen Hnd) as [? Hl]. split; [done|]. intros id. rewrite Hl.
      intuition discriminate. }
  case_bool_decide as Hin.
  - destruct (IH seen out Hseen Hnd) as [? Hl]. split; [done|]. intros id. rewrite Hl.
    apply Hseen in Hin. split; [tauto|]. intros [?|[[_ <-]|?]]; tauto.
  - destruct (IH ({[le_ID e]} ∪ seen) (out ++ [le_ID e])) as [? Hl].
    { intros id. rewrite elem_of_union, elem_of_singleton, elem_of_app, list_elem_of_singleton, Hseen.
      tauto. }
    { apply NoDup_app. split_and!; [done| |apply NoDup_singleton].
      intros id Hid ->%list_elem_of_singleton. by apply Hin, Hseen. }
    split; [done|]. intros id. rewrite Hl, elem_of_app, list_elem_of_singleton.
    split; [intros [[?| ->]|?]; tauto|]. intros [?|[[_ <-]|?]]; tauto.
Qed.

Lemma MaterialAgentJudgments_spec entries id :
  id ∈ MaterialAgentJudgments entries <->
  exists e, e ∈ entries /\ isMaterialAgentJudgment e = true /\ le_ID e = id.
Proof.
  unfold MaterialAgentJudgments. rewrite (sort_slice_Permutation string_less).
  destruct (judgments_loop_spec entries ∅ []) as [_ Hl];
    [intros i; rewrite elem_of_empty, elem_of_nil; done|constructor|].
  rewrite Hl, elem_of_nil. tauto.
Qed.

Lemma resolved_spec domain priors t :
  t ∈ resolved domain priors <->
  exists p, p ∈ priors /\ exists r, r ∈ domain p /\ rs_Target r = t.
Proof.
  unfold resolved.
  assert (H1 : forall rs acc, t ∈ foldl (fun acc r => {[rs_Target r]} ∪ acc) acc rs <->
    t ∈ (acc : gset string) \/ exists r, r ∈ rs /\ rs_Target r = t).
  { induction rs as [|r rs IH]; intros acc; simpl; [rewrite exists_elem_nil; tauto|].
    rewrite IH, elem_of_union, elem_of_singleton, exists_elem_cons.
    split; [intros [[->|?]|?]; tauto|intros [?|[<-|?]]; tauto]. }
  assert (H2 : forall priors acc,
    t ∈ foldl (fun acc prior => foldl (fun acc r => {[rs_Target r]} ∪ acc) acc (domain prior)) acc priors
    <-> t ∈ (acc : gset string) \/ exists p, p ∈ priors /\ exists r, r ∈ domain p /\ rs_Target r = t).
  { clear priors. induction priors as [|p priors IH]; intros acc; simpl; [rewrite exists_elem_nil; tauto|].
    rewrite IH, H1, exists_elem_cons. tauto. }
  rewrite H2, elem_of_empty. tauto.
Qed.

Definition coherent (acc : gset RequiredRef * list RequiredRef) : Prop :=
  (forall r, r ∈ acc.1 <-> r ∈ acc.2) /\ NoDup acc.2.

Lemma add_domain_spec kind done_ ids : forall acc,
  coherent acc ->
  coherent (add_domain kind done_ ids acc) /\
  forall r, r ∈ (add_domain kind done_ ids acc).2 <->
    r ∈ acc.2 \/ (rq_Kind r = kind /\ rq_ID r ∈ ids /\ rq_ID r ∉ done_).
Proof.
  induction ids as [|id ids IH]; intros acc Hc; simpl.
  { split; [done|]. intros r. rewrite elem_of_nil. tauto. }
  assert (coherent (if bool_decide (id ∈ done_) then acc else add_ref acc (mk_Ref kind id)) /\
    forall r, r ∈ (if bool_decide (id ∈ done_) then acc else add_ref acc (mk_Ref kind id)).2 <->
      r ∈ acc.2 \/ (r = mk_Ref kind id /\ id ∉ done_)) as [Hc' Hr].
  { case_bool_decide as Hd; [split; [done|tauto]|]. unfold add_ref.
    destruct Hc as [Hs Hnd]. case_bool_decide as Hin.
    - split; [done|]. intros r. apply Hs in Hin. split; [tauto|]. by intros [?|[-> _]].
    - split.
      + split; simpl.
        * intros r. rewrite elem_of_union, elem_of_singleton, elem_of_app, list_elem_of_singleton, Hs.
          tauto.
        * apply NoDup_app. split_and!; [done| |apply NoDup_singleton].
          intros r Hr ->%list_elem_of_singleton. by apply Hin, Hs.
      + intros r. simpl. rewrite elem_of_app, list_elem_of_singleton. tauto. }
  destruct (IH _ Hc') as [Hc'' Hl]. split; [done|]. intros r. rewrite Hl, Hr, elem_of_cons.
  destruct r as [k i]. simpl. split.
  - intros [[?|[[= -> ->] ?]]|(? & ? & ?)]; tauto.
  - intros [?|(-> & [->|?] & ?)]; tauto.
Qed.

(** What must be resolved: the judgments of agents, and of a deferred plan the
    held questions and the feedback, less what earlier payloads resolved in the
    same domain. *)
Definition required (i : CoverageInput) (r : RequiredRef) : Prop :=
  (rq_Kind r = RequiredLedgerDecision /\
   (exists e, e ∈ ci_LedgerEntries i /\ at_DeciderKind (le_Actor e) <> AgentKindHuman /\
      le_ID e = rq_ID r) /\
   ~ exists p, p ∈ ci_PriorResolutions i /\ exists s, s ∈ iu_LedgerDecisions p /\ rs_Target s = rq_ID r) \/
  (rq_Kind r = RequiredHeldQuestion /\
   (exists plan q, ci_DeferredPlan i = Some plan /\ q ∈ pd_HeldQuestions plan /\ hq_ID q = rq_ID r) /\
   ~ exists p, p ∈ ci_PriorResolutions i /\ exists s, s ∈ iu_HeldAnswers p /\ rs_Target s = rq_ID r) \/
  (rq_Kind r = RequiredDeferredFeedback /\
   (exists plan f, ci_DeferredPlan i = Some plan /\ f ∈ pd_Feedback plan /\ fi_ID f = rq_ID r) /\
   ~ exists p, p ∈ ci_PriorResolutions i /\ exists s, s ∈ iu_PlanFeedback p /\ rs_Target s = rq_ID r).

Lemma collect_required_elem i :
  NoDup (collect_required i) /\ forall r, r ∈ collect_required i <-> required i r.
Proof.
  unfold collect_required.
  set (acc1 := add_domain RequiredLedgerDecision _ _ (∅, [])).
  destruct (add_domain_spec RequiredLedgerDecision
    (resolved iu_LedgerDecisions (ci_PriorResolutions i)) (MaterialAgentJudgments (ci_LedgerEntries i))
    (∅, [])) as [Hc1 H1].
  { split; [|constructor]. intros r. simpl. by rewrite elem_of_empty, elem_of_nil. }
  fold acc1 in Hc1, H1.
  assert (H1' : forall r, r ∈ acc1.2 <-> rq_Kind r = RequiredLedgerDecision /\
   (exists e, e ∈ ci_LedgerEntries i /\ at_DeciderKind (le_Actor e) <> AgentKindHuman /\
      le_ID e = rq_ID r) /\
   ~ exists p, p ∈ ci_PriorResolutions i /\ exists s, s ∈ iu_LedgerDecisions p /\ rs_Target s = rq_ID r).
  { intros r. rewrite H1, elem_of_nil, MaterialAgentJudgments_spec, resolved_spec.
    unfold isMaterialAgentJudgment. setoid_rewrite negb_true_iff. setoid_rewrite bool_decide_eq_false.
    tauto. }
  clear H1. destruct (ci_DeferredPlan i) as [plan|] eqn:Hp.
  - set (acc2 := add_domain RequiredHeldQuestion _ _ acc1).
    destruct (add_domain_spec RequiredHeldQuestion (resolved iu_HeldAnswers (ci_PriorResolutions i))
      (map hq_ID (pd_HeldQuestions plan)) acc1 Hc1) as [Hc2 H2]. fold acc2 in Hc2, H2.
    destruct (add_domain_spec RequiredDeferredFeedback (resolved iu_PlanFeedback (ci_PriorResolutions i))
      (map fi_ID (pd_Feedback plan)) acc2 Hc2) as [[_ Hnd] H3].
    split; [done|]. intros r.
    rewrite H3, H2, H1', !resolved_spec, !list_elem_of_fmap.
    unfold required. rewrite Hp. split.
    + intros [[?|(? & (q & ? & ?) & ?)]|(? & (f & ? & ?) & ?)];
        [by left|right; left|right; right]; split_and!; try done; eexists plan, _; by split_and!.
    + intros [?|[(? & (pl & q & [= <-] & ? & ?) & ?)|(? & (pl & f & [= <-] & ? & ?) & ?)]];
        [by do 2 left|left; right|right]; split_and!; try done; eexists; by split.
  - split; [apply Hc1|]. intros r.
    rewrite H1'. unfold required. rewrite Hp. split; [by left|].
    intros [?|[(? & (pl & q & [=] & _) & _)|(? & (pl & q & [=] & _) & _)]]. done.
Qed.

Lemma RequiredDecisions_elem i :
  NoDup (RequiredDecisions i) /\ forall r, r ∈ RequiredDecisions i <-> required i r.
Proof.
  destruct (collect_required_elem i) as [Hnd Hi]. unfold RequiredDecisions.
  split; [by rewrite sort_slice_Permutation|]. intros r. by rewrite sort_slice_Permutation.
Qed.

(** Equal requirements are listed equally: the list is a function of the set. *)
Lemma RequiredDecisions_ext i j :
  (forall r, required i r <-> required j r) -> RequiredDecisions i = RequiredDecisions j.
Proof.
  intros H. destruct (collect_required_elem i) as [Hn Hi], (collect_required_elem j) as [Hn' Hj].
  apply (sort_slice_unique ref_compare); [apply ref_less_compare|intros; by apply ref_compare_eq|].
  apply NoDup_Permutation; [done|done|]. intros r. by rewrite Hi, Hj.
Qed.

(** The required decisions are exactly the unresolved ones, without
    repetition and in the canonical order, so they depend on the inputs only
    through the set they require: an appended human decision changes nothing, an
    appended judgment of an agent that no payload resolves is required. *)
Theorem RequiredDecisions_spec i :
  (forall r, r ∈ RequiredDecisions i <-> required i r) /\
  NoDup (RequiredDecisions i) /\
  StronglySorted (fun a b => ref_less b a = false) (RequiredDecisions i) /\
  (forall e, let i' := mk_CoverageInput (ci_LedgerEntries i ++ [e]) (ci_DeferredPlan i)
                         (ci_PriorResolutions i) in
     (at_DeciderKind (le_Actor e) = AgentKindHuman -> RequiredDecisions i' = RequiredDecisions i) /\
     (at_DeciderKind (le_Actor e) <> AgentKindHuman ->
      le_ID e ∉ resolved iu_LedgerDecisions (ci_PriorResolutions i) ->
      mk_Ref RequiredLedgerDecision (le_ID e) ∈ RequiredDecisions i')).
Proof.
  destruct (RequiredDecisions_elem i) as [Hnd Hi].
  split_and!; [done|done|apply (sort_slice_sorted ref_compare), ref_less_compare|].
  intros e i'. split.
  - intros He. apply RequiredDecisions_ext. intros r. unfold required, i'. simpl.
    assert ((exists e0, e0 ∈ ci_LedgerEntries i ++ [e] /\
               at_DeciderKind (le_Actor e0) <> AgentKindHuman /\ le_ID e0 = rq_ID r) <->
            (exists e0, e0 ∈ ci_LedgerEntries i /\
               at_DeciderKind (le_Actor e0) <> AgentKindHuman /\ le_ID e0 = rq_ID r)) as ->; [|done].
    split; intros (e0 & Hin & Hk & Hid); exists e0; (split; [|done]).
    + apply elem_of_app in Hin as [?| ->%list_elem_of_singleton]; done.
    + by apply elem_of_app; left.
  - intros He Hn. apply RequiredDecisions_elem. left. simpl. split_and!; [done| |].
    + exists e. split_and!; [apply elem_of_app; right; by apply list_elem_of_singleton|done..].
    + by rewrite resolved_spec in Hn.
Qed.
End required.

(** ** The digest's bytes *)

Lemma writeDelimited_sd : self_delimiting writeDelimited.
Proof. intros x y a b [H%bytes_inj ->]%delimited_inj. done. Qed.

Lemma RequiredRefKind_String_inj a b : RequiredRefKind_String a = RequiredRefKind_String b -> a = b.
Proof.
  assert (Hp : forall k, String.append "RequiredRefKind(" (String.append (format_int k) ")")
    <> "ledger-decision" /\ String.append "RequiredRefKind(" (String.append (format_int k) ")")
    <> "held-question" /\ String.append "RequiredRefKind(" (String.append (format_int k) ")")
    <> "deferred-feedback") by (intros k; split_and!; simpl; discriminate).
  assert (Hi : forall k k', String.append "RequiredRefKind(" (String.append (format_int k) ")")
    = String.append "RequiredRefKind(" (String.append (format_int k') ")") -> k = k').
  { intros k k' H. apply format_int_inj. apply (f_equal list_ascii_of_string) in H.
    rewrite !bytes_app in H. apply app_inv_head, app_inv_tail in H. by apply bytes_inj. }
  unfold RequiredRefKind_String, RequiredLedgerDecision, RequiredHeldQuestion, RequiredDeferredFeedback.
  destruct (Hp a) as (? & ? & ?), (Hp b) as (? & ? & ?).
  destruct (Z.eqb_spec a 1), (Z.eqb_spec a 2), (Z.eqb_spec a 3), (Z.eqb_spec b 1),
    (Z.eqb_spec b 2), (Z.eqb_spec b 3); try lia; intros E; try discriminate E;
    try (symmetry in E; contradiction); try contradiction; by apply Hi.
Qed.

Lemma write_ref_sd : self_delimiting write_ref.
Proof.
  intros [k i] [k' i'] a b. unfold write_ref. rewrite <- !app_assoc.
  intros [Hk%RequiredRefKind_String_inj [Hi ->]%writeDelimited_sd]%writeDelimited_sd.
  simpl in *. by subst.
Qed.

Lemma write_resolution_sd : self_delimiting write_resolution.
Proof.
  intros [d t k] [d' t' k'] a b. unfold write_resolution. rewrite <- !app_assoc.
  intros [Hd [Ht [Hk ->]%writeDelimited_sd]%writeDelimited_sd]%writeDelimited_sd.
  simpl in *. by subst.
Qed.

Definition resolution_compare : resolution -> resolution -> Z :=
  cmp_lex (fun a b => string_compare (re_domain a) (re_domain b))
          (fun a b => string_compare (re_target a) (re_target b)).

#[export] Instance resolution_comparator : Comparator resolution_compare.
Proof.
  apply cmp_lex_comparator; [apply (comparator_pull re_domain string_compare)|].
  apply (comparator_pull re_target string_compare).
Qed.

Lemma resolution_less_compare a b : resolution_less a b = (resolution_compare a b <? 0)%Z.
Proof.
  unfold resolution_less, resolution_compare, cmp_lex.
  pose proof (string_compare_eq (re_domain a) (re_domain b)) as He.
  destruct (String.eqb_spec (re_domain a) (re_domain b)) as [E|Hn]; simpl.
  - by rewrite (proj2 He E).
  - by destruct (Z.eqb_spec (string_compare (re_domain a) (re_domain b)) 0) as [?%He|].
Qed.

Lemma resolution_compare_eq a b :
  resolution_compare a b = 0%Z -> re_domain a = re_domain b /\ re_target a = re_target b.
Proof.
  unfold resolution_compare, cmp_lex.
  destruct (Z.eqb_spec (string_compare (re_domain a) (re_domain b)) 0) as [E|]; simpl; [|done].
  intros ?%string_compare_eq. by apply string_compare_eq in E.
Qed.

(** What a resolution decides: its target and its disposition. *)
Definition dispositions (rs : list Resolution) : list (string * Z) :=
  map (fun r => (rs_Target r, rs_Kind r)) rs.

Definition kind_of_text (s : string) : Z :=
  if String.eqb s "confirm" then ResolutionConfirm
  else if String.eqb s "defer" then ResolutionDefer else ResolutionReplace.

Lemma dispositions_tag d rs :
  resolved_once rs ->
  dispositions rs = map (fun r => (re_target r, kind_of_text (re_kind r))) (tag_resolutions d rs).
Proof.
  intros [HF _]. unfold dispositions, tag_resolutions. rewrite map_map. apply map_ext_in.
  intros r Hr%list_elem_of_In. rewrite Forall_forall in HF. specialize (HF r Hr).
  simpl. f_equal. elim_members HF; match goal with H : rs_Kind r = _ |- _ => rewrite H end; done.
Qed.

Lemma tag_dispositions d rs :
  tag_resolutions d rs = map (fun '(t, k) => mk_res d t (ResolutionKind_String k)) (dispositions rs).
Proof. unfold tag_resolutions, dispositions. by rewrite map_map. Qed.

Lemma filter_tag d d' rs :
  filter (fun r => re_domain r = d) (tag_resolutions d' rs)
  = if String.eqb d' d then tag_resolutions d' rs else [].
Proof.
  induction rs as [|r rs IH]; simpl; [by destruct (String.eqb d' d)|].
  rewrite filter_cons. simpl. rewrite IH.
  destruct (String.eqb_spec d' d); case_decide; done.
Qed.

Lemma flatten_Permutation p q :
  resolved_once (iu_LedgerDecisions p) -> resolved_once (iu_HeldAnswers p) ->
  resolved_once (iu_PlanFeedback p) ->
  resolved_once (iu_LedgerDecisions q) -> resolved_once (iu_HeldAnswers q) ->
  resolved_once (iu_PlanFeedback q) ->
  flatten_resolutions p ≡ₚ flatten_resolutions q <->
  dispositions (iu_LedgerDecisions p) ≡ₚ dispositions (iu_LedgerDecisions q) /\
  dispositions (iu_HeldAnswers p) ≡ₚ dispositions (iu_HeldAnswers q) /\
  dispositions (iu_PlanFeedback p) ≡ₚ dispositions (iu_PlanFeedback q).
Proof.
  intros Hp1 Hp2 Hp3 Hq1 Hq2 Hq3. split.
  - intros HP.
    assert (Hd : forall d, filter (fun r => re_domain r = d) (flatten_resolutions p) ≡ₚ
                           filter (fun r => re_domain r = d) (flatten_resolutions q))
      by (intros d; by rewrite HP).
    unfold flatten_resolutions in Hd.
    pose proof (Hd "ledger-decision") as H1. pose proof (Hd "held-question") as H2.
    pose proof (Hd "deferred-feedback") as H3.
    rewrite !filter_app, !filter_tag in H1, H2, H3. simpl in H1, H2, H3.
    rewrite !app_nil_r in H1, H2.
    rewrite !(dispositions_tag "ledger-decision" (iu_LedgerDecisions _)),
      !(dispositions_tag "held-question" (iu_HeldAnswers _)),
      !(dispositions_tag "deferred-feedback" (iu_PlanFeedback _)) by done.
    split_and!; by apply Permutation_map.
  - intros (H1 & H2 & H3). unfold flatten_resolutions. rewrite !tag_dispositions.
    by rewrite H1, H2, H3.
Qed.

Lemma flatten_ties p :
  resolved_once (iu_LedgerDecisions p) -> resolved_once (iu_HeldAnswers p) ->
  resolved_once (iu_PlanFeedback p) ->
  forall a b, a ∈ flatten_resolutions p -> b ∈ flatten_resolutions p ->
    resolution_compare a b = 0%Z -> a = b.
Proof.
  intros HL HH HP a b Ha Hb [Hd Ht]%resolution_compare_eq.
  assert (Hone : forall d rs, resolved_once rs -> a ∈ tag_resolutions d rs -> b ∈ tag_resolutions d rs ->
            a = b).
  { intros d rs [_ [_ Hnd]] (r & -> & Hr)%list_elem_of_fmap (r' & -> & Hr')%list_elem_of_fmap.
    simpl in Ht. assert (r = r') as ->; [|done].
    apply list_elem_of_lookup in Hr as [i Hi], Hr' as [j Hj].
    assert (i = j) as <-; [|congruence]. eapply NoDup_lookup; [exact Hnd|..];
      rewrite list_lookup_fmap, ?Hi, ?Hj; simpl; by rewrite ?Ht. }
  assert (Hdom : forall d rs r, r ∈ tag_resolutions d rs -> re_domain r = d).
  { by intros d rs r (? & -> & _)%list_elem_of_fmap. }
  unfold flatten_resolutions in Ha, Hb. rewrite !elem_of_app in Ha, Hb.
  destruct Ha as [Ha|[Ha|Ha]], Hb as [Hb|[Hb|Hb]]; eauto;
    exfalso; apply Hdom in Ha; apply Hdom in Hb; rewrite Ha, Hb in Hd; discriminate Hd.
Qed.

(** Two acceptances decide the same: the same plan, candidate set, ledger
    revision and verdict, the same requirements and the same dispositions, in
    any order.  Notes, interactions and feedback texts do not count. *)
Definition same_decision (s1 s2 : CoverageDigestSpec) : Prop :=
  cd_PlanDecision s1 = cd_PlanDecision s2 /\ cd_IntegrationSet s1 = cd_IntegrationSet s2 /\
  cd_InputLedger s1 = cd_InputLedger s2 /\ cd_Outcome s1 = cd_Outcome s2 /\
  cd_RequiredRefs s1 ≡ₚ cd_RequiredRefs s2 /\
  dispositions (iu_LedgerDecisions (cd_Payload s1)) ≡ₚ dispositions (iu_LedgerDecisions (cd_Payload s2)) /\
  dispositions (iu_HeldAnswers (cd_Payload s1)) ≡ₚ dispositions (iu_HeldAnswers (cd_Payload s2)) /\
  dispositions (iu_PlanFeedback (cd_Payload s1)) ≡ₚ dispositions (iu_PlanFeedback (cd_Payload s2)).

Definition spec_valid (s : CoverageDigestSpec) : Prop :=
  validateImplUATPayload (cd_Outcome s) (cd_Payload s) = None.

Lemma spec_valid_resolved s :
  spec_valid s ->
  cd_Outcome s ∈ [ImplUATAccepted; ImplUATChangesRequested] /\
  resolved_once (iu_HeldAnswers (cd_Payload s)) /\ resolved_once (iu_PlanFeedback (cd_Payload s)) /\
  resolved_once (iu_LedgerDecisions (cd_Payload s)).
Proof.
  intros H%validateImplUATPayload_valid. tauto.
Qed.

Lemma digest_buffer_eq s1 s2 :
  spec_valid s1 -> spec_valid s2 ->
  digest_buffer s1 = digest_buffer s2 <-> same_decision s1 s2.
Proof.
  intros (Ho1 & H1 & P1 & L1)%spec_valid_resolved (Ho2 & H2 & P2 & L2)%spec_valid_resolved.
  pose proof (flatten_Permutation (cd_Payload s1) (cd_Payload s2) L1 H1 P1 L2 H2 P2) as Hf.
  unfold same_decision. rewrite <- Hf. unfold digest_buffer. split.
  - intros [_ [Hplan [Hset [Hled [Hrefs [Hres Hout]%(counted_inj _ write_resolution_sd)]%(counted_inj
      _ write_ref_sd)]%writeDelimited_sd]%writeDelimited_sd]%writeDelimited_sd]%writeDelimited_sd.
    split_and!; try done.
    + apply (f_equal (fun l => l ++ [])) in Hout. apply writeDelimited_sd in Hout as [Hout _].
      revert Hout. elim_members Ho1; elim_members Ho2;
        repeat match goal with H : cd_Outcome _ = _ |- _ => rewrite H; clear H end; try done.
    + by rewrite <- (sort_slice_Permutation ref_less (cd_RequiredRefs s1)), Hrefs,
        sort_slice_Permutation.
    + by rewrite <- (sort_slice_Permutation resolution_less (flatten_resolutions (cd_Payload s1))),
        Hres, sort_slice_Permutation.
  - intros (-> & -> & -> & -> & Hrefs & Hres).
    rewrite (sort_slice_unique ref_compare ref_less ref_less_compare _ _
               (fun a b _ _ => ref_compare_eq a b) Hrefs).
    by rewrite (sort_slice_unique resolution_compare resolution_less resolution_less_compare _ _
                  (flatten_ties _ L1 H1 P1) Hres).
Qed.

(** The hashed bytes determine the decision: between valid acceptances
    they agree exactly when the plan, the candidate set, the ledger revision,
    the verdict, the required references and the dispositions of every domain
    agree, whatever the order of the lists. *)
Theorem digest_buffer_decision s1 s2 :
  spec_valid s1 -> spec_valid s2 ->
  digest_buffer s1 = digest_buffer s2 <-> same_decision s1 s2.
Proof. apply digest_buffer_eq. Qed.

(** Verification accepts a stored digest exactly for a valid acceptance
    with the same decision as the one it was computed for, if the hash does not
    collide on these two inputs; so once the required set has changed, or the
    ledger revision, it fails. *)
Theorem VerifyCoverage_sound {sha : Sha256} d s1 s2 :
  ComputeCoverageDigest s1 = Ok d ->
  (Sum256 (digest_buffer s1) = Sum256 (digest_buffer s2) -> digest_buffer s1 = digest_buffer s2) ->
  VerifyCoverage d s2 = None <-> spec_valid s2 /\ same_decision s1 s2.
Proof.
  unfold VerifyCoverage, ComputeCoverageDigest. fold (spec_valid s1) (spec_valid s2).
  intros Hs1 Hcol. destruct (validateImplUATPayload (cd_Outcome s1) (cd_Payload s1)) eqn:V1; [done|].
  injection Hs1 as <-. unfold spec_valid.
  destruct (validateImplUATPayload (cd_Outcome s2) (cd_Payload s2)) eqn:V2; [naive_solver|].
  rewrite <- (digest_buffer_eq s1 s2) by done. case_bool_decide as E; simpl.
  - split; [|done]. intros _. split; [done|]. by apply Hcol.
  - split; [done|]. intros [_ H]. by rewrite H in E.
Qed.

(** ** A concrete acceptance *)

Definition identity_hash : Sha256 := fun b => b.

Definition demo_spec (refs : list RequiredRef) (held : list Resolution) : CoverageDigestSpec :=
  mk_Spec refs ImplUATAccepted
    (mk_ImplUATPayload [] [] held [] [mk_Resolution "entry-7" ResolutionDefer "later"])
    "plan-1" "set-3" "ledger-rev-5".

Definition ref_a := mk_Ref RequiredHeldQuestion "q1".
Definition ref_b := mk_Ref RequiredHeldQuestion "q2".
Definition ans_a := mk_Resolution "q1" ResolutionConfirm "as drawn".
Definition ans_b := mk_Resolution "q2" ResolutionConfirm "see notes".

Lemma demo_same :
  same_decision (demo_spec [ref_a; ref_b] [ans_a; ans_b]) (demo_spec [ref_b; ref_a] [ans_b; ans_a]).
Proof. repeat (split; [first [reflexivity | apply Permutation_swap]|]); reflexivity. Qed.

Lemma digest_buffer_decision_witness :
  digest_buffer (demo_spec [ref_a; ref_b] [ans_a; ans_b])
  = digest_buffer (demo_spec [ref_b; ref_a] [ans_b; ans_a]) /\
  digest_buffer (demo_spec [ref_a] [ans_a]) <> digest_buffer (demo_spec [ref_a] [ans_b]).
Proof.
  split.
  - apply (digest_buffer_decision (demo_spec [ref_a; ref_b] [ans_a; ans_b])
             (demo_spec [ref_b; ref_a] [ans_b; ans_a]) eq_refl eq_refl).
    exact demo_same.
  - intros H. apply (digest_buffer_decision (demo_spec [ref_a] [ans_a]) (demo_spec [ref_a] [ans_b])
                       eq_refl eq_refl) in H.
    destruct H as (_ & _ & _ & _ & _ & _ & H & _).
    apply Permutation_singleton_inj in H. discriminate H.
Defined.

Lemma VerifyCoverage_sound_witness :
  exists d, ComputeCoverageDigest (sha := identity_hash) (demo_spec [ref_a; ref_b] [ans_a; ans_b]) = Ok d /\
    VerifyCoverage (sha := identity_hash) d (demo_spec [ref_b; ref_a] [ans_b; ans_a]) = None /\
    VerifyCoverage (sha := identity_hash) d (demo_spec [ref_a] [ans_a]) <> None.
Proof.
  eexists. split; [reflexivity|]. split.
  - apply (VerifyCoverage_sound (sha := identity_hash) _ (demo_spec [ref_a; ref_b] [ans_a; ans_b])
             (demo_spec [ref_b; ref_a] [ans_b; ans_a]) eq_refl (fun H => H)).
    split; [reflexivity|exact demo_same].
  - intros H. apply (VerifyCoverage_sound (sha := identity_hash) _ (demo_spec [ref_a; ref_b] [ans_a; ans_b])
             (demo_spec [ref_a] [ans_a]) eq_refl (fun H => H)) in H.
    destruct H as [_ (_ & _ & _ & _ & H & _)]. apply Permutation_length in H. discriminate H.
Defined.
