(* ===== verification/SourceManifest.v ===== *)
(** SourceManifest: the source manifests of the compiled definition documents
    (internal/lifecycle/definitions/epoch.go).

    A manifest lists the sources a document describes, each with the SHA-256 of
    its bytes.  [validateSources] is the contract that the generator and every
    decoder share; [manifest_wf] says what it admits. *)

From Stdlib Require Import ZArith Lia Ascii String.
From stdpp Require Import base tactics list strings gmap sorting.
From S2P Require Import Prelude GoStrings Pipeline.
Local Open Scope string_scope.
Local Open Scope list_scope.

Record SourceEntry := mk_Source { se_Path : string; se_SHA256 : string }.
#[export] Instance SourceEntry_eq_dec : EqDecision SourceEntry.
Proof. solve_decision. Defined.

Inductive SourceError :=
  | SourcesEmpty (owner : string)
  | SourceDuplicate (owner path : string)
  | SourcesUnsorted (owner path : string)
  | SourceNotRelative (owner path : string)
  | SourceDigestInvalid (owner path : string)
  | SourceDigestCase (owner path : string).

(** [sha256.Size]. *)
Definition sha256_Size : nat := 32.

Definition isRepositoryRelative (path : string) : bool :=
  let p := to_bytes path in
  if String.eqb path "" || HasPrefix p (to_bytes "/") || ContainsSub p (to_bytes "\")
     || ContainsSub p (to_bytes "..") then false
  else if HasSuffix p (to_bytes "_test.go") || ContainsSub p (to_bytes "/testdata/") then false
  else HasSuffix p (to_bytes ".go").

(** The loop over the entries, with the paths seen and the previous path. *)
Fixpoint source_loop (owner : string) (seen : gset string) (previous : string)
    (entries : list SourceEntry) : option SourceError :=
  match entries with
  | [] => None
  | entry :: rest =>
      let path := se_Path entry in
      if String.eqb path "" || bool_decide (path ∈ seen) then Some (SourceDuplicate owner path)
      else if negb (String.eqb previous "") && negb (string_less previous path)
      then Some (SourcesUnsorted owner path)
      else if negb (isRepositoryRelative path) then Some (SourceNotRelative owner path)
      else if match HexDecode (to_bytes (se_SHA256 entry)) with
              | Some digest => negb (length digest =? sha256_Size)%nat
              | None => true
              end
      then Some (SourceDigestInvalid owner path)
      else if negb (bool_decide (ToLower (to_bytes (se_SHA256 entry)) = to_bytes (se_SHA256 entry)))
      then Some (SourceDigestCase owner path)
      else source_loop owner ({[path]} ∪ seen) path rest
  end.

(** [None] is the nil error. *)
Definition validateSources (owner : string) (entries : list SourceEntry) : option SourceError :=
  match entries with
  | [] => Some (SourcesEmpty owner)
  | _ :: _ => source_loop owner ∅ "" entries
  end.

(** * Theorems *)

(** ** What a manifest is

    A path of a Go source of the repository: relative, with forward slashes,
    without a parent step, neither a test nor a fixture. *)
Definition infix_of (sub s : string) : Prop :=
  exists a b, to_bytes s = a ++ to_bytes sub ++ b.

Record source_path (path : string) : Prop := {
  sp_go : exists stem, path = String.append stem ".go";
  sp_relative : ~ exists rest, path = String.append "/" rest;
  sp_slashes : ~ infix_of "\" path;
  sp_no_parent : ~ infix_of ".." path;
  sp_not_test : ~ exists stem, path = String.append stem "_test.go";
  sp_not_fixture : ~ infix_of "/testdata/" path;
}.

Record source_digest (digest : string) : Prop := {
  sd_length : String.length digest = 64%nat;
  sd_lower_hex : forallb lower_hex_digit (to_bytes digest) = true;
}.

(** Sorted without repetition by the byte order of the paths. *)
Record manifest_wf (entries : list SourceEntry) : Prop := {
  mw_some : entries <> [];
  mw_sorted : StronglySorted (fun a b => string_less a b = true) (se_Path <$> entries);
  mw_paths : Forall (fun e => source_path (se_Path e)) entries;
  mw_digests : Forall (fun e => source_digest (se_SHA256 e)) entries;
}.

(** ** Paths *)

Lemma infix_of_spec sub s : ContainsSub (to_bytes s) (to_bytes sub) = true <-> infix_of sub s.
Proof. apply ContainsSub_spec. Qed.

Lemma HasPrefix_string s p :
  HasPrefix (to_bytes s) (to_bytes p) = true <-> exists rest, s = String.append p rest.
Proof.
  rewrite HasPrefix_spec. split.
  - intros [r Hr]. exists (of_bytes r). apply bytes_inj. by rewrite bytes_app, to_of_bytes.
  - intros [r ->]. exists (to_bytes r). apply bytes_app.
Qed.

Lemma HasSuffix_string s p :
  HasSuffix (to_bytes s) (to_bytes p) = true <-> exists stem, s = String.append stem p.
Proof.
  rewrite HasSuffix_spec. split.
  - intros [r Hr]. exists (of_bytes r). apply bytes_inj. by rewrite bytes_app, to_of_bytes.
  - intros [r ->]. exists (to_bytes r). apply bytes_app.
Qed.

Lemma not_true_spec (b : bool) (P : Prop) : (b = true <-> P) -> (b = false <-> ~ P).
Proof. intros H. rewrite <- H. by destruct b; split. Qed.

Lemma isRepositoryRelative_spec path : isRepositoryRelative path = true <-> source_path path.
Proof.
  unfold isRepositoryRelative. set (p := to_bytes path).
  pose proof (HasSuffix_string path ".go") as Hgo.
  pose proof (not_true_spec _ _ (HasPrefix_string path "/")) as Habs.
  pose proof (not_true_spec _ _ (infix_of_spec "\" path)) as Hback.
  pose proof (not_true_spec _ _ (infix_of_spec ".." path)) as Hparent.
  pose proof (not_true_spec _ _ (HasSuffix_string path "_test.go")) as Htest.
  pose proof (not_true_spec _ _ (infix_of_spec "/testdata/" path)) as Hdata.
  fold p in Hgo, Habs, Hback, Hparent, Htest, Hdata. split.
  - destruct (String.eqb path ""), (HasPrefix p _), (ContainsSub p (to_bytes "\")),
      (ContainsSub p (to_bytes "..")), (HasSuffix p (to_bytes "_test.go")),
      (ContainsSub p (to_bytes "/testdata/")); simpl; try done.
    intros H. split; tauto.
  - intros [[stem Hs] H2 H3 H4 H5 H6].
    rewrite (proj2 Habs), (proj2 Hback), (proj2 Hparent), (proj2 Htest), (proj2 Hdata) by done.
    destruct (String.eqb_spec path "") as [E|]; simpl; [|apply Hgo; eauto].
    rewrite E in Hs. by destruct stem.
Qed.

Lemma source_path_not_empty path : source_path path -> path <> "".
Proof. intros [[stem ->] _ _ _ _ _]. by destruct stem. Qed.

(** ** Digests *)

Lemma hex_value_lower c :
  bool_decide (is_Some (hex_value c)) = true ->
  Ascii.eqb c (ascii_of_N 0xC4) = false /\ Ascii.eqb c (ascii_of_N 0xE2) = false /\
  (lower_byte c = c <-> lower_hex_digit c = true).
Proof.
  destruct c as [[] [] [] [] [] [] [] []]; vm_compute; intros H; try discriminate H;
    split_and!; try reflexivity; intros Hx; first [reflexivity|discriminate Hx].
Qed.

Lemma lower_hex_clean c : lower_hex_digit c = true -> clean c = true.
Proof. destruct c as [[] [] [] [] [] [] [] []]; vm_compute; congruence. Qed.

Lemma lower_hex_value c : lower_hex_digit c = true -> bool_decide (is_Some (hex_value c)) = true.
Proof. destruct c as [[] [] [] [] [] [] [] []]; vm_compute; congruence. Qed.

Lemma ToLower_hex s :
  forallb (fun c => bool_decide (is_Some (hex_value c))) s = true ->
  ToLower s = lower_byte <$> s.
Proof.
  induction s as [|c|c1 c2 s IH1 IH2 IH3] using bytes_lookahead_ind; [done|done|].
  intros [Hc Hs]%andb_prop. destruct (hex_value_lower c1 Hc) as (E1 & E2 & _).
  rewrite ToLower_cons2, E1, E2, (IH2 Hs). by destruct s.
Qed.

Lemma ToLower_hex_fixed s :
  forallb (fun c => bool_decide (is_Some (hex_value c))) s = true ->
  ToLower s = s -> forallb lower_hex_digit s = true.
Proof.
  intros Hs. rewrite ToLower_hex by done. induction s as [|c s IH]; [done|].
  simpl in *. apply andb_prop in Hs as [Hc Hs]. intros [= H1 H2].
  rewrite (proj1 (proj2 (proj2 (hex_value_lower c Hc))) H1). by apply IH.
Qed.

Definition digest_accepted (digest : string) : bool :=
  match HexDecode (to_bytes digest) with
  | Some d => (length d =? sha256_Size)%nat
              && bool_decide (ToLower (to_bytes digest) = to_bytes digest)
  | None => false
  end.

Lemma digest_accepted_spec digest : digest_accepted digest = true <-> source_digest digest.
Proof.
  unfold digest_accepted. split.
  - destruct (HexDecode (to_bytes digest)) as [d|] eqn:E; [|done].
    rewrite andb_true_iff, Nat.eqb_eq, bool_decide_eq_true. intros [Hl Hlow]. split.
    + rewrite <- length_to_bytes, (HexDecode_length _ _ E), Hl. done.
    + apply ToLower_hex_fixed; [by eapply HexDecode_hex|done].
  - intros [Hl Hhex]. rewrite <- length_to_bytes in Hl.
    destruct (HexDecode_Some (to_bytes digest) 32) as (d & -> & ->); [done| |].
    { eapply forallb_impl; [|exact Hhex]. apply lower_hex_value. }
    simpl. apply bool_decide_eq_true. apply ToLower_clean.
    eapply forallb_impl; [|exact Hhex]. apply lower_hex_clean.
Qed.

(** ** The loop *)

Lemma source_loop_entry owner seen previous entry rest :
  source_loop owner seen previous (entry :: rest) = None <->
  (se_Path entry ∉ seen /\ (previous = "" \/ string_less previous (se_Path entry) = true) /\
   source_path (se_Path entry) /\ source_digest (se_SHA256 entry)) /\
  source_loop owner ({[se_Path entry]} ∪ seen) (se_Path entry) rest = None.
Proof.
  cbn [source_loop]. rewrite <- isRepositoryRelative_spec, <- digest_accepted_spec.
  unfold digest_accepted.
  destruct (String.eqb_spec (se_Path entry) "") as [E|_]; simpl.
  { split; [done|]. intros [(_ & _ & Hp & _) _]. rewrite E in Hp. by vm_compute in Hp. }
  destruct (bool_decide_reflect (se_Path entry ∈ seen)); [naive_solver|].
  destruct (String.eqb_spec previous ""), (string_less previous (se_Path entry)),
    (isRepositoryRelative (se_Path entry)), (HexDecode (to_bytes (se_SHA256 entry))) as [d|];
    simpl; try naive_solver;
    (destruct (length d =? sha256_Size)%nat; simpl; [|naive_solver]);
    (destruct (bool_decide _); simpl; naive_solver).
Qed.

Lemma string_less_trans a b c :
  string_less a b = true -> string_less b c = true -> string_less a c = true.
Proof.
  unfold string_less. rewrite !Z.ltb_lt. change (string_compare a b < 0 ->
    string_compare b c < 0 -> string_compare a c < 0)%Z. intros H1 H2.
  pose proof (cmp_trans (cmp:=string_compare) a b c). pose proof (cmp_trans (cmp:=string_compare) c a b).
  pose proof (cmp_opp (cmp:=string_compare) a c). pose proof (cmp_opp (cmp:=string_compare) b c).
  pose proof (cmp_opp (cmp:=string_compare) a b). lia.
Qed.

Lemma string_less_irrefl a : string_less a a = false.
Proof.
  unfold string_less. apply Z.ltb_ge. change (0 <= string_compare a a)%Z.
  pose proof (cmp_opp (cmp:=string_compare) a a). lia.
Qed.

(** The paths seen never exceed the previous one, so a path above it is new. *)
Lemma source_loop_spec owner seen previous entries :
  (forall p, p ∈ seen -> previous <> "" /\ (p = previous \/ string_less p previous = true)) ->
  source_loop owner seen previous entries = None <->
  StronglySorted (fun a b => string_less a b = true) (se_Path <$> entries) /\
  (previous <> "" -> Forall (fun p => string_less previous p = true) (se_Path <$> entries)) /\
  Forall (fun e => source_path (se_Path e)) entries /\
  Forall (fun e => source_digest (se_SHA256 e)) entries.
Proof.
  revert seen previous. induction entries as [|e es IH]; intros seen previous Hseen.
  { split; [|done]. intros _. split_and!; [constructor|constructor..]. }
  rewrite source_loop_entry, fmap_cons, StronglySorted_cons, !Forall_cons.
  assert (Hnew : forall p, p ∈ ({[se_Path e]} ∪ seen : gset string) ->
            previous = "" \/ string_less previous (se_Path e) = true -> se_Path e <> "" ->
            se_Path e <> "" /\ (p = se_Path e \/ string_less p (se_Path e) = true)).
  { intros p Hp Hprev Hne. split; [done|]. apply elem_of_union in Hp as [->%elem_of_singleton|Hp]; [by left|].
    destruct (Hseen p Hp) as [Hn [->|Hlt]], Hprev as [?|Hl]; try done; right; [done|].
    by eapply string_less_trans. }
  split.
  - intros [(Hfresh & Hprev & Hpath & Hdig) Hrest]. pose proof (source_path_not_empty _ Hpath) as Hne.
    apply IH in Hrest as (Hs & Hall & Hps & Hds); [|by intros; apply Hnew].
    specialize (Hall Hne). split_and!; try done.
    intros Hn. destruct Hprev as [?|Hl]; [done|]. split; [done|].
    eapply Forall_impl; [exact Hall|]. intros p. by apply string_less_trans.
  - intros ([Hall Hs] & Hprev & [Hpath Hps] & [Hdig Hds]).
    pose proof (source_path_not_empty _ Hpath) as Hne.
    assert (Hp : previous = "" \/ string_less previous (se_Path e) = true).
    { destruct (decide (previous = "")) as [?|Hn]; [by left|right]. by apply Hprev. }
    split; [split_and!; try done|].
    + intros Hin. destruct (Hseen _ Hin) as [Hn [E|Hlt]], Hp as [?|Hl]; try done.
      * rewrite <- E, string_less_irrefl in Hl. done.
      * pose proof (string_less_trans _ _ _ Hlt Hl) as H. by rewrite string_less_irrefl in H.
    + apply IH; [by intros; apply Hnew|]. split_and!; done.
Qed.

(** What the validation admits. *)
Lemma validateSources_spec owner entries :
  validateSources owner entries = None <-> manifest_wf entries.
Proof.
  destruct entries as [|e es].
  { split; [done|]. by intros [? _ _ _]. }
  unfold validateSources. rewrite source_loop_spec by set_solver.
  split; [intros (? & _ & ? & ?); by split|intros [_ ? ? ?]; by split_and!].
Qed.

Corollary validateSources_NoDup entries : manifest_wf entries -> NoDup (se_Path <$> entries).
Proof.
  intros [_ Hs _ _]. induction Hs as [|p ps Hs IH Hall]; constructor; [|done].
  intros Hin. rewrite Forall_forall in Hall. specialize (Hall p Hin).
  by rewrite string_less_irrefl in Hall.
Qed.
