(* ===== verification/EpochDescriptor.v ===== *)
(** EpochDescriptor: the descriptor of the compiled epoch implementation
    (internal/lifecycle/definitions/epoch.go).

    [AssembleEpochSpecification] writes down the protocol the binary executes;
    [validateEpochSpecification] is the structural contract a decoded
    descriptor must meet.  Go iterates a map in an order it does not specify;
    [MapRange] is any such order, and only the message of a failure depends on
    it. *)

From Stdlib Require Import ZArith Lia Ascii String.
From stdpp Require Import base tactics list strings gmap sorting.
From S2P Require Import Prelude GoStrings Vocabulary Pipeline EpochFSM Gate SourceManifest.
Local Open Scope string_scope.
Local Open Scope list_scope.

Class MapRange := {
  range {V} : gmap string V -> list (string * V);
  range_perm {V} (m : gmap string V) : range m ≡ₚ map_to_list m;
}.

(** ** The descriptor *)
Record EpochTransition := mk_Transition { et_To : string; et_Condition : string; et_Action : string }.
Record EpochPhase := mk_Phase {
  ep_ID : string;
  ep_Number : Z;
  ep_OwnerRoles : list string;
  ep_Transitions : list EpochTransition;
}.
Record EpochRole := mk_Role { er_ID : string }.
Record EpochStage := mk_Stage {
  eg_ID : string;
  eg_Order : Z;
  eg_Execution : string;
  eg_Phase : string;
}.
Record EpochWorkflow := mk_Workflow {
  ew_ID : string;
  ew_Role : string;
  ew_Stages : list EpochStage;
}.
Record EpochQueue := mk_Queue { eq_Name : string; eq_Concurrency : string }.

Record EpochSpecification := mk_EpochSpecification {
  es_Cohort : string;
  es_ProtocolTransitions : gmap string (list string);
  es_ConsensusGated : list (string * string);
  es_BlockerGated : list (string * string);
  es_ReviseDrivesBack : list string;
  es_Phases : list EpochPhase;
  es_Roles : list EpochRole;
  es_Workflows : list EpochWorkflow;
  es_WriteClasses : list string;
  es_SignalTopics : list string;
  es_QueryNames : list string;
  es_Queues : list EpochQueue;
  es_Sources : list SourceEntry;
}.

(** [reflect.DeepEqual] on the descriptor is equality of its parts. *)
#[export] Instance EpochTransition_eq_dec : EqDecision EpochTransition.
Proof. solve_decision. Defined.
#[export] Instance EpochPhase_eq_dec : EqDecision EpochPhase.
Proof. solve_decision. Defined.
#[export] Instance EpochRole_eq_dec : EqDecision EpochRole.
Proof. solve_decision. Defined.
#[export] Instance EpochStage_eq_dec : EqDecision EpochStage.
Proof. solve_decision. Defined.
#[export] Instance EpochWorkflow_eq_dec : EqDecision EpochWorkflow.
Proof. solve_decision. Defined.
#[export] Instance EpochQueue_eq_dec : EqDecision EpochQueue.
Proof. solve_decision. Defined.
#[export] Instance EpochSpecification_eq_dec : EqDecision EpochSpecification.
Proof. solve_decision. Defined.

Definition EpochCohort : string := "1".

Definition to_phase (to condition : string) : EpochTransition := mk_Transition to condition "".

Definition epoch_phases : list EpochPhase :=
  [mk_Phase "request" 1 ["epoch"; "architect"]
     [to_phase "elicit" "classification confirmed, research and explore complete"];
   mk_Phase "elicit" 2 ["epoch"; "architect"]
     [to_phase "propose" "URD created with structured requirements"];
   mk_Phase "propose" 3 ["epoch"; "architect"] [to_phase "review" "proposal created"];
   mk_Phase "review" 4 ["epoch"; "architect"; "reviewer"]
     [to_phase "plan-review" "all 3 reviewers vote ACCEPT";
      mk_Transition "propose" "any reviewer votes REVISE"
        "create PROPOSAL-{N+1}, mark current pasture:superseded"];
   mk_Phase "plan-review" 5 ["epoch"; "architect"]
     [to_phase "ratify" "user accepts plan";
      mk_Transition "propose" "user requests changes" "create PROPOSAL-{N+1}"];
   mk_Phase "ratify" 6 ["epoch"; "architect"]
     [to_phase "handoff" "proposal ratified, IMPL_PLAN placeholder created"];
   mk_Phase "handoff" 7 ["epoch"; "architect"; "supervisor"]
     [to_phase "impl-plan" "handoff authored in the HANDOFF Pasture task body"];
   mk_Phase "impl-plan" 8 ["epoch"; "supervisor"]
     [to_phase "worker-slices"
        "all slices created with leaf tasks, assigned, and dependency-chained"];
   mk_Phase "worker-slices" 9 ["epoch"; "supervisor"; "worker"]
     [to_phase "code-review" "all slices complete, quality gates pass"];
   mk_Phase "code-review" 10 ["epoch"; "supervisor"; "reviewer"]
     [to_phase "impl-uat" "all 3 reviewers ACCEPT, all BLOCKERs resolved";
      mk_Transition "worker-slices" "any reviewer votes REVISE"
        "fix BLOCKERs in affected slices, then re-review"];
   mk_Phase "impl-uat" 11 ["epoch"; "supervisor"]
     [to_phase "landing" "user accepts implementation";
      mk_Transition "worker-slices" "user requests changes" "create fix tasks in affected slices"];
   mk_Phase "landing" 12 ["epoch"; "supervisor"]
     [to_phase "complete" "git push succeeds, all tasks closed or dependency-resolved"]].

Definition epoch_workflows : list EpochWorkflow :=
  [mk_Workflow "architect-state-flow" "architect"
     [mk_Stage "asf-request" 1 "sequential" "request"; mk_Stage "asf-elicit" 2 "sequential" "elicit";
      mk_Stage "asf-propose" 3 "sequential" "propose";
      mk_Stage "asf-review" 4 "conditional-loop" "review";
      mk_Stage "asf-uat" 5 "sequential" "plan-review"; mk_Stage "asf-ratify" 6 "sequential" "ratify";
      mk_Stage "asf-handoff" 7 "sequential" "handoff"];
   mk_Workflow "layer-cake" "worker"
     [mk_Stage "lc-types" 1 "sequential" "worker-slices";
      mk_Stage "lc-tests" 2 "sequential" "worker-slices";
      mk_Stage "lc-impl" 3 "sequential" "worker-slices"];
   mk_Workflow "ride-the-wave" "supervisor"
     [mk_Stage "rtw-plan" 1 "sequential" "impl-plan"; mk_Stage "rtw-build" 2 "parallel" "worker-slices";
      mk_Stage "rtw-review-fix" 3 "conditional-loop" "code-review"]].

Definition AssembleEpochSpecification (sources : list SourceEntry) : EpochSpecification :=
  {| es_Cohort := EpochCohort;
     es_ProtocolTransitions := list_to_map
       [("request", ["elicit"]); ("elicit", ["propose"]); ("propose", ["review"]);
        ("review", ["plan-review"; "propose"]); ("plan-review", ["ratify"]);
        ("ratify", ["handoff"]); ("handoff", ["impl-plan"]); ("impl-plan", ["worker-slices"]);
        ("worker-slices", ["code-review"]); ("code-review", ["impl-uat"; "worker-slices"]);
        ("impl-uat", ["landing"]); ("landing", ["complete"])];
     es_ConsensusGated := [("review", "plan-review"); ("code-review", "impl-uat")];
     es_BlockerGated := [("code-review", "impl-uat")];
     es_ReviseDrivesBack := ["review"; "code-review"];
     es_Phases := epoch_phases;
     es_Roles := mk_Role <$> ["architect"; "epoch"; "reviewer"; "supervisor"; "worker"];
     es_Workflows := epoch_workflows;
     es_WriteClasses := ["delivery-receipt"; "definition-activation"; "lineage-links"; "disclosure"];
     es_SignalTopics := ["advance_phase"; "complete_slice"; "register_session"; "slice_progress";
                         "start_slice"; "submit_vote"];
     es_QueryNames := ["active_sessions"; "available_transitions"; "current_state"; "full_state";
                       "slice_progress_state"];
     es_Queues :=
       [mk_Queue "pasture-slice-queue" "configurable slice budget shared by slices and reviews";
        mk_Queue "pasture-control-queue" "one workflow at a time by design"];
     es_Sources := sources |}.

(** ** The structural contract *)
Inductive EpochError :=
  | CohortMissing
  | InventoryEmpty
  | PhaseInvalid
  | OwnerMissing (phase : string)
  | TransitionIncomplete (phase : string)
  | NumbersNotDense (n : nat)
  | TableLeavesUnknown (phase : string)
  | TableReachesUnknown (phase : string)
  | ConsensusUnknown (pair : string * string)
  | BlockerUnknown (pair : string * string)
  | ReviseUnknown (phase : string)
  | TopicUnknown (topic : string)
  | QueryUnknown (name : string)
  | ClassNotAdmitted (class : string)
  | ClassesIncomplete
  | QueuesMissing
  | EpochSources (e : SourceError).

(** The first failure of a list, [nil] when there is none. *)
Fixpoint first_failure {A E} (check : A -> option E) (l : list A) : option E :=
  match l with
  | [] => None
  | x :: l' => match check x with Some e => Some e | None => first_failure check l' end
  end.

Definition reject_if {E} (b : bool) (e : E) : option E := if b then Some e else None.

Definition epoch_transition_check (phase : string) (t : EpochTransition) : option EpochError :=
  reject_if (String.eqb (et_To t) "" || String.eqb (et_Condition t) "") (TransitionIncomplete phase).

(** The loop over the phases, with [known] and [numbers]. *)
Fixpoint epoch_phase_loop (known : gset string) (numbers : list Z) (phases : list EpochPhase)
    : result EpochError (gset string * list Z) :=
  match phases with
  | [] => Ok (known, numbers)
  | phase :: rest =>
      if String.eqb (ep_ID phase) "" || (ep_Number phase <=? 0)%Z
         || bool_decide (ep_ID phase ∈ known) then Err PhaseInvalid
      else match ep_OwnerRoles phase with
      | [] => Err (OwnerMissing (ep_ID phase))
      | _ :: _ =>
          match first_failure (epoch_transition_check (ep_ID phase)) (ep_Transitions phase) with
          | Some e => Err e
          | None => epoch_phase_loop ({[ep_ID phase]} ∪ known) (numbers ++ [ep_Number phase]) rest
          end
      end
  end.

(** [slices.Sort] of the numbers, then the comparison with the index. *)
Fixpoint dense_from (index : Z) (numbers : list Z) : bool :=
  match numbers with
  | [] => true
  | number :: rest => (number =? index + 1)%Z && dense_from (index + 1) rest
  end.

Definition terminalPhase : string := "complete".

Definition epoch_row_check (known : gset string) (row : string * list string) : option EpochError :=
  if negb (bool_decide (row.1 ∈ known)) then Some (TableLeavesUnknown row.1)
  else first_failure (fun to => reject_if (negb (String.eqb to terminalPhase)
                                         && negb (bool_decide (to ∈ known)))
                                        (TableReachesUnknown to)) row.2.

Definition unknown_pair (known : gset string) (pair : string * string) : bool :=
  negb (bool_decide (pair.1 ∈ known)) || negb (bool_decide (pair.2 ∈ known)).

(** The loop over the write classes, with the classes seen. *)
Fixpoint write_class_loop (seen : gset N) (classes : list string) : result EpochError (gset N) :=
  match classes with
  | [] => Ok seen
  | class :: rest =>
      let '(parsed, ok) := ParseWriteClass class in
      if negb ok || bool_decide (parsed ∈ seen) then Err (ClassNotAdmitted class)
      else write_class_loop ({[parsed]} ∪ seen) rest
  end.

(** The classes [WriteDeliveryReceipt] to [WriteDisclosure], in order. *)
Definition gate_classes : list WriteClass :=
  [WriteDeliveryReceipt; WriteDefinitionActivation; WriteLineageLinks; WriteDisclosure].

Definition or_else {E} (a b : option E) : option E := match a with Some e => Some e | None => b end.

Definition nothing {A} (l : list A) : bool := match l with [] => true | _ :: _ => false end.

Section validation.
Context `{MapRange}.

Definition validate_names (spec : EpochSpecification) (known : gset string) : option EpochError :=
  or_else (first_failure (epoch_row_check known) (range (es_ProtocolTransitions spec)))
  (or_else (first_failure (fun p => reject_if (unknown_pair known p) (ConsensusUnknown p))
              (es_ConsensusGated spec))
  (or_else (first_failure (fun p => reject_if (unknown_pair known p) (BlockerUnknown p))
              (es_BlockerGated spec))
  (or_else (first_failure (fun p => reject_if (negb (bool_decide (p ∈ known))) (ReviseUnknown p))
              (es_ReviseDrivesBack spec))
  (or_else (first_failure (fun t => reject_if (negb (SignalTopic_IsValid t)) (TopicUnknown t))
              (es_SignalTopics spec))
  (first_failure (fun n => reject_if (negb (ParseQueryName n).2) (QueryUnknown n))
              (es_QueryNames spec)))))).

Definition validate_classes (spec : EpochSpecification) : option EpochError :=
  match write_class_loop ∅ (es_WriteClasses spec) with
  | Err e => Some e
  | Ok seen =>
      first_failure (fun c => reject_if (negb (WriteClass_IsValid c) || negb (bool_decide (c ∈ seen)))
                                      ClassesIncomplete) gate_classes
  end.

Definition validateEpochSpecification (spec : EpochSpecification) : option EpochError :=
  if String.eqb (es_Cohort spec) "" then Some CohortMissing
  else if bool_decide (es_ProtocolTransitions spec = ∅) || nothing (es_Phases spec)
          || nothing (es_Roles spec) || nothing (es_Workflows spec) then Some InventoryEmpty
  else match epoch_phase_loop ∅ [] (es_Phases spec) with
  | Err e => Some e
  | Ok (known, numbers) =>
      if negb (dense_from 0 (merge_sort Z.le numbers)) then Some (NumbersNotDense (length numbers))
      else or_else (validate_names spec known)
          (or_else (validate_classes spec)
          (if nothing (es_Queues spec) then Some QueuesMissing
           else EpochSources <$> validateSources "epoch" (es_Sources spec)))
  end.
End validation.

(** * Theorems *)

(** ** What a descriptor is *)

(** Every phase is named and owned, every transition of it has a target and a
    gate condition. *)
Record phase_wf (phase : EpochPhase) : Prop := {
  pw_id : ep_ID phase <> "";
  pw_owned : ep_OwnerRoles phase <> [];
  pw_transitions : Forall (fun t => et_To t <> "" /\ et_Condition t <> "") (ep_Transitions phase);
}.

Definition phase_ids (spec : EpochSpecification) : list string := ep_ID <$> es_Phases spec.

(** The phases are numbered 1..n without a gap, the tables speak of known
    phases only, the signals and queries are the protocol's, and the write
    classes are those of the gate, each once. *)
Record epoch_wf (spec : EpochSpecification) : Prop := {
  ew_cohort : es_Cohort spec <> "";
  ew_table : es_ProtocolTransitions spec <> ∅;
  ew_roles : es_Roles spec <> [];
  ew_workflows : es_Workflows spec <> [];
  ew_phases : es_Phases spec <> [];
  ew_phase_wf : Forall phase_wf (es_Phases spec);
  ew_ids : NoDup (phase_ids spec);
  ew_numbers :
    ep_Number <$> es_Phases spec ≡ₚ Z.of_nat <$> seq 1 (length (es_Phases spec));
  ew_closed from tos : es_ProtocolTransitions spec !! from = Some tos ->
    from ∈ phase_ids spec /\ forall to, to ∈ tos -> to = terminalPhase \/ to ∈ phase_ids spec;
  ew_consensus a b : (a, b) ∈ es_ConsensusGated spec -> a ∈ phase_ids spec /\ b ∈ phase_ids spec;
  ew_blocker a b : (a, b) ∈ es_BlockerGated spec -> a ∈ phase_ids spec /\ b ∈ phase_ids spec;
  ew_revise p : p ∈ es_ReviseDrivesBack spec -> p ∈ phase_ids spec;
  ew_topics : Forall (fun t => SignalTopic_IsValid t = true) (es_SignalTopics spec);
  ew_queries : Forall (fun n => (ParseQueryName n).2 = true) (es_QueryNames spec);
  ew_classes : es_WriteClasses spec ≡ₚ WriteClass_String <$> gate_classes;
  ew_queues : es_Queues spec <> [];
  ew_sources : manifest_wf (es_Sources spec);
}.

(** ** The loops *)

Lemma first_failure_None {A E} (check : A -> option E) l :
  first_failure check l = None <-> Forall (fun x => check x = None) l.
Proof.
  induction l as [|x l IH]; simpl; [by split; [constructor|]|].
  rewrite Forall_cons, <- IH. destruct (check x); naive_solver.
Qed.

Lemma reject_if_None {E} b (e : E) : reject_if b e = None <-> b = false.
Proof. by destruct b. Qed.

Lemma or_else_None {E} (a b : option E) : or_else a b = None <-> a = None /\ b = None.
Proof. destruct a; naive_solver. Qed.

(** A guard that refuses is passed when it is false, and the rest decides. *)
Lemma guard_None {E} (b : bool) (e : E) rest :
  (if b then Some e else rest) = None <-> b = false /\ rest = None.
Proof. destruct b; naive_solver. Qed.

Lemma negb_decide_false (P : Prop) `{base.Decision P} : negb (bool_decide P) = false <-> P.
Proof. by rewrite negb_false_iff, bool_decide_eq_true. Qed.

Lemma negb_eqb_false a b : negb (String.eqb a b) = false <-> a = b.
Proof. by rewrite negb_false_iff, String.eqb_eq. Qed.

Lemma negb_Zeqb_false a b : negb (a =? b)%Z = false <-> a = b.
Proof. by rewrite negb_false_iff, Z.eqb_eq. Qed.

Ltac pass_guards := repeat (rewrite guard_None || rewrite or_else_None || rewrite reject_if_None).

Lemma nothing_false {A} (l : list A) : nothing l = false <-> l <> [].
Proof. by destruct l. Qed.

Lemma first_reject_None {A E} (b : A -> bool) (e : A -> E) l :
  first_failure (fun x => reject_if (b x) (e x)) l = None <-> forall x, x ∈ l -> b x = false.
Proof.
  rewrite first_failure_None, Forall_forall. by setoid_rewrite reject_if_None.
Qed.

Lemma epoch_transitions_checked phase ts :
  first_failure (epoch_transition_check phase) ts = None <->
  Forall (fun t => et_To t <> "" /\ et_Condition t <> "") ts.
Proof.
  unfold epoch_transition_check. rewrite first_reject_None, Forall_forall.
  setoid_rewrite orb_false_iff. by setoid_rewrite String.eqb_neq.
Qed.

Lemma epoch_phase_loop_spec phases known numbers k n :
  epoch_phase_loop known numbers phases = Ok (k, n) <->
  (Forall phase_wf phases /\ NoDup (ep_ID <$> phases) /\
   Forall (fun p => ep_ID p ∉ known) phases /\ Forall (fun p => 0 < ep_Number p)%Z phases) /\
  k = known ∪ list_to_set (ep_ID <$> phases) /\ n = numbers ++ (ep_Number <$> phases).
Proof.
  revert known numbers. induction phases as [|p ps IH]; intros known numbers.
  { simpl. rewrite app_nil_r, union_empty_r_L. split; [intros [= -> ->]|by intros (_ & -> & ->)].
    split_and!; constructor. }
  cbn [epoch_phase_loop]. rewrite !fmap_cons, list_to_set_cons, !Forall_cons, NoDup_cons.
  destruct (String.eqb_spec (ep_ID p) "") as [E|Hid]; cbn [orb].
  { split; [done|]. by intros [([[] _] & _) _]. }
  destruct (Z.leb_spec (ep_Number p) 0) as [|Hn]; cbn [orb].
  { split; [done|]. intros [(_ & _ & _ & ? & _) _]. lia. }
  destruct (bool_decide_reflect (ep_ID p ∈ known)) as [|Hk]; [naive_solver|].
  destruct (ep_OwnerRoles p) as [|r rs] eqn:Eo.
  { split; [done|]. intros [([[? []] _] & _) _]. by rewrite Eo. }
  destruct (first_failure _ _) eqn:Et.
  { split; [done|]. intros [([[? ? Ht] _] & _) _].
    apply (epoch_transitions_checked (ep_ID p)) in Ht. congruence. }
  apply epoch_transitions_checked in Et. rewrite IH, <- app_assoc.
  assert (Hwf : phase_wf p) by (split; [done|by rewrite Eo|done]).
  assert (Hfresh : Forall (fun q => ep_ID q ∉ ({[ep_ID p]} ∪ known : gset string)) ps <->
    ep_ID p ∉ ep_ID <$> ps /\ Forall (fun q => ep_ID q ∉ known) ps).
  { rewrite !Forall_forall, list_elem_of_fmap. set_solver. }
  rewrite Hfresh. replace (known ∪ ({[ep_ID p]} ∪ list_to_set (ep_ID <$> ps)))
    with ({[ep_ID p]} ∪ known ∪ list_to_set (ep_ID <$> ps)) by set_solver.
  change ([ep_Number p] ++ (ep_Number <$> ps)) with (ep_Number p :: (ep_Number <$> ps)).
  tauto.
Qed.

Lemma dense_from_spec i l :
  dense_from i l = true <-> l = (fun k => i + 1 + Z.of_nat k)%Z <$> seq 0 (length l).
Proof.
  revert i. induction l as [|x l IH]; intros i; [done|]. cbn [dense_from length seq fmap list_fmap].
  rewrite andb_true_iff, Z.eqb_eq, IH, <- fmap_S_seq, <- list_fmap_compose.
  assert (E : forall f g : nat -> Z, (forall k, f k = g k) -> f <$> seq 0 (length l) = g <$> seq 0 (length l)).
  { intros f g Hfg. apply list_fmap_ext. auto. }
  rewrite (E (_ ∘ S) (fun k => i + 1 + 1 + Z.of_nat k)%Z) by (intros k; simpl; lia).
  split; [intros [-> Hl]; f_equal; [lia|exact Hl]|intros [= H1 H2]; split; [lia|exact H2]].
Qed.

Lemma seq_sorted i n : StronglySorted Z.le ((fun k => i + Z.of_nat k)%Z <$> seq 0 n).
Proof.
  revert i. induction n as [|n IH]; intros i; [constructor|].
  rewrite <- cons_seq, <- fmap_S_seq. cbn [fmap list_fmap]. rewrite <- list_fmap_compose.
  assert (E : (((fun k => i + Z.of_nat k)%Z ∘ S) <$> seq 0 n)
              = ((fun k => i + 1 + Z.of_nat k)%Z <$> seq 0 n)).
  { apply list_fmap_ext. intros; simpl; lia. }
  rewrite E. constructor; [apply IH|]. apply Forall_fmap, Forall_forall. intros k _. simpl. lia.
Qed.

Lemma dense_sorted_spec numbers :
  dense_from 0 (merge_sort Z.le numbers) = true <->
  numbers ≡ₚ Z.of_nat <$> seq 1 (length numbers).
Proof.
  assert (Hseq : forall n, Z.of_nat <$> seq 1 n = ((fun k => 1 + Z.of_nat k)%Z <$> seq 0 n)).
  { intros n. rewrite <- fmap_S_seq, <- list_fmap_compose. apply list_fmap_ext. intros; simpl; lia. }
  rewrite dense_from_spec, Hseq. pose proof (merge_sort_Permutation Z.le numbers) as HP.
  rewrite (Permutation_length HP). split.
  - intros E. etrans; [symmetry; exact HP|]. by rewrite E.
  - intros Hp. apply (StronglySorted_unique Z.le); [apply StronglySorted_merge_sort; apply _| |].
    + apply seq_sorted.
    + by rewrite HP.
Qed.

Lemma ParseWriteClass_spec s c :
  ParseWriteClass s = (c, true) <-> c ∈ gate_classes /\ s = WriteClass_String c.
Proof.
  split.
  - unfold ParseWriteClass. intros H. repeat case_match; simplify_eq; split;
      try (by apply String.eqb_eq); unfold gate_classes; set_solver.
  - intros [Hc ->]. unfold gate_classes in Hc. by elim_members Hc.
Qed.

Lemma gate_classes_NoDup : NoDup gate_classes.
Proof. by apply (bool_decide_unpack _). Qed.

Lemma gate_classes_valid c : c ∈ gate_classes -> WriteClass_IsValid c = true.
Proof. unfold gate_classes. intros Hc. by elim_members Hc. Qed.

Lemma write_class_loop_spec classes seen seen' :
  write_class_loop seen classes = Ok seen' <->
  exists cs, classes = WriteClass_String <$> cs /\ NoDup cs /\
    Forall (fun c => c ∈ gate_classes /\ c ∉ seen) cs /\ seen' = seen ∪ list_to_set cs.
Proof.
  revert seen. induction classes as [|s ss IH]; intros seen; cbn [write_class_loop].
  { split; [intros [= <-]; exists []; split_and!; [done|constructor|constructor|set_solver]|].
    intros ([|c cs] & ? & _ & _ & ->); [|done]. f_equal. set_solver. }
  destruct (ParseWriteClass s) as [c []] eqn:Ep; simpl.
  2:{ split; [done|]. intros ([|c' cs] & ? & _ & HF & _); [done|]. simplify_eq/=.
      apply Forall_cons in HF as [[Hc _] _].
      rewrite (proj2 (ParseWriteClass_spec _ c') (conj Hc eq_refl)) in Ep. done. }
  pose proof (proj1 (ParseWriteClass_spec s c) Ep) as [Hc ->].
  assert (Hhead : forall c', c' ∈ gate_classes -> WriteClass_String c = WriteClass_String c' -> c' = c).
  { intros c' Hc' E. rewrite E, (proj2 (ParseWriteClass_spec _ c') (conj Hc' eq_refl)) in Ep.
    by injection Ep. }
  destruct (bool_decide_reflect (c ∈ seen)) as [Hs|Hs]; simpl.
  { split; [done|]. intros ([|c' cs] & E & _ & HF & _); [done|]. injection E as E _.
    apply Forall_cons in HF as [[Hc' Hn] _]. by rewrite (Hhead c' Hc' E) in Hn. }
  rewrite IH. split.
  - intros (cs & -> & Hnd & HF & ->). rewrite Forall_forall in HF. exists (c :: cs).
    split; [done|]. split; [constructor; [intros Hin; destruct (HF c Hin); set_solver|done]|].
    split; [|set_solver]. rewrite Forall_cons, Forall_forall. split; [done|].
    intros x Hx. destruct (HF x Hx). set_solver.
  - intros ([|c' cs] & E & Hnd & HF & ->); [done|]. injection E as E ->.
    apply Forall_cons in HF as [[Hc' _] HF]. rewrite (Hhead c' Hc' E) in *.
    apply NoDup_cons in Hnd as [Hn Hnd]. rewrite Forall_forall in HF. exists cs.
    rewrite Forall_forall. split_and!; [done|done| |set_solver].
    intros x Hx. destruct (HF x Hx). split; [done|]. assert (x <> c) by congruence. set_solver.
Qed.

Lemma validate_classes_spec spec :
  validate_classes spec = None <-> es_WriteClasses spec ≡ₚ WriteClass_String <$> gate_classes.
Proof.
  unfold validate_classes. destruct (write_class_loop _ _) as [seen|e] eqn:E.
  - apply write_class_loop_spec in E as (cs & -> & Hnd & HF & ->). rewrite Forall_forall in HF.
    rewrite first_reject_None. split.
    + intros Hall. apply fmap_Permutation, NoDup_Permutation; [done|apply gate_classes_NoDup|].
      intros c. split; [intros Hc; apply (HF c Hc)|]. intros Hc. specialize (Hall c Hc).
      apply orb_false_iff in Hall as [_ Hall]. apply negb_false_iff, bool_decide_eq_true in Hall. set_solver.
    + intros HP c Hc. apply orb_false_iff. split; [by rewrite gate_classes_valid|].
      apply negb_false_iff, bool_decide_eq_true.
      assert (Hin : WriteClass_String c ∈ WriteClass_String <$> cs).
      { rewrite HP. by apply list_elem_of_fmap_2. }
      apply list_elem_of_fmap_1 in Hin as (c' & Ec & Hc'). destruct (HF c' Hc') as [Hg _].
      pose proof (proj2 (ParseWriteClass_spec _ c) (conj Hc eq_refl)) as P1.
      pose proof (proj2 (ParseWriteClass_spec _ c') (conj Hg eq_refl)) as P2.
      rewrite Ec in P1. assert (c = c') as -> by congruence. set_solver.
  - split; [done|]. intros (cs & Hcs & HPc)%Permutation_map_inv. exfalso.
    assert (Hok : write_class_loop ∅ (es_WriteClasses spec) = Ok (∅ ∪ list_to_set cs)).
    { apply write_class_loop_spec. exists cs. split_and!; [done| | |done].
      - rewrite <- HPc. apply gate_classes_NoDup.
      - apply Forall_forall. intros c Hc. rewrite HPc. split; [done|set_solver]. }
    by rewrite E in Hok.
Qed.

(** ** The descriptor's contract *)
Section contract.
Context `{MapRange}.

Lemma epoch_row_check_spec known from tos :
  epoch_row_check known (from, tos) = None <->
  from ∈ known /\ forall to, to ∈ tos -> to = terminalPhase \/ to ∈ known.
Proof.
  unfold epoch_row_check. simpl. destruct (bool_decide_reflect (from ∈ known)); simpl; [|naive_solver].
  rewrite first_reject_None. split.
  - intros Hall. split; [done|]. intros to Hto. specialize (Hall to Hto).
    destruct (String.eqb_spec to terminalPhase); [by left|right].
    by apply negb_false_iff, bool_decide_eq_true in Hall.
  - intros [_ Hall] to Hto. destruct (String.eqb_spec to terminalPhase); [done|].
    destruct (Hall to Hto) as [?|Hin]; [done|]. by rewrite bool_decide_true.
Qed.

Lemma unknown_pair_spec known a b :
  unknown_pair known (a, b) = false <-> a ∈ known /\ b ∈ known.
Proof. unfold unknown_pair. rewrite orb_false_iff, !negb_false_iff, !bool_decide_eq_true. done. Qed.

Lemma rows_checked spec known :
  first_failure (epoch_row_check known) (range (es_ProtocolTransitions spec)) = None <->
  forall from tos, es_ProtocolTransitions spec !! from = Some tos ->
    from ∈ known /\ forall to, to ∈ tos -> to = terminalPhase \/ to ∈ known.
Proof.
  rewrite first_failure_None, range_perm, Forall_forall. split.
  - intros Hall from tos Hft. by apply epoch_row_check_spec, Hall, elem_of_map_to_list.
  - intros Hall [from tos] Hft%elem_of_map_to_list. by apply epoch_row_check_spec, Hall.
Qed.

Lemma pairs_checked {E} (e : string * string -> E) known l :
  first_failure (fun p => reject_if (unknown_pair known p) (e p)) l = None <->
  forall a b, (a, b) ∈ l -> a ∈ known /\ b ∈ known.
Proof.
  rewrite first_reject_None. split.
  - intros Hall a b Hab. by apply unknown_pair_spec, Hall.
  - intros Hall [a b] Hab. by apply unknown_pair_spec, Hall.
Qed.

Lemma validate_names_spec spec known :
  validate_names spec known = None <->
  (forall from tos, es_ProtocolTransitions spec !! from = Some tos ->
     from ∈ known /\ forall to, to ∈ tos -> to = terminalPhase \/ to ∈ known) /\
  (forall a b, (a, b) ∈ es_ConsensusGated spec -> a ∈ known /\ b ∈ known) /\
  (forall a b, (a, b) ∈ es_BlockerGated spec -> a ∈ known /\ b ∈ known) /\
  (forall p, p ∈ es_ReviseDrivesBack spec -> p ∈ known) /\
  Forall (fun t => SignalTopic_IsValid t = true) (es_SignalTopics spec) /\
  Forall (fun n => (ParseQueryName n).2 = true) (es_QueryNames spec).
Proof.
  unfold validate_names. rewrite !or_else_None, rows_checked, !pairs_checked.
  rewrite !first_reject_None, !Forall_forall.
  repeat setoid_rewrite negb_false_iff. setoid_rewrite bool_decide_eq_true. done.
Qed.

Lemma phases_accepted spec :
  Forall phase_wf (es_Phases spec) -> NoDup (phase_ids spec) ->
  ep_Number <$> es_Phases spec ≡ₚ Z.of_nat <$> seq 1 (length (es_Phases spec)) ->
  epoch_phase_loop ∅ [] (es_Phases spec)
  = Ok (∅ ∪ list_to_set (phase_ids spec), ep_Number <$> es_Phases spec).
Proof.
  intros Hwf Hid Hnum. apply epoch_phase_loop_spec. split_and!; try done.
  - apply Forall_forall. set_solver.
  - apply Forall_forall. intros p Hp%(list_elem_of_fmap_2 ep_Number). rewrite Hnum in Hp.
    apply list_elem_of_fmap_1 in Hp as (k & -> & Hk%elem_of_seq). lia.
Qed.

Lemma known_ids spec x :
  x ∈ (∅ ∪ list_to_set (phase_ids spec) : gset string) <-> x ∈ phase_ids spec.
Proof. set_solver. Qed.

Lemma epoch_accepted_wf spec : validateEpochSpecification spec = None -> epoch_wf spec.
Proof.
  unfold validateEpochSpecification.
  destruct (String.eqb_spec (es_Cohort spec) ""); [done|].
  destruct (bool_decide_reflect (es_ProtocolTransitions spec = ∅)); [done|].
  destruct (nothing (es_Phases spec)) eqn:N1, (nothing (es_Roles spec)) eqn:N2,
    (nothing (es_Workflows spec)) eqn:N3; try done. cbn [orb].
  apply nothing_false in N1, N2, N3.
  destruct (epoch_phase_loop _ _ _) as [[known numbers]|e] eqn:El; [|done].
  apply epoch_phase_loop_spec in El as ((Hwf & Hnd & _ & _) & -> & ->).
  destruct (dense_from _ _) eqn:Ed; [|done]. simpl negb. cbn iota.
  apply dense_sorted_spec in Ed. rewrite app_nil_l, length_fmap in Ed.
  rewrite !or_else_None. intros (Hn & Hc & Hr).
  destruct (nothing (es_Queues spec)) eqn:N4; [done|]. apply nothing_false in N4.
  apply fmap_None, validateSources_spec in Hr. apply validate_classes_spec in Hc.
  apply validate_names_spec in Hn as (Ht & Hcg & Hbg & Hrv & Hs & Hq).
  setoid_rewrite (known_ids spec) in Ht. setoid_rewrite (known_ids spec) in Hcg.
  setoid_rewrite (known_ids spec) in Hbg. setoid_rewrite (known_ids spec) in Hrv. by split.
Qed.

Lemma epoch_wf_accepted spec : epoch_wf spec -> validateEpochSpecification spec = None.
Proof.
  intros [Hco Htb Hro Hwo Hph Hwf Hid Hnum Ht Hcg Hbg Hrv Hs Hq Hcl Hqu Hso].
  unfold validateEpochSpecification.
  rewrite (proj2 (String.eqb_neq _ _) Hco), bool_decide_false by done.
  rewrite (proj2 (nothing_false _) Hph), (proj2 (nothing_false _) Hro),
    (proj2 (nothing_false _) Hwo). cbn [orb].
  rewrite phases_accepted, (proj2 (dense_sorted_spec _)) by (done || by rewrite length_fmap).
  simpl negb. cbn iota. rewrite !or_else_None. split_and!.
  - apply validate_names_spec. setoid_rewrite (known_ids spec). by split_and!.
  - by apply validate_classes_spec.
  - rewrite (proj2 (nothing_false _) Hqu). by rewrite (proj2 (validateSources_spec _ _) Hso).
Qed.
End contract.

(** The order of insertion is one iteration order. *)
Definition listed_range : MapRange :=
  {| range V m := map_to_list m; range_perm V m := reflexivity (map_to_list m) |}.

(** Of an assembled descriptor only the sources are open. *)
Lemma assembled_sources sources :
  validateEpochSpecification (H:=listed_range) (AssembleEpochSpecification sources)
  = EpochSources <$> validateSources "epoch" sources.
Proof. vm_compute. reflexivity. Qed.

Lemma assembled_wf sources : epoch_wf (AssembleEpochSpecification sources) <-> manifest_wf sources.
Proof.
  rewrite <- (validateSources_spec "epoch"). split.
  - intros Hwf%(epoch_wf_accepted (H:=listed_range)). rewrite assembled_sources in Hwf.
    by apply fmap_None in Hwf.
  - intros Hs. apply (epoch_accepted_wf (H:=listed_range)). by rewrite assembled_sources, Hs.
Qed.

(** ** The descriptor and the state machine *)

(** An entry of the protocol table of a descriptor. *)
Definition documented (d : EpochSpecification) (from to : string) : Prop :=
  exists tos, es_ProtocolTransitions d !! from = Some tos /\ to ∈ tos.

(** A transition the phase inventory of a descriptor lists. *)
Definition listed (d : EpochSpecification) (from to : string) : Prop :=
  exists phase t, phase ∈ es_Phases d /\ ep_ID phase = from /\
    t ∈ ep_Transitions phase /\ et_To t = to.

Lemma documented_edge sources from to :
  documented (AssembleEpochSpecification sources) from to <-> edge from to.
Proof.
  assert (E : es_ProtocolTransitions (AssembleEpochSpecification sources) = Transitions <$> PhaseSpecs)
    by (by vm_compute).
  unfold documented, edge. rewrite E. setoid_rewrite lookup_fmap_Some. naive_solver.
Qed.

Lemma documented_consensus sources from to :
  (from, to) ∈ es_ConsensusGated (AssembleEpochSpecification sources) <->
  is_consensusGated from to = true.
Proof.
  unfold is_consensusGated. rewrite bool_decide_eq_true. unfold consensusGated. simpl. set_solver.
Qed.

Lemma documented_blocker sources from to :
  (from, to) ∈ es_BlockerGated (AssembleEpochSpecification sources) <->
  is_blockerGated from to = true.
Proof.
  unfold is_blockerGated. rewrite bool_decide_eq_true. unfold blockerGated. simpl. set_solver.
Qed.

(** Out of a review phase the gated edge is the one that goes on. *)
Lemma gated_forward from to :
  edge from to -> from ∈ reviseDrivesBackPhases ->
  (is_consensusGated from to || is_blockerGated from to)
  = negb (rank to <? rank from)%nat.
Proof.
  intros He Hr. apply (forall_edges (fun '(a, b) => implb (bool_decide (a ∈ reviseDrivesBackPhases))
    (eqb (is_consensusGated a b || is_blockerGated a b) (negb (rank b <? rank a)%nat)))) in He;
    [|by vm_compute].
  rewrite bool_decide_true in He by done. by apply eqb_prop.
Qed.

Lemma Advance_ok_iff sm to by_ cond ts :
  is_ok (Advance sm to by_ cond ts).2 = true <-> ValidateAdvance sm to = [].
Proof. unfold Advance. by destruct (ValidateAdvance sm to). Qed.

Lemma revise_offers sm to :
  sm_specs sm = PhaseSpecs -> es_CurrentPhase (sm_state sm) ∈ reviseDrivesBackPhases ->
  hasAnyRevise sm = true ->
  to ∈ AvailableTransitions sm <->
  edge (es_CurrentPhase (sm_state sm)) to /\
  (is_consensusGated (es_CurrentPhase (sm_state sm)) to
   || is_blockerGated (es_CurrentPhase (sm_state sm)) to) = false.
Proof.
  intros Hspecs Hr Hv. unfold AvailableTransitions, edge. rewrite Hspecs, Hv.
  set (cur := es_CurrentPhase (sm_state sm)) in *.
  destruct (String.eqb_spec cur PhaseComplete) as [->|_]; [by vm_compute in Hr; set_solver|].
  destruct (PhaseSpecs !! cur) as [spec|]; [|set_solver].
  rewrite bool_decide_true by done. simpl. rewrite elem_of_filterb, <- negb_orb, negb_true_iff.
  naive_solver.
Qed.

(** The descriptor the binary assembles is the contract its state machine
    keeps. From any state of a machine over the canonical table, an advance is
    accepted exactly when the protocol table of the descriptor has the
    transition, the votes are unanimous where the descriptor calls it
    consensus-gated, and no blocker stands where it calls it blocker-gated.
    In a phase the descriptor lists under revise-drives-back, once a REVISE
    vote stands the phases on offer are exactly the documented ones that go
    back. *)
Theorem descriptor_governs sources sm to by_ cond ts :
  sm_specs sm = PhaseSpecs ->
  let d := AssembleEpochSpecification sources in
  let from := es_CurrentPhase (sm_state sm) in
  (is_ok (Advance sm to by_ cond ts).2 = true <->
   documented d from to /\
   ((from, to) ∈ es_ConsensusGated d -> HasConsensus sm = true) /\
   ((from, to) ∈ es_BlockerGated d -> (es_BlockerCount (sm_state sm) <= 0)%Z)) /\
  (from ∈ es_ReviseDrivesBack d -> hasAnyRevise sm = true ->
   to ∈ AvailableTransitions sm <-> documented d from to /\ (rank to < rank from)%nat).
Proof.
  intros Hspecs d from. unfold d. rewrite Advance_ok_iff, ValidateAdvance_nil, Hspecs.
  rewrite documented_edge, documented_consensus, documented_blocker. fold from. split.
  - split; [by intros (_ & He & Hc & Hb)|]. intros (He & Hc & Hb). split_and!; try done.
    intros E. rewrite E in He. by apply edge_not_complete in He.
  - intros Hr Hv. assert (Hr' : from ∈ reviseDrivesBackPhases)
      by (unfold reviseDrivesBackPhases; simpl in Hr; set_solver).
    rewrite (revise_offers sm to Hspecs Hr' Hv). fold from. split; intros [He Hg]; split; try done.
    + rewrite (gated_forward from to He Hr') in Hg. by apply negb_false_iff, Nat.ltb_lt in Hg.
    + rewrite (gated_forward from to He Hr'). by apply negb_false_iff, Nat.ltb_lt.
Qed.

(** The review phase with a standing REVISE vote. *)
Definition revised_machine : EpochStateMachine :=
  machine_at PhaseReview {[ AxisElegance := VoteRevise ]}.

Lemma descriptor_governs_witness :
  hasAnyRevise revised_machine = true /\
  is_ok (Advance revised_machine PhasePropose "reviewer" "revise" 0%Z).2 = true /\
  is_ok (Advance revised_machine PhasePlanReview "reviewer" "accept" 0%Z).2 = false /\
  (PhasePropose ∈ AvailableTransitions revised_machine <->
   documented (AssembleEpochSpecification []) PhaseReview PhasePropose
   /\ (rank PhasePropose < rank PhaseReview)%nat).
Proof.
  split_and!; [by vm_compute..|].
  apply (descriptor_governs [] revised_machine PhasePropose "" "" 0%Z);
    [reflexivity|simpl; set_solver|by vm_compute].
Defined.

(** The structural contract of a descriptor, exactly. Whatever the order
    in which the transition table is iterated, validation accepts a descriptor
    if and only if its phases are distinct, owned and numbered 1..n without a
    gap, its tables speak of known phases, its signals and queries are the
    protocol's, its write classes are those of the gate, each once, and its
    source manifest is well formed; and the descriptor the binary assembles is
    accepted exactly with a well-formed manifest. *)
Theorem validateEpochSpecification_exact `{MapRange} spec sources :
  (validateEpochSpecification spec = None <-> epoch_wf spec) /\
  (validateEpochSpecification (AssembleEpochSpecification sources) = None <-> manifest_wf sources).
Proof.
  assert (Hspec : forall s, validateEpochSpecification s = None <-> epoch_wf s)
    by (split; [apply epoch_accepted_wf|apply epoch_wf_accepted]).
  by rewrite Hspec, Hspec, assembled_wf.
Qed.

Lemma validateEpochSpecification_exact_witness :
  let sources := [mk_Source "internal/engine/control.go" (of_bytes (replicate 64 "0"%char))] in
  validateEpochSpecification (H:=listed_range) (AssembleEpochSpecification sources) = None /\
  epoch_wf (AssembleEpochSpecification sources).
Proof.
  intros sources. assert (Hv : validateEpochSpecification (H:=listed_range)
    (AssembleEpochSpecification sources) = None) by (by vm_compute).
  split; [exact Hv|].
  by apply (proj1 (validateEpochSpecification_exact (H:=listed_range) _ sources)).
Defined.

(** The phase inventory lists every entry of the protocol table and two more:
    out of both acceptance phases, back to the work, when the user requests
    changes. The state machine refuses both. *)
Lemma inventory_beyond_table sources from to :
  listed (AssembleEpochSpecification sources) from to <->
  documented (AssembleEpochSpecification sources) from to \/
  (from, to) ∈ [(PhasePlanReview, PhasePropose); (PhaseImplUAT, PhaseWorkerSlices)].
Proof.
  set (rows := p ← epoch_phases; t ← ep_Transitions p; [(ep_ID p, et_To t)]).
  assert (Hl : listed (AssembleEpochSpecification sources) from to <-> (from, to) ∈ rows).
  { unfold rows, listed. simpl es_Phases. rewrite list_elem_of_bind.
    setoid_rewrite list_elem_of_bind. setoid_rewrite list_elem_of_singleton. naive_solver. }
  rewrite Hl, documented_edge. split.
  - intros Hin. assert (Hc : forallb (fun '(a, b) => bool_decide ((a, b) ∈ edges)
      || bool_decide ((a, b) ∈ [(PhasePlanReview, PhasePropose); (PhaseImplUAT, PhaseWorkerSlices)]))
      rows = true) by (by vm_compute).
    rewrite forallb_forall in Hc. specialize (Hc _ (proj1 (list_elem_of_In _ _) Hin)). simpl in Hc.
    apply orb_prop in Hc as [Hc%bool_decide_eq_true|Hc%bool_decide_eq_true]; [left|by right].
    unfold edges in Hc. apply list_elem_of_bind in Hc as ([a spec] & Hb & Ha).
    apply list_elem_of_fmap_1 in Hb as (b & [= -> ->] & Hb). apply elem_of_map_to_list in Ha. by exists spec.
  - intros [He|Hin].
    + apply (forall_edges (fun p => bool_decide (p ∈ rows))) in He; [|by vm_compute].
      by apply bool_decide_eq_true in He.
    + elim_members Hin; injection Hin as -> ->; by apply (bool_decide_unpack _); vm_compute.
Qed.

Lemma inventory_refused sm to by_ cond ts :
  sm_specs sm = PhaseSpecs ->
  (es_CurrentPhase (sm_state sm), to)
    ∈ [(PhasePlanReview, PhasePropose); (PhaseImplUAT, PhaseWorkerSlices)] ->
  is_ok (Advance sm to by_ cond ts).2 = false.
Proof.
  intros Hspecs Hin. apply not_true_is_false. rewrite Advance_ok_iff, ValidateAdvance_nil, Hspecs.
  intros (_ & He & _). change (edge (es_CurrentPhase (sm_state sm)) to) in He.
  apply edge_edges in He. revert Hin He. generalize (es_CurrentPhase (sm_state sm)). intros from Hin He.
  elim_members Hin; injection Hin as -> ->; revert He; by vm_compute; set_solver.
Qed.
