(* ===== verification/OwnerDescriptors.v ===== *)
(** OwnerDescriptors: the descriptors of the lifecycle schema, the retention
    policy and the interpreter
    (internal/lifecycle/definitions/schema.go, retention.go, interpreter.go,
    with the vocabularies of internal/lifecycle/model they are checked
    against).

    Each owner writes its descriptor down and validates a decoded one.  The
    interpreter compares its lists with the live enumerations, which it counts
    out from the first value until one is not valid. *)

From Stdlib Require Import ZArith Lia Ascii String.
From stdpp Require Import base tactics list strings gmap.
From S2P Require Import Prelude GoStrings Gate GatePolicy NativeRows Verdict SourceManifest EpochDescriptor.
Local Open Scope string_scope.
Local Open Scope list_scope.

(** ** Vocabularies of the lifecycle model *)
Abbreviation NativeBindingKind := N (only parsing).
Definition BindingSession : NativeBindingKind := 1%N.
Definition BindingTurn : NativeBindingKind := 2%N.
Definition BindingRequest : NativeBindingKind := 3%N.
Definition BindingToolCall : NativeBindingKind := 4%N.
Definition BindingAgent : NativeBindingKind := 5%N.
Definition BindingMessage : NativeBindingKind := 6%N.
Definition BindingTask : NativeBindingKind := 7%N.
Definition BindingWorktree : NativeBindingKind := 8%N.
Definition NativeBindingKind_IsValid (k : NativeBindingKind) : bool :=
  ((BindingSession <=? k) && (k <=? BindingWorktree))%N.
Definition NativeBindingKind_String (k : NativeBindingKind) : string :=
  if negb (NativeBindingKind_IsValid k) then ""
  else default "" (["";"session";"turn";"request";"tool-call";"agent";"message";"task";"worktree"]
                     !! N.to_nat k).

(** The loop from [BindingSession] to [BindingWorktree]; [None] is the
    error. *)
Definition ParseNativeBindingKind (token : string) : option NativeBindingKind :=
  List.find (fun k => String.eqb (NativeBindingKind_String k) token)
    [BindingSession; BindingTurn; BindingRequest; BindingToolCall; BindingAgent; BindingMessage;
     BindingTask; BindingWorktree].

Definition HostVersionCallerSupplied : string := "caller-supplied".
Definition HostVersionExecutableQuery : string := "executable-query".
Definition HostVersionSource_valid (source : string) : bool :=
  one_of source [""; HostVersionCallerSupplied; HostVersionExecutableQuery].

Definition EventSemantic_String (s : EventSemantic) : string :=
  if (s =? SemanticObservation)%N then "observation"
  else if (s =? SemanticGateConsultation)%N then "gate-consultation"
  else if (s =? SemanticExplicitHumanResponse)%N then "explicit-human-response"
  else "".

Definition NativeIdentityKind_String (k : NativeIdentityKind) : string :=
  if (k =? IdentitySession)%N then "session"
  else if (k =? IdentityTurn)%N then "turn"
  else if (k =? IdentityRequest)%N then "request"
  else if (k =? IdentityToolCall)%N then "tool-call"
  else if (k =? IdentityAgent)%N then "agent"
  else if (k =? IdentityMessage)%N then "message"
  else "".

Definition UnresolvedToolCall : N := 1%N.
Definition UnresolvedReason_String (r : N) : string :=
  if (r =? UnresolvedToolCall)%N then "tool-call-unresolved" else "".

(** [for v := first; v.IsValid(); v++] over a byte, collecting the names. A
    byte has 256 values, which bounds the iterations of a loop that ends. *)
Fixpoint live_names (fuel : nat) (valid : N -> bool) (name : N -> string) (v : N) : list string :=
  match fuel with
  | O => []
  | S f => if valid v then name v :: live_names f valid name ((v + 1) mod 256)%N else []
  end.

Record ByteBounds := mk_Bounds { bb_Min : Z; bb_Max : Z }.
#[export] Instance ByteBounds_eq_dec : EqDecision ByteBounds.
Proof. solve_decision. Defined.

(** ** The lifecycle schema (schema.go) *)
Record SchemaSpecification := mk_SchemaSpecification {
  ss_OccurrenceKinds : list string;
  ss_InterpretedKinds : list string;
  ss_DefinitionKinds : list string;
  ss_DefinitionStateKinds : list string;
  ss_DefinitionSlots : list string;
  ss_OccurrenceEnvelope : gmap string N;
  ss_SemanticEnvelope : gmap string N;
  ss_SharedEnvelopeSlots : list string;
  ss_BindingKinds : list string;
  ss_BindingValueBytes : ByteBounds;
  ss_IdentityValueBytes : ByteBounds;
  ss_PayloadDigest : string;
  ss_CaptureDispositions : list N;
  ss_CaptureOrigins : list string;
  ss_HostVersionSources : list string;
  ss_RuntimeContractRule : string;
}.

(** The two envelopes, slot by slot: the literals of the compiled descriptor
    and of its validator are the same. *)
Definition wantOccurrence : gmap string N :=
  list_to_map [("runtime", DefinitionRuntimeContract); ("schema", DefinitionLifecycleSchema);
               ("implementation", DefinitionEpochImplementation);
               ("retention", DefinitionRetentionPolicy)].
Definition wantSemantic : gmap string N :=
  list_to_map [("runtime", DefinitionRuntimeContract); ("schema", DefinitionLifecycleSchema);
               ("metamodel", DefinitionMetamodel); ("interpreter", DefinitionInterpreter);
               ("implementation", DefinitionEpochImplementation)].

Definition SchemaSpecificationForBinary : SchemaSpecification :=
  {| ss_OccurrenceKinds := ["pasture.lifecycle.occurrence.v1"; "pasture.lifecycle.occurrence.v2";
                            "pasture.lifecycle.occurrence.v3"];
     ss_InterpretedKinds := ["pasture.lifecycle.interpreted.v1"; "pasture.lifecycle.interpreted.v2";
                             "pasture.lifecycle.interpreted.v3"];
     ss_DefinitionKinds := ["pasture.lifecycle.definition.v1"; "pasture.lifecycle.definition.v2"];
     ss_DefinitionStateKinds := ["pasture.lifecycle.definition-state.v1";
                                 "pasture.lifecycle.definition-state.v2"];
     ss_DefinitionSlots := ["definition"; "definition-state"];
     ss_OccurrenceEnvelope := wantOccurrence;
     ss_SemanticEnvelope := wantSemantic;
     ss_SharedEnvelopeSlots := ["runtime"; "schema"; "implementation"];
     ss_BindingKinds := ["session"; "turn"; "request"; "tool-call"; "agent"; "message"; "task";
                         "worktree"];
     ss_BindingValueBytes := mk_Bounds 1 512;
     ss_IdentityValueBytes := mk_Bounds 1 512;
     ss_PayloadDigest := "sha256";
     ss_CaptureDispositions := [1; 2; 3; 4; 5; 6; 7; 8]%N;
     ss_CaptureOrigins := ["authentic-capture"; "pinned-contract"; "review-finding"; "authored"; "raw"];
     ss_HostVersionSources := ["caller-supplied"; "executable-query"];
     ss_RuntimeContractRule :=
       "envelope runtime ref resolves to the runtime body whose contract equals the delivery contract" |}.

Inductive SchemaError :=
  | KindsMissing
  | SlotsMisordered
  | EnvelopeSize
  | OccurrenceSlot (slot : string)
  | SemanticSlot (slot : string)
  | SharedSlots
  | BindingUndeclared (kind : string)
  | TextBounds
  | VersionSource (source : string)
  | CaptureMissing.

(** A Go lookup of an absent slot yields the zero kind. *)
Definition slot_wrong (envelope : gmap string N) (want : string * N) : bool :=
  negb (default 0%N (envelope !! want.1) =? want.2)%N.

Section schema.
Context `{MapRange}.

Definition validateSchemaSpecification (spec : SchemaSpecification) : option SchemaError :=
  if nothing (ss_OccurrenceKinds spec) || nothing (ss_InterpretedKinds spec)
     || nothing (ss_DefinitionKinds spec) || nothing (ss_DefinitionStateKinds spec)
  then Some KindsMissing
  else if negb (bool_decide (ss_DefinitionSlots spec = ["definition"; "definition-state"]))
  then Some SlotsMisordered
  else if negb (size (ss_OccurrenceEnvelope spec) =? size wantOccurrence)%nat
          || negb (size (ss_SemanticEnvelope spec) =? size wantSemantic)%nat then Some EnvelopeSize
  else
    or_else (first_failure (fun want => reject_if (slot_wrong (ss_OccurrenceEnvelope spec) want)
                                                (OccurrenceSlot want.1)) (range wantOccurrence))
    (or_else (first_failure (fun want => reject_if (slot_wrong (ss_SemanticEnvelope spec) want)
                                                 (SemanticSlot want.1)) (range wantSemantic))
    (if negb (bool_decide (ss_SharedEnvelopeSlots spec = ["runtime"; "schema"; "implementation"]))
     then Some SharedSlots
     else
    or_else (first_failure (fun kind => reject_if (match ParseNativeBindingKind kind with
                                                 | Some _ => false | None => true end)
                                                (BindingUndeclared kind)) (ss_BindingKinds spec))
    (if negb (bb_Min (ss_BindingValueBytes spec) =? 1)%Z
        || negb (bb_Max (ss_BindingValueBytes spec) =? 512)%Z
        || negb (bb_Max (ss_IdentityValueBytes spec) =? 512)%Z then Some TextBounds
     else
    or_else (first_failure (fun source => reject_if (negb (HostVersionSource_valid source))
                                                  (VersionSource source)) (ss_HostVersionSources spec))
    (reject_if (nothing (ss_CaptureDispositions spec) || nothing (ss_CaptureOrigins spec)
                || String.eqb (ss_PayloadDigest spec) "" || String.eqb (ss_RuntimeContractRule spec) "")
               CaptureMissing)))).
End schema.

(** ** The retention policy (retention.go) *)
Record RetentionSpecification := mk_RetentionSpecification {
  rt_Policy : string;
  rt_CommittedNamedBodies : string;
  rt_OrphanEligibility : string;
  rt_UnknownAge : string;
  rt_ReadCap : Z;
  rt_PruneBatchCap : Z;
  rt_WindowRule : string;
  rt_WriteOrder : string;
  rt_Digest : string;
  rt_NewestRow : string;
}.

Definition RetentionSpecificationForBinary : RetentionSpecification :=
  {| rt_Policy := "store-all";
     rt_CommittedNamedBodies := "retained";
     rt_OrphanEligibility := "unreferenced and older than snapshot-minus-window with known age";
     rt_UnknownAge := "never eligible";
     rt_ReadCap := 1024;
     rt_PruneBatchCap := 4096;
     rt_WindowRule := "max(operator retention age, WorkflowResult tier of the injected timeout profile)";
     rt_WriteOrder := "payload blob Put before journal append";
     rt_Digest := "sha256";
     rt_NewestRow := "excluded from operator prune" |}.

Inductive RetentionError := NotStoreAll | CapsWrong | RuleMissing.

Definition validateRetentionSpecification (spec : RetentionSpecification) : option RetentionError :=
  if negb (String.eqb (rt_Policy spec) "store-all")
     || negb (String.eqb (rt_CommittedNamedBodies spec) "retained")
     || negb (String.eqb (rt_UnknownAge spec) "never eligible") then Some NotStoreAll
  else if negb (rt_ReadCap spec =? 1024)%Z || negb (rt_PruneBatchCap spec =? 4096)%Z
  then Some CapsWrong
  else if String.eqb (rt_WindowRule spec) "" || String.eqb (rt_WriteOrder spec) ""
          || String.eqb (rt_OrphanEligibility spec) "" || String.eqb (rt_Digest spec) ""
          || String.eqb (rt_NewestRow spec) "" then Some RuleMissing
  else None.

(** ** The interpreter (interpreter.go) *)
Record InterpreterStage := mk_InterpreterStage {
  is_Stage : string;
  is_Owner : string;
  is_Entry : string;
  is_Input : string;
  is_Output : string;
}.
Record InterpreterSpecification := mk_InterpreterSpecification {
  in_Pipeline : list InterpreterStage;
  in_Semantics : list string;
  in_Terminals : gmap string string;
  in_UnresolvedReasons : list string;
  in_IdentityKinds : list string;
  in_IdentityBounds : ByteBounds;
  in_DecisionKinds : list string;
  in_RecordKinds : list string;
  in_VocabularyRule : string;
  in_Sources : list SourceEntry;
}.
#[export] Instance InterpreterStage_eq_dec : EqDecision InterpreterStage.
Proof. solve_decision. Defined.
#[export] Instance InterpreterSpecification_eq_dec : EqDecision InterpreterSpecification.
Proof. solve_decision. Defined.

Definition interpreter_pipeline : list InterpreterStage :=
  [mk_InterpreterStage "verify" "internal/lifecycle/waist" "EventBinding.NewEvent"
     "L1 native identities with bound mapping" "verified L2 Event (Semantics plus Origin)";
   mk_InterpreterStage "transform" "internal/lifecycle/legalize" "Event" "verified L2 Event"
     "semantic terminal (observation passthrough, gate-consultation Legalized, explicit-human-response NoAuthority)";
   mk_InterpreterStage "derive" "internal/lifecycle/middleend" "Derive"
     "verified L2 Event with producing manifest"
     "canonical interpreted effect with optional consultation and host response";
   mk_InterpreterStage "record" "internal/lifecycle/receipt" "NewInterpreted"
     "verified L2 Event with contract and manifest" "constructor-owned interpreted.v2 record effect";
   mk_InterpreterStage "type" "internal/lifecycle/model" "NewInterpretedRecord"
     "interpretation identity with semantic arms"
     "immutable interpreted record (WithMetamodel for v2)"].

Definition AssembleInterpreterSpecification (sources : list SourceEntry) : InterpreterSpecification :=
  {| in_Pipeline := interpreter_pipeline;
     in_Semantics := ["observation"; "gate-consultation"; "explicit-human-response"];
     in_Terminals := list_to_map [("gate-consultation", "Legalized");
                                  ("explicit-human-response", "NoAuthority")];
     in_UnresolvedReasons := ["tool-call-unresolved"];
     in_IdentityKinds := ["session"; "turn"; "request"; "tool-call"; "agent"; "message"];
     in_IdentityBounds := mk_Bounds 1 512;
     in_DecisionKinds := ["proceed"; "deny"; "require-human"];
     in_RecordKinds := ["pasture.lifecycle.interpreted.v1"; "pasture.lifecycle.interpreted.v2";
                        "pasture.lifecycle.interpreted.v3"];
     in_VocabularyRule :=
       "every produced record stamps its producing manifest; readers resolve to the journaled vocabulary";
     in_Sources := sources |}.

Inductive InterpreterError :=
  | PipelineLength
  | StageWrong (index : nat)
  | SemanticsOpen
  | TerminalUnknown (semantic : string)
  | ReasonsOpen
  | IdentitiesOpen
  | IdentityBoundsWrong
  | DecisionsOpen
  | RecordsMissing
  | InterpreterSources (e : SourceError).

Definition wantStages : list string := ["verify"; "transform"; "derive"; "record"; "type"].

Fixpoint stage_loop (index : nat) (stages : list InterpreterStage) : option InterpreterError :=
  match stages with
  | [] => None
  | stage :: rest =>
      if negb (String.eqb (is_Stage stage) (default "" (wantStages !! index)))
         || String.eqb (is_Owner stage) "" || String.eqb (is_Entry stage) ""
         || String.eqb (is_Input stage) "" || String.eqb (is_Output stage) ""
      then Some (StageWrong index)
      else stage_loop (S index) rest
  end.

Section interpreter.
Context `{MapRange}.

Definition validateInterpreterSpecification (spec : InterpreterSpecification)
    : option InterpreterError :=
  if negb (length (in_Pipeline spec) =? 5)%nat then Some PipelineLength
  else or_else (stage_loop 0 (in_Pipeline spec))
  (if negb (bool_decide (in_Semantics spec
             = live_names 256 EventSemantic_IsValid EventSemantic_String SemanticObservation))
   then Some SemanticsOpen
   else or_else (first_failure (fun p => reject_if (negb (bool_decide (p.1 ∈ in_Semantics spec))
                                                  || String.eqb p.2 "") (TerminalUnknown p.1))
                             (range (in_Terminals spec)))
  (if negb (bool_decide (in_UnresolvedReasons spec = [UnresolvedReason_String UnresolvedToolCall]))
   then Some ReasonsOpen
   else if negb (bool_decide (in_IdentityKinds spec
             = live_names 256 NativeIdentityKind_IsValid NativeIdentityKind_String IdentitySession))
   then Some IdentitiesOpen
   else if negb (bb_Min (in_IdentityBounds spec) =? 1)%Z || negb (bb_Max (in_IdentityBounds spec) =? 512)%Z
   then Some IdentityBoundsWrong
   else if negb (bool_decide (in_DecisionKinds spec
             = live_names 256 DecisionKind_IsValid DecisionKind_String DecisionProceed))
   then Some DecisionsOpen
   else if nothing (in_RecordKinds spec) || String.eqb (in_VocabularyRule spec) ""
   then Some RecordsMissing
   else InterpreterSources <$> validateSources "interpreter" (in_Sources spec))).
End interpreter.

(** * Theorems *)

(** ** What the descriptors are *)

Record schema_wf (spec : SchemaSpecification) : Prop := {
  sw_occurrence_kinds : ss_OccurrenceKinds spec <> [];
  sw_interpreted_kinds : ss_InterpretedKinds spec <> [];
  sw_definition_kinds : ss_DefinitionKinds spec <> [];
  sw_state_kinds : ss_DefinitionStateKinds spec <> [];
  sw_slots : ss_DefinitionSlots spec = ["definition"; "definition-state"];
  sw_occurrence : ss_OccurrenceEnvelope spec = wantOccurrence;
  sw_semantic : ss_SemanticEnvelope spec = wantSemantic;
  sw_shared : ss_SharedEnvelopeSlots spec = ["runtime"; "schema"; "implementation"];
  sw_bindings kind : kind ∈ ss_BindingKinds spec -> kind ∈ ss_BindingKinds SchemaSpecificationForBinary;
  sw_binding_bytes : ss_BindingValueBytes spec = mk_Bounds 1 512;
  sw_identity_bytes : bb_Max (ss_IdentityValueBytes spec) = 512%Z;
  sw_sources s : s ∈ ss_HostVersionSources spec ->
    s ∈ [""; HostVersionCallerSupplied; HostVersionExecutableQuery];
  sw_dispositions : ss_CaptureDispositions spec <> [];
  sw_origins : ss_CaptureOrigins spec <> [];
  sw_digest : ss_PayloadDigest spec <> "";
  sw_rule : ss_RuntimeContractRule spec <> "";
}.

Record retention_wf (spec : RetentionSpecification) : Prop := {
  rw_policy : rt_Policy spec = "store-all";
  rw_bodies : rt_CommittedNamedBodies spec = "retained";
  rw_unknown : rt_UnknownAge spec = "never eligible";
  rw_read : rt_ReadCap spec = 1024%Z;
  rw_prune : rt_PruneBatchCap spec = 4096%Z;
  rw_rules : Forall (fun rule => rule <> "")
    [rt_WindowRule spec; rt_WriteOrder spec; rt_OrphanEligibility spec; rt_Digest spec; rt_NewestRow spec];
}.

(** The closed sets of an interpreter are the ones the binary assembles. *)
Record interpreter_wf (spec : InterpreterSpecification) : Prop := {
  iw_stages : is_Stage <$> in_Pipeline spec = wantStages;
  iw_described : Forall (fun s => is_Owner s <> "" /\ is_Entry s <> "" /\ is_Input s <> ""
                                  /\ is_Output s <> "") (in_Pipeline spec);
  iw_semantics : in_Semantics spec = ["observation"; "gate-consultation"; "explicit-human-response"];
  iw_terminals semantic terminal : in_Terminals spec !! semantic = Some terminal ->
    semantic ∈ in_Semantics spec /\ terminal <> "";
  iw_reasons : in_UnresolvedReasons spec = ["tool-call-unresolved"];
  iw_identities : in_IdentityKinds spec = ["session"; "turn"; "request"; "tool-call"; "agent"; "message"];
  iw_bounds : in_IdentityBounds spec = mk_Bounds 1 512;
  iw_decisions : in_DecisionKinds spec = ["proceed"; "deny"; "require-human"];
  iw_records : in_RecordKinds spec <> [];
  iw_vocabulary : in_VocabularyRule spec <> "";
  iw_sources : manifest_wf (in_Sources spec);
}.

(** The bounds as a whole. *)
Lemma bounds_eq b lo hi : b = mk_Bounds lo hi <-> bb_Min b = lo /\ bb_Max b = hi.
Proof. destruct b. simpl. naive_solver. Qed.

Lemma binding_declared kind :
  match ParseNativeBindingKind kind with Some _ => false | None => true end = false <->
  kind ∈ ss_BindingKinds SchemaSpecificationForBinary.
Proof.
  split.
  - unfold ParseNativeBindingKind. destruct (List.find _ _) as [k|] eqn:E; [|done]. intros _.
    apply find_some in E as [Hk E%String.eqb_eq]. subst kind. apply list_elem_of_In in Hk.
    elim_members Hk; by apply (bool_decide_unpack _); vm_compute.
  - intros Hk. simpl in Hk. by elim_members Hk.
Qed.

Section validators.
Context `{MapRange}.

(** Size and slots together leave one map. *)
Lemma envelope_checked {E} (e : string * N -> E) (envelope want : gmap string N) :
  (forall slot kind, want !! slot = Some kind -> kind <> 0%N) ->
  size envelope = size want ->
  first_failure (fun w => reject_if (slot_wrong envelope w) (e w)) (range want) = None <->
  envelope = want.
Proof.
  intros Hpos Hsize. rewrite first_reject_None. split.
  - intros Hall. symmetry. apply map_subseteq_size_eq; [apply map_subseteq_spec|by rewrite Hsize].
    intros slot kind Hw. specialize (Hpos _ _ Hw).
    assert (Hin : (slot, kind) ∈ range want) by (rewrite range_perm; by apply elem_of_map_to_list).
    specialize (Hall _ Hin). unfold slot_wrong in Hall. apply negb_false_iff, N.eqb_eq in Hall.
    simpl in Hall. destruct (envelope !! slot); simpl in Hall; congruence.
  - intros -> [slot kind] Hin. rewrite range_perm in Hin. apply elem_of_map_to_list in Hin.
    unfold slot_wrong. simpl. rewrite Hin. simpl. by rewrite N.eqb_refl.
Qed.

Lemma wanted_positive want slot kind :
  want ∈ [wantOccurrence; wantSemantic] -> want !! slot = Some kind -> kind <> 0%N.
Proof.
  intros Hw Hs%elem_of_map_to_list. apply list_elem_of_In in Hs.
  assert (Hc : forallb (fun p : string * N => negb (p.2 =? 0)%N) (map_to_list want) = true)
    by (by elim_members Hw; vm_compute).
  rewrite forallb_forall in Hc. specialize (Hc _ Hs). simpl in Hc.
  by apply negb_true_iff, N.eqb_neq in Hc.
Qed.

Lemma envelopes_checked {E} (e1 e2 : string * N -> E) occurrence semantic want1 want2 :
  (forall slot kind, want1 !! slot = Some kind -> kind <> 0%N) ->
  (forall slot kind, want2 !! slot = Some kind -> kind <> 0%N) ->
  (negb (size occurrence =? size want1)%nat || negb (size semantic =? size want2)%nat) = false /\
  first_failure (fun w => reject_if (slot_wrong occurrence w) (e1 w)) (range want1) = None /\
  first_failure (fun w => reject_if (slot_wrong semantic w) (e2 w)) (range want2) = None <->
  occurrence = want1 /\ semantic = want2.
Proof.
  intros H1 H2. rewrite orb_false_iff, !negb_false_iff, !Nat.eqb_eq. split.
  - intros ([E1 E2] & F1 & F2). split.
    + by apply (envelope_checked e1 occurrence want1 H1 E1).
    + by apply (envelope_checked e2 semantic want2 H2 E2).
  - intros [-> ->]. split; [done|]. by rewrite !envelope_checked.
Qed.

Lemma sources_checked l :
  first_failure (fun s => reject_if (negb (HostVersionSource_valid s)) (VersionSource s)) l = None <->
  forall s, s ∈ l -> s ∈ [""; HostVersionCallerSupplied; HostVersionExecutableQuery].
Proof.
  rewrite first_reject_None. unfold HostVersionSource_valid.
  setoid_rewrite negb_false_iff. by setoid_rewrite one_of_spec.
Qed.

Lemma bindings_checked l :
  first_failure (fun kind => reject_if (match ParseNativeBindingKind kind with
                                      | Some _ => false | None => true end)
                                     (BindingUndeclared kind)) l = None <->
  forall kind, kind ∈ l -> kind ∈ ss_BindingKinds SchemaSpecificationForBinary.
Proof. rewrite first_reject_None. by setoid_rewrite binding_declared. Qed.

Lemma validateSchemaSpecification_spec spec :
  validateSchemaSpecification spec = None <-> schema_wf spec.
Proof.
  unfold validateSchemaSpecification. pass_guards.
  pose proof (envelopes_checked (fun w => OccurrenceSlot w.1) (fun w => SemanticSlot w.1)
    (ss_OccurrenceEnvelope spec) (ss_SemanticEnvelope spec) wantOccurrence wantSemantic
    ltac:(intros ? ?; apply wanted_positive; set_solver)
    ltac:(intros ? ?; apply wanted_positive; set_solver)) as He.
  rewrite sources_checked, bindings_checked, !negb_decide_false.
  rewrite !orb_false_iff, !nothing_false, !negb_Zeqb_false, !String.eqb_neq, <- orb_false_iff. split.
  - intros (([[? ?] ?] & ?) & ? & Ez & Eo & Es & ? & ? & [[? ?] ?] & ? & [[? ?] ?] & ?).
    destruct (proj1 He (conj Ez (conj Eo Es))). split; try assumption. by apply bounds_eq.
  - intros [? ? ? ? ? Ho Hs ? ? Hb ? ? ? ? ? ?]. apply bounds_eq in Hb as [? ?].
    destruct (proj2 He (conj Ho Hs)) as (? & ? & ?).
    repeat (split || assumption).
Qed.

Lemma validateRetentionSpecification_spec spec :
  validateRetentionSpecification spec = None <-> retention_wf spec.
Proof.
  unfold validateRetentionSpecification. pass_guards.
  rewrite !orb_false_iff, !negb_eqb_false, !negb_Zeqb_false, !String.eqb_neq. split.
  - intros ([[? ?] ?] & [? ?] & [[[[? ?] ?] ?] ?] & _). split; try done. by repeat constructor.
  - intros [? ? ? ? ? Hr]. repeat rewrite Forall_cons in Hr.
    destruct Hr as (? & ? & ? & ? & ? & _). by split_and!.
Qed.

Lemma stage_loop_spec index stages :
  stage_loop index stages = None <->
  (forall k s, stages !! k = Some s -> is_Stage s = default "" (wantStages !! (index + k)%nat)) /\
  Forall (fun s => is_Owner s <> "" /\ is_Entry s <> "" /\ is_Input s <> "" /\ is_Output s <> "") stages.
Proof.
  revert index. induction stages as [|s ss IH]; intros index; cbn [stage_loop].
  { split; [|done]. intros _. split; [done|constructor]. }
  pass_guards. rewrite IH, Forall_cons, !orb_false_iff, negb_eqb_false, !String.eqb_neq. split.
  - intros ([[[[Hs ?] ?] ?] ?] & Hk & ?). split; [|by split_and!].
    intros [|k] s' Hs'; [injection Hs' as <-; by rewrite Nat.add_0_r|].
    rewrite (Hk k s' Hs'). do 2 f_equal. lia.
  - intros (Hk & (? & ? & ? & ?) & ?). pose proof (Hk 0%nat s eq_refl) as Hz.
    rewrite Nat.add_0_r in Hz. split; [by split_and!|]. split; [|done].
    intros k s' Hs'. rewrite (Hk (S k) s' Hs'). do 2 f_equal. lia.
Qed.

Lemma stages_checked stages :
  (negb (length stages =? 5)%nat = false /\ stage_loop 0 stages = None) <->
  is_Stage <$> stages = wantStages /\
  Forall (fun s => is_Owner s <> "" /\ is_Entry s <> "" /\ is_Input s <> "" /\ is_Output s <> "") stages.
Proof.
  rewrite negb_false_iff, Nat.eqb_eq, stage_loop_spec. split.
  - intros (Hl & Hk & HF). split; [|done]. apply list_eq_same_length with (n := 5%nat).
    + done.
    + by rewrite length_fmap.
    + intros k x y Hk5 Hx Hy. apply list_lookup_fmap_Some in Hx as (s & -> & Hs).
      rewrite (Hk k s Hs). simpl. by rewrite Hy.
  - intros [Hs HF]. split.
    { apply (f_equal length) in Hs. by rewrite length_fmap in Hs. }
    split; [|done]. intros k s Hk. simpl. rewrite <- Hs, list_lookup_fmap, Hk. done.
Qed.

Lemma terminals_checked spec :
  first_failure (fun p => reject_if (negb (bool_decide (p.1 ∈ in_Semantics spec)) || String.eqb p.2 "")
                                  (TerminalUnknown p.1)) (range (in_Terminals spec)) = None <->
  forall semantic terminal, in_Terminals spec !! semantic = Some terminal ->
    semantic ∈ in_Semantics spec /\ terminal <> "".
Proof.
  rewrite first_reject_None. setoid_rewrite orb_false_iff. setoid_rewrite negb_decide_false.
  setoid_rewrite String.eqb_neq. setoid_rewrite range_perm. split.
  - intros Hall semantic terminal Ht%elem_of_map_to_list. exact (Hall _ Ht).
  - intros Hall [semantic terminal] Ht%elem_of_map_to_list. by apply Hall.
Qed.

Lemma validateInterpreterSpecification_spec spec :
  validateInterpreterSpecification spec = None <-> interpreter_wf spec.
Proof.
  unfold validateInterpreterSpecification. pass_guards.
  rewrite fmap_None, validateSources_spec, terminals_checked, <- Logic.and_assoc, stages_checked.
  rewrite !negb_decide_false, !orb_false_iff, !negb_Zeqb_false, nothing_false, String.eqb_neq.
  split.
  - intros ((? & ?) & ? & ? & ? & ? & ? & ? & ? & ?). split; try tauto. by apply bounds_eq.
  - intros [? ? ? ? ? ? Hb ? ? ? ?]. apply bounds_eq in Hb. tauto.
Qed.
End validators.

Lemma compiled_schema_wf : schema_wf SchemaSpecificationForBinary.
Proof. apply (validateSchemaSpecification_spec (H:=listed_range)). by vm_compute. Qed.

Lemma compiled_interpreter sources :
  validateInterpreterSpecification (H:=listed_range) (AssembleInterpreterSpecification sources)
  = InterpreterSources <$> validateSources "interpreter" sources.
Proof. vm_compute. reflexivity. Qed.

Lemma compiled_interpreter_wf sources :
  interpreter_wf (AssembleInterpreterSpecification sources) <-> manifest_wf sources.
Proof.
  rewrite <- (validateInterpreterSpecification_spec (H:=listed_range)), compiled_interpreter.
  by rewrite fmap_None, validateSources_spec.
Qed.

(** The structural contracts of the other three owners, exactly. Whatever
    the order maps are iterated in, a schema descriptor is accepted if and only
    if its two envelopes are exactly the four and the five references, the
    bindings are declared kinds and the bounds are 1..512; a retention
    descriptor if and only if it is the store-all policy with the enforced
    caps; an interpreter descriptor if and only if its five stages and its
    semantics, reasons, identities and decisions are the closed sets of the
    runtime and its manifest is well formed. The compiled descriptors pass. *)
Theorem descriptors_exact `{MapRange} schema retention interpreter sources :
  (validateSchemaSpecification schema = None <-> schema_wf schema) /\
  (validateRetentionSpecification retention = None <-> retention_wf retention) /\
  (validateInterpreterSpecification interpreter = None <-> interpreter_wf interpreter) /\
  validateSchemaSpecification SchemaSpecificationForBinary = None /\
  validateRetentionSpecification RetentionSpecificationForBinary = None /\
  (validateInterpreterSpecification (AssembleInterpreterSpecification sources) = None
   <-> manifest_wf sources).
Proof.
  rewrite !validateSchemaSpecification_spec, !validateRetentionSpecification_spec.
  rewrite !validateInterpreterSpecification_spec, compiled_interpreter_wf.
  split_and!; try done; [apply compiled_schema_wf|].
  apply validateRetentionSpecification_spec. by vm_compute.
Qed.

Lemma descriptors_exact_witness :
  schema_wf SchemaSpecificationForBinary /\
  ~ retention_wf (mk_RetentionSpecification "store-all" "retained" "e" "never eligible" 1025 4096 "w" "o" "d" "n").
Proof.
  set (bad := mk_RetentionSpecification _ _ _ _ _ _ _ _ _ _).
  destruct (descriptors_exact (H:=listed_range) SchemaSpecificationForBinary bad
              (AssembleInterpreterSpecification []) []) as (Hs & Hr & _ & Hb & _).
  split; [by apply Hs|]. intros Hwf. apply Hr in Hwf. by vm_compute in Hwf.
Defined.
