(* ===== verification/JsonMembers.v ===== *)
(** JsonMembers: the duplicate-member check of the definition documents
    ([uniqueMembers] of internal/lifecycle/definitions/document.go).

    encoding/json keeps the last of two members with one name, so a document
    is walked token by token before it is decoded.  The decoder's token stream
    is an interface: the tokens it yields, and what it returns when they are
    used up.  [More] looks one byte ahead where the model looks one token
    ahead; where the two differ the next read fails, and so does the walk. *)

From Stdlib Require Import NArith Lia Ascii String.
From stdpp Require Import base tactics list strings gmap.
From S2P Require Import Prelude GoStrings.
Local Open Scope string_scope.
Local Open Scope list_scope.

(** ** Tokens *)
Inductive Delim := OpenBrace | CloseBrace | OpenBracket | CloseBracket.
Inductive Token :=
  | TDelim (d : Delim)
  | TString (s : string)
  | TLiteral (text : string).
#[export] Instance Delim_eq_dec : EqDecision Delim.
Proof. solve_decision. Defined.
#[export] Instance Token_eq_dec : EqDecision Token.
Proof. solve_decision. Defined.

Inductive StreamEnd := AtEOF | AtError (cause : string).
Abbreviation Stream := (list Token * StreamEnd)%type (only parsing).

Inductive JsonError :=
  | EndOfStream (e : StreamEnd)
  | UnexpectedDelim (d : Delim)
  | MemberRejected (key : Token)
  | TrailingData
  | WalkOutOfFuel.

Definition NextToken (s : Stream) : result JsonError (Token * Stream) :=
  match s with
  | ([], e) => Err (EndOfStream e)
  | (t :: ts, e) => Ok (t, (ts, e))
  end.

Definition More (s : Stream) : bool :=
  match s.1 with
  | [] | TDelim CloseBrace :: _ | TDelim CloseBracket :: _ => false
  | _ :: _ => true
  end.

(** The closure [walk] and its two loops. *)
Fixpoint walk (fuel : nat) (s : Stream) : result JsonError Stream :=
  match fuel with
  | O => Err WalkOutOfFuel
  | S f =>
      match NextToken s with
      | Err e => Err e
      | Ok (TDelim OpenBrace, s1) =>
          match member_loop f ∅ s1 with
          | Err e => Err e
          | Ok s2 => match NextToken s2 with Err e => Err e | Ok (_, s3) => Ok s3 end
          end
      | Ok (TDelim OpenBracket, s1) =>
          match element_loop f s1 with
          | Err e => Err e
          | Ok s2 => match NextToken s2 with Err e => Err e | Ok (_, s3) => Ok s3 end
          end
      | Ok (TDelim d, _) => Err (UnexpectedDelim d)
      | Ok (_, s1) => Ok s1
      end
  end
with member_loop (fuel : nat) (seen : gset string) (s : Stream) : result JsonError Stream :=
  match fuel with
  | O => Err WalkOutOfFuel
  | S f =>
      if More s then
        match NextToken s with
        | Err e => Err e
        | Ok (TString name, s1) =>
            if bool_decide (name ∈ seen) then Err (MemberRejected (TString name))
            else match walk f s1 with
                 | Err e => Err e
                 | Ok s2 => member_loop f ({[name]} ∪ seen) s2
                 end
        | Ok (t, _) => Err (MemberRejected t)
        end
      else Ok s
  end
with element_loop (fuel : nat) (s : Stream) : result JsonError Stream :=
  match fuel with
  | O => Err WalkOutOfFuel
  | S f =>
      if More s then match walk f s with Err e => Err e | Ok s1 => element_loop f s1 end
      else Ok s
  end.

(** ** Values *)
Inductive json :=
  | JString (s : string)
  | JLiteral (text : string)
  | JArray (elements : list json)
  | JObject (members : list (string * json)).

Fixpoint tokens_of (j : json) : list Token :=
  match j with
  | JString s => [TString s]
  | JLiteral text => [TLiteral text]
  | JArray js => TDelim OpenBracket :: (js ≫= tokens_of) ++ [TDelim CloseBracket]
  | JObject ms =>
      TDelim OpenBrace :: (ms ≫= fun m => TString m.1 :: tokens_of m.2) ++ [TDelim CloseBrace]
  end.

(** No object of the value names a member twice. *)
Fixpoint unique (j : json) : bool :=
  match j with
  | JString _ | JLiteral _ => true
  | JArray js => forallb unique js
  | JObject ms => bool_decide (NoDup (ms.*1)) && forallb (fun m => unique m.2) ms
  end.

(** [json.NewDecoder] over a text. The decoder checks the grammar as it goes:
    what it yielded when the text is used up is a part of a sequence of
    values, perhaps broken off inside one. *)
Class JsonDecoder := {
  Tokens : bytes -> list Token * StreamEnd;
  tokens_values p ts : Tokens p = (ts, AtEOF) ->
    exists js rest, ts ++ rest = js ≫= tokens_of;
  tokens_empty : Tokens [] = ([], AtEOF);
}.

Section members.
Context `{JsonDecoder}.

(** Every iteration of a loop and every call reads a token, and between two
    reads there are at most two calls. *)
Definition walk_fuel (s : Stream) : nat := S (2 * length s.1).

(** [None] is the nil error. *)
Definition uniqueMembers (payload : bytes) : option JsonError :=
  match walk (walk_fuel (Tokens payload)) (Tokens payload) with
  | Err e => Some e
  | Ok ([], AtEOF) => None
  | Ok _ => Some TrailingData
  end.
End members.

(** * Theorems *)

Section json_induction.
Variable P : json -> Prop.
Hypothesis P_string : forall s, P (JString s).
Hypothesis P_literal : forall t, P (JLiteral t).
Hypothesis P_array : forall js, Forall P js -> P (JArray js).
Hypothesis P_object : forall ms, Forall (fun m => P m.2) ms -> P (JObject ms).

Fixpoint json_nested_ind (j : json) : P j :=
  match j with
  | JString s => P_string s
  | JLiteral t => P_literal t
  | JArray js =>
      P_array js ((fix go js : Forall P js := match js with
                                | [] => Forall_nil_2 P
                                | j :: js' => Forall_cons_2 P j js' (json_nested_ind j) (go js')
                                end) js)
  | JObject ms =>
      P_object ms ((fix go ms : Forall (fun m => P m.2) ms := match ms with
                                 | [] => Forall_nil_2 (fun m => P m.2)
                                 | m :: ms' => Forall_cons_2 (fun m => P m.2) m ms'
                                                 (json_nested_ind m.2) (go ms')
                                 end) ms)
  end.
End json_induction.

(** A value never starts with a closing delimiter. *)
Lemma tokens_of_opens j rest e : More (tokens_of j ++ rest, e) = true.
Proof. by destruct j. Qed.

Lemma tokens_of_nonempty j : (1 <= length (tokens_of j))%nat.
Proof. destruct j; simpl; lia. Qed.

(** ** What the walk does to the tokens of a value *)

Definition walks (j : json) : Prop := forall fuel rest e,
  (2 * length (tokens_of j) <= fuel)%nat ->
  if unique j then walk fuel (tokens_of j ++ rest, e) = Ok (rest, e)
  else exists err, walk fuel (tokens_of j ++ rest, e) = Err err.

Lemma element_loop_tokens js : Forall walks js -> forall fuel rest e,
  (2 * length (js ≫= tokens_of) < fuel)%nat -> More (rest, e) = false ->
  if forallb unique js then element_loop fuel ((js ≫= tokens_of) ++ rest, e) = Ok (rest, e)
  else exists err, element_loop fuel ((js ≫= tokens_of) ++ rest, e) = Err err.
Proof.
  induction 1 as [|j js Hj _ IH]; intros [|f] rest e Hf Hm; try lia.
  { simpl. by rewrite Hm. }
  cbn [mbind list_bind] in Hf |- *. rewrite length_app in Hf.
  pose proof (tokens_of_nonempty j). cbn [element_loop forallb].
  rewrite <- app_assoc, tokens_of_opens.
  specialize (Hj f ((js ≫= tokens_of) ++ rest) e ltac:(lia)).
  destruct (unique j); simpl; [|destruct Hj as [err ->]; by exists err].
  rewrite Hj. apply IH; [lia|done].
Qed.

Lemma member_loop_tokens ms : Forall (fun m => walks m.2) ms -> forall fuel seen rest e,
  (2 * length (ms ≫= fun m => TString m.1 :: tokens_of m.2) < fuel)%nat -> More (rest, e) = false ->
  if bool_decide (NoDup (ms.*1) /\ Forall (fun m => m.1 ∉ seen) ms) && forallb (fun m => unique m.2) ms
  then member_loop fuel seen ((ms ≫= fun m => TString m.1 :: tokens_of m.2) ++ rest, e) = Ok (rest, e)
  else exists err,
    member_loop fuel seen ((ms ≫= fun m => TString m.1 :: tokens_of m.2) ++ rest, e) = Err err.
Proof.
  induction 1 as [|[name j] ms Hj _ IH]; intros [|f] seen rest e Hf Hm; try lia.
  { rewrite bool_decide_true by (split; constructor). simpl. by rewrite Hm. }
  cbn [mbind list_bind app length fst snd] in Hf |- *. rewrite length_app in Hf.
  pose proof (tokens_of_nonempty j). cbn [member_loop More fst snd NextToken forallb].
  destruct (bool_decide_reflect (name ∈ seen)) as [Hs|Hs].
  { rewrite bool_decide_false; [simpl; eauto|]. intros [_ [Hn _]%Forall_cons]. done. }
  rewrite <- app_assoc. simpl in Hj.
  specialize (Hj f ((ms ≫= fun m => TString m.1 :: tokens_of m.2) ++ rest) e ltac:(lia)).
  destruct (unique j); simpl; [|destruct Hj as [err ->]; case_bool_decide; by exists err].
  rewrite Hj. specialize (IH f ({[name]} ∪ seen) rest e ltac:(lia) Hm).
  assert (E : (NoDup (name :: ms.*1) /\ Forall (fun m => m.1 ∉ seen) ((name, j) :: ms)) <->
    NoDup (ms.*1) /\ Forall (fun m => m.1 ∉ ({[name]} ∪ seen : gset string)) ms).
  { rewrite NoDup_cons, Forall_cons, !Forall_forall, list_elem_of_fmap. simpl. set_solver. }
  by rewrite (bool_decide_ext _ _ E).
Qed.

Lemma walk_tokens j : walks j.
Proof.
  induction j as [s|t|js IH|ms IH] using json_nested_ind; intros fuel rest e Hf.
  - destruct fuel; simpl in *; [lia|done].
  - destruct fuel; simpl in *; [lia|done].
  - destruct fuel as [|f]; simpl in Hf; [lia|]. rewrite length_app in Hf. simpl in Hf.
    cbn [tokens_of app walk NextToken unique]. rewrite <- app_assoc.
    pose proof (element_loop_tokens js IH f (TDelim CloseBracket :: rest) e ltac:(lia) eq_refl) as Hl.
    simpl app in Hl |- *. destruct (forallb unique js); [by rewrite Hl|].
    destruct Hl as [err ->]. by exists err.
  - destruct fuel as [|f]; simpl in Hf; [lia|]. rewrite length_app in Hf. simpl in Hf.
    cbn [tokens_of app walk NextToken unique]. rewrite <- app_assoc.
    pose proof (member_loop_tokens ms IH f ∅ (TDelim CloseBrace :: rest) e ltac:(lia) eq_refl) as Hl.
    assert (E : NoDup (ms.*1) /\ Forall (fun m : string * json => m.1 ∉ (∅ : gset string)) ms
                <-> NoDup (ms.*1)).
    { split; [by intros [? _]|]. intros Hn. split; [done|]. apply Forall_forall. set_solver. }
    rewrite (bool_decide_ext _ _ E) in Hl. simpl app in Hl |- *.
    destruct (bool_decide _ && _); [by rewrite Hl|]. destruct Hl as [err ->]. by exists err.
Qed.

(** ** More input and more fuel do not change a walk that ended *)

Lemma walk_extends fuel : forall fuel' x e',
  (fuel <= fuel')%nat ->
  (forall ts e ts' e0, walk fuel (ts, e) = Ok (ts', e0) ->
     e0 = e /\ walk fuel' (ts ++ x, e') = Ok (ts' ++ x, e')) /\
  (forall seen ts e t ts' e0, member_loop fuel seen (ts, e) = Ok (t :: ts', e0) ->
     e0 = e /\ member_loop fuel' seen (ts ++ x, e') = Ok (t :: ts' ++ x, e')) /\
  (forall ts e t ts' e0, element_loop fuel (ts, e) = Ok (t :: ts', e0) ->
     e0 = e /\ element_loop fuel' (ts ++ x, e') = Ok (t :: ts' ++ x, e')).
Proof.
  induction fuel as [|f IH]; intros [|f'] x e' Hle; try lia; [split_and!; intros; done..|].
  destruct (IH f' x e' ltac:(lia)) as (Hw & Hm & He). split_and!.
  - intros [|t ts] e ts' e0; [done|]. cbn [walk NextToken app].
    destruct t as [[]| |]; try done; try (by intros [= <- <-]).
    + destruct (member_loop f ∅ (ts, e)) as [[[|t ts2] e2]|] eqn:E; try done. simpl.
      intros [= <- <-]. by destruct (Hm _ _ _ _ _ _ E) as [-> ->].
    + destruct (element_loop f (ts, e)) as [[[|t ts2] e2]|] eqn:E; try done. simpl.
      intros [= <- <-]. by destruct (He _ _ _ _ _ E) as [-> ->].
  - intros seen [|t ts] e t' ts' e0; [done|]. cbn [member_loop app NextToken].
    change (More (t :: ts ++ x, e')) with (More (t :: ts, e)).
    destruct (More (t :: ts, e)); [|by intros [= -> -> ->]].
    destruct t as [|name|]; try done. destruct (bool_decide _); [done|].
    destruct (walk f (ts, e)) as [[ts2 e2]|] eqn:E; [|done].
    destruct (Hw _ _ _ _ E) as [-> ->]. apply Hm.
  - intros [|t ts] e t' ts' e0; [done|]. cbn [element_loop].
    change (More ((t :: ts) ++ x, e')) with (More (t :: ts, e)).
    destruct (More (t :: ts, e)); [|by intros [= -> -> ->]].
    destruct (walk f (t :: ts, e)) as [[ts2 e2]|] eqn:E; [|done].
    destruct (Hw _ _ _ _ E) as [-> ->]. apply He.
Qed.

(** ** The fuel is enough *)

Lemma walk_consumes fuel :
  (forall ts e ts' e0, walk fuel (ts, e) = Ok (ts', e0) -> (length ts' < length ts)%nat) /\
  (forall seen ts e ts' e0, member_loop fuel seen (ts, e) = Ok (ts', e0) ->
     (length ts' <= length ts)%nat) /\
  (forall ts e ts' e0, element_loop fuel (ts, e) = Ok (ts', e0) -> (length ts' <= length ts)%nat).
Proof.
  induction fuel as [|f (Hw & Hm & He)]; [split_and!; intros; done..|]. split_and!.
  - intros [|t ts] e ts' e0; [done|]. cbn [walk NextToken length].
    destruct t as [[]| |]; try done; try (by intros [= <- <-]; lia).
    + destruct (member_loop f ∅ (ts, e)) as [[[|t ts2] e2]|] eqn:E; try done. simpl.
      intros [= <- <-]. apply Hm in E. simpl in E. lia.
    + destruct (element_loop f (ts, e)) as [[[|t ts2] e2]|] eqn:E; try done. simpl.
      intros [= <- <-]. apply He in E. simpl in E. lia.
  - intros seen [|t ts] e ts' e0; cbn [member_loop NextToken];
      (destruct (More _); [|by intros [= <- <-]]); [done|].
    destruct t as [|name|]; try done. destruct (bool_decide _); [done|].
    destruct (walk f (ts, e)) as [[ts2 e2]|] eqn:E; [|done]. intros H%Hm. apply Hw in E. simpl. lia.
  - intros ts e ts' e0; cbn [element_loop]. destruct (More _); [|by intros [= <- <-]].
    destruct (walk f (ts, e)) as [[ts2 e2]|] eqn:E; [|done]. intros H%He. apply Hw in E. lia.
Qed.

Lemma walk_has_fuel fuel :
  (forall ts e, (2 * length ts < fuel)%nat -> walk fuel (ts, e) <> Err WalkOutOfFuel) /\
  (forall seen ts e, (2 * length ts + 1 < fuel)%nat ->
     member_loop fuel seen (ts, e) <> Err WalkOutOfFuel) /\
  (forall ts e, (2 * length ts + 1 < fuel)%nat -> element_loop fuel (ts, e) <> Err WalkOutOfFuel).
Proof.
  induction fuel as [|f (Hw & Hm & He)]; [split_and!; intros; lia|]. split_and!.
  - intros [|t ts] e Hf; [done|]. simpl in Hf. cbn [walk NextToken].
    destruct t as [[]| |]; try done.
    + specialize (Hm ∅ ts e ltac:(lia)). destruct (member_loop f ∅ (ts, e)) as [[[] ?]|]; naive_solver.
    + specialize (He ts e ltac:(lia)). destruct (element_loop f (ts, e)) as [[[] ?]|]; naive_solver.
  - intros seen [|t ts] e Hf; [done|]. simpl in Hf. cbn [member_loop NextToken].
    destruct (More _); [|done]. destruct t as [|name|]; try done. destruct (bool_decide _); [done|].
    specialize (Hw ts e ltac:(lia)). destruct (walk f (ts, e)) as [[ts2 e2]|err] eqn:E; [|naive_solver].
    apply walk_consumes in E. apply Hm. lia.
  - intros ts e Hf. cbn [element_loop]. destruct (More _); [|done].
    specialize (Hw ts e ltac:(lia)). destruct (walk f (ts, e)) as [[ts2 e2]|err] eqn:E; [|naive_solver].
    apply walk_consumes in E. apply He. lia.
Qed.

Section checked.
Context `{JsonDecoder}.

Lemma uniqueMembers_has_fuel p : uniqueMembers p <> Some WalkOutOfFuel.
Proof.
  unfold uniqueMembers, walk_fuel. destruct (Tokens p) as [ts e]. simpl fst.
  pose proof (proj1 (walk_has_fuel (S (2 * length ts))) ts e ltac:(lia)) as Hf.
  destruct (walk _ _) as [[[|] []]|]; congruence.
Qed.

Lemma uniqueMembers_spec p :
  uniqueMembers p = None <-> exists j, Tokens p = (tokens_of j, AtEOF) /\ unique j = true.
Proof.
  unfold uniqueMembers. split.
  - destruct (Tokens p) as [ts e] eqn:Et. set (fuel := walk_fuel _).
    destruct (walk fuel (ts, e)) as [[[|t ts'] []]|err] eqn:E; try done. intros _.
    destruct (proj1 (walk_extends fuel fuel [] AtEOF ltac:(lia)) _ _ _ _ E) as [<- _].
    destruct (tokens_values p ts Et) as ([|j js] & rest & Hts).
    { simpl in Hts. apply app_eq_nil in Hts as [-> _]. subst fuel. by vm_compute in E. }
    set (fuel' := (fuel + 2 * length (tokens_of j))%nat).
    destruct (proj1 (walk_extends fuel fuel' rest AtEOF ltac:(lia)) _ _ _ _ E) as [_ Hx].
    rewrite Hts in Hx. cbn [mbind list_bind] in Hx.
    pose proof (walk_tokens j fuel' (js ≫= tokens_of) AtEOF ltac:(lia)) as Hj.
    destruct (unique j) eqn:Hu; [|destruct Hj as [err Hj]; congruence].
    rewrite Hj in Hx. injection Hx as Hrest. exists j. split; [|done].
    cbn [mbind list_bind] in Hts. rewrite <- Hrest in Hts.
    simpl in Hts. apply app_inv_tail in Hts. by subst.
  - intros (j & -> & Hu). pose proof (walk_tokens j (walk_fuel (tokens_of j, AtEOF)) [] AtEOF) as Hj.
    rewrite Hu, app_nil_r in Hj. unfold walk_fuel in *. simpl fst in *. by rewrite Hj by lia.
Qed.

(** A checked document is not empty. *)
Lemma uniqueMembers_nonempty p : uniqueMembers p = None -> p <> [].
Proof. intros Hp ->. unfold uniqueMembers in Hp. rewrite tokens_empty in Hp. by vm_compute in Hp. Qed.

(** The duplicate check is exact: a text passes if and only if it is the
    tokens of one value, followed by nothing, none of whose objects, at any
    depth, names a member twice; and the walk always ends with an answer. *)
Theorem uniqueMembers_exact p :
  (uniqueMembers p = None <-> exists j, Tokens p = (tokens_of j, AtEOF) /\ unique j = true) /\
  uniqueMembers p <> Some WalkOutOfFuel.
Proof. split; [apply uniqueMembers_spec|apply uniqueMembers_has_fuel]. Qed.
End checked.

(** A decoder of two texts: a nested duplicate, and the same without it. *)
Definition nested (name : string) : json :=
  JObject [("a", JArray [JObject [("b", JLiteral "1"); (name, JString "b")]])].
Definition two_texts : JsonDecoder.
Proof.
  refine {| Tokens p := match p with
                        | [] => ([], AtEOF)
                        | [_] => (tokens_of (nested "b"), AtEOF)
                        | _ => (tokens_of (nested "c"), AtEOF)
                        end |}; [|done].
  intros [|? [|? ?]] ts; intros [= <-];
    [by exists [], []|by exists [nested "b"], []|by exists [nested "c"], []].
Defined.

Lemma uniqueMembers_exact_witness :
  uniqueMembers (H:=two_texts) (to_bytes "1") = Some (MemberRejected (TString "b")) /\
  uniqueMembers (H:=two_texts) (to_bytes "22") = None.
Proof.
  split; [by vm_compute|]. apply (proj1 (uniqueMembers_exact (H:=two_texts) (to_bytes "22"))).
  exists (nested "c"). split; by vm_compute.
Defined.
