(* ===== verification/RuntimeDescriptor.v ===== *)
(** RuntimeDescriptor: the descriptor of a runtime contract
    (internal/lifecycle/definitions/runtime.go, runtime_versions.go), with the
    identities it is built on (artifact/aggregate_types.go,
    internal/codegen/ir/ids.go, internal/runtime/binding.go).

    A descriptor is the compiled catalog of one host: what its operations,
    effects and capabilities are bound to, and what it does with each lifecycle
    event.  [validateRuntimeSpecification] is the contract a decoded catalog
    must meet.  Of the compiled catalogs only the coordinate of their
    registration is read. *)

From Stdlib Require Import NArith ZArith Lia Ascii String.
From stdpp Require Import base tactics list strings gmap.
From S2P Require Import Prelude GoStrings Registration GatePolicy HostVersion NativeRows EpochDescriptor.
Local Open Scope string_scope.
Local Open Scope list_scope.

(** ** Identities *)
Record RuntimeContractID := mk_ContractID { ri_harness : HarnessID; ri_value : string }.
#[export] Instance RuntimeContractID_eq_dec : EqDecision RuntimeContractID.
Proof. solve_decision. Defined.

(** The runes of a valid string. *)
Definition runes_of (s : string) : list N := default [] (runes (to_bytes s)).

(** [None] is the error. *)
Definition parseRuntimeContractID (value : string) : option RuntimeContractID :=
  if negb (ValidString (to_bytes value)) || padded value || String.eqb value "" then None
  else if existsb (fun r => IsControl r || IsSpace r) (runes_of value) then None
  else
    let bound h := HasPrefix (to_bytes value) (to_bytes (String.append h "/"))
                   && (String.length (String.append h "/") <? String.length value)%nat in
    (fun h => mk_ContractID h value)
    <$> List.find bound [HarnessClaudeCode; HarnessOpenCode; HarnessCodex].

Definition NewRuntimeContractID (harness : HarnessID) (name : string) : option RuntimeContractID :=
  if negb (Harness_IsValid harness) then None
  else
    let prefix := String.append harness "/" in
    parseRuntimeContractID
      (if HasPrefix (to_bytes name) (to_bytes prefix) then name else String.append prefix name).

Definition ContractID_IsValid (id : RuntimeContractID) : bool :=
  match parseRuntimeContractID (ri_value id) with
  | Some parsed => String.eqb (ri_harness parsed) (ri_harness id)
  | None => false
  end.

(** [validateOpaqueID]; the domain only enters the message. *)
Definition validateOpaqueID (value : string) (requireNamespace : bool) : bool :=
  ValidString (to_bytes value)
  && negb (String.eqb value "" || padded value)
  && negb (requireNamespace
           && negb (existsb (fun c => Ascii.eqb c "."%char || Ascii.eqb c ":"%char) (to_bytes value)))
  && negb (existsb IsControl (runes_of value)).
Definition NewEffectID (value : string) : option string :=
  if validateOpaqueID value true then Some value else None.
Definition CapabilityID_IsValid (id : string) : bool := validateOpaqueID id true.

(** ** The compiled contracts

    [RuntimeContracts], and the registration coordinate of each. *)
Definition contract_ids : list (RuntimeContractID * RuntimeContractID) :=
  [(mk_ContractID HarnessClaudeCode "claude-code/claude-code@2.1.261",
    mk_ContractID HarnessClaudeCode "claude-code/2.1.261");
   (mk_ContractID HarnessOpenCode "opencode/opencode@1.18.29",
    mk_ContractID HarnessOpenCode "opencode/1.18.29");
   (mk_ContractID HarnessOpenCode "opencode/opencode@2.0.20",
    mk_ContractID HarnessOpenCode "opencode/2.0.20");
   (mk_ContractID HarnessCodex "codex/codex@0.153.0", mk_ContractID HarnessCodex "codex/0.153.0")].
Definition RuntimeContracts : list RuntimeContractID := contract_ids.*1.
Definition registration_coordinate (id : RuntimeContractID) : option RuntimeContractID :=
  snd <$> List.find (fun p => bool_decide (p.1 = id)) contract_ids.

Definition RuntimeContractForDelivery (delivery : RuntimeContractID) : option RuntimeContractID :=
  if negb (ContractID_IsValid delivery) then None
  else List.find (fun candidate => bool_decide (registration_coordinate candidate = Some delivery))
         RuntimeContracts.

Definition coreOperationIDs : list string :=
  ["pasture.orchestration.invoke-skill/v1"; "pasture.orchestration.delegate-assignment/v1";
   "pasture.orchestration.continue-assignment/v1"; "pasture.orchestration.send-assignment-message/v1";
   "pasture.orchestration.collect-assignment-results/v1"; "pasture.orchestration.stop-assignment/v1";
   "pasture.orchestration.request-user-decision/v1"].

(** ** Catalogs *)
Abbreviation RuntimeClass := string (only parsing).
Definition RuntimeClassNative : RuntimeClass := "native".
Definition RuntimeClassParentMediated : RuntimeClass := "parent-mediated".
Definition RuntimeClassSemanticInstruction : RuntimeClass := "semantic-instruction".
Definition RuntimeClassUnsupported : RuntimeClass := "unsupported".
Definition RuntimeClass_IsValid (c : RuntimeClass) : bool :=
  one_of c [RuntimeClassNative; RuntimeClassParentMediated; RuntimeClassSemanticInstruction;
            RuntimeClassUnsupported].

Record DescriptorSemantics := mk_Semantics {
  sm_Summary : string;
  sm_Preconditions : list string;
  sm_Postconditions : list string;
  sm_Result : string;
}.
Record BindingDescriptor := mk_Binding {
  bd_ID : string;
  bd_Class : RuntimeClass;
  bd_InputSchema : string;
  bd_OutputSchema : string;
  bd_Semantics : DescriptorSemantics;
  bd_Effects : list string;
  bd_NativeCall : string;
  bd_Arguments : list string;
  bd_ResultSemantics : string;
  bd_ContextInheritance : string;
  bd_Mediator : string;
  bd_Instruction : string;
  bd_Template : string;
  bd_UnsupportedReason : string;
}.
Record CapabilityDescriptor := mk_Capability {
  cd_ID : string;
  cd_Version : string;
  cd_Minimum : string;
  cd_Maximum : string;
  cd_Binding : BindingDescriptor;
}.
Record LifecycleDescriptor := mk_LifecycleDescriptor {
  ld_Name : string;
  ld_Semantic : EventSemantic;
  ld_Surface : HookSurface;
  ld_Blocking : BlockingMode;
  ld_Mutation : MutationMode;
  ld_Order : HandlerOrder;
  ld_Reconciliation : ReconciliationMode;
  ld_Failure : FailureMode;
  ld_DeclaredFailure : FailureMode;
  ld_Evidence : FailureEvidence;
  ld_AskEvidence : FailureEvidence;
  ld_PreAction : bool;
  ld_Response : ResponseCapability;
  ld_StopLoop : StopLoopPolicy;
  ld_IdentityPolicy : N;
  ld_Identities : list NativeIdentityField;
  ld_UnresolvedIdentities : list NativeIdentityKind;
}.
Definition IdentityPolicy_IsValid (p : N) : bool := ((p =? 1) || (p =? 2))%N.

Abbreviation SessionTransition := N (only parsing).
Definition SessionTransitionNone : SessionTransition := 0%N.
Definition SessionTransitionPrompt : SessionTransition := 1%N.
Definition SessionTransitionEnd : SessionTransition := 2%N.
Definition SessionTransitionResume : SessionTransition := 3%N.

(** The registration rows of a decoded catalog, with every column. *)
Record RegisteredIdentity := mk_RegisteredIdentity {
  rx_Field : N;
  rx_Binding : N;
  rx_Required : bool;
}.
Record RegisteredEvent := mk_RegisteredEvent {
  re_Kind : N;
  re_NativeName : string;
  re_AllowedFields : list N;
  re_Identities : list RegisteredIdentity;
  re_Blocking : BlockingMode;
  re_Mutation : MutationMode;
  re_Failure : FailureMode;
  re_StopLoop : StopLoopPolicy;
  re_SessionTransition : SessionTransition;
  re_TransitionSourceField : string;
}.
Record RegisteredManifest := mk_RegisteredManifest {
  rm_Harness : HarnessID;
  rm_Version : string;
  rm_Contract : RuntimeContractID;
  rm_Events : list RegisteredEvent;
}.
Record RuntimeSpecification := mk_RuntimeSpecification {
  rs_Contract : RuntimeContractID;
  rs_Harness : HarnessID;
  rs_Minimum : string;
  rs_Maximum : string;
  rs_HasUpperBound : bool;
  rs_IncludesPrereleases : bool;
  rs_NativeTransport : string;
  rs_Operations : list BindingDescriptor;
  rs_Effects : list BindingDescriptor;
  rs_Capabilities : list CapabilityDescriptor;
  rs_Registration : RegisteredManifest;
  rs_Lifecycle : list LifecycleDescriptor;
}.

(** ** Validation *)
Inductive RuntimeError :=
  | BindingIncomplete (id : string)
  | EffectIdentity (id : string)
  | EffectRepeated (id : string)
  | NativeCallInvalid (name : string)
  | ContractUnknown
  | CoordinateWrong
  | VersionRejected (e : VersionError)
  | BoundsContradict
  | TransportUnknown (transport : string)
  | OperationInvalid (id : string)
  | CapabilityInvalid (id : string)
  | CapabilityOutOfRange (id : string)
  | OperationMissing (id : string)
  | LifecycleInvalid (name : string)
  | IdentityInvalid (event : string)
  | UnresolvedInvalid (event : string)
  | RegistrationInvalid (name : string)
  | CatalogsIncomplete.

(** A loop that keeps the keys it has passed. *)
Fixpoint seen_loop {A E} (check : gset string -> A -> option E) (key : A -> string)
    (seen : gset string) (l : list A) : option E :=
  match l with
  | [] => None
  | x :: rest =>
      match check seen x with
      | Some e => Some e
      | None => seen_loop check key ({[key x]} ∪ seen) rest
      end
  end.

(** [strings.TrimSpace(s) == ""]. *)
Definition blank (s : string) : bool := bool_decide (trimmed s = []).

(** [NewNativeCall], whose value is dropped; the third check is its loop over
    the arguments. *)
Definition NewNativeCall (callName : string) (arguments : list string)
    (resultSemantics contextInheritance : string) : option RuntimeError :=
  if blank callName || blank resultSemantics then Some (NativeCallInvalid callName)
  else seen_loop (fun seen a => reject_if (blank a || bool_decide (a ∈ seen)) (NativeCallInvalid callName))
         id ∅ arguments.

Definition validateBinding (b : BindingDescriptor) : option RuntimeError :=
  if String.eqb (bd_ID b) "" || negb (RuntimeClass_IsValid (bd_Class b))
     || String.eqb (bd_InputSchema b) "" || String.eqb (bd_OutputSchema b) ""
     || blank (sm_Summary (bd_Semantics b)) || blank (sm_Result (bd_Semantics b))
  then Some (BindingIncomplete (bd_ID b))
  else or_else
    (seen_loop (fun seen id =>
       match NewEffectID id with
       | None => Some (EffectIdentity id)
       | Some _ => reject_if (bool_decide (id ∈ seen)) (EffectRepeated id)
       end) id ∅ (bd_Effects b))
    (if String.eqb (bd_Class b) RuntimeClassNative then
       NewNativeCall (bd_NativeCall b) (bd_Arguments b) (bd_ResultSemantics b) (bd_ContextInheritance b)
     else if String.eqb (bd_Class b) RuntimeClassParentMediated then
       reject_if (blank (bd_Mediator b) || blank (bd_Instruction b)) (BindingIncomplete (bd_ID b))
     else if String.eqb (bd_Class b) RuntimeClassSemanticInstruction then
       reject_if (blank (bd_Template b)) (BindingIncomplete (bd_ID b))
     else if String.eqb (bd_Class b) RuntimeClassUnsupported then
       reject_if (blank (bd_UnsupportedReason b)) (BindingIncomplete (bd_ID b))
     else None).

Definition parse_version (s : string) : result VersionError HostVersion := ParseHostVersion (to_bytes s).

Definition version_bounds (spec : RuntimeSpecification) : option RuntimeError :=
  match parse_version (rs_Minimum spec) with
  | Err e => Some (VersionRejected e)
  | Ok minimum =>
      if rs_HasUpperBound spec then
        match parse_version (rs_Maximum spec) with
        | Err e => Some (VersionRejected e)
        | Ok maximum =>
            match NewVersionConstraint minimum maximum (rs_IncludesPrereleases spec) with
            | Err e => Some (VersionRejected e)
            | Ok _ => None
            end
        end
      else reject_if (negb (String.eqb (rs_Maximum spec) "") || rs_IncludesPrereleases spec)
                     BoundsContradict
  end.

Definition operation_check (seen : gset string) (op : BindingDescriptor) : option RuntimeError :=
  or_else (validateBinding op)
    (reject_if (bool_decide (bd_ID op ∈ seen) || negb (RuntimeClass_IsValid (bd_Class op))
                || String.eqb (bd_InputSchema op) "" || String.eqb (bd_OutputSchema op) ""
                || blank (sm_Summary (bd_Semantics op))) (OperationInvalid (bd_ID op))).

Definition effect_check (seen : gset string) (effect : BindingDescriptor) : option RuntimeError :=
  match NewEffectID (bd_ID effect) with
  | None => Some (EffectIdentity (bd_ID effect))
  | Some _ => or_else (reject_if (bool_decide (bd_ID effect ∈ seen)) (EffectRepeated (bd_ID effect)))
                      (validateBinding effect)
  end.

Definition capability_check (seen : gset string) (c : CapabilityDescriptor) : option RuntimeError :=
  if negb (CapabilityID_IsValid (cd_ID c)) || negb (CapabilityVersion_IsValid (to_bytes (cd_Version c)))
     || negb (CapabilityVersion_IsValid (to_bytes (cd_Minimum c)))
     || negb (CapabilityVersion_IsValid (to_bytes (cd_Maximum c)))
     || bool_decide (cd_ID c ∈ seen) || negb (String.eqb (bd_ID (cd_Binding c)) (cd_ID c))
  then Some (CapabilityInvalid (cd_ID c))
  else match parse_version (cd_Minimum c), parse_version (cd_Maximum c), parse_version (cd_Version c) with
  | Err e, _, _ => Some (VersionRejected e)
  | Ok _, Err e, _ => Some (VersionRejected e)
  | Ok _, Ok _, Err e => Some (VersionRejected e)
  | Ok min, Ok max, Ok version =>
      if (0 <? ComparePrecedence min version)%Z || (0 <? ComparePrecedence version max)%Z
      then Some (CapabilityOutOfRange (cd_ID c))
      else validateBinding (cd_Binding c)
  end.

Definition lifecycle_identity_check (event : string) (seen : gset string) (id : NativeIdentityField)
    : option RuntimeError :=
  reject_if (negb (NativeIdentityKind_IsValid (nif_kind id)) || String.eqb (nif_nativeName id) ""
             || bool_decide (nif_nativeName id ∈ seen)) (IdentityInvalid event).

Definition lifecycle_check (seen : gset string) (event : LifecycleDescriptor) : option RuntimeError :=
  if String.eqb (ld_Name event) "" || bool_decide (ld_Name event ∈ seen)
     || negb (EventSemantic_IsValid (ld_Semantic event)) || negb (HookSurface_IsValid (ld_Surface event))
     || negb (BlockingMode_IsValid (ld_Blocking event)) || negb (MutationMode_IsValid (ld_Mutation event))
     || negb (HandlerOrder_IsValid (ld_Order event))
     || negb (ReconciliationMode_IsValid (ld_Reconciliation event))
     || negb (FailureMode_IsValid (ld_Failure event)) || negb (FailureMode_IsValid (ld_DeclaredFailure event))
     || negb (ResponseCapability_IsValid (ld_Response event))
     || negb (StopLoopPolicy_IsValid (ld_StopLoop event))
     || negb (IdentityPolicy_IsValid (ld_IdentityPolicy event))
  then Some (LifecycleInvalid (ld_Name event))
  else or_else (seen_loop (lifecycle_identity_check (ld_Name event)) nif_nativeName ∅ (ld_Identities event))
    (first_failure (fun kind => reject_if (negb (NativeIdentityKind_IsValid kind))
                                        (UnresolvedInvalid (ld_Name event)))
       (ld_UnresolvedIdentities event)).

Definition registration_check (rows : gset string) (registered : gset string) (event : RegisteredEvent)
    : option RuntimeError :=
  reject_if (negb (bool_decide (re_NativeName event ∈ rows))
             || bool_decide (re_NativeName event ∈ registered) || (re_Kind event =? 0)%N)
            (RegistrationInvalid (re_NativeName event)).

(** The loops run to their end before the sets they built are read, so the
    sets are the keys of the lists. *)
Definition validateRuntimeSpecification (spec : RuntimeSpecification) : option RuntimeError :=
  let ops : gset string := list_to_set (bd_ID <$> rs_Operations spec) in
  let seen : gset string := list_to_set (ld_Name <$> rs_Lifecycle spec) in
  let registered : gset string := list_to_set (re_NativeName <$> rm_Events (rs_Registration spec)) in
  if negb (bool_decide (rs_Contract spec ∈ RuntimeContracts)) then Some ContractUnknown
  else if negb (bool_decide (registration_coordinate (rs_Contract spec)
                             = Some (rm_Contract (rs_Registration spec)))) then Some CoordinateWrong
  else or_else (version_bounds spec)
  (if negb (String.eqb (rs_NativeTransport spec) "stdin-json-hooks")
      && negb (String.eqb (rs_NativeTransport spec) "plugin-events")
   then Some (TransportUnknown (rs_NativeTransport spec))
   else or_else (seen_loop operation_check bd_ID ∅ (rs_Operations spec))
  (or_else (seen_loop effect_check bd_ID ∅ (rs_Effects spec))
  (or_else (seen_loop capability_check cd_ID ∅ (rs_Capabilities spec))
  (or_else (first_failure (fun id => reject_if (negb (bool_decide (id ∈ ops))) (OperationMissing id))
              coreOperationIDs)
  (or_else (seen_loop lifecycle_check ld_Name ∅ (rs_Lifecycle spec))
  (or_else (seen_loop (registration_check seen) re_NativeName ∅ (rm_Events (rs_Registration spec)))
  (reject_if (negb (size registered =? size seen)%nat) CatalogsIncomplete))))))).

(** ** Session transitions (runtime_versions.go) *)
Inductive TransitionError :=
  | PredicateStray
  | PromptUnsupported
  | EndUnsupported
  | ResumeInexact
  | TransitionUnknown.

Definition transition_check (harness : HarnessID) (event : RegisteredEvent) : option TransitionError :=
  let t := re_SessionTransition event in
  let name := re_NativeName event in
  let command_host := String.eqb harness HarnessClaudeCode || String.eqb harness HarnessCodex in
  if (t =? SessionTransitionNone)%N || (t =? SessionTransitionPrompt)%N || (t =? SessionTransitionEnd)%N then
    if negb (String.eqb (re_TransitionSourceField event) "") then Some PredicateStray
    else if (t =? SessionTransitionPrompt)%N
            && negb ((String.eqb harness HarnessOpenCode && String.eqb name "session.prompt")
                     || (command_host && String.eqb name "UserPromptSubmit")) then Some PromptUnsupported
    else if (t =? SessionTransitionEnd)%N && (negb (String.eqb name "SessionEnd") || negb command_host)
    then Some EndUnsupported
    else None
  else if (t =? SessionTransitionResume)%N then
    reject_if (negb (String.eqb name "SessionStart")
               || negb (String.eqb (re_TransitionSourceField event) "source") || negb command_host)
              ResumeInexact
  else Some TransitionUnknown.

Definition validateRuntimeV2Transitions (spec : RuntimeSpecification) : option TransitionError :=
  first_failure (transition_check (rs_Harness spec)) (rm_Events (rs_Registration spec)).

Definition runtimeID (contract : RuntimeContractID) : string :=
  String.append "pasture.lifecycle.runtime-contract." (ri_value contract).

(** The coordinate guard of [decodeRuntime], past kind, codec and version. *)
Definition runtime_catalog_ok (id : string) (spec : RuntimeSpecification) : bool :=
  ContractID_IsValid (rs_Contract spec) && String.eqb id (runtimeID (rs_Contract spec))
  && String.eqb (rs_Harness spec) (ri_harness (rs_Contract spec))
  && String.eqb (rm_Harness (rs_Registration spec)) (rs_Harness spec)
  && String.eqb (rm_Version (rs_Registration spec)) (rs_Minimum spec)
  && (length (rs_Operations spec) =? length coreOperationIDs)%nat
  && negb (nothing (rs_Lifecycle spec)).

(** * Theorems *)

Lemma seen_loop_spec {A E} (check : gset string -> A -> option E) (key : A -> string) (P : A -> Prop) l :
  (forall seen x, check seen x = None <-> key x ∉ seen /\ P x) -> forall seen,
  seen_loop check key seen l = None <->
  NoDup (key <$> l) /\ Forall (fun x => key x ∉ seen) l /\ Forall P l.
Proof.
  intros Hc. induction l as [|x l IH]; intros seen; cbn [seen_loop].
  { split; [|done]. intros _. split_and!; constructor. }
  rewrite fmap_cons, NoDup_cons, !Forall_cons. pose proof (Hc seen x) as Hx.
  destruct (check seen x) as [e|]; [naive_solver|]. destruct (proj1 Hx eq_refl) as [Hn HP].
  rewrite IH. assert (E' : Forall (fun y => key y ∉ ({[key x]} ∪ seen : gset string)) l <->
    key x ∉ key <$> l /\ Forall (fun y => key y ∉ seen) l).
  { rewrite !Forall_forall, list_elem_of_fmap. set_solver. }
  rewrite E'. tauto.
Qed.

(** What one loop guarantees. *)
Lemma seen_loop_distinct {A E} (check : gset string -> A -> option E) (key : A -> string) (P : A -> Prop) l :
  (forall seen x, check seen x = None <-> key x ∉ seen /\ P x) ->
  seen_loop check key ∅ l = None <-> NoDup (key <$> l) /\ Forall P l.
Proof.
  intros Hc. rewrite (seen_loop_spec check key P l Hc). split; [tauto|]. intros [? ?].
  split_and!; try done. apply Forall_forall. set_solver.
Qed.

Lemma decide_in_false (x : string) (s : gset string) : bool_decide (x ∈ s) = false <-> x ∉ s.
Proof. apply bool_decide_eq_false. Qed.

(** ** Bindings *)

(** A complete binding: named, classed and described, over distinct namespaced
    effects, with the lowering its class owns. *)
Record binding_wf (b : BindingDescriptor) : Prop := {
  bw_named : bd_ID b <> "" /\ bd_InputSchema b <> "" /\ bd_OutputSchema b <> "";
  bw_described : blank (sm_Summary (bd_Semantics b)) = false /\ blank (sm_Result (bd_Semantics b)) = false;
  bw_effects : NoDup (bd_Effects b) /\ Forall (fun id => validateOpaqueID id true = true) (bd_Effects b);
  bw_lowering :
    (bd_Class b = RuntimeClassNative /\ blank (bd_NativeCall b) = false
       /\ blank (bd_ResultSemantics b) = false /\ NoDup (bd_Arguments b)
       /\ Forall (fun a => blank a = false) (bd_Arguments b)) \/
    (bd_Class b = RuntimeClassParentMediated /\ blank (bd_Mediator b) = false
       /\ blank (bd_Instruction b) = false) \/
    (bd_Class b = RuntimeClassSemanticInstruction /\ blank (bd_Template b) = false) \/
    (bd_Class b = RuntimeClassUnsupported /\ blank (bd_UnsupportedReason b) = false);
}.

Lemma NewNativeCall_spec call arguments semantics inheritance :
  NewNativeCall call arguments semantics inheritance = None <->
  blank call = false /\ blank semantics = false /\ NoDup arguments
  /\ Forall (fun a => blank a = false) arguments.
Proof.
  unfold NewNativeCall. rewrite <- (list_fmap_id arguments) at 2.
  pose proof (seen_loop_distinct
    (fun seen a => reject_if (blank a || bool_decide (a ∈ seen)) (NativeCallInvalid call))
    id (fun a => blank a = false) arguments) as Hl.
  rewrite <- Hl; [|intros seen a; rewrite reject_if_None, orb_false_iff, decide_in_false; tauto].
  destruct (blank call), (blank semantics); simpl; naive_solver.
Qed.

Lemma binding_effects_spec effects :
  seen_loop (fun seen id =>
    match NewEffectID id with
    | None => Some (EffectIdentity id)
    | Some _ => reject_if (bool_decide (id ∈ seen)) (EffectRepeated id)
    end) id ∅ effects = None <->
  NoDup effects /\ Forall (fun id => validateOpaqueID id true = true) effects.
Proof.
  rewrite (seen_loop_distinct _ id (fun id => validateOpaqueID id true = true)); [by rewrite list_fmap_id|].
  intros seen x. unfold NewEffectID. destruct (validateOpaqueID x true); [|naive_solver].
  rewrite reject_if_None, decide_in_false. naive_solver.
Qed.

Lemma validateBinding_spec b : validateBinding b = None <-> binding_wf b.
Proof.
  unfold validateBinding. split.
  - destruct (_ || _) eqn:Hg; [done|]. rewrite !orb_false_iff, negb_false_iff, !String.eqb_neq in Hg.
    destruct Hg as [[[[[? Hc] ?] ?] ?] ?]. rewrite or_else_None, binding_effects_spec.
    intros [He Hl]. split; try done. revert Hl.
    apply one_of_spec in Hc. rewrite !elem_of_cons, elem_of_nil in Hc.
    destruct Hc as [E|[E|[E|[E|[]]]]]; rewrite E; simpl;
      rewrite ?NewNativeCall_spec, ?reject_if_None, ?orb_false_iff; tauto.
  - intros [(? & ? & ?) (Hs & Hr) He Hl]. rewrite Hs, Hr.
    assert (Hc : RuntimeClass_IsValid (bd_Class b) = true).
    { apply one_of_spec. rewrite !elem_of_cons. tauto. }
    rewrite Hc, !(proj2 (String.eqb_neq _ _)) by done. simpl.
    rewrite or_else_None, binding_effects_spec. split; [done|].
    destruct Hl as [(-> & Hl)|[(-> & Hl)|[(-> & Hl)|(-> & Hl)]]]; simpl;
      rewrite ?NewNativeCall_spec, ?reject_if_None, ?orb_false_iff; tauto.
Qed.

(** ** Catalogs *)

(** The described version of a capability lies within its bounds. *)
Definition version_within (c : CapabilityDescriptor) : Prop :=
  exists min max version,
    parse_version (cd_Minimum c) = Ok min /\ parse_version (cd_Maximum c) = Ok max /\
    parse_version (cd_Version c) = Ok version /\
    (ComparePrecedence min version <= 0)%Z /\ (ComparePrecedence version max <= 0)%Z.

Record capability_wf (c : CapabilityDescriptor) : Prop := {
  cw_id : CapabilityID_IsValid (cd_ID c) = true;
  cw_versions : Forall (fun v => CapabilityVersion_IsValid (to_bytes v) = true)
                  [cd_Version c; cd_Minimum c; cd_Maximum c];
  cw_within : version_within c;
  cw_bound : bd_ID (cd_Binding c) = cd_ID c;
  cw_binding : binding_wf (cd_Binding c);
}.

Definition lifecycle_enums (e : LifecycleDescriptor) : bool :=
  EventSemantic_IsValid (ld_Semantic e) && HookSurface_IsValid (ld_Surface e)
  && BlockingMode_IsValid (ld_Blocking e) && MutationMode_IsValid (ld_Mutation e)
  && HandlerOrder_IsValid (ld_Order e) && ReconciliationMode_IsValid (ld_Reconciliation e)
  && FailureMode_IsValid (ld_Failure e) && FailureMode_IsValid (ld_DeclaredFailure e)
  && ResponseCapability_IsValid (ld_Response e) && StopLoopPolicy_IsValid (ld_StopLoop e)
  && IdentityPolicy_IsValid (ld_IdentityPolicy e).

Record lifecycle_wf (e : LifecycleDescriptor) : Prop := {
  lw_name : ld_Name e <> "";
  lw_enums : lifecycle_enums e = true;
  lw_identities : NoDup (nif_nativeName <$> ld_Identities e);
  lw_kinds : Forall (fun f => NativeIdentityKind_IsValid (nif_kind f) = true /\ nif_nativeName f <> "")
               (ld_Identities e);
  lw_unresolved : Forall (fun k => NativeIdentityKind_IsValid k = true) (ld_UnresolvedIdentities e);
}.

(** The lifecycle rows and the registered rows of a catalog name the same
    events, each once. *)
Record runtime_wf (spec : RuntimeSpecification) : Prop := {
  rw_contract : rs_Contract spec ∈ RuntimeContracts;
  rw_coordinate : registration_coordinate (rs_Contract spec) = Some (rm_Contract (rs_Registration spec));
  rw_versions : version_bounds spec = None;
  rw_transport : rs_NativeTransport spec ∈ ["stdin-json-hooks"; "plugin-events"];
  rw_operations : NoDup (bd_ID <$> rs_Operations spec) /\ Forall binding_wf (rs_Operations spec);
  rw_core : forall id, id ∈ coreOperationIDs -> id ∈ bd_ID <$> rs_Operations spec;
  rw_effects : NoDup (bd_ID <$> rs_Effects spec) /\
    Forall (fun e => validateOpaqueID (bd_ID e) true = true /\ binding_wf e) (rs_Effects spec);
  rw_capabilities : NoDup (cd_ID <$> rs_Capabilities spec) /\ Forall capability_wf (rs_Capabilities spec);
  rw_lifecycle : NoDup (ld_Name <$> rs_Lifecycle spec) /\ Forall lifecycle_wf (rs_Lifecycle spec);
  rw_registered : re_NativeName <$> rm_Events (rs_Registration spec) ≡ₚ ld_Name <$> rs_Lifecycle spec;
  rw_kinds : Forall (fun e => re_Kind e <> 0%N) (rm_Events (rs_Registration spec));
}.

Lemma operation_check_spec seen op :
  operation_check seen op = None <-> bd_ID op ∉ seen /\ binding_wf op.
Proof.
  unfold operation_check. rewrite or_else_None, validateBinding_spec, reject_if_None.
  rewrite !orb_false_iff, decide_in_false, negb_false_iff, !String.eqb_neq. split; [tauto|].
  intros [Hn Hwf]. split; [done|]. destruct Hwf as [(? & ? & ?) [? ?] _ Hl]. split_and!; try done.
  apply one_of_spec. rewrite !elem_of_cons. tauto.
Qed.

Lemma effect_check_spec seen e :
  effect_check seen e = None <->
  bd_ID e ∉ seen /\ validateOpaqueID (bd_ID e) true = true /\ binding_wf e.
Proof.
  unfold effect_check, NewEffectID. destruct (validateOpaqueID (bd_ID e) true); [|naive_solver].
  rewrite or_else_None, reject_if_None, decide_in_false, validateBinding_spec. tauto.
Qed.

Lemma capability_check_spec seen c :
  capability_check seen c = None <-> cd_ID c ∉ seen /\ capability_wf c.
Proof.
  unfold capability_check. split.
  - destruct (_ || _) eqn:Hg; [done|].
    rewrite !orb_false_iff, decide_in_false, !negb_false_iff, String.eqb_eq in Hg.
    destruct Hg as [[[[[? ?] ?] ?] ?] ?].
    destruct (parse_version (cd_Minimum c)) as [min|] eqn:E1; [|done].
    destruct (parse_version (cd_Maximum c)) as [max|] eqn:E2; [|done].
    destruct (parse_version (cd_Version c)) as [version|] eqn:E3; [|done].
    destruct (Z.ltb_spec 0 (ComparePrecedence min version)); [done|].
    destruct (Z.ltb_spec 0 (ComparePrecedence version max)); [done|]. simpl.
    rewrite validateBinding_spec. intros Hb. split; [done|]. split; try done.
    + by repeat constructor.
    + by exists min, max, version.
  - intros (Hn & [Hid Hv (min & max & version & E1 & E2 & E3 & H1 & H2) Hb Hwf]).
    rewrite !Forall_cons in Hv. destruct Hv as (V1 & V2 & V3 & _).
    rewrite Hid, V1, V2, V3, Hb, String.eqb_refl, bool_decide_false, E1, E2, E3 by done. simpl.
    rewrite (proj2 (Z.ltb_ge _ _)), (proj2 (Z.ltb_ge _ _)) by lia. simpl. by apply validateBinding_spec.
Qed.

Lemma lifecycle_check_spec seen e :
  lifecycle_check seen e = None <-> ld_Name e ∉ seen /\ lifecycle_wf e.
Proof.
  unfold lifecycle_check.
  assert (Hids : seen_loop (lifecycle_identity_check (ld_Name e)) nif_nativeName ∅ (ld_Identities e) = None
    <-> NoDup (nif_nativeName <$> ld_Identities e) /\
        Forall (fun f => NativeIdentityKind_IsValid (nif_kind f) = true /\ nif_nativeName f <> "")
          (ld_Identities e)).
  { apply seen_loop_distinct. intros s f. unfold lifecycle_identity_check.
    rewrite reject_if_None, !orb_false_iff, decide_in_false, negb_false_iff, String.eqb_neq. tauto. }
  assert (Hun : first_failure (fun kind => reject_if (negb (NativeIdentityKind_IsValid kind))
      (UnresolvedInvalid (ld_Name e))) (ld_UnresolvedIdentities e) = None
    <-> Forall (fun k => NativeIdentityKind_IsValid k = true) (ld_UnresolvedIdentities e)).
  { rewrite first_reject_None, Forall_forall. by setoid_rewrite negb_false_iff. }
  destruct (_ || _) eqn:Hg.
  - split; [done|]. intros (Hn & [Hne Hen _ _ _]). exfalso. unfold lifecycle_enums in Hen.
    rewrite (proj2 (String.eqb_neq _ _) Hne), bool_decide_false in Hg by done. simpl in Hg.
    by rewrite <- !negb_andb, Hen in Hg.
  - rewrite or_else_None, Hids, Hun.
    rewrite !orb_false_iff, decide_in_false, String.eqb_neq, !negb_false_iff in Hg.
    assert (lifecycle_enums e = true) by (unfold lifecycle_enums; rewrite !andb_true_iff; tauto).
    assert (ld_Name e <> "" /\ ld_Name e ∉ seen) as [? ?] by tauto.
    split; [intros [[? ?] ?]; split; [done|by split]|]. intros (_ & [? ? ? ? ?]). by split_and!.
Qed.

Lemma registration_check_spec rows seen e :
  registration_check rows seen e = None <->
  re_NativeName e ∉ seen /\ re_NativeName e ∈ rows /\ re_Kind e <> 0%N.
Proof.
  unfold registration_check.
  rewrite reject_if_None, !orb_false_iff, decide_in_false, negb_false_iff, bool_decide_eq_true, N.eqb_neq.
  tauto.
Qed.

(** Distinct names within the rows, as many as there are rows, are the
    rows. *)
Lemma same_catalog (names rows : list string) :
  NoDup rows ->
  (NoDup names /\ Forall (fun n => n ∈ rows) names /\
   size (list_to_set names : gset string) = size (list_to_set rows : gset string)) <-> names ≡ₚ rows.
Proof.
  intros Hr. split.
  - intros (Hn & Hin & Hs). rewrite Forall_forall in Hin. apply NoDup_Permutation; [done..|].
    intros x. split; [apply Hin|]. intros Hx.
    assert (E : (list_to_set names : gset string) = list_to_set rows).
    { apply set_subseteq_size_eq; [intros y Hy; apply elem_of_list_to_set; set_solver|by rewrite Hs]. }
    apply (elem_of_list_to_set (C:=gset string)). rewrite E. by apply elem_of_list_to_set.
  - intros HP. rewrite HP. split_and!; [done| |done]. by rewrite Forall_forall.
Qed.

Lemma catalogs_checked events rows :
  NoDup rows ->
  (seen_loop (registration_check (list_to_set rows)) re_NativeName ∅ events = None /\
   (size (list_to_set (re_NativeName <$> events) : gset string) =? size (list_to_set rows : gset string))%nat
     = true) <->
  re_NativeName <$> events ≡ₚ rows /\ Forall (fun e => re_Kind e <> 0%N) events.
Proof.
  intros Hr. rewrite <- same_catalog by done. rewrite Nat.eqb_eq.
  rewrite (seen_loop_distinct _ re_NativeName
             (fun e => re_NativeName e ∈ (list_to_set rows : gset string) /\ re_Kind e <> 0%N));
    [|intros; apply registration_check_spec].
  rewrite Forall_and, Forall_fmap.
  assert (E : Forall (fun e => re_NativeName e ∈ (list_to_set rows : gset string)) events <->
              Forall ((fun n => n ∈ rows) ∘ re_NativeName) events).
  { apply Forall_iff. intros e. simpl. by rewrite elem_of_list_to_set. }
  rewrite E. tauto.
Qed.

Lemma transport_checked t :
  negb (String.eqb t "stdin-json-hooks") && negb (String.eqb t "plugin-events") = false <->
  t ∈ ["stdin-json-hooks"; "plugin-events"].
Proof.
  rewrite !elem_of_cons, elem_of_nil.
  destruct (String.eqb_spec t "stdin-json-hooks"), (String.eqb_spec t "plugin-events"); simpl; naive_solver.
Qed.

Lemma core_checked spec :
  first_failure (fun id => reject_if (negb (bool_decide
      (id ∈ (list_to_set (bd_ID <$> rs_Operations spec) : gset string)))) (OperationMissing id))
    coreOperationIDs = None <->
  forall id, id ∈ coreOperationIDs -> id ∈ bd_ID <$> rs_Operations spec.
Proof.
  rewrite first_reject_None. setoid_rewrite negb_false_iff. setoid_rewrite bool_decide_eq_true.
  by setoid_rewrite elem_of_list_to_set.
Qed.

(** What the validation admits. *)
Lemma validateRuntimeSpecification_spec spec :
  validateRuntimeSpecification spec = None <-> runtime_wf spec.
Proof.
  unfold validateRuntimeSpecification.
  pass_guards. rewrite transport_checked, core_checked, !negb_decide_false.
  rewrite (seen_loop_distinct _ _ binding_wf) by (intros; apply operation_check_spec).
  rewrite (seen_loop_distinct _ _ (fun e => validateOpaqueID (bd_ID e) true = true /\ binding_wf e))
    by (intros; apply effect_check_spec).
  rewrite (seen_loop_distinct _ _ capability_wf) by (intros; apply capability_check_spec).
  rewrite (seen_loop_distinct _ _ lifecycle_wf) by (intros; apply lifecycle_check_spec).
  rewrite negb_false_iff. split.
  - intros (? & ? & ? & ? & ? & ? & ? & ? & [Hnd Hwf] & Hreg & Hsize).
    destruct (proj1 (catalogs_checked _ _ Hnd) (conj Hreg Hsize)). by split.
  - intros [? ? ? ? ? ? ? ? [Hnd Hwf] Hreg Hk].
    destruct (proj2 (catalogs_checked _ _ Hnd) (conj Hreg Hk)). repeat (assumption || split).
Qed.

(** ** The catalog as a whole *)

(** An accepted runtime catalog is closed. Validation accepts a descriptor
    if and only if it is a catalog of one of the compiled contracts under its
    own registration coordinate, with complete and distinct bindings, every
    core operation bound, every capability within its bounds, and lifecycle
    and registration rows that name the same events, each once; and under the
    decoder's guard on the number of operations these are exactly the core
    operations. *)
Theorem runtime_catalog_exact spec id :
  (validateRuntimeSpecification spec = None <-> runtime_wf spec) /\
  (runtime_catalog_ok id spec = true -> validateRuntimeSpecification spec = None ->
   bd_ID <$> rs_Operations spec ≡ₚ coreOperationIDs).
Proof.
  split; [apply validateRuntimeSpecification_spec|].
  intros Hok [_ _ _ _ [Hnd _] Hcore _ _ _ _ _]%validateRuntimeSpecification_spec.
  unfold runtime_catalog_ok in Hok. rewrite !andb_true_iff, Nat.eqb_eq in Hok.
  destruct Hok as [[_ Hlen] _]. symmetry. apply submseteq_length_Permutation.
  - apply NoDup_submseteq; [by apply (bool_decide_unpack _); vm_compute|exact Hcore].
  - rewrite length_fmap, Hlen. done.
Qed.

(** A small catalog: each core operation lowered to an instruction, one
    lifecycle row, registered. *)
Definition sample_binding (id : string) : BindingDescriptor :=
  mk_Binding id RuntimeClassSemanticInstruction "in/v1" "out/v1"
    (mk_Semantics "does the operation" [] [] "a result") ["pasture.effect"] "" [] "" "" "" ""
    "carry it out" "".
Definition sample_row : LifecycleDescriptor :=
  mk_LifecycleDescriptor "SessionStart" SemanticObservation SurfaceClaudeCommandJSON NonBlocking
    MutationNone OrderConcurrentNative ReconcileNone FailureReportAndContinue FailureReportAndContinue
    unevidenced unevidenced false CapabilityNone StopLoopNotApplicable 2
    [nativeIdentity IdentitySession "session_id" true] [].
Definition sample_event : RegisteredEvent :=
  mk_RegisteredEvent 1 "SessionStart" [1%N] [mk_RegisteredIdentity 1 1 true] NonBlocking MutationNone
    FailureReportAndContinue StopLoopNotApplicable SessionTransitionResume "source".
Definition sample_contract : RuntimeContractID :=
  mk_ContractID HarnessClaudeCode "claude-code/claude-code@2.1.261".
Definition sample_runtime : RuntimeSpecification :=
  {| rs_Contract := sample_contract;
     rs_Harness := HarnessClaudeCode;
     rs_Minimum := "2.1.261";
     rs_Maximum := "";
     rs_HasUpperBound := false;
     rs_IncludesPrereleases := false;
     rs_NativeTransport := "stdin-json-hooks";
     rs_Operations := sample_binding <$> coreOperationIDs;
     rs_Effects := [];
     rs_Capabilities := [];
     rs_Registration := mk_RegisteredManifest HarnessClaudeCode "2.1.261"
       (mk_ContractID HarnessClaudeCode "claude-code/2.1.261") [sample_event];
     rs_Lifecycle := [sample_row] |}.

Lemma runtime_catalog_exact_witness :
  runtime_catalog_ok (runtimeID sample_contract) sample_runtime = true /\
  validateRuntimeSpecification sample_runtime = None /\
  bd_ID <$> rs_Operations sample_runtime ≡ₚ coreOperationIDs.
Proof.
  split; [by vm_compute|]. split; [by vm_compute|].
  apply (proj2 (runtime_catalog_exact sample_runtime (runtimeID sample_contract))); by vm_compute.
Defined.

(** The compiled contracts are valid identities of their hosts, and each
    delivery coordinate leads back to one of them. *)
Lemma contract_ids_valid :
  forallb (fun p => ContractID_IsValid p.1 && ContractID_IsValid p.2
                    && String.eqb (ri_harness p.1) (ri_harness p.2)
                    && bool_decide (RuntimeContractForDelivery p.2 = Some p.1)) contract_ids = true.
Proof. by vm_compute. Qed.
