(* ===== verification/OwnerDocuments.v ===== *)
(** OwnerDocuments: the immutable documents of the five definition owners and
    their decoders (internal/lifecycle/definitions/document.go, epoch.go,
    schema.go, interpreter.go, retention.go, runtime.go, active.go, compat.go).

    A document is decoded by the codec of its owner and version, checked, and
    kept in the canonical form of the journal.  Only a constructor, which reads
    the body compiled into the binary, marks a document as built by its owner;
    nothing else can be activated.  The interface [DocumentCodec] is what the
    owners use of other code: encoding/json on the struct of each document, the
    journal's canonical form (provenance), SHA-256, and the embedded bodies. *)

From Stdlib Require Import NArith ZArith Lia Ascii String.
From stdpp Require Import base tactics list strings gmap.
From S2P Require Import Prelude GoStrings Gate JsonMembers SourceManifest EpochDescriptor OwnerDescriptors RuntimeDescriptor.
Local Open Scope string_scope.
Local Open Scope list_scope.

(** ** Documents *)
Definition DefinitionCanonicalJSON : N := 1%N.
Definition EvidenceKind : string := "pasture.lifecycle.definition.v2".

(** The JSON struct of a document, over its specification. Lists and maps do
    not tell a nil one from an empty one; [wd_Nil] has the members that are
    nil. *)
Record wireDocument (S : Type) := mk_Wire {
  wd_Kind : N;
  wd_ID : string;
  wd_Version : N;
  wd_Codec : N;
  wd_Specification : S;
  wd_Nil : gset string;
}.
Arguments mk_Wire {S}.
Arguments wd_Kind {S}.
Arguments wd_ID {S}.
Arguments wd_Version {S}.
Arguments wd_Codec {S}.
Arguments wd_Specification {S}.
Arguments wd_Nil {S}.

Record Document := mk_Document {
  d_kind : N;
  d_id : string;
  d_version : N;
  d_codec : N;
  d_body : bytes;
  d_content : ContentIdentity;
  d_ownerBuilt : bool;
}.
#[export] Instance Document_eq_dec : EqDecision Document.
Proof. solve_decision. Defined.

(** [strictDecode] rejects unknown fields, so each struct has its own decoder;
    [decode_runtime_v1] is that of the released shape, whose value is dropped. *)
Class DocumentCodec := {
  codec_decoder :: JsonDecoder;
  codec_range :: MapRange;
  decode_epoch : bytes -> option (wireDocument EpochSpecification);
  decode_schema : bytes -> option (wireDocument SchemaSpecification);
  decode_retention : bytes -> option (wireDocument RetentionSpecification);
  decode_interpreter : bytes -> option (wireDocument InterpreterSpecification);
  decode_runtime : bytes -> option (wireDocument RuntimeSpecification);
  decode_runtime_v1 : bytes -> option unit;
  decode_kind : bytes -> option N;
  Sum256 : bytes -> ContentIdentity;
  Canonicalize : string -> ContentIdentity -> bytes -> option bytes;
  marshal_coordinate : N -> string -> N -> N -> ContentIdentity -> bytes;
  generatedBodies : string -> option bytes;
}.

Inductive DocumentError :=
  | Malformed
  | VersionUnsupported (version : N)
  | CoordinateInvalid
  | EpochRejected (e : EpochError)
  | SchemaRejected (e : SchemaError)
  | RetentionRejected (e : RetentionError)
  | InterpreterRejected (e : InterpreterError)
  | RuntimeRejected (e : RuntimeError)
  | TransitionsRejected (e : TransitionError)
  | MembersRejected (e : JsonError)
  | CodecRefused
  | NotIdempotent
  | KindUnsupported (kind : N)
  | BodyMissing (name : string)
  | WrongOwner
  | NotOwnerBuilt (slot : string)
  | OwnerDuplicated.

Definition EpochDocumentID : string := "pasture.epoch.implementation".
Definition SchemaDocumentID : string := "pasture.lifecycle.occurrence-schema".
Definition RetentionDocumentID : string := "pasture.lifecycle.retention.store-all".
Definition InterpreterDocumentID : string := "pasture.lifecycle.interpreter".

Section owners.
Context `{DocumentCodec}.

Definition Document_IsValid (d : Document) : bool :=
  d_ownerBuilt d && IsEnvelopeDefinitionKind (d_kind d) && negb (String.eqb (d_id d) "")
  && (0 <? d_version d)%N && (d_codec d =? DefinitionCanonicalJSON)%N
  && (0 <? length (d_body d))%nat && bool_decide (d_content d = Sum256 (d_body d)).

Definition NormalizePayload (kind : string) (payload : bytes) : result DocumentError bytes :=
  match uniqueMembers payload with
  | Some e => Err (MembersRejected e)
  | None =>
      match Canonicalize kind (Sum256 payload) payload with
      | None => Err CodecRefused
      | Some out => Ok out
      end
  end.

(** The duplicate check, then the struct. *)
Definition strictDecode {A} (decode : bytes -> option A) (payload : bytes) : result DocumentError A :=
  match uniqueMembers payload with
  | Some e => Err (MembersRejected e)
  | None => match decode payload with Some wire => Ok wire | None => Err Malformed end
  end.

(** The end of every decoder: normalize, and check that normalizing again
    changes nothing. *)
Definition finish {S} (wire : wireDocument S) (payload : bytes) : result DocumentError Document :=
  match NormalizePayload EvidenceKind payload with
  | Err e => Err e
  | Ok normalized =>
      match NormalizePayload EvidenceKind normalized with
      | Err _ => Err NotIdempotent
      | Ok second =>
          if negb (bool_decide (normalized = second)) then Err NotIdempotent
          else Ok (mk_Document (wd_Kind wire) (wd_ID wire) (wd_Version wire) (wd_Codec wire)
                     normalized (Sum256 normalized) false)
      end
  end.

Definition decodeEpoch (payload : bytes) : result DocumentError Document :=
  match strictDecode decode_epoch payload with
  | Err e => Err e
  | Ok wire =>
      let v := wd_Version wire in
      if negb ((v =? 1) || (v =? 2) || (v =? 3))%N then Err (VersionUnsupported v)
      else if negb (wd_Kind wire =? DefinitionEpochImplementation)%N
              || (negb (v =? 1) && negb (v =? 2) && negb (v =? 3))%N
              || negb (wd_Codec wire =? DefinitionCanonicalJSON)%N
              || negb (String.eqb (wd_ID wire) EpochDocumentID) then Err CoordinateInvalid
      else match validateEpochSpecification (wd_Specification wire) with
      | Some e => Err (EpochRejected e)
      | None => finish wire payload
      end
  end.

Definition decodeSchema (payload : bytes) : result DocumentError Document :=
  match strictDecode decode_schema payload with
  | Err e => Err e
  | Ok wire =>
      let v := wd_Version wire in
      if negb ((v =? 1) || (v =? 2))%N then Err (VersionUnsupported v)
      else if negb (wd_Kind wire =? DefinitionLifecycleSchema)%N
              || negb (wd_Codec wire =? DefinitionCanonicalJSON)%N
              || negb (String.eqb (wd_ID wire) SchemaDocumentID) then Err CoordinateInvalid
      else match validateSchemaSpecification (wd_Specification wire) with
      | Some e => Err (SchemaRejected e)
      | None => finish wire payload
      end
  end.

Definition decodeRetention (payload : bytes) : result DocumentError Document :=
  match strictDecode decode_retention payload with
  | Err e => Err e
  | Ok wire =>
      let v := wd_Version wire in
      if negb (v =? 1)%N then Err (VersionUnsupported v)
      else if negb (wd_Kind wire =? DefinitionRetentionPolicy)%N || negb (v =? 1)%N
              || negb (wd_Codec wire =? DefinitionCanonicalJSON)%N
              || negb (String.eqb (wd_ID wire) RetentionDocumentID) then Err CoordinateInvalid
      else match validateRetentionSpecification (wd_Specification wire) with
      | Some e => Err (RetentionRejected e)
      | None => finish wire payload
      end
  end.

Definition decodeInterpreter (payload : bytes) : result DocumentError Document :=
  match strictDecode decode_interpreter payload with
  | Err e => Err e
  | Ok wire =>
      let v := wd_Version wire in
      if negb ((v =? 1) || (v =? 2))%N then Err (VersionUnsupported v)
      else if negb (wd_Kind wire =? DefinitionInterpreter)%N
              || negb (wd_Codec wire =? DefinitionCanonicalJSON)%N
              || negb (String.eqb (wd_ID wire) InterpreterDocumentID) then Err CoordinateInvalid
      else match validateInterpreterSpecification (wd_Specification wire) with
      | Some e => Err (InterpreterRejected e)
      | None => finish wire payload
      end
  end.

Definition validateRuntimeV1Shape (payload : bytes) : option DocumentError :=
  match strictDecode decode_runtime_v1 payload with Err e => Some e | Ok _ => None end.

Definition decodeRuntime (payload : bytes) : result DocumentError Document :=
  match strictDecode decode_runtime payload with
  | Err e => Err e
  | Ok wire =>
      let v := wd_Version wire in
      let spec := wd_Specification wire in
      let arm :=
        if (v =? 1)%N then validateRuntimeV1Shape payload
        else if (v =? 2)%N then TransitionsRejected <$> validateRuntimeV2Transitions spec
        else Some (VersionUnsupported v) in
      match arm with
      | Some e => Err e
      | None =>
          if negb (wd_Kind wire =? DefinitionRuntimeContract)%N
             || negb (wd_Codec wire =? DefinitionCanonicalJSON)%N
             || negb (runtime_catalog_ok (wd_ID wire) spec) then Err CoordinateInvalid
          else match validateRuntimeSpecification spec with
          | Some e => Err (RuntimeRejected e)
          | None => finish wire payload
          end
      end
  end.

Definition Decode (payload : bytes) : result DocumentError Document :=
  match uniqueMembers payload with
  | Some e => Err (MembersRejected e)
  | None =>
      match decode_kind payload with
      | None => Err Malformed
      | Some kind =>
          if (kind =? DefinitionRuntimeContract)%N then decodeRuntime payload
          else if (kind =? DefinitionLifecycleSchema)%N then decodeSchema payload
          else if (kind =? DefinitionInterpreter)%N then decodeInterpreter payload
          else if (kind =? DefinitionEpochImplementation)%N then decodeEpoch payload
          else if (kind =? DefinitionRetentionPolicy)%N then decodeRetention payload
          else Err (KindUnsupported kind)
      end
  end.

(** ** Constructors *)
Definition generatedBody (name : string) : result DocumentError bytes :=
  match generatedBodies name with Some body => Ok body | None => Err (BodyMissing name) end.

Definition own (d : Document) : Document :=
  mk_Document (d_kind d) (d_id d) (d_version d) (d_codec d) (d_body d) (d_content d) true.

(** The four constructors over a fixed body differ in the body, the decoder
    and the identity. *)
Definition construct (name : string) (decode : bytes -> result DocumentError Document) (id : string)
    : result DocumentError Document :=
  match generatedBody name with
  | Err e => Err e
  | Ok body =>
      match decode body with
      | Err e => Err e
      | Ok document =>
          if negb (String.eqb (d_id document) id) then Err WrongOwner else Ok (own document)
      end
  end.
Definition NewEpochImplementation := construct "generated/epoch.json" decodeEpoch EpochDocumentID.
Definition NewLifecycleSchema := construct "generated/schema.json" decodeSchema SchemaDocumentID.
Definition NewRetentionPolicy :=
  construct "generated/retention.json" decodeRetention RetentionDocumentID.
Definition NewInterpreter :=
  construct "generated/interpreter.json" decodeInterpreter InterpreterDocumentID.

(** The body of a runtime contract is named by the position of the contract. *)
Definition generatedRuntimeBody (contract : RuntimeContractID) : result DocumentError bytes :=
  match list_find (fun registered => registered = contract) RuntimeContracts with
  | None => Err (BodyMissing (ri_value contract))
  | Some (index, _) =>
      generatedBody (String.append "generated/runtime-"
                       (String.append (format_int (Z.of_nat index)) ".json"))
  end.
Definition NewRuntimeContract (contract : RuntimeContractID) : result DocumentError Document :=
  match generatedRuntimeBody contract with
  | Err e => Err e
  | Ok body =>
      match decodeRuntime body with
      | Err e => Err e
      | Ok document =>
          if negb (String.eqb (d_id document) (runtimeID contract)) then Err WrongOwner
          else Ok (own document)
      end
  end.

Definition Coordinate (d : Document) : bytes :=
  marshal_coordinate (d_kind d) (d_id d) (d_version d) (d_codec d) (d_content d).

(** ** The documents of one contract (active.go) *)
Record ActiveDocuments := mk_Active {
  ad_Runtime : Document;
  ad_Schema : Document;
  ad_EpochImplementation : Document;
  ad_Retention : Document;
  ad_Interpreter : Document;
}.

(** [string(kind)] is the UTF-8 encoding of the rune [kind], not its digits. *)
Definition rune_string (kind : N) : bytes :=
  if (kind <? 128)%N then [ascii_of_N kind]
  else [ascii_of_N (0xC0 + kind / 64); ascii_of_N (0x80 + kind mod 64)]%N.
Definition owner_key (d : Document) : string :=
  of_bytes (rune_string (d_kind d) ++ to_bytes "/" ++ to_bytes (d_id d)).

Fixpoint slot_loop (seen : gset string) (slots : list (string * Document)) : option DocumentError :=
  match slots with
  | [] => None
  | (name, document) :: rest =>
      if negb (Document_IsValid document) then Some (NotOwnerBuilt name)
      else if bool_decide (owner_key document ∈ seen) then Some OwnerDuplicated
      else slot_loop ({[owner_key document]} ∪ seen) rest
  end.

Definition slots_of (d : ActiveDocuments) : list (string * Document) :=
  [("runtime", ad_Runtime d); ("schema", ad_Schema d);
   ("epoch-implementation", ad_EpochImplementation d); ("retention", ad_Retention d);
   ("interpreter", ad_Interpreter d)].

Definition ActiveDocuments_Validate (d : ActiveDocuments) : option DocumentError :=
  slot_loop ∅ (slots_of d).

Definition ActiveForContract (contract : RuntimeContractID) : result DocumentError ActiveDocuments :=
  runtime ← NewRuntimeContract contract;
  schema ← NewLifecycleSchema;
  implementation ← NewEpochImplementation;
  retention ← NewRetentionPolicy;
  interpreter ← NewInterpreter;
  let documents := mk_Active runtime schema implementation retention interpreter in
  match ActiveDocuments_Validate documents with
  | Some e => Err e
  | None => Ok documents
  end.

(** ** Source-inventory updates (compat.go) *)

(** The parsers of the specifications, over the decoder of the owner. *)
Definition parse_specification {S} (decode_wire : bytes -> option (wireDocument S))
    (decode : bytes -> result DocumentError Document) (id : string) (body : bytes)
    : result DocumentError (S * gset string) :=
  match strictDecode decode_wire body with
  | Err e => Err e
  | Ok wire =>
      match decode body with
      | Err e => Err e
      | Ok doc =>
          if negb (String.eqb (d_id doc) id) then Err WrongOwner
          else Ok (wd_Specification wire, wd_Nil wire)
      end
  end.
Definition ParseEpochSpecification :=
  parse_specification decode_epoch decodeEpoch EpochDocumentID.
Definition ParseSchemaSpecification :=
  parse_specification decode_schema decodeSchema SchemaDocumentID.
Definition ParseRetentionSpecification :=
  parse_specification decode_retention decodeRetention RetentionDocumentID.
Definition ParseInterpreterSpecification :=
  parse_specification decode_interpreter decodeInterpreter InterpreterDocumentID.

Definition epoch_without_sources (spec : EpochSpecification) : EpochSpecification :=
  {| es_Cohort := es_Cohort spec;
     es_ProtocolTransitions := es_ProtocolTransitions spec;
     es_ConsensusGated := es_ConsensusGated spec;
     es_BlockerGated := es_BlockerGated spec;
     es_ReviseDrivesBack := es_ReviseDrivesBack spec;
     es_Phases := es_Phases spec;
     es_Roles := es_Roles spec;
     es_Workflows := es_Workflows spec;
     es_WriteClasses := es_WriteClasses spec;
     es_SignalTopics := es_SignalTopics spec;
     es_QueryNames := es_QueryNames spec;
     es_Queues := es_Queues spec;
     es_Sources := [] |}.
Definition interpreter_without_sources (spec : InterpreterSpecification) : InterpreterSpecification :=
  {| in_Pipeline := in_Pipeline spec;
     in_Semantics := in_Semantics spec;
     in_Terminals := in_Terminals spec;
     in_UnresolvedReasons := in_UnresolvedReasons spec;
     in_IdentityKinds := in_IdentityKinds spec;
     in_IdentityBounds := in_IdentityBounds spec;
     in_DecisionKinds := in_DecisionKinds spec;
     in_RecordKinds := in_RecordKinds spec;
     in_VocabularyRule := in_VocabularyRule spec;
     in_Sources := [] |}.

(** [reflect.DeepEqual] once both source lists are nil. *)
Definition same_but_sources {S} `{EqDecision S} (strip : S -> S) (before after : S * gset string) : bool :=
  bool_decide (strip before.1 = strip after.1)
  && bool_decide (before.2 ∪ {["sources"]} = after.2 ∪ {["sources"]}).

Definition CompatibleSourceInventoryUpdate (existing : bytes) (incoming : Document)
    : result DocumentError bool :=
  if negb (Document_IsValid incoming) then Ok false
  else
    committed ← Decode existing;
    if negb (d_kind committed =? d_kind incoming)%N || negb (String.eqb (d_id committed) (d_id incoming))
       || negb (d_version committed =? d_version incoming)%N
       || negb (d_codec committed =? d_codec incoming)%N then Ok false
    else if (d_kind incoming =? DefinitionEpochImplementation)%N then
      before ← ParseEpochSpecification existing;
      after ← ParseEpochSpecification (d_body incoming);
      Ok (same_but_sources epoch_without_sources before after)
    else if (d_kind incoming =? DefinitionInterpreter)%N then
      before ← ParseInterpreterSpecification existing;
      after ← ParseInterpreterSpecification (d_body incoming);
      Ok (same_but_sources interpreter_without_sources before after)
    else Ok false.
End owners.

(** * Theorems *)

Section documents.
Context `{DocumentCodec}.

(** ** What a decoder returns *)

(** The specification of a payload passed the contract of the owner of a
    kind. *)
Definition owner_accepts (kind : N) (payload : bytes) : Prop :=
  (kind = DefinitionEpochImplementation /\ exists w, decode_epoch payload = Some w /\
     validateEpochSpecification (wd_Specification w) = None) \/
  (kind = DefinitionLifecycleSchema /\ exists w, decode_schema payload = Some w /\
     validateSchemaSpecification (wd_Specification w) = None) \/
  (kind = DefinitionRetentionPolicy /\ exists w, decode_retention payload = Some w /\
     validateRetentionSpecification (wd_Specification w) = None) \/
  (kind = DefinitionInterpreter /\ exists w, decode_interpreter payload = Some w /\
     validateInterpreterSpecification (wd_Specification w) = None) \/
  (kind = DefinitionRuntimeContract /\ exists w, decode_runtime payload = Some w /\
     validateRuntimeSpecification (wd_Specification w) = None).

(** The kinds a decoder exists for, and the versions each has an arm for. *)
Definition versioned (kind version : N) : bool :=
  if (kind =? DefinitionEpochImplementation)%N then ((version =? 1) || (version =? 2) || (version =? 3))%N
  else if (kind =? DefinitionRetentionPolicy)%N then (version =? 1)%N
  else if IsEnvelopeDefinitionKind kind then ((version =? 1) || (version =? 2))%N
  else false.

(** A decoded document: an admitted kind and version, the payload in canonical
    form, addressed by its digest, and not built by its owner. *)
Record decoded_wf (payload : bytes) (d : Document) : Prop := {
  dw_not_owned : d_ownerBuilt d = false;
  dw_supported : versioned (d_kind d) (d_version d) = true;
  dw_codec : d_codec d = DefinitionCanonicalJSON;
  dw_id : d_id d <> "";
  dw_accepted : owner_accepts (d_kind d) payload;
  dw_unique : uniqueMembers payload = None;
  dw_normal : NormalizePayload EvidenceKind payload = Ok (d_body d);
  dw_canonical : NormalizePayload EvidenceKind (d_body d) = Ok (d_body d);
  dw_content : d_content d = Sum256 (d_body d);
}.

Lemma finish_Ok {S} (wire : wireDocument S) payload d :
  finish wire payload = Ok d ->
  d_kind d = wd_Kind wire /\ d_id d = wd_ID wire /\ d_version d = wd_Version wire /\
  d_codec d = wd_Codec wire /\ d_ownerBuilt d = false /\
  NormalizePayload EvidenceKind payload = Ok (d_body d) /\
  NormalizePayload EvidenceKind (d_body d) = Ok (d_body d) /\ d_content d = Sum256 (d_body d).
Proof.
  unfold finish. destruct (NormalizePayload EvidenceKind payload) as [n|]; [|done].
  destruct (NormalizePayload EvidenceKind n) as [s|] eqn:E; [|done].
  case_bool_decide as Hs; [|done]. subst s. by intros [= <-].
Qed.

Lemma strictDecode_Ok {A} (decode : bytes -> option A) payload wire :
  strictDecode decode payload = Ok wire -> uniqueMembers payload = None /\ decode payload = Some wire.
Proof.
  unfold strictDecode. destruct (uniqueMembers payload); [done|].
  destruct (decode payload); [|done]. by intros [= ->].
Qed.

(** The last step of each decoder, from the coordinate and the contract. *)
Lemma finish_wf {S} (wire : wireDocument S) payload d :
  finish wire payload = Ok d -> uniqueMembers payload = None ->
  versioned (wd_Kind wire) (wd_Version wire) = true -> wd_Codec wire = DefinitionCanonicalJSON ->
  wd_ID wire <> "" -> owner_accepts (wd_Kind wire) payload -> decoded_wf payload d.
Proof.
  intros (Hk & Hi & Hv & Hc & Ho & Hn & Hcn & Hd)%finish_Ok Hu Hs Hco Hid Ha.
  by split; rewrite ?Hk, ?Hi, ?Hv, ?Hc.
Qed.

Ltac open_decoder :=
  match goal with |- context [strictDecode ?f ?p] =>
    destruct (strictDecode f p) as [w|] eqn:Ew; [|done];
    apply strictDecode_Ok in Ew as [Hu Ew]
  end.

Ltac pass_guard H :=
  match goal with |- context [if ?b then Err _ else _] => destruct b eqn:H; [done|] end.

Ltac refused_guard H :=
  match type of H with context [if ?b then Err _ else _] => destruct b; [done|] end.

Lemma decodeEpoch_wf p d :
  decodeEpoch p = Ok d -> decoded_wf p d /\ d_kind d = DefinitionEpochImplementation /\ d_id d = EpochDocumentID.
Proof.
  unfold decodeEpoch. open_decoder. pass_guard Hv.
  pass_guard Hg. destruct (validateEpochSpecification _) eqn:Hs; [done|].
  rewrite !orb_false_iff, !negb_false_iff, !N.eqb_eq, String.eqb_eq in Hg.
  destruct Hg as [[[Hk _] Hc] Hi]. intros Hf. pose proof (finish_Ok _ _ _ Hf) as (Ek & Ei & _).
  split; [|by rewrite Ek, Ei]. apply (finish_wf _ _ _ Hf Hu); try done.
  - apply negb_false_iff in Hv. rewrite Hk. exact Hv.
  - by rewrite Hi.
  - rewrite Hk. left. eauto.
Qed.

Lemma decodeSchema_wf p d :
  decodeSchema p = Ok d -> decoded_wf p d /\ d_kind d = DefinitionLifecycleSchema /\ d_id d = SchemaDocumentID.
Proof.
  unfold decodeSchema. open_decoder. pass_guard Hv.
  pass_guard Hg. destruct (validateSchemaSpecification _) eqn:Hs; [done|].
  rewrite !orb_false_iff, !negb_false_iff, !N.eqb_eq, String.eqb_eq in Hg.
  destruct Hg as [[Hk Hc] Hi]. intros Hf. pose proof (finish_Ok _ _ _ Hf) as (Ek & Ei & _).
  split; [|by rewrite Ek, Ei]. apply (finish_wf _ _ _ Hf Hu); try done.
  - apply negb_false_iff in Hv. rewrite Hk. exact Hv.
  - by rewrite Hi.
  - rewrite Hk. right; left. eauto.
Qed.

Lemma decodeRetention_wf p d :
  decodeRetention p = Ok d ->
  decoded_wf p d /\ d_kind d = DefinitionRetentionPolicy /\ d_id d = RetentionDocumentID.
Proof.
  unfold decodeRetention. open_decoder. pass_guard Hv.
  pass_guard Hg. destruct (validateRetentionSpecification _) eqn:Hs; [done|].
  rewrite !orb_false_iff, !negb_false_iff, !N.eqb_eq, String.eqb_eq in Hg.
  destruct Hg as [[[Hk _] Hc] Hi]. intros Hf. pose proof (finish_Ok _ _ _ Hf) as (Ek & Ei & _).
  split; [|by rewrite Ek, Ei]. apply (finish_wf _ _ _ Hf Hu); try done.
  - apply negb_false_iff in Hv. rewrite Hk. exact Hv.
  - by rewrite Hi.
  - rewrite Hk. do 2 right; left. eauto.
Qed.

Lemma decodeInterpreter_wf p d :
  decodeInterpreter p = Ok d ->
  decoded_wf p d /\ d_kind d = DefinitionInterpreter /\ d_id d = InterpreterDocumentID.
Proof.
  unfold decodeInterpreter. open_decoder. pass_guard Hv.
  pass_guard Hg. destruct (validateInterpreterSpecification _) eqn:Hs; [done|].
  rewrite !orb_false_iff, !negb_false_iff, !N.eqb_eq, String.eqb_eq in Hg.
  destruct Hg as [[Hk Hc] Hi]. intros Hf. pose proof (finish_Ok _ _ _ Hf) as (Ek & Ei & _).
  split; [|by rewrite Ek, Ei]. apply (finish_wf _ _ _ Hf Hu); try done.
  - apply negb_false_iff in Hv. rewrite Hk. exact Hv.
  - by rewrite Hi.
  - rewrite Hk. do 3 right; left. eauto.
Qed.

Lemma decodeRuntime_wf p d :
  decodeRuntime p = Ok d -> decoded_wf p d /\ d_kind d = DefinitionRuntimeContract.
Proof.
  unfold decodeRuntime. open_decoder. set (arm := if (_ =? 1)%N then _ else _).
  destruct arm eqn:Harm; [done|]. pass_guard Hg.
  destruct (validateRuntimeSpecification _) eqn:Hs; [done|].
  rewrite !orb_false_iff, !negb_false_iff, !N.eqb_eq in Hg. destruct Hg as [[Hk Hc] Hok].
  intros Hf. pose proof (finish_Ok _ _ _ Hf) as (Ek & _).
  split; [|by rewrite Ek]. apply (finish_wf _ _ _ Hf Hu); try done.
  - rewrite Hk. unfold arm in Harm. unfold versioned. simpl.
    destruct (wd_Version w =? 1)%N; [done|]. by destruct (wd_Version w =? 2)%N.
  - unfold runtime_catalog_ok in Hok. rewrite !andb_true_iff, String.eqb_eq in Hok.
    destruct Hok as [[[[[[_ ->] _] _] _] _] _]. done.
  - rewrite Hk. do 4 right. eauto.
Qed.

Lemma Decode_wf p d : Decode p = Ok d -> decoded_wf p d.
Proof.
  unfold Decode. destruct (uniqueMembers p); [done|]. destruct (decode_kind p); [|done].
  repeat case_match; [intros Hd%decodeRuntime_wf|intros Hd%decodeSchema_wf|intros Hd%decodeInterpreter_wf|
    intros Hd%decodeEpoch_wf|intros Hd%decodeRetention_wf|done]; tauto.
Qed.

(** ** Ownership *)

Lemma versioned_admitted kind version :
  versioned kind version = true -> IsEnvelopeDefinitionKind kind = true /\ (0 <? version)%N = true.
Proof.
  intros Hv. assert (Hpos : (version <> 0)%N).
  { intros ->. unfold versioned in Hv. by repeat case_match. }
  split; [|apply N.ltb_lt; lia]. unfold versioned in Hv.
  destruct (N.eqb_spec kind DefinitionEpochImplementation) as [->|]; [done|].
  destruct (N.eqb_spec kind DefinitionRetentionPolicy) as [->|]; [done|].
  by destruct (IsEnvelopeDefinitionKind kind).
Qed.

Lemma decoded_owned_valid p d : decoded_wf p d -> Document_IsValid (own d) = true.
Proof.
  intros [_ Hs Hc Hi _ _ _ Hcn Hd]. apply versioned_admitted in Hs as [Hk Hv].
  unfold Document_IsValid. simpl. rewrite Hk, Hv, Hc, (proj2 (String.eqb_neq _ _) Hi), bool_decide_true by done.
  simpl. rewrite andb_true_r. apply Nat.ltb_lt.
  assert (Hu : uniqueMembers (d_body d) = None).
  { unfold NormalizePayload in Hcn. by destruct (uniqueMembers (d_body d)). }
  apply uniqueMembers_nonempty in Hu. destruct (d_body d); [done|simpl; lia].
Qed.

Lemma own_wf p d : decoded_wf p d -> Document_IsValid d = false.
Proof. intros [Ho _ _ _ _ _ _ _ _]. unfold Document_IsValid. by rewrite Ho. Qed.

Lemma construct_Ok name decode id d :
  construct name decode id = Ok d ->
  exists body d0, generatedBodies name = Some body /\ decode body = Ok d0 /\ d = own d0 /\ d_id d0 = id.
Proof.
  unfold construct, generatedBody. destruct (generatedBodies name) as [body|]; [|done].
  destruct (decode body) as [d0|] eqn:E; [|done]. destruct (String.eqb_spec (d_id d0) id); [|done].
  simpl. intros [= <-]. by exists body, d0.
Qed.

Lemma NewRuntimeContract_Ok c d :
  NewRuntimeContract c = Ok d ->
  exists body d0, decodeRuntime body = Ok d0 /\ d = own d0 /\ d_id d0 = runtimeID c.
Proof.
  unfold NewRuntimeContract. destruct (generatedRuntimeBody c) as [body|]; [|done].
  destruct (decodeRuntime body) as [d0|] eqn:E; [|done].
  destruct (String.eqb_spec (d_id d0) (runtimeID c)); [|done]. simpl. intros [= <-]. by exists body, d0.
Qed.

(** The documents a binary builds, by owner. *)
Definition owned (kind : N) (d : Document) : Prop := Document_IsValid d = true /\ d_kind d = kind.

Lemma constructed_owned c d :
  (NewRuntimeContract c = Ok d -> owned DefinitionRuntimeContract d) /\
  (NewLifecycleSchema = Ok d -> owned DefinitionLifecycleSchema d) /\
  (NewEpochImplementation = Ok d -> owned DefinitionEpochImplementation d) /\
  (NewRetentionPolicy = Ok d -> owned DefinitionRetentionPolicy d) /\
  (NewInterpreter = Ok d -> owned DefinitionInterpreter d).
Proof.
  split_and!.
  - intros (b & d0 & Hd & -> & _)%NewRuntimeContract_Ok. apply decodeRuntime_wf in Hd as [Hwf Hk].
    split; [by eapply decoded_owned_valid|done].
  - intros (b & d0 & _ & Hd & -> & _)%construct_Ok. apply decodeSchema_wf in Hd as (Hwf & Hk & _).
    split; [by eapply decoded_owned_valid|done].
  - intros (b & d0 & _ & Hd & -> & _)%construct_Ok. apply decodeEpoch_wf in Hd as (Hwf & Hk & _).
    split; [by eapply decoded_owned_valid|done].
  - intros (b & d0 & _ & Hd & -> & _)%construct_Ok. apply decodeRetention_wf in Hd as (Hwf & Hk & _).
    split; [by eapply decoded_owned_valid|done].
  - intros (b & d0 & _ & Hd & -> & _)%construct_Ok. apply decodeInterpreter_wf in Hd as (Hwf & Hk & _).
    split; [by eapply decoded_owned_valid|done].
Qed.

(** ** The set of one contract *)

(** Keys of documents of different small kinds differ in their first byte. *)
Lemma owner_key_kind d1 d2 :
  (d_kind d1 < 128)%N -> (d_kind d2 < 128)%N -> owner_key d1 = owner_key d2 -> d_kind d1 = d_kind d2.
Proof.
  intros H1 H2 E. apply (f_equal list_ascii_of_string) in E. unfold owner_key in E.
  rewrite !to_of_bytes in E. unfold rune_string in E.
  rewrite (proj2 (N.ltb_lt _ _) H1), (proj2 (N.ltb_lt _ _) H2) in E. simpl in E.
  injection E as E _. apply (f_equal N_of_ascii) in E. by rewrite !N_ascii_embedding in E by lia.
Qed.

Lemma distinct_keys ds :
  NoDup (d_kind <$> ds) -> Forall (fun d => (d_kind d < 128)%N) ds -> NoDup (owner_key <$> ds).
Proof.
  intros Hn Hs. induction ds as [|d ds IH]; [constructor|].
  rewrite fmap_cons in *. apply NoDup_cons in Hn as [Hnew Hn]. apply Forall_cons in Hs as [Hd Hs].
  constructor; [|by apply IH]. intros (d' & E & Hin)%list_elem_of_fmap_1. apply Hnew.
  rewrite Forall_forall in Hs. rewrite (owner_key_kind d d' Hd (Hs d' Hin) E).
  by apply list_elem_of_fmap_2.
Qed.

Lemma slot_loop_None slots seen :
  Forall (fun s => Document_IsValid s.2 = true) slots ->
  NoDup ((owner_key ∘ snd) <$> slots) -> Forall (fun s => owner_key s.2 ∉ seen) slots ->
  slot_loop seen slots = None.
Proof.
  revert seen. induction slots as [|[name d] slots IH]; intros seen Hv Hn Hs; [done|].
  apply Forall_cons in Hv as [Hd Hv]. apply Forall_cons in Hs as [Hk Hs].
  rewrite fmap_cons in Hn. apply NoDup_cons in Hn as [Hnew Hn]. simpl in *.
  rewrite Hd, bool_decide_false by done. simpl. apply IH; [done..|].
  rewrite Forall_forall in *. intros s Hin. specialize (Hs s Hin).
  assert (owner_key s.2 <> owner_key d); [|set_solver].
  intros E. apply Hnew. rewrite <- E. by apply (list_elem_of_fmap_2 (owner_key ∘ snd)).
Qed.

Lemma owned_slots r s e t i :
  owned DefinitionRuntimeContract r -> owned DefinitionLifecycleSchema s ->
  owned DefinitionEpochImplementation e -> owned DefinitionRetentionPolicy t ->
  owned DefinitionInterpreter i -> ActiveDocuments_Validate (mk_Active r s e t i) = None.
Proof.
  intros [Vr Kr] [Vs Ks] [Ve Ke] [Vt Kt] [Vi Ki]. apply slot_loop_None.
  - by repeat constructor.
  - apply (distinct_keys [r; s; e; t; i]); simpl; rewrite ?Kr, ?Ks, ?Ke, ?Kt, ?Ki;
      [by apply (bool_decide_unpack _); vm_compute|].
    repeat (apply Forall_cons; split); try apply Forall_nil_2; by rewrite ?Kr, ?Ks, ?Ke, ?Kt, ?Ki.
  - apply Forall_forall. set_solver.
Qed.

(** ** Updates *)

Lemma parse_specification_Ok {S} (dw : bytes -> option (wireDocument S)) decode id body spec :
  parse_specification dw decode id body = Ok spec ->
  exists w, dw body = Some w /\ spec = (wd_Specification w, wd_Nil w) /\ is_ok (decode body) = true.
Proof.
  unfold parse_specification. destruct (strictDecode dw body) as [w|] eqn:E; [|done].
  apply strictDecode_Ok in E as [_ E]. destruct (decode body) as [d|]; [|done].
  destruct (negb _); [done|]. intros [= <-]. by exists w.
Qed.

Lemma decodeEpoch_valid p w :
  is_ok (decodeEpoch p) = true -> decode_epoch p = Some w -> epoch_wf (wd_Specification w).
Proof.
  unfold decodeEpoch. destruct (strictDecode decode_epoch p) as [w'|] eqn:E; [|done].
  apply strictDecode_Ok in E as [_ ->]. intros Hok [= ->]. apply epoch_accepted_wf.
  do 2 refused_guard Hok.
  by destruct (validateEpochSpecification (wd_Specification w)).
Qed.

Lemma decodeInterpreter_valid p w :
  is_ok (decodeInterpreter p) = true -> decode_interpreter p = Some w ->
  interpreter_wf (wd_Specification w).
Proof.
  unfold decodeInterpreter. destruct (strictDecode decode_interpreter p) as [w'|] eqn:E; [|done].
  apply strictDecode_Ok in E as [_ ->]. intros Hok [= ->]. apply validateInterpreterSpecification_spec.
  do 2 refused_guard Hok.
  by destruct (validateInterpreterSpecification (wd_Specification w)).
Qed.

Lemma same_but_sources_spec {S} `{EqDecision S} (strip : S -> S) before after :
  same_but_sources strip before after = true -> strip before.1 = strip after.1.
Proof. unfold same_but_sources. by intros [H1%bool_decide_eq_true _]%andb_prop. Qed.

(** Two bodies of one coordinate whose specifications are well formed and
    differ in their sources at most. *)
Definition rebuilt (existing : bytes) (incoming : Document) : Prop :=
  (d_kind incoming = DefinitionEpochImplementation /\ exists before after,
     decode_epoch existing = Some before /\ decode_epoch (d_body incoming) = Some after /\
     epoch_wf (wd_Specification before) /\ epoch_wf (wd_Specification after) /\
     epoch_without_sources (wd_Specification before) = epoch_without_sources (wd_Specification after)) \/
  (d_kind incoming = DefinitionInterpreter /\ exists before after,
     decode_interpreter existing = Some before /\ decode_interpreter (d_body incoming) = Some after /\
     interpreter_wf (wd_Specification before) /\ interpreter_wf (wd_Specification after) /\
     interpreter_without_sources (wd_Specification before)
     = interpreter_without_sources (wd_Specification after)).

Lemma compatible_rebuilt existing incoming :
  CompatibleSourceInventoryUpdate existing incoming = Ok true ->
  Document_IsValid incoming = true /\
  (exists committed, Decode existing = Ok committed /\ d_kind committed = d_kind incoming /\
     d_id committed = d_id incoming /\ d_version committed = d_version incoming /\
     d_codec committed = d_codec incoming) /\
  rebuilt existing incoming.
Proof.
  unfold CompatibleSourceInventoryUpdate. destruct (Document_IsValid incoming); [|done]. simpl negb. cbn iota.
  destruct (Decode existing) as [committed|] eqn:Ed; [|done].
  cbn [mbind result_bind]. destruct (_ || _) eqn:Hg; [done|].
  rewrite !orb_false_iff, !negb_false_iff, !N.eqb_eq, String.eqb_eq in Hg. destruct Hg as [[[? ?] ?] ?].
  intros Hc. split; [done|]. split; [by exists committed|]. revert Hc.
  destruct (N.eqb_spec (d_kind incoming) DefinitionEpochImplementation) as [Hk|_].
  - destruct (ParseEpochSpecification existing) as [b|] eqn:Eb; [|done].
    cbn [mbind result_bind]. destruct (ParseEpochSpecification (d_body incoming)) as [a|] eqn:Ea; [|done].
    cbn [mbind result_bind]. intros [= Hs%same_but_sources_spec].
    apply parse_specification_Ok in Eb as (wb & Wb & -> & Vb), Ea as (wa & Wa & -> & Va).
    left. split; [done|]. exists wb, wa. split_and!;
      [done|done|by apply (decodeEpoch_valid _ _ Vb)|by apply (decodeEpoch_valid _ _ Va)|done].
  - destruct (N.eqb_spec (d_kind incoming) DefinitionInterpreter) as [Hk|_]; [|done].
    destruct (ParseInterpreterSpecification existing) as [b|] eqn:Eb; [|done].
    cbn [mbind result_bind]. destruct (ParseInterpreterSpecification (d_body incoming)) as [a|] eqn:Ea; [|done].
    cbn [mbind result_bind]. intros [= Hs%same_but_sources_spec].
    apply parse_specification_Ok in Eb as (wb & Wb & -> & Vb), Ea as (wa & Wa & -> & Va).
    right. split; [done|]. exists wb, wa. split_and!;
      [done|done|by apply (decodeInterpreter_valid _ _ Vb)|by apply (decodeInterpreter_valid _ _ Va)|done].
Qed.

(** ** Theorems *)

(** C37: what a decoded document is. Decoding succeeds only on a text without a
    duplicate member whose specification its owner accepts, of a kind and
    version with a codec; the document holds the text in canonical form, a
    fixed point of the normalization, under its own digest. It cannot be
    activated: it is not marked as built by its owner. The mark is all it
    lacks. *)
Theorem decoded_never_activates p d :
  Decode p = Ok d ->
  decoded_wf p d /\ Document_IsValid d = false /\ Document_IsValid (own d) = true.
Proof.
  intros Hd%Decode_wf. split; [done|]. split; [by eapply own_wf|by eapply decoded_owned_valid].
Qed.

(** The document set of a contract exists exactly when each of the five
    owners builds its document: the validation of the set never refuses one,
    and the five are valid, one of each kind. *)
Theorem ActiveForContract_exact c ds :
  (ActiveForContract c = Ok ds <->
   NewRuntimeContract c = Ok (ad_Runtime ds) /\ NewLifecycleSchema = Ok (ad_Schema ds) /\
   NewEpochImplementation = Ok (ad_EpochImplementation ds) /\
   NewRetentionPolicy = Ok (ad_Retention ds) /\ NewInterpreter = Ok (ad_Interpreter ds)) /\
  (ActiveForContract c = Ok ds ->
   owned DefinitionRuntimeContract (ad_Runtime ds) /\ owned DefinitionLifecycleSchema (ad_Schema ds) /\
   owned DefinitionEpochImplementation (ad_EpochImplementation ds) /\
   owned DefinitionRetentionPolicy (ad_Retention ds) /\ owned DefinitionInterpreter (ad_Interpreter ds)).
Proof.
  assert (Hiff : ActiveForContract c = Ok ds <->
   NewRuntimeContract c = Ok (ad_Runtime ds) /\ NewLifecycleSchema = Ok (ad_Schema ds) /\
   NewEpochImplementation = Ok (ad_EpochImplementation ds) /\
   NewRetentionPolicy = Ok (ad_Retention ds) /\ NewInterpreter = Ok (ad_Interpreter ds)).
  { unfold ActiveForContract.
    destruct (NewRuntimeContract c) as [r|] eqn:Er; [|naive_solver].
    destruct NewLifecycleSchema as [s|] eqn:Es; [|naive_solver].
    destruct NewEpochImplementation as [e|] eqn:Ee; [|naive_solver].
    destruct NewRetentionPolicy as [t|] eqn:Et; [|naive_solver].
    destruct NewInterpreter as [i|] eqn:Ei; [|naive_solver].
    cbn [mbind result_bind]. rewrite owned_slots by (by eapply constructed_owned; eauto).
    destruct ds. naive_solver. }
  split; [exact Hiff|]. intros (? & ? & ? & ? & ?)%Hiff.
  split_and!; by eapply constructed_owned; eauto.
Qed.

(** When a committed document may be superseded in place. The answer is yes
    only for a document its owner built, of one of the two kinds that carry a
    source manifest, at the coordinate of the committed one, where both
    specifications meet the contract of their owner and differ in the source
    manifest at most. *)
Theorem CompatibleSourceInventoryUpdate_sound existing incoming :
  CompatibleSourceInventoryUpdate existing incoming = Ok true ->
  Document_IsValid incoming = true /\
  (exists committed, Decode existing = Ok committed /\ d_kind committed = d_kind incoming /\
     d_id committed = d_id incoming /\ d_version committed = d_version incoming /\
     d_codec committed = d_codec incoming) /\
  rebuilt existing incoming.
Proof. apply compatible_rebuilt. Qed.
End documents.

(** ** A sample codec

    Every text that is not empty is one literal, in canonical form, and its
    first digit is its kind; the source manifest of an epoch document has one
    entry for its length. *)
Definition sample_tokens (p : bytes) : list Token * StreamEnd :=
  match p with [] => ([], AtEOF) | _ => ([TLiteral (of_bytes p)], AtEOF) end.
#[local] Instance sample_decoder : JsonDecoder.
Proof.
  refine {| Tokens := sample_tokens |}; [|done].
  intros [|c p] ts; intros [= <-]; [by exists [], []|by exists [JLiteral (of_bytes (c :: p))], []].
Defined.

Definition sample_sources (size : nat) : list SourceEntry :=
  [mk_Source "internal/engine/control.go"
     (of_bytes (replicate 63 "0"%char ++ [ascii_of_N (48 + N.of_nat size mod 10)%N]))].
Definition sample_kind (p : bytes) : option N :=
  match p with [] => None | c :: _ => Some (N_of_ascii c - 48)%N end.
Definition sample_codec : DocumentCodec :=
  {| codec_decoder := sample_decoder;
     codec_range := listed_range;
     decode_epoch p := Some (mk_Wire DefinitionEpochImplementation EpochDocumentID 3 DefinitionCanonicalJSON
                               (AssembleEpochSpecification (sample_sources (length p))) ∅);
     decode_schema _ := Some (mk_Wire DefinitionLifecycleSchema SchemaDocumentID 2 DefinitionCanonicalJSON
                                SchemaSpecificationForBinary ∅);
     decode_retention _ := Some (mk_Wire DefinitionRetentionPolicy RetentionDocumentID 1
                                   DefinitionCanonicalJSON RetentionSpecificationForBinary ∅);
     decode_interpreter p := Some (mk_Wire DefinitionInterpreter InterpreterDocumentID 2
                                     DefinitionCanonicalJSON
                                     (AssembleInterpreterSpecification (sample_sources (length p))) ∅);
     decode_runtime _ := Some (mk_Wire DefinitionRuntimeContract (runtimeID sample_contract) 1
                                 DefinitionCanonicalJSON sample_runtime ∅);
     decode_runtime_v1 _ := Some tt;
     decode_kind := sample_kind;
     Sum256 p := N_of_ascii <$> p;
     Canonicalize _ _ p := Some p;
     marshal_coordinate _ _ _ _ _ := [];
     generatedBodies name := Some (to_bytes name) |}.

(** The committed epoch document of the sample, and a rebuilt one. *)
Definition sample_rebuilt : Document :=
  match decodeEpoch (H:=sample_codec) (to_bytes "5 rebuilt") with
  | Ok d => own d
  | Err _ => mk_Document 0 "" 0 0 [] [] false
  end.

Lemma decoded_never_activates_witness :
  exists d, Decode (H:=sample_codec) (to_bytes "5") = Ok d /\ d_version d = 3%N /\
    Document_IsValid (H:=sample_codec) d = false.
Proof.
  eexists. split; [vm_compute; reflexivity|]. split; [reflexivity|].
  apply (decoded_never_activates (H:=sample_codec) (to_bytes "5")). by vm_compute.
Defined.

Lemma ActiveForContract_exact_witness :
  exists ds, ActiveForContract (H:=sample_codec) sample_contract = Ok ds /\
    owned (H:=sample_codec) DefinitionRetentionPolicy (ad_Retention ds).
Proof.
  eexists. split; [vm_compute; reflexivity|].
  apply (ActiveForContract_exact (H:=sample_codec) sample_contract). by vm_compute.
Defined.

Lemma CompatibleSourceInventoryUpdate_sound_witness :
  CompatibleSourceInventoryUpdate (H:=sample_codec) (to_bytes "5") sample_rebuilt = Ok true /\
  rebuilt (H:=sample_codec) (to_bytes "5") sample_rebuilt.
Proof.
  split; [by vm_compute|].
  apply (CompatibleSourceInventoryUpdate_sound (H:=sample_codec)). by vm_compute.
Defined.
