(* ===== verification/SessionEvidence.v ===== *)
(** SessionEvidence: what a lifecycle event says about its session
    (internal/lifecycle/ingress/session_transition.go, validate.go,
    internal/lifecycle/registration/types.go, internal/tasks/session_state.go
    and session_state_rebuild.go).

    An event may open a turn, end its session or resume it.  The live path reads
    this from the payload at hand; the replay reads it back from the journal,
    where only a resume is stored.  Two things of other code are an interface:
    encoding/json on one object, and the payload table. *)

From Stdlib Require Import NArith ZArith Lia Ascii String.
From stdpp Require Import base tactics list strings gmap.
From S2P Require Import Prelude GoStrings Execution Registration NativeRows OwnerDescriptors RuntimeDescriptor.
Local Open Scope string_scope.
Local Open Scope list_scope.

(** ** Bindings (model/occurrence.go) *)
Record NativeBinding := mk_Binding_ {
  nb_Kind : NativeBindingKind;
  nb_NativeName : string;
  nb_Value : string;
}.
#[export] Instance NativeBinding_eq_dec : EqDecision NativeBinding.
Proof. solve_decision. Defined.

Definition ValidateBindingText (value : string) : bool :=
  let b := to_bytes value in
  match runes b with
  | None => false
  | Some rs =>
      (1 <=? length b)%nat && (length b <=? 512)%nat && negb (padded value)
      && negb (existsb (fun r => (r =? 0) || (r <? 0x20) || (r =? 0x7f))%N rs)
  end.

(** The session of verified bindings; [None] is the error. *)
Fixpoint session_loop (session : string) (bindings : list NativeBinding) : option string :=
  match bindings with
  | [] => Some session
  | b :: rest =>
      if (nb_Kind b =? BindingSession)%N then
        if negb (String.eqb session "") then None else session_loop (nb_Value b) rest
      else session_loop session rest
  end.
Definition lifecycleSession (bindings : list NativeBinding) : option string := session_loop "" bindings.

(** ** The transition column of the registrations

    Of all registered events seven have one. *)
Definition event_transition (kind : N) : SessionTransition :=
  if ((kind =? 1) || (kind =? 81))%N then SessionTransitionResume
  else if ((kind =? 3) || (kind =? 91))%N then SessionTransitionEnd
  else if ((kind =? 4) || (kind =? 82) || (kind =? 94))%N then SessionTransitionPrompt
  else SessionTransitionNone.
Definition TransitionSourceField (kind : N) : string :=
  if ((kind =? 1) || (kind =? 81))%N then "source" else "".

Definition m_Contract (m : Manifest) : RuntimeContractID :=
  mk_ContractID (m_Harness m) (String.append (m_Harness m) (String.append "/" (m_Version m))).
Definition ManifestFor (contract : RuntimeContractID) : option Manifest :=
  List.find (fun m => bool_decide (m_Contract m = contract)) Manifests.
Definition EventWithManifest (contract : RuntimeContractID) (kind : N) : option (Manifest * Event) :=
  match ManifestFor contract with
  | None => None
  | Some m => (fun e => (m, e)) <$> List.find (fun e => (ev_Kind e =? kind)%N) (m_Events m)
  end.
Definition EventFor (contract : RuntimeContractID) (kind : N) : option Event :=
  snd <$> EventWithManifest contract kind.
Definition NativeName (contract : RuntimeContractID) (kind : N) : option string :=
  ev_NativeName <$> EventFor contract kind.

(** ** The live reading *)
Abbreviation CaptureDisposition := N (only parsing).
Definition CaptureValid : CaptureDisposition := 1%N.
Definition CaptureMalformed : CaptureDisposition := 2%N.
Definition CaptureDuplicateField : CaptureDisposition := 3%N.
Definition CaptureInvalidUTF8 : CaptureDisposition := 4%N.
Definition MaxNativePayloadBytes : nat := Pos.to_nat (2 ^ 20).

(** What the payload table holds for a digest. *)
Inductive PayloadRow := NoPayload | PayloadFault | Payload (declared : Z) (body : bytes).

(** [object_members] is the decoder over one text: the members it reads when
    the text begins with an object, and whether the object is terminated with
    nothing behind it. A last member whose value cannot be read has the empty
    value and leaves the object unterminated. [sha256_digest] recognises a
    SHA-256 digest, [FromBytes] computes one. *)
Class PayloadCodec := {
  object_members : bytes -> option (list (string * bytes) * bool);
  unmarshal_string : bytes -> option string;
  sha256_digest : string -> bool;
  FromBytes : bytes -> string;
}.

Section evidence.
Context `{PayloadCodec}.

(** Members so far; a repeated name ends the reading at once. *)
Fixpoint member_scan (members : gmap string bytes) (l : list (string * bytes)) : option (gmap string bytes) :=
  match l with
  | [] => Some members
  | (key, value) :: rest =>
      match members !! key with
      | Some _ => None
      | None => member_scan (<[key := value]> members) rest
      end
  end.

(** The disposition, and the members of a valid object. *)
Definition Validate (raw : bytes) : CaptureDisposition * gmap string bytes :=
  if negb (ValidString raw) then (CaptureInvalidUTF8, ∅)
  else match object_members raw with
  | None => (CaptureMalformed, ∅)
  | Some (l, terminated) =>
      match member_scan ∅ l with
      | None => (CaptureDuplicateField, ∅)
      | Some members => if terminated then (CaptureValid, members) else (CaptureMalformed, ∅)
      end
  end.

Definition readString (members : gmap string bytes) (name : string) : string :=
  match members !! name with
  | None => ""
  | Some raw => default "" (unmarshal_string raw)
  end.

(** The one usable session of the bindings. *)
Fixpoint one_session (session : string) (bindings : list NativeBinding) : option string :=
  match bindings with
  | [] => if String.eqb session "" then None else Some session
  | b :: rest =>
      if negb (nb_Kind b =? BindingSession)%N then one_session session rest
      else if negb (String.eqb session "") || negb (ValidateBindingText (nb_Value b))
              || String.eqb (nb_Value b) "" then None
      else one_session (nb_Value b) rest
  end.

(** The members of the payload name the session and the event. *)
Definition payload_confirms (m : Manifest) (e : Event) (session : string) (raw : bytes) : bool :=
  let '(disposition, members) := Validate raw in
  (disposition =? CaptureValid)%N
  && (if String.eqb (m_Harness m) HarnessOpenCode then String.eqb (readString members "sessionID") session
      else String.eqb (readString members "session_id") session
           && String.eqb (readString members "hook_event_name") (ev_NativeName e)).
Definition resume_confirmed (kind : N) (raw : bytes) : bool :=
  negb (String.eqb (TransitionSourceField kind) "")
  && String.eqb (readString (Validate raw).2 (TransitionSourceField kind)) "resume".

Definition ExtractSessionTransition (contract : RuntimeContractID) (kind : N) (raw : bytes)
    (capture : CaptureDisposition) (bindings : list NativeBinding) : SessionTransition :=
  if negb (capture =? CaptureValid)%N || (MaxNativePayloadBytes <? length raw)%nat then SessionTransitionNone
  else match EventWithManifest contract kind with
  | None => SessionTransitionNone
  | Some (m, e) =>
      let transition := event_transition kind in
      if (transition =? SessionTransitionNone)%N then SessionTransitionNone
      else match one_session "" bindings with
      | None => SessionTransitionNone
      | Some session =>
          if negb (payload_confirms m e session raw) then SessionTransitionNone
          else if (transition =? SessionTransitionResume)%N && negb (resume_confirmed kind raw)
          then SessionTransitionNone
          else transition
      end
  end.

(** ** The live tail (session_state.go) *)
Definition isSessionEnd (harness : HarnessID) (contract : RuntimeContractID) (kind : N) : bool :=
  if negb (String.eqb harness HarnessClaudeCode) && negb (String.eqb harness HarnessCodex) then false
  else match EventFor contract kind with
  | Some _ => (event_transition kind =? SessionTransitionEnd)%N
  | None => false
  end.

(** [body] is nil on a legacy replay. *)
Definition tail_transition (harness : HarnessID) (contract : RuntimeContractID) (kind : N)
    (bindings : list NativeBinding) (body : option bytes) (capture : CaptureDisposition) : SessionTransition :=
  match body with
  | Some raw => ExtractSessionTransition contract kind raw capture bindings
  | None => if isSessionEnd harness contract kind then SessionTransitionEnd else SessionTransitionNone
  end.

(** ** The replay (session_state_rebuild.go, projection/occurrence_codec.go) *)
Definition SessionTransitionResumeToken : string := "resume".
Definition storedTransition (value : string) : SessionTransition :=
  if String.eqb value SessionTransitionResumeToken then SessionTransitionResume else SessionTransitionNone.

(** The token of a new record (receipt/service.go). *)
Definition transition_token (t : SessionTransition) : string :=
  if (t =? SessionTransitionResume)%N then SessionTransitionResumeToken else "".

Record OccurrenceFact := mk_Fact {
  of_JournalID : Z;
  of_Contract : RuntimeContractID;
  of_Event : N;
  of_ReceivedAt : Z;
  of_Bindings : list NativeBinding;
  of_Capture : CaptureDisposition;
  of_PayloadDigest : string;
  of_Version : N;
  of_Execution : option Metadata;
  of_SessionTransition : SessionTransition;
}.

(** The decoder's checks on a stored token (projection/occurrence_codec.go). *)
Definition session_count (bindings : list NativeBinding) : nat :=
  length (List.filter (fun b => (nb_Kind b =? BindingSession)%N && ValidateBindingText (nb_Value b)
                                && negb (String.eqb (nb_Value b) "")) bindings).
Definition resume_eligible (contract : RuntimeContractID) (kind : N) : bool :=
  match EventFor contract kind with
  | Some _ => (event_transition kind =? SessionTransitionResume)%N
  | None => false
  end.
Definition transition_admitted (version : N) (contract : RuntimeContractID) (kind : N)
    (capture : CaptureDisposition) (bindings : list NativeBinding) (token : string) : bool :=
  if negb (version =? 3)%N then true
  else if negb (String.eqb token "") && negb (String.eqb token SessionTransitionResumeToken) then false
  else if String.eqb token SessionTransitionResumeToken
  then resume_eligible contract kind && (capture =? CaptureValid)%N && (session_count bindings =? 1)%nat
  else true.
(** A legacy record's member of that name is dropped. *)
Definition decoded_token (version : N) (token : string) : string :=
  if (version =? 3)%N then token else "".

Inductive ReplayError := DigestInvalid (journal : Z) | PayloadRefused | PayloadUnauthentic (journal : Z).

(** [payloads] is the payload table. *)
Definition replaySessionTransition (payloads : string -> PayloadRow) (fact : OccurrenceFact)
    : result ReplayError SessionTransition :=
  let jid := of_JournalID fact in
  if negb (of_Capture fact =? CaptureValid)%N then Ok SessionTransitionNone
  else if (of_Version fact =? 3)%N && negb (of_SessionTransition fact =? SessionTransitionNone)%N
  then Ok (of_SessionTransition fact)
  else match EventFor (of_Contract fact) (of_Event fact) with
  | None => Ok SessionTransitionNone
  | Some _ =>
      let transition := event_transition (of_Event fact) in
      if negb (transition =? SessionTransitionResume)%N then Ok transition
      else if (of_Version fact =? 3)%N then Ok SessionTransitionNone
      else if negb (sha256_digest (of_PayloadDigest fact)) then Err (DigestInvalid jid)
      else match payloads (of_PayloadDigest fact) with
      | NoPayload => Ok SessionTransitionNone
      | PayloadFault => Err PayloadRefused
      | Payload declared body =>
          if (MaxNativePayloadBytes <? length body)%nat || negb (Z.of_nat (length body) =? declared)%Z
             || negb (String.eqb (FromBytes body) (of_PayloadDigest fact)) then Err (PayloadUnauthentic jid)
          else Ok (ExtractSessionTransition (of_Contract fact) (of_Event fact) body (of_Capture fact)
                     (of_Bindings fact))
      end
  end.

(** The fact a new receipt stores for a delivery, as the journal reader returns it. *)
Definition receipt_fact (jid at_ : Z) (contract : RuntimeContractID) (kind : N) (raw : bytes)
    (capture : CaptureDisposition) (bindings : list NativeBinding) (execution : option Metadata) : OccurrenceFact :=
  {| of_JournalID := jid; of_Contract := contract; of_Event := kind; of_ReceivedAt := at_;
     of_Bindings := bindings; of_Capture := capture; of_PayloadDigest := FromBytes raw; of_Version := 3;
     of_Execution := execution;
     of_SessionTransition := storedTransition (decoded_token 3
       (transition_token (ExtractSessionTransition contract kind raw capture bindings))) |}.

(** *** Lemmas *)
Lemma find_some_in {A} (p : A -> bool) l x : List.find p l = Some x -> List.In x l /\ p x = true.
Proof. apply List.find_some. Qed.

(** What a live transition needs. *)
Lemma Extract_spec contract kind raw capture bindings t :
  ExtractSessionTransition contract kind raw capture bindings = t -> t <> SessionTransitionNone ->
  capture = CaptureValid /\ t = event_transition kind
  /\ (exists m e, EventWithManifest contract kind = Some (m, e))
  /\ (exists session, one_session "" bindings = Some session)
  /\ (length raw <= MaxNativePayloadBytes)%nat.
Proof.
  intros <- Hne. revert Hne. unfold ExtractSessionTransition.
  destruct (negb (capture =? CaptureValid)%N || _) eqn:Hc; [done|].
  apply orb_false_elim in Hc as [Hc Hl]. apply negb_false_iff, N.eqb_eq in Hc. apply Nat.ltb_ge in Hl.
  destruct (EventWithManifest contract kind) as [[m e]|]; [|done].
  destruct (event_transition kind =? SessionTransitionNone)%N eqn:He; [done|].
  destruct (one_session "" bindings) as [session|]; [|done].
  destruct (payload_confirms m e session raw); simpl; [|done].
  destruct (_ && _); [done|]. intros _. split_and!; eauto.
Qed.

Lemma one_session_done session bindings s :
  one_session session bindings = Some s -> session <> "" ->
  s = session /\ session_count bindings = 0%nat.
Proof.
  induction bindings as [|b bindings IH]; simpl; intros H1 Hne.
  { destruct (String.eqb_spec session ""); [done|]. naive_solver. }
  unfold session_count in *; simpl.
  destruct (nb_Kind b =? BindingSession)%N; simpl in *; [|by apply IH].
  destruct (String.eqb_spec session ""); [done|]. done.
Qed.

Lemma one_session_count bindings s : one_session "" bindings = Some s -> session_count bindings = 1%nat.
Proof.
  induction bindings as [|b bindings IH]; simpl; [done|].
  unfold session_count in *; simpl.
  destruct (nb_Kind b =? BindingSession)%N; simpl; [|done].
  destruct (ValidateBindingText (nb_Value b)) eqn:Hv; simpl; [|done].
  destruct (String.eqb_spec (nb_Value b) "") as [|Hne]; simpl; [done|].
  intros H1. f_equal. by apply (one_session_done _ _ _ H1).
Qed.

Lemma token_resume t : storedTransition (decoded_token 3 (transition_token t))
  = if (t =? SessionTransitionResume)%N then SessionTransitionResume else SessionTransitionNone.
Proof. unfold transition_token, decoded_token, storedTransition. by destruct (t =? SessionTransitionResume)%N. Qed.

Lemma EventWithManifest_For contract kind me :
  EventWithManifest contract kind = Some me -> EventFor contract kind = Some me.2.
Proof. unfold EventFor. by intros ->. Qed.

(** C23: What the receipt stores is what the replay reads.  The decoder admits the
    record of every delivery; the replay of that record needs no payload and never
    fails; it gives the transition the live tail saw, and where the live tail saw
    none it gives none or the registered prompt or end of a valid capture whose
    body did not confirm its coordinate: never a resume. *)
Theorem receipt_replayed payloads jid at_ contract kind raw capture bindings execution :
  let live := ExtractSessionTransition contract kind raw capture bindings in
  transition_admitted 3 contract kind capture bindings (transition_token live) = true
  /\ exists read,
       replaySessionTransition payloads (receipt_fact jid at_ contract kind raw capture bindings execution) = Ok read
       /\ (live <> SessionTransitionNone -> read = live)
       /\ (live = SessionTransitionNone -> read <> SessionTransitionNone ->
            capture = CaptureValid /\ read = event_transition kind /\ read <> SessionTransitionResume).
Proof.
  intros live.
  destruct (N.eq_dec live SessionTransitionNone) as [Hn|Hn].
  - split; [by rewrite Hn|].
    unfold replaySessionTransition, receipt_fact; cbn -[storedTransition decoded_token].
    rewrite token_resume. fold live. rewrite Hn. simpl.
    destruct (capture =? CaptureValid)%N eqn:Hc; simpl; [|by eexists].
    apply N.eqb_eq in Hc.
    destruct (EventFor contract kind); [|by eexists].
    destruct (event_transition kind =? SessionTransitionResume)%N eqn:He; simpl; [by eexists|].
    apply N.eqb_neq in He. eexists. split_and!; [done|done|done].
  - destruct (Extract_spec contract kind raw capture bindings live eq_refl Hn)
      as (-> & Hl & (m & e & Hm) & [s Hs] & _).
    apply EventWithManifest_For in Hm. apply one_session_count in Hs.
    split.
    { unfold transition_token, transition_admitted, resume_eligible. rewrite Hm, Hs, <- Hl.
      by destruct (live =? SessionTransitionResume)%N. }
    unfold replaySessionTransition, receipt_fact; cbn -[storedTransition decoded_token].
    rewrite token_resume. fold live. rewrite Hm, <- Hl.
    destruct (live =? SessionTransitionResume)%N eqn:Hr; simpl.
    + apply N.eqb_eq in Hr. eexists. done.
    + eexists. split_and!; done.
Qed.

(** A resume record of a contract this build does not register: the replay alone
    would count it, the decoder in front of it refuses the record. *)
Lemma unregistered_resume_refused payloads fact :
  of_Version fact = 3%N -> of_Capture fact = CaptureValid ->
  of_SessionTransition fact = SessionTransitionResume ->
  EventFor (of_Contract fact) (of_Event fact) = None ->
  replaySessionTransition payloads fact = Ok SessionTransitionResume
  /\ transition_admitted (of_Version fact) (of_Contract fact) (of_Event fact) (of_Capture fact)
       (of_Bindings fact) SessionTransitionResumeToken = false.
Proof.
  intros Hv Hc Ht He. unfold replaySessionTransition, transition_admitted, resume_eligible.
  rewrite Hv, Hc, Ht, He. done.
Qed.
End evidence.

(** ** A concrete decoder, and two deliveries of one session *)
Definition toy_payload (event : string) : bytes := to_bytes event.
Definition toy_codec : PayloadCodec := {|
  object_members raw := Some ([("session_id", to_bytes "s1"); ("hook_event_name", raw)], true);
  unmarshal_string b := Some (of_bytes b);
  sha256_digest _ := true;
  FromBytes := of_bytes;
|}.
Definition claude_contract : RuntimeContractID := mk_ContractID HarnessClaudeCode "claude-code/2.1.261".
Definition session_s1 : list NativeBinding := [mk_Binding_ BindingSession "session_id" "s1"].
Definition prompt_fact : OccurrenceFact :=
  receipt_fact (H := toy_codec) 1 50 claude_contract 4 (toy_payload "UserPromptSubmit") CaptureValid session_s1 None.
Definition end_fact : OccurrenceFact :=
  receipt_fact (H := toy_codec) 2 60 claude_contract 3 (toy_payload "SessionEnd") CaptureValid session_s1 None.

Example toy_transitions :
  ExtractSessionTransition (H := toy_codec) claude_contract 4 (toy_payload "UserPromptSubmit") CaptureValid session_s1
    = SessionTransitionPrompt
  /\ ExtractSessionTransition (H := toy_codec) claude_contract 3 (toy_payload "SessionEnd") CaptureValid session_s1
    = SessionTransitionEnd.
Proof. vm_compute. done. Qed.
