(* ===== verification/SessionRows.v ===== *)
(** SessionRows: one row of the session cache (internal/tasks/session_state.go,
    session_state_rebuild.go, session_api_store.go).

    A row is written by three paths: the live tail of an event, the replay of
    the journal, an explicit bind.  [shows] is the reference: each evidence
    column is that of the newest observation of its kind.  The paths agree with
    it in any order of delivery, and so with each other. *)

From Stdlib Require Import NArith ZArith Lia String.
From stdpp Require Import base tactics list strings gmap.
From S2P Require Import Prelude Registration RuntimeDescriptor SessionEvidence.
Local Open Scope string_scope.
Local Open Scope list_scope.
Local Open Scope Z_scope.

(** ** Data *)

(** pasture_session_state without its key (open_unified.go). *)
Record SessionRow := mk_Row {
  sr_first_seen : Z;
  sr_last_seen : Z;
  sr_last_event : string;
  sr_last_journal_id : Z;
  sr_updated_at : Z;
  sr_last_prompt_at : Z;
  sr_last_prompt_journal_id : Z;
  sr_host_end_at : Z;
  sr_host_end_journal_id : Z;
  sr_last_resume_at : Z;
  sr_last_resume_journal_id : Z;
}.
#[export] Instance SessionRow_eq_dec : EqDecision SessionRow.
Proof. solve_decision. Defined.

(** What one path reads from one event of a session. *)
Record Observation := mk_Obs {
  ob_jid : Z;
  ob_at : Z;
  ob_event : string;
  ob_transition : SessionTransition;
}.
#[export] Instance Observation_eq_dec : EqDecision Observation.
Proof. solve_decision. Defined.

(** ** The live tail (upsertSessionStateTx) *)

(** The bound values of the statement. *)
Definition excluded_row (o : Observation) : SessionRow :=
  let on (t : SessionTransition) (v : Z) := if (ob_transition o =? t)%N then v else 0 in
  {| sr_first_seen := ob_at o; sr_last_seen := ob_at o; sr_last_event := ob_event o;
     sr_last_journal_id := ob_jid o; sr_updated_at := ob_at o;
     sr_last_prompt_at := on SessionTransitionPrompt (ob_at o);
     sr_last_prompt_journal_id := on SessionTransitionPrompt (ob_jid o);
     sr_host_end_at := on SessionTransitionEnd (ob_at o);
     sr_host_end_journal_id := on SessionTransitionEnd (ob_jid o);
     sr_last_resume_at := on SessionTransitionResume (ob_at o);
     sr_last_resume_journal_id := on SessionTransitionResume (ob_jid o) |}.

(** CASE WHEN excluded.jid > jid THEN excluded.v ELSE v END. *)
Definition newer {A} (jid excluded_jid : Z) (v excluded_v : A) : A :=
  if jid <? excluded_jid then excluded_v else v.

(** The statement, and whether it affected a row. *)
Definition upsertSessionState (row : option SessionRow) (x : SessionRow) : SessionRow * bool :=
  match row with
  | None => (x, true)
  | Some r =>
      if (sr_last_journal_id r <? sr_last_journal_id x)
         || (sr_last_prompt_journal_id r <? sr_last_prompt_journal_id x)
         || (sr_host_end_journal_id r <? sr_host_end_journal_id x)
         || (sr_last_resume_journal_id r <? sr_last_resume_journal_id x)
      then ({| sr_first_seen := sr_first_seen r;
               sr_last_seen := newer (sr_last_journal_id r) (sr_last_journal_id x) (sr_last_seen r) (sr_last_seen x);
               sr_last_event := newer (sr_last_journal_id r) (sr_last_journal_id x) (sr_last_event r) (sr_last_event x);
               sr_last_journal_id := Z.max (sr_last_journal_id r) (sr_last_journal_id x);
               sr_updated_at := Z.max (sr_updated_at r) (sr_updated_at x);
               sr_last_prompt_at := newer (sr_last_prompt_journal_id r) (sr_last_prompt_journal_id x)
                                      (sr_last_prompt_at r) (sr_last_prompt_at x);
               sr_last_prompt_journal_id := Z.max (sr_last_prompt_journal_id r) (sr_last_prompt_journal_id x);
               sr_host_end_at := newer (sr_host_end_journal_id r) (sr_host_end_journal_id x)
                                   (sr_host_end_at r) (sr_host_end_at x);
               sr_host_end_journal_id := Z.max (sr_host_end_journal_id r) (sr_host_end_journal_id x);
               sr_last_resume_at := newer (sr_last_resume_journal_id r) (sr_last_resume_journal_id x)
                                      (sr_last_resume_at r) (sr_last_resume_at x);
               sr_last_resume_journal_id := Z.max (sr_last_resume_journal_id r) (sr_last_resume_journal_id x) |}, true)
      else (r, false)
  end.

(** ** An explicit bind (SessionAPIStore.Bind) *)
Definition bind_row (row : option SessionRow) (bound_at : Z) : SessionRow :=
  match row with
  | None => mk_Row bound_at bound_at "" 0 bound_at 0 0 0 0 0 0
  | Some r => {| sr_first_seen := sr_first_seen r;
                 sr_last_seen := Z.max (sr_last_seen r) bound_at;
                 sr_last_event := sr_last_event r; sr_last_journal_id := sr_last_journal_id r;
                 sr_updated_at := Z.max (sr_updated_at r) bound_at;
                 sr_last_prompt_at := sr_last_prompt_at r;
                 sr_last_prompt_journal_id := sr_last_prompt_journal_id r;
                 sr_host_end_at := sr_host_end_at r; sr_host_end_journal_id := sr_host_end_journal_id r;
                 sr_last_resume_at := sr_last_resume_at r;
                 sr_last_resume_journal_id := sr_last_resume_journal_id r |}
  end.

(** ** The replay (sessionRebuildRow) *)
Record sessionRebuildRow := mk_Rebuild {
  rb_firstSeen : Z;
  rb_lastSeen : Z;
  rb_lastEvent : string;
  rb_lastJournalID : Z;
  rb_lastPromptAt : Z;
  rb_lastPromptJournalID : Z;
  rb_hostEndAt : Z;
  rb_hostEndJournalID : Z;
  rb_lastResumeAt : Z;
  rb_lastResumeJournalID : Z;
}.
Definition empty_rebuild : sessionRebuildRow := mk_Rebuild 0 0 "" 0 0 0 0 0 0 0.

Definition addTimestamp (r : sessionRebuildRow) (ts : Z) : sessionRebuildRow :=
  if ts <=? 0 then r
  else mk_Rebuild
    (if (rb_firstSeen r =? 0) || (ts <? rb_firstSeen r) then ts else rb_firstSeen r)
    (if rb_lastSeen r <? ts then ts else rb_lastSeen r)
    (rb_lastEvent r) (rb_lastJournalID r) (rb_lastPromptAt r) (rb_lastPromptJournalID r)
    (rb_hostEndAt r) (rb_hostEndJournalID r) (rb_lastResumeAt r) (rb_lastResumeJournalID r).

(** One fact of the scan on its session's row. *)
Definition replay_step (r : sessionRebuildRow) (o : Observation) : sessionRebuildRow :=
  let on (t : SessionTransition) := (ob_transition o =? t)%N in
  let hit t jid := on t && (jid <? ob_jid o) in
  let late := rb_lastJournalID r <? ob_jid o in
  mk_Rebuild
    (if (rb_firstSeen r =? 0) || (ob_at o <? rb_firstSeen r) then ob_at o else rb_firstSeen r)
    (if late then ob_at o else rb_lastSeen r)
    (if late then ob_event o else rb_lastEvent r)
    (if late then ob_jid o else rb_lastJournalID r)
    (if hit SessionTransitionPrompt (rb_lastPromptJournalID r) then ob_at o else rb_lastPromptAt r)
    (if hit SessionTransitionPrompt (rb_lastPromptJournalID r) then ob_jid o else rb_lastPromptJournalID r)
    (if hit SessionTransitionEnd (rb_hostEndJournalID r) then ob_at o else rb_hostEndAt r)
    (if hit SessionTransitionEnd (rb_hostEndJournalID r) then ob_jid o else rb_hostEndJournalID r)
    (if hit SessionTransitionResume (rb_lastResumeJournalID r) then ob_at o else rb_lastResumeAt r)
    (if hit SessionTransitionResume (rb_lastResumeJournalID r) then ob_jid o else rb_lastResumeJournalID r).

(** The statement of the publication. *)
Definition upsertReplayedSessionRow (row : option SessionRow) (x : sessionRebuildRow) : SessionRow :=
  match row with
  | None => mk_Row (rb_firstSeen x) (rb_lastSeen x) (rb_lastEvent x) (rb_lastJournalID x) (rb_lastSeen x)
              (rb_lastPromptAt x) (rb_lastPromptJournalID x) (rb_hostEndAt x) (rb_hostEndJournalID x)
              (rb_lastResumeAt x) (rb_lastResumeJournalID x)
  | Some r =>
      {| sr_first_seen := Z.min (sr_first_seen r) (rb_firstSeen x);
         sr_last_seen :=
           if sr_last_journal_id r <? rb_lastJournalID x then rb_lastSeen x
           else if rb_lastJournalID x =? 0 then Z.max (sr_last_seen r) (rb_lastSeen x) else sr_last_seen r;
         sr_last_event := newer (sr_last_journal_id r) (rb_lastJournalID x) (sr_last_event r) (rb_lastEvent x);
         sr_last_journal_id := Z.max (sr_last_journal_id r) (rb_lastJournalID x);
         sr_updated_at := Z.max (sr_updated_at r) (rb_lastSeen x);
         sr_last_prompt_at := newer (sr_last_prompt_journal_id r) (rb_lastPromptJournalID x)
                                (sr_last_prompt_at r) (rb_lastPromptAt x);
         sr_last_prompt_journal_id := Z.max (sr_last_prompt_journal_id r) (rb_lastPromptJournalID x);
         sr_host_end_at := newer (sr_host_end_journal_id r) (rb_hostEndJournalID x)
                             (sr_host_end_at r) (rb_hostEndAt x);
         sr_host_end_journal_id := Z.max (sr_host_end_journal_id r) (rb_hostEndJournalID x);
         sr_last_resume_at := newer (sr_last_resume_journal_id r) (rb_lastResumeJournalID x)
                                (sr_last_resume_at r) (rb_lastResumeAt x);
         sr_last_resume_journal_id := Z.max (sr_last_resume_journal_id r) (rb_lastResumeJournalID x) |}
  end.

(** host_end_journal_id > last_resume_journal_id (readUnsupersededSessionEnds). *)
Definition unsuperseded (r : SessionRow) : bool := sr_last_resume_journal_id r <? sr_host_end_journal_id r.

(** ** The reference *)

(** [(jid, v)] is the coordinate and the value of the newest member of [S] that
    [p] selects; [(0, d)] when there is none. *)
Definition newest {A} (p : Observation -> bool) (val : Observation -> A) (d : A)
    (S : Observation -> Prop) (jid : Z) (v : A) : Prop :=
  (jid = 0 /\ v = d /\ forall o, S o -> p o = false)
  \/ exists o, S o /\ p o = true /\ ob_jid o = jid /\ val o = v
               /\ forall o', S o' -> p o' = true -> ob_jid o' <= jid.

Definition is_event (_ : Observation) : bool := true.
Definition is_prompt (o : Observation) : bool := (ob_transition o =? SessionTransitionPrompt)%N.
Definition is_end (o : Observation) : bool := (ob_transition o =? SessionTransitionEnd)%N.
Definition is_resume (o : Observation) : bool := (ob_transition o =? SessionTransitionResume)%N.

(** The evidence columns of a row, whichever path wrote it. *)
Record Evidence := mk_Evidence {
  ec_event : Z * string;
  ec_prompt : Z * Z;
  ec_end : Z * Z;
  ec_resume : Z * Z;
}.
Definition evidence (r : SessionRow) : Evidence :=
  mk_Evidence (sr_last_journal_id r, sr_last_event r) (sr_last_prompt_journal_id r, sr_last_prompt_at r)
    (sr_host_end_journal_id r, sr_host_end_at r) (sr_last_resume_journal_id r, sr_last_resume_at r).
Definition rebuild_evidence (r : sessionRebuildRow) : Evidence :=
  mk_Evidence (rb_lastJournalID r, rb_lastEvent r) (rb_lastPromptJournalID r, rb_lastPromptAt r)
    (rb_hostEndJournalID r, rb_hostEndAt r) (rb_lastResumeJournalID r, rb_lastResumeAt r).

Definition shows (e : Evidence) (S : Observation -> Prop) : Prop :=
  newest is_event ob_event "" S (ec_event e).1 (ec_event e).2
  /\ newest is_prompt ob_at 0 S (ec_prompt e).1 (ec_prompt e).2
  /\ newest is_end ob_at 0 S (ec_end e).1 (ec_end e).2
  /\ newest is_resume ob_at 0 S (ec_resume e).1 (ec_resume e).2.

Definition positive_jids (S : Observation -> Prop) : Prop := forall o, S o -> 0 < ob_jid o.
(** One journal row has one instant and one event. *)
Definition coherent (S : Observation -> Prop) : Prop :=
  forall o o', S o -> S o' -> ob_jid o = ob_jid o' -> ob_at o = ob_at o' /\ ob_event o = ob_event o'.

Definition one (o : Observation) : Observation -> Prop := fun o' => o' = o.
Definition either (S T : Observation -> Prop) : Observation -> Prop := fun o => S o \/ T o.
Definition among (l : list Observation) : Observation -> Prop := fun o => o ∈ l.

(** One evidence column after a write that brings [x]. *)
Definition merge_column {A} (c x : Z * A) : Z * A := (Z.max c.1 x.1, newer c.1 x.1 c.2 x.2).
Definition merge_evidence (e x : Evidence) : Evidence :=
  mk_Evidence (merge_column (ec_event e) (ec_event x)) (merge_column (ec_prompt e) (ec_prompt x))
    (merge_column (ec_end e) (ec_end x)) (merge_column (ec_resume e) (ec_resume x)).
Definition no_evidence : Evidence := mk_Evidence (0, "") (0, 0) (0, 0) (0, 0).
Definition row_evidence (row : option SessionRow) : Evidence := default no_evidence (evidence <$> row).

(** ** Columns *)
Lemma newest_none {A} p (val : _ -> A) d (S : _ -> Prop) : (forall o, S o -> p o = false) -> newest p val d S 0 d.
Proof. left. done. Qed.

Lemma newest_one {A} p (val : Observation -> A) d o :
  newest p val d (one o) (if p o then ob_jid o else 0) (if p o then val o else d).
Proof.
  destruct (p o) eqn:Hp; [right|left].
  - exists o. unfold one. naive_solver lia.
  - unfold one. naive_solver.
Qed.

Lemma newest_nonneg {A} p (val : _ -> A) d S j v : positive_jids S -> newest p val d S j v -> 0 <= j.
Proof. intros HS [(-> & _)|(o & Ho & _ & <- & _)]; [lia|]. specialize (HS o Ho). lia. Qed.

Lemma newest_either {A} p (val : _ -> A) d S T j v j' v' :
  positive_jids S -> positive_jids T ->
  newest p val d S j v -> newest p val d T j' v' ->
  newest p val d (either S T) (merge_column (j, v) (j', v')).1 (merge_column (j, v) (j', v')).2.
Proof.
  intros HS HT HSj HTj. pose proof (newest_nonneg _ _ _ _ _ _ HS HSj).
  pose proof (newest_nonneg _ _ _ _ _ _ HT HTj). simpl. unfold newer.
  destruct HTj as [(-> & -> & Hn)|(t & Ht & Hpt & <- & <- & Hmt)].
  - rewrite Z.max_l by lia. destruct (Z.ltb_spec j 0); [lia|].
    destruct HSj as [(-> & -> & Hn')|(o & Ho & Hpo & <- & <- & Hmo)]; [left|right].
    + split_and!; [done|done|]. intros o [?|?]; eauto.
    + exists o. split_and!; [by left|done|done|done|]. intros o' [?|?] Hp; [eauto|].
      rewrite Hn in Hp; done.
  - destruct (Z.ltb_spec j (ob_jid t)); right.
    + exists t. rewrite Z.max_r by lia. split_and!; [by right|done|done|done|].
      intros o' [Hs|?] Hp; [|eauto].
      destruct HSj as [(_ & _ & Hn)|(o & _ & _ & <- & _ & Hmo)]; [by rewrite Hn in Hp|].
      specialize (Hmo o' Hs Hp). lia.
    + specialize (HT t Ht). destruct HSj as [(-> & _)|(o & Ho & Hpo & <- & <- & Hmo)]; [lia|].
      exists o. rewrite Z.max_l by lia. split_and!; [by left|done|done|done|].
      intros o' [?|Ht'] Hp; [eauto|]. specialize (Hmt o' Ht' Hp). lia.
Qed.

(** Coherence fixes the column. *)
Lemma newest_unique {A} p (val : _ -> A) d S j v j' v' :
  positive_jids S -> (forall o o', S o -> S o' -> ob_jid o = ob_jid o' -> val o = val o') ->
  newest p val d S j v -> newest p val d S j' v' -> j = j' /\ v = v'.
Proof.
  intros HS Hc [(-> & -> & Hn)|(o & Ho & Hp & <- & <- & Hm)] [(-> & -> & Hn')|(o' & Ho' & Hp' & <- & <- & Hm')].
  - done.
  - by rewrite Hn in Hp'.
  - by rewrite Hn' in Hp.
  - specialize (Hm o' Ho' Hp'). specialize (Hm' o Ho Hp).
    assert (ob_jid o = ob_jid o') as He by lia. split; [done|]. by apply Hc.
Qed.

Lemma newest_ext {A} p (val : _ -> A) d S T j v :
  (forall o, S o <-> T o) -> newest p val d S j v -> newest p val d T j v.
Proof. unfold newest. intros He. setoid_rewrite He. done. Qed.

(** ** Rows *)
Lemma shows_ext e S T : (forall o, S o <-> T o) -> shows e S -> shows e T.
Proof. intros He (?&?&?&?). split_and!; by eapply newest_ext. Qed.

Lemma shows_none : shows no_evidence (fun _ => False).
Proof. split_and!; by apply newest_none. Qed.

Lemma shows_one o : shows (evidence (excluded_row o)) (one o).
Proof. split_and!; [exact (newest_one is_event ob_event "" o)|exact (newest_one is_prompt ob_at 0 o)
                     |exact (newest_one is_end ob_at 0 o)|exact (newest_one is_resume ob_at 0 o)]. Qed.

Lemma shows_either e x S T :
  positive_jids S -> positive_jids T -> shows e S -> shows x T -> shows (merge_evidence e x) (either S T).
Proof.
  destruct e as [[] [] [] []], x as [[] [] [] []]. intros HS HT (?&?&?&?) (?&?&?&?).
  split_and!; by apply newest_either.
Qed.

Lemma shows_unique e x S : positive_jids S -> coherent S -> shows e S -> shows x S -> e = x.
Proof.
  destruct e as [[] [] [] []], x as [[] [] [] []]. intros HS Hc (H1&H2&H3&H4) (G1&G2&G3&G4). simpl in *.
  assert (Ha : forall o o', S o -> S o' -> ob_jid o = ob_jid o' -> ob_at o = ob_at o') by (intros; by apply Hc).
  assert (He : forall o o', S o -> S o' -> ob_jid o = ob_jid o' -> ob_event o = ob_event o') by (intros; by apply Hc).
  destruct (newest_unique _ _ _ _ _ _ _ _ HS He H1 G1), (newest_unique _ _ _ _ _ _ _ _ HS Ha H2 G2),
    (newest_unique _ _ _ _ _ _ _ _ HS Ha H3 G3), (newest_unique _ _ _ _ _ _ _ _ HS Ha H4 G4). by subst.
Qed.

Lemma shows_nonneg e S : positive_jids S -> shows e S ->
  0 <= (ec_event e).1 /\ 0 <= (ec_prompt e).1 /\ 0 <= (ec_end e).1 /\ 0 <= (ec_resume e).1.
Proof. intros HS (?&?&?&?). split_and!; by eapply newest_nonneg. Qed.

Lemma positive_either S T : positive_jids S -> positive_jids T -> positive_jids (either S T).
Proof. intros HS HT o [?|?]; eauto. Qed.
Lemma positive_one o : 0 < ob_jid o -> positive_jids (one o).
Proof. by intros ? ? ->. Qed.

(** ** The writes are merges *)
Lemma newer_old {A} j j' (v v' : A) : j' <= j -> newer j j' v v' = v.
Proof. unfold newer. destruct (Z.ltb_spec j j'); [lia|done]. Qed.

Lemma merge_column_old {A} (c x : Z * A) : x.1 <= c.1 -> merge_column c x = c.
Proof. destruct c, x. unfold merge_column; simpl. intros. rewrite newer_old, Z.max_l by lia. done. Qed.

Lemma upsertSessionState_some r x :
  evidence (upsertSessionState (Some r) x).1 = merge_evidence (evidence r) (evidence x).
Proof.
  unfold upsertSessionState. destruct (_ || _) eqn:Hw; [done|]. simpl.
  rewrite !orb_false_iff, !Z.ltb_ge in Hw. unfold merge_evidence. rewrite !merge_column_old by (simpl; lia). done.
Qed.

Lemma merge_none x : 0 <= (ec_event x).1 -> 0 <= (ec_prompt x).1 -> 0 <= (ec_end x).1 -> 0 <= (ec_resume x).1 ->
  ((ec_event x).1 = 0 -> (ec_event x).2 = "") -> ((ec_prompt x).1 = 0 -> (ec_prompt x).2 = 0) ->
  ((ec_end x).1 = 0 -> (ec_end x).2 = 0) -> ((ec_resume x).1 = 0 -> (ec_resume x).2 = 0) ->
  merge_evidence no_evidence x = x.
Proof.
  destruct x as [[j1 v1] [j2 v2] [j3 v3] [j4 v4]]. unfold merge_evidence, merge_column, newer; simpl. intros ???? E1 E2 E3 E4.
  rewrite !Z.max_r by done.
  destruct (Z.ltb_spec 0 j1), (Z.ltb_spec 0 j2), (Z.ltb_spec 0 j3), (Z.ltb_spec 0 j4);
    rewrite ?E1, ?E2, ?E3, ?E4 by lia; done.
Qed.

(** A live write of one event. *)
Lemma live_shows row S o :
  positive_jids S -> 0 < ob_jid o -> shows (row_evidence row) S ->
  shows (evidence (upsertSessionState row (excluded_row o)).1) (either S (one o)).
Proof.
  intros HS Ho Hr. destruct row as [r|].
  - rewrite upsertSessionState_some. apply shows_either; auto using positive_one, shows_one.
  - simpl in *. rewrite <- (merge_none (evidence (excluded_row o))).
    + apply shows_either; auto using positive_one, shows_one.
    + simpl; lia.
    + simpl. destruct (_ =? _)%N; lia.
    + simpl. destruct (_ =? _)%N; lia.
    + simpl. destruct (_ =? _)%N; lia.
    + simpl; lia.
    + simpl. destruct (_ =? _)%N; lia.
    + simpl. destruct (_ =? _)%N; lia.
    + simpl. destruct (_ =? _)%N; lia.
Qed.

Lemma bind_evidence row at_ : evidence (bind_row row at_) = row_evidence row.
Proof. by destruct row. Qed.

Lemma addTimestamp_evidence r ts : rebuild_evidence (addTimestamp r ts) = rebuild_evidence r.
Proof. unfold addTimestamp. by destruct (ts <=? 0). Qed.

Lemma replay_step_column {A} (b : bool) (c : Z * A) jid (v d : A) :
  0 <= c.1 ->
  merge_column c (if b then jid else 0, if b then v else d)
  = (if b && (c.1 <? jid) then jid else c.1, if b && (c.1 <? jid) then v else c.2).
Proof.
  destruct c as [j w]; simpl. intros Hj. unfold merge_column, newer; simpl.
  destruct b; simpl.
  - destruct (Z.ltb_spec j jid); f_equal; lia.
  - destruct (Z.ltb_spec j 0); [lia|]. f_equal. lia.
Qed.

Lemma replay_step_evidence r o :
  0 <= rb_lastJournalID r -> 0 <= rb_lastPromptJournalID r -> 0 <= rb_hostEndJournalID r ->
  0 <= rb_lastResumeJournalID r ->
  rebuild_evidence (replay_step r o) = merge_evidence (rebuild_evidence r) (evidence (excluded_row o)).
Proof.
  intros. unfold merge_evidence, rebuild_evidence at 2 3 4 5, evidence; cbn -[merge_column Z.ltb N.eqb].
  rewrite !replay_step_column by done. unfold merge_column, newer, rebuild_evidence, replay_step; simpl.
  f_equal. destruct (Z.ltb_spec (rb_lastJournalID r) (ob_jid o)); f_equal; lia.
Qed.

Lemma replay_shows r S o :
  positive_jids S -> 0 < ob_jid o -> shows (rebuild_evidence r) S ->
  shows (rebuild_evidence (replay_step r o)) (either S (one o)).
Proof.
  intros HS Ho Hr. destruct (shows_nonneg _ _ HS Hr) as (?&?&?&?).
  rewrite replay_step_evidence by done. apply shows_either; auto using positive_one, shows_one.
Qed.

Lemma upsertReplayed_some r x :
  evidence (upsertReplayedSessionRow (Some r) x) = merge_evidence (evidence r) (rebuild_evidence x).
Proof. done. Qed.

(** The publication of a replayed row. *)
Lemma publish_shows row S x T :
  positive_jids S -> positive_jids T -> shows (row_evidence row) S -> shows (rebuild_evidence x) T ->
  (row = None -> forall o, ~ S o) ->
  shows (evidence (upsertReplayedSessionRow row x)) (either S T).
Proof.
  intros HS HT Hr Hx Hn. destruct row as [r|].
  - rewrite upsertReplayed_some. by apply shows_either.
  - eapply shows_ext; [|exact Hx]. unfold either. specialize (Hn eq_refl). naive_solver.
Qed.

(** ** Whole histories *)
Definition live_history (l : list Observation) (row : option SessionRow) : option SessionRow :=
  fold_left (fun row o => Some (upsertSessionState row (excluded_row o)).1) l row.
Definition replay_history (l : list Observation) : sessionRebuildRow := fold_left replay_step l empty_rebuild.

Definition history_ok (l : list Observation) : Prop := positive_jids (among l) /\ coherent (among l).

Lemma live_history_shows l row S :
  positive_jids S -> positive_jids (among l) -> shows (row_evidence row) S ->
  shows (row_evidence (live_history l row)) (either S (among l)).
Proof.
  revert row S; induction l as [|o l IH]; intros row S HS Hl Hr; simpl.
  - eapply shows_ext; [|exact Hr]. unfold either, among. set_solver.
  - assert (0 < ob_jid o) by (apply Hl; left).
    assert (Hl' : positive_jids (among l)) by (intros o' Ho'; apply Hl; by right).
    eapply shows_ext; [|apply (IH _ (either S (one o)))]; auto using positive_either, positive_one.
    + unfold either, among, one. set_solver.
    + by apply live_shows.
Qed.

Lemma replay_history_shows l r S :
  positive_jids S -> positive_jids (among l) -> shows (rebuild_evidence r) S ->
  shows (rebuild_evidence (fold_left replay_step l r)) (either S (among l)).
Proof.
  revert r S; induction l as [|o l IH]; intros r S HS Hl Hr; simpl.
  - eapply shows_ext; [|exact Hr]. unfold either, among. set_solver.
  - assert (0 < ob_jid o) by (apply Hl; left).
    assert (Hl' : positive_jids (among l)) by (intros o' Ho'; apply Hl; by right).
    eapply shows_ext; [|apply (IH _ (either S (one o)))]; auto using positive_either, positive_one.
    + unfold either, among, one. set_solver.
    + by apply replay_shows.
Qed.

Lemma positive_none : positive_jids (fun _ => False).
Proof. by intros ?. Qed.

Lemma replay_among l : positive_jids (among l) -> shows (rebuild_evidence (replay_history l)) (among l).
Proof.
  intros Hl. eapply shows_ext; [|apply (replay_history_shows l empty_rebuild _ positive_none Hl shows_none)].
  unfold either. naive_solver.
Qed.

Lemma live_among l row : positive_jids (among l) -> row_evidence row = no_evidence ->
  shows (row_evidence (live_history l row)) (among l).
Proof.
  intros Hl Hr. eapply shows_ext; [|apply (live_history_shows l row _ positive_none Hl)].
  - unfold either. naive_solver.
  - rewrite Hr. exact shows_none.
Qed.

(** The order of delivery does not matter.  Live tails of the same events in
    any order and any multiplicity, into an absent row or one a bind made, give
    the evidence columns of the newest observation of each kind, and those are
    the columns a replay of the journal gives. *)
Theorem live_is_replay l k row :
  history_ok l -> (forall o, o ∈ k <-> o ∈ l) -> row_evidence row = no_evidence ->
  row_evidence (live_history k row) = rebuild_evidence (replay_history l)
  /\ shows (rebuild_evidence (replay_history l)) (among l).
Proof.
  intros [Hl Hc] Hk Hr. split; [|by apply replay_among].
  assert (Hk' : positive_jids (among k)) by (intros o Ho; apply Hl; by apply Hk).
  apply (shows_unique _ _ (among l)); [done|done| |by apply replay_among].
  eapply shows_ext; [|apply (live_among k row Hk' Hr)]. exact Hk.
Qed.

(** A column at least as new as a member of the kind. *)
Lemma newest_covers {A} p (val : _ -> A) d S j v o : newest p val d S j v -> S o -> p o = true -> ob_jid o <= j.
Proof. intros [(_ & _ & Hn)|(o' & _ & _ & _ & _ & Hm)] Ho Hp; [by rewrite Hn in Hp|by apply Hm]. Qed.

(** A repeated or overtaken delivery changes nothing.  When the row already
    holds the event, the statement affects no row, so the tail closes no binding
    and advances no revision; otherwise the journal positive_jids never go back. *)
Theorem redelivery_silent r S o :
  positive_jids S -> 0 < ob_jid o -> shows (evidence r) S ->
  (S o -> upsertSessionState (Some r) (excluded_row o) = (r, false))
  /\ let r' := (upsertSessionState (Some r) (excluded_row o)).1 in
     sr_last_journal_id r <= sr_last_journal_id r' /\ sr_last_prompt_journal_id r <= sr_last_prompt_journal_id r'
     /\ sr_host_end_journal_id r <= sr_host_end_journal_id r'
     /\ sr_last_resume_journal_id r <= sr_last_resume_journal_id r'
     /\ sr_first_seen r' = sr_first_seen r /\ sr_updated_at r <= sr_updated_at r'.
Proof.
  intros HS Hpos Hr. split.
  - intros Ho. destruct (shows_nonneg _ _ HS Hr) as (N1 & N2 & N3 & N4). destruct Hr as (H1 & H2 & H3 & H4).
    pose proof (newest_covers _ _ _ _ _ _ o H1 Ho eq_refl) as C1.
    assert (forall (p : Observation -> bool) j v, newest p ob_at 0 S j v -> 0 <= j ->
            (if p o then ob_jid o else 0) <= j) as Hcol.
    { intros p j v Hn ?. destruct (p o) eqn:Hp; [by eapply newest_covers|done]. }
    apply Hcol in H2, H3, H4; [|done..]. clear H1 Hcol. unfold upsertSessionState, excluded_row. simpl in *.
    unfold is_prompt, is_end, is_resume in *.
    destruct (_ || _) eqn:Hw; [|done]. rewrite !orb_true_iff, !Z.ltb_lt in Hw. lia.
  - intros r'. subst r'. unfold upsertSessionState. destruct (_ || _); simpl; lia.
Qed.

(** ** Instants *)

(** Every scanned instant bounds the first one from above. *)
Lemma replay_first_seen l r :
  (forall o, o ∈ l -> 0 < ob_at o) -> 0 <= rb_firstSeen r ->
  let f := rb_firstSeen (fold_left replay_step l r) in
  (0 < rb_firstSeen r -> 0 < f <= rb_firstSeen r) /\ (forall o, o ∈ l -> 0 < f <= ob_at o).
Proof.
  revert r; induction l as [|o' l IH]; intros r Hl Hr; simpl.
  { split; [lia|set_solver]. }
  assert (0 < ob_at o') by (apply Hl; left).
  assert (Hl' : forall o, o ∈ l -> 0 < ob_at o) by (intros; apply Hl; by right).
  assert (Hs : 0 < rb_firstSeen (replay_step r o') <= ob_at o'
               /\ (0 < rb_firstSeen r -> rb_firstSeen (replay_step r o') <= rb_firstSeen r)).
  { simpl. destruct (Z.eqb_spec (rb_firstSeen r) 0); simpl; [lia|]. destruct (Z.ltb_spec (ob_at o') (rb_firstSeen r)); lia. }
  destruct (IH (replay_step r o') Hl' ltac:(lia)) as [I1 I2]. specialize (I1 ltac:(lia)).
  split; [lia|]. intros o [->|Ho]%elem_of_cons; [lia|auto].
Qed.

Lemma addTimestamp_first_seen r ts :
  0 <= rb_firstSeen r ->
  0 <= rb_firstSeen (addTimestamp r ts)
  /\ (0 < rb_firstSeen r -> 0 < rb_firstSeen (addTimestamp r ts) <= rb_firstSeen r).
Proof.
  intros. unfold addTimestamp. destruct (Z.leb_spec ts 0); simpl; [lia|].
  destruct (Z.eqb_spec (rb_firstSeen r) 0); simpl; [lia|]. destruct (Z.ltb_spec ts (rb_firstSeen r)); lia.
Qed.

(** *** A late tail after a bind

    The tail of an event recorded before a bind, settled after it, takes
    last_seen back to the event; the suffix replay keeps it there, and only a
    full rebuild restores it. *)
Definition late_event : Observation := mk_Obs 7 50 "UserPromptSubmit" SessionTransitionPrompt.
Definition bound_then_tailed : SessionRow := (upsertSessionState (Some (bind_row None 100)) (excluded_row late_event)).1.
Definition late_replay : sessionRebuildRow := addTimestamp (replay_history [late_event]) 100.
Example late_tail_rewinds_last_seen :
  sr_last_seen (bind_row None 100) = 100 /\ sr_last_seen bound_then_tailed = 50
  /\ sr_last_seen (upsertReplayedSessionRow (Some bound_then_tailed) late_replay) = 50
  /\ sr_last_seen (upsertReplayedSessionRow None late_replay) = 100.
Proof. vm_compute. done. Qed.

(** *** Witnesses *)
Definition prompt7 : Observation := mk_Obs 7 50 "UserPromptSubmit" SessionTransitionPrompt.
Definition stop9 : Observation := mk_Obs 9 60 "SessionEnd" SessionTransitionEnd.
Definition start12 : Observation := mk_Obs 12 80 "SessionStart" SessionTransitionResume.

Lemma history_witness : history_ok [prompt7; stop9; start12].
Proof.
  split; unfold among.
  - intros o Ho. repeat (apply elem_of_cons in Ho as [->|Ho]; [done|]). by apply elem_of_nil in Ho.
  - intros o o' Ho Ho'. repeat (apply elem_of_cons in Ho as [->|Ho]; [|]); [..|by apply elem_of_nil in Ho];
      repeat (apply elem_of_cons in Ho' as [->|Ho']; [done|]); by apply elem_of_nil in Ho'.
Qed.

Lemma live_is_replay_witness :
  row_evidence (live_history [start12; prompt7; prompt7; stop9] (Some (bind_row None 40)))
  = rebuild_evidence (replay_history [prompt7; stop9; start12]).
Proof.
  refine (proj1 (live_is_replay [prompt7; stop9; start12] [start12; prompt7; prompt7; stop9]
    (Some (bind_row None 40)) history_witness _ eq_refl)).
  intros o. set_solver.
Defined.

Lemma redelivery_silent_witness :
  upsertSessionState (Some (excluded_row stop9)) (excluded_row stop9) = (excluded_row stop9, false).
Proof.
  refine (proj1 (redelivery_silent (excluded_row stop9) (one stop9) stop9 _ _ (shows_one stop9)) eq_refl).
  - apply positive_one. reflexivity.
  - reflexivity.
Defined.
