(* ===== verification/SessionStore.v ===== *)
(** SessionStore: the session tables and the writes on them
    (internal/tasks/session_claim.go, session_state.go, session_api_store.go and
    the tables of open_unified.go).

    A transaction is a function of the store; a statement that the database
    refuses is an oracle, [fails], and a refused transaction leaves the store as
    it was.  The tail writes the claim and the cache row of one event; a fault of
    the cache alone is confined to a savepoint. *)

From Stdlib Require Import NArith ZArith Lia Ascii String.
From stdpp Require Import base tactics list strings gmap.
From S2P Require Import Prelude GoStrings Vocabulary Registration RuntimeDescriptor SessionEvidence SessionRows.
Local Open Scope string_scope.
Local Open Scope list_scope.
Local Open Scope Z_scope.

(** ** Tables *)
Record sessionKey := mk_Key { sk_harness : string; sk_session : string }.
#[export] Instance sessionKey_eq_dec : EqDecision sessionKey.
Proof. solve_decision. Defined.
#[export] Instance sessionKey_countable : Countable sessionKey.
Proof. by refine (inj_countable' (fun k => (sk_harness k, sk_session k)) (fun p => mk_Key p.1 p.2) _); intros []. Defined.

Record SessionClaim := mk_Claim { cl_actor : string; cl_claimed_at : Z }.

Inductive UnbindReason := ReasonUnbind | ReasonSessionEnd.
#[export] Instance UnbindReason_eq_dec : EqDecision UnbindReason.
Proof. solve_decision. Defined.

(** unbound_at and unbound_reason are written together. *)
Record EpochBinding := mk_EpochBinding {
  eb_binding_id : string;
  eb_key : sessionKey;
  eb_epoch_id : string;
  eb_role : string;
  eb_bound_at : Z;
  eb_unbound : option (Z * UnbindReason);
}.
#[export] Instance EpochBinding_eq_dec : EqDecision EpochBinding.
Proof. solve_decision. Defined.

Record sessionInferredBinding := mk_Inferred {
  ib_BindingID : string;
  ib_key : sessionKey;
  ib_EpochID : string;
  ib_Role : string;
  ib_BoundAt : Z;
  ib_InferredAt : Z;
  ib_Reason : string;
  ib_Confidence : string;
}.
#[export] Instance Inferred_eq_dec : EqDecision sessionInferredBinding.
Proof. solve_decision. Defined.

Record sessionExecutionRow := mk_ExecutionRow {
  sx_key : sessionKey;
  sx_observedAt : Z;
  sx_kind : string;
  sx_agent : string;
  sx_turn : string;
  sx_request : string;
  sx_encoded : bytes;
}.
#[export] Instance ExecutionRow_eq_dec : EqDecision sessionExecutionRow.
Proof. solve_decision. Defined.

(** pasture_session_api_state, the singleton. *)
Record ApiState := mk_Api {
  as_revision : Z;
  as_dirty : bool;
  as_completed_through_jid : Z;
  as_cache_version : Z;
}.
Definition SessionCacheVersion : Z := 2.

Record Store := mk_Store {
  st_state : gmap sessionKey SessionRow;
  st_claim : gmap sessionKey SessionClaim;
  st_bindings : list EpochBinding;
  st_inferred : list sessionInferredBinding;
  st_executions : gmap Z sessionExecutionRow;
  st_api : option ApiState;
}.

(** The store after its tables are created (open_unified.go). *)
Definition fresh_store : Store := mk_Store ∅ ∅ [] [] ∅ (Some (mk_Api 0 false 0 SessionCacheVersion)).

Definition set_state (m : gmap sessionKey SessionRow) (s : Store) : Store :=
  mk_Store m (st_claim s) (st_bindings s) (st_inferred s) (st_executions s) (st_api s).
Definition set_claim (m : gmap sessionKey SessionClaim) (s : Store) : Store :=
  mk_Store (st_state s) m (st_bindings s) (st_inferred s) (st_executions s) (st_api s).
Definition set_bindings (l : list EpochBinding) (s : Store) : Store :=
  mk_Store (st_state s) (st_claim s) l (st_inferred s) (st_executions s) (st_api s).
Definition set_inferred (l : list sessionInferredBinding) (s : Store) : Store :=
  mk_Store (st_state s) (st_claim s) (st_bindings s) l (st_executions s) (st_api s).
Definition set_executions (m : gmap Z sessionExecutionRow) (s : Store) : Store :=
  mk_Store (st_state s) (st_claim s) (st_bindings s) (st_inferred s) m (st_api s).
Definition set_api (a : option ApiState) (s : Store) : Store :=
  mk_Store (st_state s) (st_claim s) (st_bindings s) (st_inferred s) (st_executions s) a.

(** ** Statements *)
Inductive Statement :=
  | BeginTx | CommitTx
  | ClaimRead | ClaimWrite | ClaimReread
  | StateSavepoint | StateUpsert | EndQuery | CloseBinding | ClearInferred | RollbackState | ReleaseState
  | MarkDirty | BumpRevision | InitRevision | ReadRevision
  | ReadEpoch | ReadOpenBinding | ClosePrevious | InsertBinding | BindState | CloseUnbind
  | EnsureApi | LockApi | ReadStatus | ReadBindings | ReadClaims | DeleteExecutions | DeleteState
  | UpsertRows | InsertExecutions | ReadEnds | InferenceSavepoint | DeleteInferred | InsertInferred
  | RollbackInference | ClearInference | ReleaseInference | PublishApi | ReadPublished | CountState.

Section store.
(** The statements the database refuses in one transaction. *)
Context (fails : Statement -> bool).

Definition stmt {A} (st : Statement) (x : A) : result Statement A := if fails st then Err st else Ok x.

(** ** The API state *)
Definition dirty_api (a : ApiState) : ApiState :=
  mk_Api (as_revision a + 1) true (as_completed_through_jid a) (as_cache_version a).
Definition bump_api (a : ApiState) : ApiState :=
  mk_Api (as_revision a + 1) (as_dirty a) (as_completed_through_jid a) (as_cache_version a).
Definition MarkSessionStateDirty (s : Store) : Store * option Statement :=
  if fails MarkDirty then (s, Some MarkDirty) else (set_api (dirty_api <$> st_api s) s, None).

(** ** Claims *)
Inductive SessionClaimState :=
  SessionClaimNotAttempted | SessionClaimWrote | SessionClaimAlreadyClaimed | SessionClaimLostRace.
Record SessionClaimOutcome := mk_ClaimOutcome { co_State : SessionClaimState; co_StoredActor : string }.
Definition no_claim : SessionClaimOutcome := mk_ClaimOutcome SessionClaimNotAttempted "".

Definition Mismatch (o : SessionClaimOutcome) (attempted : string) : bool :=
  match co_State o with
  | SessionClaimAlreadyClaimed | SessionClaimLostRace => negb (String.eqb (co_StoredActor o) attempted)
  | _ => false
  end.

(** INSERT ... ON CONFLICT DO NOTHING, and the rows affected. *)
Definition insert_claim (s : Store) (key : sessionKey) (c : SessionClaim) : Store * nat :=
  match st_claim s !! key with
  | Some _ => (s, 0%nat)
  | None => (set_claim (<[key := c]> (st_claim s)) s, 1%nat)
  end.
Definition stored_actor (s : Store) (key : sessionKey) : option string := cl_actor <$> st_claim s !! key.
Definition winner (reread : Store) (key : sessionKey) : string :=
  if fails ClaimReread then "" else default "" (stored_actor reread key).

Definition claimSessionTx (s : Store) (key : sessionKey) (actor : string) (now : Z)
    : result Statement (Store * SessionClaimOutcome) :=
  stored ← stmt ClaimRead (stored_actor s key);
  match stored with
  | Some a => Ok (s, mk_ClaimOutcome SessionClaimAlreadyClaimed a)
  | None =>
      written ← stmt ClaimWrite (insert_claim s key (mk_Claim actor now));
      let '(s', affected) := written in
      if (affected =? 0)%nat then Ok (s', mk_ClaimOutcome SessionClaimLostRace (winner s' key))
      else Ok (s', mk_ClaimOutcome SessionClaimWrote actor)
  end.

Inductive ClaimError := ClaimAmbiguous | ClaimInvalid | ClaimRefused (st : Statement).

(** The claim outside a transaction: the read, the insert and the second read
    each see the store of their own instant. *)
Definition RecordLifecycleSessionClaim (harness : HarnessID) (bindings : list NativeBinding) (claim : string)
    (clock : option Z) (s_read s_insert : Store) (reread : Store -> Store)
    : Store * SessionClaimOutcome * option ClaimError :=
  if String.eqb claim "" then (s_insert, no_claim, None)
  else match lifecycleSession bindings with
  | None => (s_insert, no_claim, Some ClaimAmbiguous)
  | Some session =>
      if bool_decide (TrimSpace (to_bytes session) = []) then (s_insert, no_claim, None)
      else match clock with
      | None => (s_insert, no_claim, Some ClaimInvalid)
      | Some now =>
          if negb (bool_decide (TrimSpace (to_bytes claim) = to_bytes claim))
          then (s_insert, no_claim, Some ClaimInvalid)
          else let key := mk_Key harness session in
          if fails ClaimRead then (s_insert, no_claim, Some (ClaimRefused ClaimRead))
          else match stored_actor s_read key with
          | Some stored => (s_insert, mk_ClaimOutcome SessionClaimAlreadyClaimed stored, None)
          | None =>
              if fails ClaimWrite then (s_insert, no_claim, Some (ClaimRefused ClaimWrite))
              else let '(s', affected) := insert_claim s_insert key (mk_Claim claim now) in
              if (affected =? 0)%nat
              then (s', mk_ClaimOutcome SessionClaimLostRace (winner (reread s') key), None)
              else (s', mk_ClaimOutcome SessionClaimWrote claim, None)
          end
      end
  end.

(** ** Closing a session *)
Definition close_open (key : sessionKey) (at_ : Z) (b : EpochBinding) : EpochBinding :=
  if bool_decide (eb_key b = key) && bool_decide (eb_unbound b = None) && (eb_bound_at b <=? at_)
  then mk_EpochBinding (eb_binding_id b) (eb_key b) (eb_epoch_id b) (eb_role b) (eb_bound_at b)
         (Some (at_, ReasonSessionEnd))
  else b.
Definition clearSessionInferredBindings (key : sessionKey) (s : Store) : Store :=
  set_inferred (List.filter (fun r => negb (bool_decide (ib_key r = key))) (st_inferred s)) s.
Definition closeSessionBindingTx (s : Store) (key : sessionKey) (at_ : Z) : result Statement Store :=
  s1 ← stmt CloseBinding (set_bindings (close_open key at_ <$> st_bindings s) s);
  stmt ClearInferred (clearSessionInferredBindings key s1).

(** ** The tail *)
Record SessionTailInput := mk_TailInput {
  ti_Harness : HarnessID;
  ti_Contract : RuntimeContractID;
  ti_EventKind : N;
  ti_Bindings : list NativeBinding;
  ti_NativeBody : option bytes;
  ti_Capture : CaptureDisposition;
  ti_OccurrenceID : Z;
  ti_RecordedAt : option Z;
  ti_ActorClaim : string;
  ti_Clock : option Z;
}.
Record SessionTailOutcome := mk_TailOutcome {
  to_Claim : SessionClaimOutcome;
  to_Written : bool;
  to_Dirty : bool;
}.
Definition no_tail : SessionTailOutcome := mk_TailOutcome no_claim false false.
Inductive TailError := TailCallInvalid | TailAmbiguous | TailRefused (st : Statement).

Context `{PayloadCodec}.

Definition sessionTailTransition (i : SessionTailInput) : SessionTransition :=
  tail_transition (ti_Harness i) (ti_Contract i) (ti_EventKind i) (ti_Bindings i) (ti_NativeBody i) (ti_Capture i).
Definition tail_observation (i : SessionTailInput) (recorded_at : Z) : Observation :=
  mk_Obs (ti_OccurrenceID i) recorded_at (default "" (NativeName (ti_Contract i) (ti_EventKind i)))
    (sessionTailTransition i).
Definition upsertSessionStateTx (s : Store) (key : sessionKey) (o : Observation) : result Statement (Store * bool) :=
  let '(row, changed) := upsertSessionState (st_state s !! key) (excluded_row o) in
  stmt StateUpsert (set_state (<[key := row]> (st_state s)) s, changed).

(** What runs under the savepoint. *)
Definition state_write (s : Store) (key : sessionKey) (o : Observation) : result Statement (Store * bool) :=
  written ← upsertSessionStateTx s key o;
  let '(s1, changed) := written in
  if changed && (ob_transition o =? SessionTransitionEnd)%N then
    ended ← stmt EndQuery
      (match st_state s1 !! key with
       | Some r => (sr_host_end_journal_id r =? ob_jid o) && unsuperseded r
       | None => false
       end);
    if (ended : bool) then s2 ← closeSessionBindingTx s1 key (ob_at o); Ok (s2, changed) else Ok (s1, changed)
  else Ok (s1, changed).

Definition wrote (c : SessionClaimOutcome) : bool :=
  match co_State c with SessionClaimWrote => true | _ => false end.

(** From the savepoint to the commit; [s0] is the store the transaction began on
    and [s] the store with the claim. *)
Definition tail_state (s0 s : Store) (key : sessionKey) (o : Observation) (claim : SessionClaimOutcome)
    : Store * SessionTailOutcome * option TailError :=
  let refuse st out := (s0, out, Some (TailRefused st)) in
  let out := mk_TailOutcome claim false false in
  if fails StateSavepoint then refuse StateSavepoint out
  else match state_write s key o with
  | Err _ =>
      if fails RollbackState then refuse RollbackState out
      else if fails ReleaseState then refuse ReleaseState out
      else if fails MarkDirty then refuse MarkDirty out
      else let out' := mk_TailOutcome claim false true in
        if fails CommitTx then refuse CommitTx out'
        else (set_api (dirty_api <$> st_api s) s, out', None)
  | Ok (s1, changed) =>
      if fails ReleaseState then refuse ReleaseState out
      else if (changed || wrote claim) && fails BumpRevision then refuse BumpRevision out
      else let s2 := if changed || wrote claim then set_api (bump_api <$> st_api s1) s1 else s1 in
        let out' := mk_TailOutcome claim changed false in
        if fails CommitTx then refuse CommitTx out' else (s2, out', None)
  end.

Definition RecordLifecycleSessionTail (i : SessionTailInput) (s : Store)
    : Store * SessionTailOutcome * option TailError :=
  match ti_Clock i with
  | None => (s, no_tail, Some TailCallInvalid)
  | Some now =>
      match (if ti_OccurrenceID i =? 0 then None else ti_RecordedAt i) with
      | None => (s, no_tail, Some TailCallInvalid)
      | Some recorded_at =>
          match lifecycleSession (ti_Bindings i) with
          | None => (s, no_tail, Some TailAmbiguous)
          | Some session =>
              if String.eqb session "" then (s, no_tail, None)
              else if fails BeginTx then (s, no_tail, Some (TailRefused BeginTx))
              else let key := mk_Key (ti_Harness i) session in
              match (if String.eqb (ti_ActorClaim i) "" then Ok (s, no_claim)
                     else claimSessionTx s key (ti_ActorClaim i) now) with
              | Err st => (s, no_tail, Some (TailRefused st))
              | Ok (s1, claim) => tail_state s s1 key (tail_observation i recorded_at) claim
              end
          end
      end
  end.

(** ** Explicit bindings (session_api_store.go) *)
Record SessionBindRequest := mk_BindRequest { br_EpochID : string; br_Role : string; br_ExpectedBinding : string }.
Record SessionBindingResult := mk_BindingResult {
  sb_BindingID : string;
  sb_EpochID : string;
  sb_Role : string;
  sb_BoundAt : Z;
  sb_UnboundAt : option Z;
  sb_Revision : Z;
  sb_Created : bool;
}.
Inductive BindingRequestFault := KeyInvalid | EpochRequired | RoleInvalid | ExpectedPadded.
Inductive BindingError :=
  | ErrBindingRequest (why : BindingRequestFault)
  | ErrUnknownEpoch (epoch : string)
  | ErrBindingConflict (open : option string)
  | ErrNoOpenBinding
  | ErrBindingStoreFault (st : Statement).

(** Ranging over a string decodes one rune at a time; a byte that starts none is
    U+FFFD, which is not a control character. *)
Fixpoint has_control (fuel : nat) (s : bytes) : bool :=
  match fuel, s with
  | S fuel', c :: rest =>
      match runes [c] with
      | Some [r] => IsControl r || has_control fuel' rest
      | _ => match s with
             | a :: b :: rest2 =>
                 match runes [a; b] with
                 | Some [r] => IsControl r || has_control fuel' rest2
                 | _ => has_control fuel' rest
                 end
             | _ => has_control fuel' rest
             end
      end
  | _, _ => false
  end.
Definition key_part_valid (value : string) : bool :=
  let b := to_bytes value in
  negb (String.eqb value "") && (length b <=? 512)%nat && negb (existsb (Ascii.eqb "/"%char) b)
  && negb (has_control (length b) b).
Definition validateBindingKey (harness session : string) : bool := key_part_valid harness && key_part_valid session.

Definition is_open (key : sessionKey) (b : EpochBinding) : bool :=
  bool_decide (eb_key b = key) && bool_decide (eb_unbound b = None).
Definition open_binding (s : Store) (key : sessionKey) : option EpochBinding :=
  List.find (is_open key) (st_bindings s).
Definition close_id (id : string) (at_ : Z) (b : EpochBinding) : EpochBinding :=
  if String.eqb (eb_binding_id b) id
  then mk_EpochBinding (eb_binding_id b) (eb_key b) (eb_epoch_id b) (eb_role b) (eb_bound_at b)
         (Some (at_, ReasonUnbind))
  else b.

(** The row insert, its two unique constraints and the trigger behind it. *)
Definition insert_binding (s : Store) (b : EpochBinding) : option Store :=
  if existsb (fun c => String.eqb (eb_binding_id c) (eb_binding_id b) || is_open (eb_key b) c) (st_bindings s)
  then None
  else Some (clearSessionInferredBindings (eb_key b) (set_bindings (st_bindings s ++ [b]) s)).

Definition readSessionAPIRevision (s : Store) : result Statement Z :=
  if fails ReadRevision then Err ReadRevision
  else match st_api s with Some a => Ok (as_revision a) | None => Err ReadRevision end.
Definition bumpSessionAPIRevision (s : Store) : result Statement (Store * Z) :=
  if fails BumpRevision then Err BumpRevision
  else match st_api s with
  | None => stmt InitRevision (set_api (Some (mk_Api 1 false 0 0)) s, 1)
  | Some a => let s' := set_api (Some (bump_api a)) s in
      rev ← readSessionAPIRevision s'; Ok (s', rev)
  end.

Definition fault {A} (r : result Statement A) : result BindingError A :=
  match r with Ok a => Ok a | Err st => Err (ErrBindingStoreFault st) end.

(** The writes of a bind behind its checks. [id] is the new identity, [bound_at]
    the clock after the previous binding closed. *)
Definition bind_write (s : Store) (key : sessionKey) (epoch role id : string) (bound_at : Z)
    : result BindingError (Store * SessionBindingResult) :=
  match (if fails InsertBinding then None
         else insert_binding s (mk_EpochBinding id key epoch role bound_at None)) with
  | None => Err (ErrBindingStoreFault InsertBinding)
  | Some s1 =>
      s2 ← fault (stmt BindState (set_state (<[key := bind_row (st_state s1 !! key) bound_at]> (st_state s1)) s1));
      bumped ← fault (bumpSessionAPIRevision s2);
      fault (stmt CommitTx (bumped.1, mk_BindingResult id epoch role bound_at None bumped.2 true))
  end.

Definition Bind (tasks : string -> bool) (harness session : string) (req : SessionBindRequest)
    (id : string) (closed_at bound_at : Z) (s : Store) : result BindingError (Store * SessionBindingResult) :=
  let key := mk_Key harness session in
  let epoch := of_bytes (TrimSpace (to_bytes (br_EpochID req))) in
  let role := of_bytes (TrimSpace (to_bytes (br_Role req))) in
  let expected := br_ExpectedBinding req in
  if negb (validateBindingKey harness session) then Err (ErrBindingRequest KeyInvalid)
  else if String.eqb epoch "" then Err (ErrBindingRequest EpochRequired)
  else if negb (RoleId_IsValid role) then Err (ErrBindingRequest RoleInvalid)
  else if negb (bool_decide (TrimSpace (to_bytes expected) = to_bytes expected))
  then Err (ErrBindingRequest ExpectedPadded)
  else if fails BeginTx then Err (ErrBindingStoreFault BeginTx)
  else if fails ReadEpoch then Err (ErrBindingStoreFault ReadEpoch)
  else if negb (tasks epoch) then Err (ErrUnknownEpoch epoch)
  else if fails ReadOpenBinding then Err (ErrBindingStoreFault ReadOpenBinding)
  else match open_binding s key with
  | Some b =>
      if negb (String.eqb expected "") && negb (String.eqb expected (eb_binding_id b))
      then Err (ErrBindingConflict (Some (eb_binding_id b)))
      else if String.eqb (eb_epoch_id b) epoch && String.eqb (eb_role b) role then
        revision ← fault (readSessionAPIRevision s);
        fault (stmt CommitTx (s, mk_BindingResult (eb_binding_id b) (eb_epoch_id b) (eb_role b) (eb_bound_at b)
                                   None revision false))
      else
        s1 ← fault (stmt ClosePrevious (set_bindings (close_id (eb_binding_id b) closed_at <$> st_bindings s) s));
        bind_write s1 key epoch role id bound_at
  | None =>
      if negb (String.eqb expected "") then Err (ErrBindingConflict None)
      else bind_write s key epoch role id bound_at
  end.

Definition Unbind (harness session expected : string) (unbound_at : Z) (s : Store)
    : result BindingError (Store * SessionBindingResult) :=
  let key := mk_Key harness session in
  if negb (validateBindingKey harness session) then Err (ErrBindingRequest KeyInvalid)
  else if negb (bool_decide (TrimSpace (to_bytes expected) = to_bytes expected))
  then Err (ErrBindingRequest ExpectedPadded)
  else if fails BeginTx then Err (ErrBindingStoreFault BeginTx)
  else if fails ReadOpenBinding then Err (ErrBindingStoreFault ReadOpenBinding)
  else match open_binding s key with
  | None => Err ErrNoOpenBinding
  | Some b =>
      if negb (String.eqb expected "") && negb (String.eqb expected (eb_binding_id b))
      then Err (ErrBindingConflict (Some (eb_binding_id b)))
      else
        s1 ← fault (stmt CloseUnbind (set_bindings (close_id (eb_binding_id b) unbound_at <$> st_bindings s) s));
        s2 ← fault (stmt ClearInferred (clearSessionInferredBindings key s1));
        bumped ← fault (bumpSessionAPIRevision s2);
        fault (stmt CommitTx (bumped.1, mk_BindingResult (eb_binding_id b) (eb_epoch_id b) (eb_role b)
                                          (eb_bound_at b) (Some unbound_at) bumped.2 false))
  end.
End store.

(** ** Well-formed tables *)

(** The unique constraints of the binding table, and the relation of the derived
    table to the two authorities it is derived from. *)
Record bindings_ok (l : list EpochBinding) : Prop := {
  bo_ids : NoDup (eb_binding_id <$> l);
  bo_open : forall i j b c, l !! i = Some b -> l !! j = Some c -> eb_key b = eb_key c ->
              eb_unbound b = None -> eb_unbound c = None -> i = j;
}.
Record store_ok (s : Store) : Prop := {
  so_bindings : bindings_ok (st_bindings s);
  so_inferred : NoDup (ib_key <$> st_inferred s);
  so_explicit : forall r b, r ∈ st_inferred s -> b ∈ st_bindings s -> eb_key b <> ib_key r;
  so_claimed : forall r, r ∈ st_inferred s ->
                 exists c, st_claim s !! ib_key r = Some c /\ cl_claimed_at c = ib_BoundAt r;
}.

(** One update of the bindings that opens none. *)
Definition only_closes (f : EpochBinding -> EpochBinding) : Prop :=
  forall b, eb_binding_id (f b) = eb_binding_id b /\ eb_key (f b) = eb_key b
            /\ (eb_unbound (f b) = None -> eb_unbound b = None).

Lemma close_open_closes key at_ : only_closes (close_open key at_).
Proof. intros b. unfold close_open. by destruct (_ && _). Qed.
Lemma close_id_closes id at_ : only_closes (close_id id at_).
Proof. intros b. unfold close_id. by destruct (String.eqb _ _). Qed.

Lemma bindings_ok_map f l : only_closes f -> bindings_ok l -> bindings_ok (f <$> l).
Proof.
  intros Hf [Hi Ho]. split.
  - rewrite <- list_fmap_compose. rewrite (list_fmap_ext _ eb_binding_id); [done|].
    intros _ b _. apply Hf.
  - intros i j b c Hb Hc. rewrite list_lookup_fmap in Hb, Hc.
    apply fmap_Some in Hb as (b' & Hb & ->), Hc as (c' & Hc & ->).
    destruct (Hf b') as (_ & Ek & Hn), (Hf c') as (_ & Ek' & Hn'). rewrite Ek, Ek'. eauto.
Qed.

Lemma inferred_filter_in (p : sessionInferredBinding -> bool) r l :
  r ∈ List.filter p l <-> r ∈ l /\ p r = true.
Proof. rewrite !list_elem_of_In. apply List.filter_In. Qed.

Lemma NoDup_filter_fmap {A B} (f : A -> B) (p : A -> bool) l : NoDup (f <$> l) -> NoDup (f <$> List.filter p l).
Proof.
  induction l as [|a l IH]; [done|]. rewrite fmap_cons, NoDup_cons. intros [Ha Hl]. simpl.
  destruct (p a); [|auto]. rewrite fmap_cons. constructor; [|auto].
  intros Hin. apply Ha. apply list_elem_of_fmap in Hin as (b & -> & Hb).
  apply list_elem_of_fmap. exists b. split; [done|].
  apply list_elem_of_In, List.filter_In in Hb as [Hb _]. by apply list_elem_of_In.
Qed.

(** A store whose tables changed in the ways the operations change them. *)
Lemma store_ok_step s s' f p :
  only_closes f -> store_ok s -> st_bindings s' = f <$> st_bindings s ->
  st_inferred s' = List.filter p (st_inferred s) -> st_claim s ⊆ st_claim s' -> store_ok s'.
Proof.
  intros Hf [Hb Hi He Hc] Eb Ei Hs. split.
  - rewrite Eb. by apply bindings_ok_map.
  - rewrite Ei. by apply NoDup_filter_fmap.
  - intros r b Hr Hb'. rewrite Ei in Hr. apply inferred_filter_in in Hr as [Hr _].
    rewrite Eb in Hb'. apply list_elem_of_fmap in Hb' as (b' & -> & Hb'').
    destruct (Hf b') as (_ & -> & _). eauto.
  - intros r Hr. rewrite Ei in Hr. apply inferred_filter_in in Hr as [Hr _].
    destruct (Hc r Hr) as (c & Hc' & ?). exists c. split; [|done]. by eapply lookup_weaken.
Qed.

Lemma only_closes_id : only_closes id.
Proof. done. Qed.
Lemma filter_all {A} (l : list A) : l = List.filter (fun _ => true) l.
Proof. induction l; simpl; congruence. Qed.

(** ** Claims: lemmas *)
Lemma insert_claim_grows s key c : st_claim s ⊆ st_claim (insert_claim s key c).1.
Proof. unfold insert_claim. destruct (st_claim s !! key) eqn:E; [done|]. simpl. by apply insert_subseteq. Qed.

(** The store after a claim: as it was, or with the absent claim added. *)
Definition claimed (s s' : Store) (key : sessionKey) (actor : string) (now : Z) : Prop :=
  s' = s \/ (actor <> "" /\ st_claim s !! key = None
             /\ s' = set_claim (<[key := mk_Claim actor now]> (st_claim s)) s).

Lemma claimSessionTx_cases fails s key actor now s' out :
  actor <> "" -> claimSessionTx fails s key actor now = Ok (s', out) ->
  claimed s s' key actor now
  /\ stored_actor s' key = Some (co_StoredActor out)
  /\ (wrote out = true <-> stored_actor s key = None)
  /\ co_State out <> SessionClaimNotAttempted /\ co_State out <> SessionClaimLostRace.
Proof.
  intros Ha. unfold claimSessionTx, stmt, stored_actor. destruct (fails ClaimRead); [done|]. simpl.
  destruct (st_claim s !! key) as [c|] eqn:Ec; simpl.
  { intros [= <- <-]. rewrite Ec. split_and!; try done. by left. }
  destruct (fails ClaimWrite); [done|]. unfold insert_claim. rewrite Ec. simpl.
  intros [= <- <-]. simpl. rewrite lookup_insert_eq. split_and!; try done. right. done.
Qed.

Lemma RecordLifecycleSessionClaim_cases fails harness bindings claim clock s_read s reread s' out err :
  RecordLifecycleSessionClaim fails harness bindings claim clock s_read s reread = (s', out, err) ->
  s' = s \/ exists k c, st_claim s !! k = None /\ s' = set_claim (<[k := c]> (st_claim s)) s.
Proof.
  unfold RecordLifecycleSessionClaim.
  destruct (String.eqb claim ""); [intros [= <- _ _]; by left|].
  destruct (lifecycleSession bindings) as [session|]; [|intros [= <- _ _]; by left].
  destruct (bool_decide _); [intros [= <- _ _]; by left|]. destruct clock as [now|]; [|intros [= <- _ _]; by left].
  destruct (negb _); [intros [= <- _ _]; by left|]. destruct (fails ClaimRead); [intros [= <- _ _]; by left|].
  destruct (stored_actor s_read _); [intros [= <- _ _]; by left|].
  destruct (fails ClaimWrite); [intros [= <- _ _]; by left|]. unfold insert_claim.
  destruct (st_claim s !! mk_Key harness session) eqn:Ec; simpl; intros [= <- _ _]; [by left|right].
  by exists (mk_Key harness session), (mk_Claim claim now).
Qed.

(** The first claim wins, across processes.  The read, the insert and the
    second read of a claim see three instants of a table that only grows.  No
    claim is ever replaced; the outcome says which of the three results it was,
    and a lost race names the winner whenever it can be read back. *)
Theorem first_claim_wins fails harness bindings claim clock s_read s_insert reread :
  st_claim s_read ⊆ st_claim s_insert -> (forall s, st_claim s ⊆ st_claim (reread s)) ->
  let '(s', out, err) := RecordLifecycleSessionClaim fails harness bindings claim clock s_read s_insert reread in
  st_claim s_insert ⊆ st_claim s'
  /\ (is_Some err -> s' = s_insert /\ out = no_claim)
  /\ forall session, lifecycleSession bindings = Some session ->
     let key := mk_Key harness session in
     match co_State out with
     | SessionClaimWrote => stored_actor s_insert key = None /\ stored_actor s' key = Some claim
     | SessionClaimAlreadyClaimed | SessionClaimLostRace =>
         s' = s_insert /\ exists holder, stored_actor s' key = Some holder
         /\ (co_StoredActor out = holder \/ (co_StoredActor out = "" /\ fails ClaimReread = true))
         /\ (Mismatch out claim = false -> holder = claim)
     | SessionClaimNotAttempted => s' = s_insert
     end.
Proof.
  intros Hri Hre. unfold RecordLifecycleSessionClaim.
  destruct (String.eqb_spec claim "") as [|Hcl]; [split_and!; [done|by intros []|done]|].
  destruct (lifecycleSession bindings) as [session|]; [|done].
  destruct (bool_decide _); [split_and!; [done|by intros []|done]|].
  destruct clock as [now|]; [|done]. destruct (negb _); [done|].
  destruct (fails ClaimRead); [done|].
  destruct (stored_actor s_read _) as [a|] eqn:Er.
  { assert (stored_actor s_insert (mk_Key harness session) = Some a) as Hi.
    { unfold stored_actor in *. apply fmap_Some in Er as (c & Hc & ->).
      by rewrite (lookup_weaken _ _ _ _ Hc Hri). }
    split_and!; [done|by intros []|]. intros session' [= <-]. simpl. split; [done|]. exists a.
    split_and!; [done|by left|]. unfold Mismatch; simpl. by destruct (String.eqb_spec a claim). }
  destruct (fails ClaimWrite); [done|]. unfold insert_claim.
  destruct (st_claim s_insert !! mk_Key harness session) as [c|] eqn:Ei; simpl.
  - split_and!; [done|by intros []|]. intros session' [= <-]. split; [done|]. exists (cl_actor c).
    unfold stored_actor at 1. rewrite Ei. split; [done|]. unfold winner, Mismatch; simpl.
    destruct (fails ClaimReread); simpl.
    + split; [by right|]. by destruct claim.
    + unfold stored_actor. rewrite (lookup_weaken _ _ _ _ Ei (Hre s_insert)). simpl.
      split; [by left|]. by destruct (String.eqb_spec (cl_actor c) claim).
  - split_and!; [by apply insert_subseteq|by intros []|]. intros session' [= <-].
    unfold stored_actor; simpl. by rewrite Ei, lookup_insert_eq.
Qed.

(** ** The tail: lemmas *)
Section tail.
Context `{PayloadCodec}.

(** What a tail does to the cache when no statement of it is refused. *)
Definition ends_now (row : SessionRow) (o : Observation) (changed : bool) : bool :=
  changed && (ob_transition o =? SessionTransitionEnd)%N
  && (sr_host_end_journal_id row =? ob_jid o) && unsuperseded row.
Definition tail_effect (s : Store) (key : sessionKey) (o : Observation) : Store :=
  let '(row, changed) := upsertSessionState (st_state s !! key) (excluded_row o) in
  let s1 := set_state (<[key := row]> (st_state s)) s in
  if ends_now row o changed
  then clearSessionInferredBindings key (set_bindings (close_open key (ob_at o) <$> st_bindings s1) s1)
  else s1.

Lemma state_write_ok fails s key o s' changed :
  state_write fails s key o = Ok (s', changed) ->
  s' = tail_effect s key o /\ changed = (upsertSessionState (st_state s !! key) (excluded_row o)).2.
Proof.
  unfold state_write, upsertSessionStateTx, tail_effect, ends_now.
  destruct (upsertSessionState _ _) as [row ch]. unfold stmt. destruct (fails StateUpsert); [done|]. simpl.
  rewrite lookup_insert_eq.
  destruct ch, (ob_transition o =? SessionTransitionEnd)%N; simpl; try (by intros [= <- <-]).
  destruct (fails EndQuery); [done|]. simpl.
  destruct (_ && unsuperseded row); [|by intros [= <- <-]].
  unfold closeSessionBindingTx, stmt. destruct (fails CloseBinding); [done|]. simpl.
  destruct (fails ClearInferred); [done|]. simpl. by intros [= <- <-].
Qed.

Lemma state_write_fault fails s key o st : state_write fails s key o = Err st -> fails st = true.
Proof.
  unfold state_write, upsertSessionStateTx. destruct (upsertSessionState _ _) as [row ch].
  unfold stmt. destruct (fails StateUpsert) eqn:E1; simpl; [by intros [= <-]|]. rewrite lookup_insert_eq.
  destruct (ch && _); [|done]. destruct (fails EndQuery) eqn:E2; simpl; [by intros [= <-]|].
  destruct (_ && _); [|done]. unfold closeSessionBindingTx, stmt.
  destruct (fails CloseBinding) eqn:E3; simpl; [by intros [= <-]|].
  destruct (fails ClearInferred) eqn:E4; simpl; [by intros [= <-]|done].
Qed.

Definition bump_if (b : bool) (s : Store) : Store := if b then set_api (bump_api <$> st_api s) s else s.

(** The two ways a tail that returns no error leaves the store. *)
Inductive tail_result (s1 : Store) (key : sessionKey) (o : Observation) (claim : SessionClaimOutcome)
    : Store -> SessionTailOutcome -> Prop :=
  | tail_cached : let changed := (upsertSessionState (st_state s1 !! key) (excluded_row o)).2 in
      tail_result s1 key o claim (bump_if (changed || wrote claim) (tail_effect s1 key o))
        (mk_TailOutcome claim changed false)
  | tail_dirty :
      tail_result s1 key o claim (set_api (dirty_api <$> st_api s1) s1) (mk_TailOutcome claim false true).

Lemma tail_state_cases fails s0 s1 key o claim s' out err :
  tail_state fails s0 s1 key o claim = (s', out, err) ->
  (is_Some err /\ s' = s0) \/ (err = None /\ tail_result s1 key o claim s' out
    /\ (to_Dirty out = true -> exists st, state_write fails s1 key o = Err st /\ fails st = true)).
Proof.
  unfold tail_state. destruct (fails StateSavepoint); [intros [= <- <- <-]; by left; split|].
  destruct (state_write fails s1 key o) as [[s2 ch]|st] eqn:Ew.
  - apply state_write_ok in Ew as [-> ->].
    destruct (fails ReleaseState); [intros [= <- <- <-]; by left; split|].
    destruct ((_ || _) && _); [intros [= <- <- <-]; by left; split|].
    destruct (fails CommitTx); [intros [= <- <- <-]; by left; split|].
    intros [= <- <- <-]. right. split_and!; [done| |done]. exact (tail_cached s1 key o claim).
  - pose proof (state_write_fault _ _ _ _ _ Ew).
    destruct (fails RollbackState); [intros [= <- <- <-]; by left; split|].
    destruct (fails ReleaseState); [intros [= <- <- <-]; by left; split|].
    destruct (fails MarkDirty); [intros [= <- <- <-]; by left; split|].
    destruct (fails CommitTx); [intros [= <- <- <-]; by left; split|].
    intros [= <- <- <-]. right. split_and!; [done|constructor|eauto].
Qed.

(** Every run of the tail. *)
Lemma tail_cases fails i s s' out err :
  RecordLifecycleSessionTail fails i s = (s', out, err) ->
  (is_Some err /\ s' = s)
  \/ (err = None /\ lifecycleSession (ti_Bindings i) = Some "" /\ s' = s /\ out = no_tail)
  \/ exists session now at_ s1 claim,
       err = None /\ lifecycleSession (ti_Bindings i) = Some session /\ session <> ""
       /\ ti_Clock i = Some now /\ ti_RecordedAt i = Some at_
       /\ (ti_OccurrenceID i =? 0) = false
       /\ (ti_ActorClaim i = "" /\ s1 = s /\ claim = no_claim
           \/ claimed s s1 (mk_Key (ti_Harness i) session) (ti_ActorClaim i) now
              /\ stored_actor s1 (mk_Key (ti_Harness i) session) = Some (co_StoredActor claim)
              /\ (wrote claim = true <-> stored_actor s (mk_Key (ti_Harness i) session) = None))
       /\ tail_result s1 (mk_Key (ti_Harness i) session) (tail_observation i at_) claim s' out
       /\ (to_Dirty out = true ->
           exists st, state_write fails s1 (mk_Key (ti_Harness i) session) (tail_observation i at_) = Err st
                      /\ fails st = true).
Proof.
  unfold RecordLifecycleSessionTail.
  destruct (ti_Clock i) as [now|]; [|intros [= <- <- <-]; by left; split].
  destruct (ti_OccurrenceID i =? 0) eqn:Ej; [intros [= <- <- <-]; by left; split|].
  destruct (ti_RecordedAt i) as [at_|]; [|intros [= <- <- <-]; by left; split].
  destruct (lifecycleSession (ti_Bindings i)) as [session|]; [|intros [= <- <- <-]; by left; split].
  destruct (String.eqb_spec session "") as [->|Hs]; [intros [= <- <- <-]; by right; left|].
  destruct (fails BeginTx); [intros [= <- <- <-]; by left; split|].
  destruct (String.eqb_spec (ti_ActorClaim i) "") as [Ha|Ha].
  - intros [[He ->]|(-> & Hr & Hd)]%tail_state_cases; [by left|]. right; right.
    exists session, now, at_, s, no_claim. naive_solver.
  - destruct (claimSessionTx _ _ _ _ _) as [[s1 claim]|st] eqn:Ec; [|intros [= <- <- <-]; by left; split].
    apply claimSessionTx_cases in Ec as (H1 & H2 & H3 & _); [|done].
    intros [[He ->]|(-> & Hr & Hd)]%tail_state_cases; [by left|]. right; right.
    exists session, now, at_, s1, claim. naive_solver.
Qed.

Lemma claimed_tables s s1 key actor now : claimed s s1 key actor now ->
  st_claim s ⊆ st_claim s1 /\ st_state s1 = st_state s /\ st_bindings s1 = st_bindings s
  /\ st_inferred s1 = st_inferred s /\ st_executions s1 = st_executions s /\ st_api s1 = st_api s.
Proof. intros [->|(? & ? & ->)]; [done|]. split_and!; try done. by apply insert_subseteq. Qed.

Lemma tail_effect_tables s key o :
  st_claim (tail_effect s key o) = st_claim s /\ st_executions (tail_effect s key o) = st_executions s
  /\ st_api (tail_effect s key o) = st_api s
  /\ st_state (tail_effect s key o)
     = <[key := (upsertSessionState (st_state s !! key) (excluded_row o)).1]> (st_state s).
Proof. unfold tail_effect. destruct (upsertSessionState _ _) as [row ch]. by destruct (ends_now row o ch). Qed.

Lemma tail_effect_ok s key o : store_ok s -> store_ok (tail_effect s key o).
Proof.
  intros Hs. unfold tail_effect. destruct (upsertSessionState _ _) as [row ch].
  destruct (ends_now row o ch).
  - by eapply (store_ok_step s _ (close_open key (ob_at o))); [apply close_open_closes|done|done|done|].
  - eapply (store_ok_step s _ id (fun _ => true)); [apply only_closes_id|done|simpl|simpl; apply filter_all|done].
    by rewrite list_fmap_id.
Qed.

Lemma same_tables_ok s s' : store_ok s -> st_bindings s' = st_bindings s -> st_inferred s' = st_inferred s ->
  st_claim s ⊆ st_claim s' -> store_ok s'.
Proof.
  intros Hs Eb Ei Hc. eapply (store_ok_step s _ id (fun _ => true)); [apply only_closes_id|done| | |done].
  - by rewrite Eb, list_fmap_id.
  - rewrite Ei. apply filter_all.
Qed.

Lemma tail_ok fails i s s' out err :
  RecordLifecycleSessionTail fails i s = (s', out, err) -> store_ok s ->
  store_ok s' /\ st_claim s ⊆ st_claim s' /\ st_executions s' = st_executions s.
Proof.
  intros [[_ ->]|[(_ & _ & -> & _)|(session & now & at_ & s1 & claim & _ & _ & _ & _ & _ & _ & Hc & Hr & _)]]%tail_cases Hs;
    [done..|].
  assert (Hc' : claimed s s1 (mk_Key (ti_Harness i) session) (ti_ActorClaim i) now)
    by (destruct Hc as [(_ & -> & _)|[? _]]; [by left|done]).
  destruct (claimed_tables _ _ _ _ _ Hc') as (C1 & C2 & C3 & C4 & C5 & C6).
  assert (store_ok s1) by by eapply same_tables_ok.
  destruct Hr as [ch|].
  - destruct (tail_effect_tables s1 (mk_Key (ti_Harness i) session) (tail_observation i at_)) as (T1 & T2 & _).
    unfold bump_if. destruct (ch || _); (split_and!; [|simpl; by rewrite T1|simpl; congruence]).
    + eapply same_tables_ok; [by apply (tail_effect_ok s1 (mk_Key (ti_Harness i) session) (tail_observation i at_))|done..].
    + by apply tail_effect_ok.
  - split_and!; [|done..]. by eapply same_tables_ok.
Qed.

Lemma close_open_closed key at_ (l : list EpochBinding) b :
  b ∈ (close_open key at_ <$> l) -> is_open key b = true -> at_ < eb_bound_at b.
Proof.
  intros (b' & -> & _)%list_elem_of_fmap. unfold is_open, close_open.
  destruct (bool_decide (eb_key b' = key)) eqn:Ek, (bool_decide (eb_unbound b' = None)) eqn:Eu;
    cbn -[Z.leb]; rewrite ?Ek, ?Eu; try done.
  destruct (Z.leb_spec (eb_bound_at b') at_); cbn; rewrite ?Ek; [|done].
  case_bool_decide; [discriminate|]. by rewrite andb_false_r.
Qed.

(** C20: A tail that returns an error changed nothing.  A tail that returns none
    holds the session's first claim.  A refused statement of the cache write alone
    leaves the cache rows and the bindings as they were, keeps the claim and marks
    the cache dirty; otherwise the row of this session is the one the event gives,
    no other row changes, and bindings change only for an event that ended the
    session now: none that began by then stays open and no derived one stays. *)
Theorem tail_isolated fails i s :
  store_ok s ->
  let '(s', out, err) := RecordLifecycleSessionTail fails i s in
  store_ok s' /\ (is_Some err -> s' = s)
  /\ (err = None -> forall session at_, lifecycleSession (ti_Bindings i) = Some session -> session <> "" ->
      ti_RecordedAt i = Some at_ ->
      let key := mk_Key (ti_Harness i) session in
      let o := tail_observation i at_ in
      let row := upsertSessionState (st_state s !! key) (excluded_row o) in
      (ti_ActorClaim i <> "" -> is_Some (stored_actor s' key))
      /\ (forall k a, stored_actor s k = Some a -> stored_actor s' k = Some a)
      /\ (to_Dirty out = true ->
           (exists st, fails st = true) /\ st_state s' = st_state s /\ st_bindings s' = st_bindings s
           /\ st_inferred s' = st_inferred s /\ st_api s' = dirty_api <$> st_api s)
      /\ (to_Dirty out = false ->
           to_Written out = row.2 /\ st_state s' = <[key := row.1]> (st_state s)
           /\ (as_dirty <$> st_api s') = (as_dirty <$> st_api s)
           /\ (ends_now row.1 o row.2 = false ->
                st_bindings s' = st_bindings s /\ st_inferred s' = st_inferred s)
           /\ (ends_now row.1 o row.2 = true ->
                (forall b, b ∈ st_bindings s' -> is_open key b = true -> at_ < eb_bound_at b)
                /\ (forall r, r ∈ st_inferred s' -> ib_key r <> key)))).
Proof.
  intros Hs. destruct (RecordLifecycleSessionTail fails i s) as [[s' out] err] eqn:E.
  destruct (tail_ok _ _ _ _ _ _ E Hs) as (Hok & Hgrow & _). split; [done|].
  apply tail_cases in E as [[He ->]|[(-> & Hl & -> & ->)|(session & now & at_ & s1 & claim & -> & Hl & Hne & _ & Hat & _ & Hc & Hr & Hd)]].
  { split; [done|]. by intros ->; destruct He. }
  { split; [done|]. intros _ session at_. rewrite Hl. by intros [= <-]. }
  split; [by intros []|]. intros _ session' at' Hl' _ Hat'. rewrite Hl in Hl'. rewrite Hat in Hat'.
  injection Hl' as <-. injection Hat' as <-.
  intros key o row. fold key in Hc, Hr, Hd. fold o in Hr, Hd.
  assert (Hc' : claimed s s1 key (ti_ActorClaim i) now) by (destruct Hc as [(_ & -> & _)|[? _]]; [by left|done]).
  destruct (claimed_tables _ _ _ _ _ Hc') as (C1 & C2 & C3 & C4 & C5 & C6).
  assert (Hheld : forall k a, stored_actor s k = Some a -> stored_actor s' k = Some a).
  { unfold stored_actor. intros k a (c & Hk & ->)%fmap_Some. by rewrite (lookup_weaken _ _ _ _ Hk Hgrow). }
  assert (Heq : st_claim s' = st_claim s1).
  { destruct Hr as [ch|]; [|done]. destruct (tail_effect_tables s1 key o) as (T1 & _).
    unfold bump_if. by destruct (ch || _); rewrite <- T1. }
  split; [|split; [done|split]].
  - intros Ha. destruct Hc as [(? & _)|(_ & Hst & _)]; [done|].
    assert (stored_actor s' key = stored_actor s1 key) as -> by (unfold stored_actor; by rewrite Heq).
    by eexists.
  - intros Hdirty. destruct (Hd Hdirty) as (st & _ & Hf). destruct Hr as [ch|]; [done|].
    simpl. rewrite C2, C3, C4, C6. eauto 10.
  - intros Hdirty. destruct Hr as [ch|]; [|done]. subst row ch. rewrite <- C2.
    destruct (tail_effect_tables s1 key o) as (_ & _ & T3 & T4). rewrite <- C6, <- T3, <- T4, <- C3, <- C4.
    assert (Hb : forall b (t : Store), st_state (bump_if b t) = st_state t /\ st_bindings (bump_if b t) = st_bindings t
      /\ st_inferred (bump_if b t) = st_inferred t /\ as_dirty <$> st_api (bump_if b t) = as_dirty <$> st_api t).
    { intros [] t; [|done]. split_and!; [done..|]. simpl. by destruct (st_api t). }
    destruct (Hb ((upsertSessionState (st_state s1 !! key) (excluded_row o)).2 || wrote claim) (tail_effect s1 key o))
      as (B1 & B2 & B3 & B4). rewrite B1, B2, B3, B4. clear Hb B1 B2 B3 B4 T3 T4.
    unfold tail_effect. destruct (upsertSessionState _ _) as [row ch]; simpl.
    destruct (ends_now row o ch); split_and!; try done; intros _; split.
    + intros b Hb. exact (close_open_closed key at_ _ b Hb).
    + intros r [_ Hr]%inferred_filter_in. by apply negb_true_iff, bool_decide_eq_false in Hr.
Qed.
End tail.

(** ** Explicit bindings: lemmas *)
Lemma is_open_true key b : is_open key b = true <-> eb_key b = key /\ eb_unbound b = None.
Proof. unfold is_open. by rewrite andb_true_iff, !bool_decide_eq_true. Qed.

Lemma open_binding_Some s key b : open_binding s key = Some b ->
  b ∈ st_bindings s /\ eb_key b = key /\ eb_unbound b = None.
Proof. intros [H1 H2]%List.find_some. apply is_open_true in H2 as []. rewrite list_elem_of_In. done. Qed.

Lemma open_binding_None s key b : open_binding s key = None -> b ∈ st_bindings s -> is_open key b = false.
Proof. intros H1 H2. apply list_elem_of_In in H2. exact (List.find_none _ _ H1 _ H2). Qed.

Lemma ids_unique l b c : NoDup (eb_binding_id <$> l) -> b ∈ l -> c ∈ l -> eb_binding_id b = eb_binding_id c -> b = c.
Proof.
  intros Hn (i & Hi)%list_elem_of_lookup (j & Hj)%list_elem_of_lookup He.
  assert (i = j) as ->; [|congruence].
  eapply NoDup_lookup; [exact Hn| |]; rewrite list_lookup_fmap, ?Hi, ?Hj; simpl; by rewrite ?He.
Qed.

(** Closing the open binding of a session leaves none open and no other changed. *)
Lemma close_id_spec s key b at_ :
  store_ok s -> open_binding s key = Some b ->
  (forall c, c ∈ (close_id (eb_binding_id b) at_ <$> st_bindings s) -> is_open key c = false)
  /\ (forall c, c ∈ st_bindings s -> c <> b -> close_id (eb_binding_id b) at_ c = c).
Proof.
  intros [[Hi Ho] _ _ _] (Hb & Hk & Hu)%open_binding_Some. split.
  - intros c' (c & -> & Hc)%list_elem_of_fmap. unfold close_id.
    destruct (String.eqb_spec (eb_binding_id c) (eb_binding_id b)) as [He|He].
    + unfold is_open; simpl. by rewrite andb_false_r.
    + apply not_true_iff_false. intros [Hk' Hu']%is_open_true.
      apply list_elem_of_lookup in Hb as [i Hb'], Hc as [j Hc].
      assert (i = j) by (eapply Ho; eauto; congruence). congruence.
  - intros c Hc Hne. unfold close_id. destruct (String.eqb_spec (eb_binding_id c) (eb_binding_id b)); [|done].
    destruct Hne. by eapply ids_unique.
Qed.

Lemma insert_binding_ok s b s' :
  store_ok s -> insert_binding s b = Some s' ->
  store_ok s' /\ st_bindings s' = st_bindings s ++ [b] /\ st_claim s' = st_claim s
  /\ st_state s' = st_state s /\ st_executions s' = st_executions s /\ st_api s' = st_api s
  /\ (forall r, r ∈ st_inferred s' -> ib_key r <> eb_key b).
Proof.
  intros [[Hi Ho] Hn He Hc]. unfold insert_binding. destruct (existsb _ _) eqn:Ex; [done|]. intros [= <-].
  assert (Hfree : forall c, c ∈ st_bindings s -> eb_binding_id c <> eb_binding_id b /\ is_open (eb_key b) c = false).
  { intros c Hc'. apply list_elem_of_In in Hc'. apply not_true_iff_false in Ex.
    destruct (String.eqb_spec (eb_binding_id c) (eb_binding_id b)) as [E|E];
      [destruct Ex; apply List.existsb_exists; exists c; split; [done|]; by rewrite E, String.eqb_refl|].
    split; [done|]. apply not_true_iff_false. intros Eo. destruct Ex. apply List.existsb_exists. exists c.
    by rewrite Eo, orb_true_r. }
  assert (Hfree_inf : forall r, r ∈ st_inferred (clearSessionInferredBindings (eb_key b) s) ->
            r ∈ st_inferred s /\ ib_key r <> eb_key b).
  { simpl. intros r [Hr Hk]%inferred_filter_in. by apply negb_true_iff, bool_decide_eq_false in Hk. }
  split_and!; try done; [|intros r Hr; by apply Hfree_inf].
  split; simpl.
  - split.
    + rewrite fmap_app. apply NoDup_app. split_and!; [done| |apply NoDup_singleton].
      intros x (c & -> & Hc')%list_elem_of_fmap Hx. apply list_elem_of_singleton in Hx.
      by apply (Hfree c).
    + assert (Hlast : forall i x, (st_bindings s ++ [b]) !! i = Some x ->
                (st_bindings s !! i = Some x) \/ (i = length (st_bindings s) /\ x = b)).
      { intros i x [|[Hle Hx]]%lookup_app_Some; [by left|right].
        apply list_lookup_singleton_Some in Hx as [? <-]. split; [lia|done]. }
      intros i j x y [Hx|[-> ->]]%Hlast [Hy|[-> ->]]%Hlast Ek Ux Uy; [by eapply Ho| | |done].
      * apply list_elem_of_lookup_2, Hfree in Hx as [_ Hx]. apply not_true_iff_false in Hx. destruct Hx. by apply is_open_true.
      * apply list_elem_of_lookup_2, Hfree in Hy as [_ Hy]. apply not_true_iff_false in Hy. destruct Hy. by apply is_open_true.
  - by apply NoDup_filter_fmap.
  - intros r c Hr [Hc'|Hc']%elem_of_app; apply Hfree_inf in Hr as [Hr Hk]; [by apply He|].
    apply list_elem_of_singleton in Hc' as ->. congruence.
  - intros r Hr. apply Hfree_inf in Hr as [Hr _]. by apply Hc.
Qed.

(** The evidence columns of every row. *)
Definition all_evidence (s : Store) (key : sessionKey) : Evidence := row_evidence (st_state s !! key).

Lemma bumpSessionAPIRevision_ok fails s s' rev :
  bumpSessionAPIRevision fails s = Ok (s', rev) ->
  exists a, s' = set_api (Some a) s /\ rev = as_revision a
  /\ a = match st_api s with Some a0 => bump_api a0 | None => mk_Api 1 false 0 0 end.
Proof.
  unfold bumpSessionAPIRevision, readSessionAPIRevision, stmt. destruct (fails BumpRevision); [done|].
  destruct (st_api s) as [a|]; simpl.
  - destruct (fails ReadRevision); [done|]. simpl. intros [= <- <-]. eauto.
  - destruct (fails InitRevision); [done|]. intros [= <- <-]. eauto.
Qed.

Definition api_after_bump (s : Store) : option ApiState :=
  Some match st_api s with Some a => bump_api a | None => mk_Api 1 false 0 0 end.

Lemma bind_write_ok fails s key epoch role id at_ s' r :
  store_ok s -> bind_write fails s key epoch role id at_ = Ok (s', r) ->
  store_ok s' /\ st_bindings s' = st_bindings s ++ [mk_EpochBinding id key epoch role at_ None]
  /\ st_claim s' = st_claim s /\ st_executions s' = st_executions s
  /\ (forall k, all_evidence s' k = all_evidence s k)
  /\ st_api s' = api_after_bump s
  /\ (forall i, i ∈ st_inferred s' -> ib_key i <> key)
  /\ sb_BindingID r = id /\ sb_Created r = true.
Proof.
  intros Hs. unfold bind_write. destruct (fails InsertBinding); [done|].
  destruct (insert_binding s _) as [s1|] eqn:Ei; [|done].
  apply insert_binding_ok in Ei as (Hok & Eb & Ec & Es & Ee & Ea & Hi); [|done].
  unfold stmt. destruct (fails BindState); [done|]. simpl.
  destruct (bumpSessionAPIRevision fails _) as [[s2 rev]|] eqn:Ebu; [|done].
  apply bumpSessionAPIRevision_ok in Ebu as (a & -> & -> & ->). simpl.
  destruct (fails CommitTx); [done|]. simpl. intros [= <- <-]. simpl.
  split_and!; try done.
  - by eapply same_tables_ok.
  - intros k. unfold all_evidence; simpl. rewrite Es. destruct (decide (k = key)) as [->|].
    + rewrite lookup_insert_eq. simpl. apply bind_evidence.
    + by rewrite lookup_insert_ne.
  - unfold api_after_bump. by rewrite <- Ea.
Qed.

Lemma bind_write_open fails s key epoch role id at_ s' r :
  store_ok s -> (forall c, c ∈ st_bindings s -> is_open key c = false) ->
  bind_write fails s key epoch role id at_ = Ok (s', r) ->
  exists b, open_binding s' key = Some b /\ eb_binding_id b = sb_BindingID r
    /\ eb_epoch_id b = epoch /\ eb_role b = role.
Proof.
  intros Hs Hn Hw. apply bind_write_ok in Hw as (_ & Eb & _ & _ & _ & _ & _ & Er & _); [|done].
  exists (mk_EpochBinding id key epoch role at_ None). split; [|done]. unfold open_binding. rewrite Eb.
  clear -Hn. induction (st_bindings s) as [|c l IH]; simpl.
  - unfold is_open; simpl. by rewrite !bool_decide_true.
  - rewrite Hn by left. apply IH. intros; apply Hn. by right.
Qed.

(** The tables after a bind or an unbind. *)
Lemma Bind_tables fails tasks harness session req id closed_at bound_at s s' r :
  store_ok s -> Bind fails tasks harness session req id closed_at bound_at s = Ok (s', r) ->
  store_ok s' /\ st_claim s' = st_claim s /\ st_executions s' = st_executions s
  /\ (forall k, all_evidence s' k = all_evidence s k)
  /\ (st_api s' = st_api s \/ st_api s' = api_after_bump s).
Proof.
  intros Hs. unfold Bind. do 8 (match goal with |- context [if ?c then Err _ else _] => destruct c; [done|] end).
  destruct (open_binding s _) as [b|].
  - destruct (_ && _); [done|]. destruct (_ && _).
    + unfold readSessionAPIRevision, stmt. destruct (fails ReadRevision); [done|]. destruct (st_api s) eqn:Ea; [|done]. simpl.
      destruct (fails CommitTx); [done|]. simpl. intros [= <- <-]. split_and!; try done. by left.
    + unfold stmt. destruct (fails ClosePrevious); [done|]. simpl. intros Hw.
      apply bind_write_ok in Hw as (H1 & _ & H3 & H4 & H5 & H6 & _); [split_and!; try done; by right|].
      eapply (store_ok_step s _ (close_id (eb_binding_id b) closed_at) (fun _ => true));
        [apply close_id_closes|done|done|apply filter_all|done].
  - destruct (negb _); [done|]. intros (H1 & _ & H3 & H4 & H5 & H6 & _)%bind_write_ok; [split_and!; try done; by right|done].
Qed.

Lemma Unbind_tables fails harness session expected at_ s s' r :
  store_ok s -> Unbind fails harness session expected at_ s = Ok (s', r) ->
  store_ok s' /\ st_claim s' = st_claim s /\ st_executions s' = st_executions s /\ st_state s' = st_state s
  /\ st_api s' = api_after_bump s.
Proof.
  intros Hs. unfold Unbind. do 4 (match goal with |- context [if ?c then Err _ else _] => destruct c; [done|] end).
  destruct (open_binding s _) as [b|]; [|done]. destruct (_ && _); [done|]. unfold stmt.
  destruct (fails CloseUnbind); [done|]. simpl. destruct (fails ClearInferred); [done|]. simpl.
  destruct (bumpSessionAPIRevision fails _) as [[s2 rev]|] eqn:Eb; [|done].
  apply bumpSessionAPIRevision_ok in Eb as (a & -> & -> & ->). simpl. destruct (fails CommitTx); [done|]. simpl.
  intros [= <- <-]. split_and!; try done.
  by eapply (store_ok_step s _ (close_id (eb_binding_id b) at_)); [apply close_id_closes|done|done|done|].
Qed.

(** What stays of a binding row: everything, once it is closed. *)
Definition kept (b b' : EpochBinding) : Prop :=
  eb_binding_id b' = eb_binding_id b /\ eb_key b' = eb_key b /\ eb_epoch_id b' = eb_epoch_id b
  /\ eb_role b' = eb_role b /\ eb_bound_at b' = eb_bound_at b
  /\ (eb_unbound b <> None -> b' = b).
Definition history_kept (s s' : Store) : Prop :=
  forall b, b ∈ st_bindings s -> exists b', b' ∈ st_bindings s' /\ kept b b'.

Lemma kept_refl b : kept b b.
Proof. done. Qed.

Lemma close_id_kept s key b at_ c :
  store_ok s -> open_binding s key = Some b -> c ∈ st_bindings s -> kept c (close_id (eb_binding_id b) at_ c).
Proof.
  intros Hs Hb Hc. destruct (decide (c = b)) as [->|Hne].
  - apply open_binding_Some in Hb as (_ & _ & Hu). unfold close_id. rewrite String.eqb_refl. done.
  - by rewrite (proj2 (close_id_spec s key b at_ Hs Hb) c Hc Hne).
Qed.

Lemma closed_store_ok s key b at_ :
  store_ok s -> open_binding s key = Some b ->
  store_ok (set_bindings (close_id (eb_binding_id b) at_ <$> st_bindings s) s).
Proof.
  intros Hs Hb. eapply (store_ok_step s _ (close_id (eb_binding_id b) at_) (fun _ => true));
    [apply close_id_closes|done|done|apply filter_all|done].
Qed.

(** An explicit bind is exact.  When it succeeds the session has one open
    binding, of the requested epoch and role; no derived binding of it is left;
    every earlier binding is still in the history, a closed one untouched; no
    claim, no execution and no evidence column of any session changed.  A request
    for what is already open changes nothing. *)
Theorem Bind_exact fails tasks harness session req id closed_at bound_at s s' r :
  store_ok s -> Bind fails tasks harness session req id closed_at bound_at s = Ok (s', r) ->
  let key := mk_Key harness session in
  store_ok s'
  /\ (exists b, open_binding s' key = Some b /\ eb_binding_id b = sb_BindingID r
        /\ eb_epoch_id b = of_bytes (TrimSpace (to_bytes (br_EpochID req)))
        /\ eb_role b = of_bytes (TrimSpace (to_bytes (br_Role req))))
  /\ (forall i, i ∈ st_inferred s' -> ib_key i <> key)
  /\ history_kept s s' /\ st_claim s' = st_claim s /\ st_executions s' = st_executions s
  /\ (forall k, all_evidence s' k = all_evidence s k)
  /\ (sb_Created r = false <-> s' = s).
Proof.
  intros Hs Hb key. revert Hb. unfold Bind. fold key.
  set (epoch := of_bytes (TrimSpace (to_bytes (br_EpochID req)))).
  set (role := of_bytes (TrimSpace (to_bytes (br_Role req)))).
  do 8 (match goal with |- context [if ?c then Err _ else _] => destruct c; [done|] end).
  destruct (open_binding s key) as [b|] eqn:Eo.
  - destruct (_ && _); [done|]. destruct (String.eqb (eb_epoch_id b) epoch && String.eqb (eb_role b) role) eqn:Esame.
    + apply andb_true_iff in Esame as [Ee%String.eqb_eq Er%String.eqb_eq].
      unfold readSessionAPIRevision, stmt. destruct (fails ReadRevision); [done|].
      destruct (st_api s); [|done]. simpl. destruct (fails CommitTx); [done|]. simpl. intros [= <- <-].
      split_and!; try done; [by exists b| |by intros c Hc; exists c].
      intros i Hi He. apply open_binding_Some in Eo as (Hin & Hk & _). destruct Hs as [_ _ Hx _].
      apply (Hx i b Hi Hin). congruence.
    + unfold stmt. destruct (fails ClosePrevious); [done|]. simpl. intros Hw.
      set (s1 := set_bindings _ s) in *.
      assert (Hs1 : store_ok s1) by by eapply closed_store_ok.
      destruct (close_id_spec s key b closed_at Hs Eo) as [Hn Hsame].
      pose proof (bind_write_open _ _ _ _ _ _ _ _ _ Hs1 Hn Hw) as Hopen.
      apply bind_write_ok in Hw as (H1 & H2 & H3 & H4 & H5 & H6 & H7 & H8 & H9); [|done].
      split_and!; try done.
      * intros c Hc. exists (close_id (eb_binding_id b) closed_at c). split; [|exact (close_id_kept s key b closed_at c Hs Eo Hc)].
        rewrite H2. apply elem_of_app. left. subst s1. simpl. apply list_elem_of_fmap. by exists c.
      * rewrite H9. split; [done|]. intros ->. apply (f_equal length) in H2. simpl in H2.
        rewrite length_app, length_fmap in H2. simpl in H2. lia.
  - destruct (negb _); [done|]. intros Hw.
    assert (Hn : forall c, c ∈ st_bindings s -> is_open key c = false) by (intros; by eapply open_binding_None).
    pose proof (bind_write_open _ _ _ _ _ _ _ _ _ Hs Hn Hw) as Hopen.
    apply bind_write_ok in Hw as (H1 & H2 & H3 & H4 & H5 & H6 & H7 & H8 & H9); [|done].
    split_and!; try done.
    + intros c Hc. exists c. split; [|done]. rewrite H2. apply elem_of_app. by left.
    + rewrite H9. split; [done|]. intros ->. apply (f_equal length) in H2. rewrite length_app in H2. simpl in H2. lia.
Qed.

(** An explicit unbind is exact.  When it succeeds the session has no open
    binding and no derived one, the open one is closed at the given instant, the
    history keeps every row, and nothing else but the revision changed.  It fails
    with no open binding exactly when there is none. *)
Theorem Unbind_exact fails harness session expected at_ s :
  store_ok s ->
  let key := mk_Key harness session in
  match Unbind fails harness session expected at_ s with
  | Ok (s', r) =>
      store_ok s' /\ open_binding s' key = None /\ (forall i, i ∈ st_inferred s' -> ib_key i <> key)
      /\ (exists b, open_binding s key = Some b /\ eb_binding_id b = sb_BindingID r
            /\ st_bindings s' = close_id (eb_binding_id b) at_ <$> st_bindings s)
      /\ history_kept s s' /\ st_claim s' = st_claim s /\ st_state s' = st_state s
      /\ st_executions s' = st_executions s /\ st_api s' = api_after_bump s
  | Err ErrNoOpenBinding => open_binding s key = None
  | Err (ErrBindingConflict o) => exists b, open_binding s key = Some b /\ o = Some (eb_binding_id b)
                                  /\ expected <> eb_binding_id b
  | Err (ErrBindingStoreFault st) => st = ReadRevision \/ fails st = true
  | Err _ => True
  end.
Proof.
  intros Hs key. unfold Unbind. fold key. destruct (negb _); [done|]. destruct (negb _); [done|].
  destruct (fails BeginTx) eqn:F1; [by right|]. destruct (fails ReadOpenBinding) eqn:F2; [by right|].
  destruct (open_binding s key) as [b|] eqn:Eo; [|done].
  destruct (negb (String.eqb expected "") && _) eqn:Ex.
  { exists b. apply andb_true_iff in Ex as [_ Ex%negb_true_iff%String.eqb_neq]. done. }
  unfold stmt. destruct (fails CloseUnbind) eqn:F3; [by right|]. simpl.
  destruct (fails ClearInferred) eqn:F4; [by right|]. simpl.
  destruct (bumpSessionAPIRevision fails _) as [[s2 rev]|st] eqn:Eb; simpl.
  2: { revert Eb. unfold bumpSessionAPIRevision, readSessionAPIRevision, stmt.
       destruct (fails BumpRevision) eqn:F5; [intros [= <-]; by right|].
       destruct (st_api _); simpl; [destruct (fails ReadRevision) eqn:F6; [intros [= <-]; by left|done]|].
       destruct (fails InitRevision) eqn:F7; [intros [= <-]; by right|done]. }
  apply bumpSessionAPIRevision_ok in Eb as (a & -> & -> & ->).
  destruct (fails CommitTx) eqn:F6; [by right|]. simpl.
  destruct (close_id_spec s key b at_ Hs Eo) as [Hn _].
  assert (Hok : store_ok (set_bindings (close_id (eb_binding_id b) at_ <$> st_bindings s) s)) by by eapply closed_store_ok.
  split_and!; try done.
  - eapply (store_ok_step _ _ id); [apply only_closes_id|exact Hok|simpl; by rewrite list_fmap_id|done|done].
  - unfold open_binding; simpl. destruct (List.find _ _) as [c|] eqn:Ef; [|done].
    apply List.find_some in Ef as [Hc Ho]. rewrite (Hn c) in Ho; [done|]. by apply list_elem_of_In.
  - simpl. intros i [_ Hk]%inferred_filter_in. by apply negb_true_iff, bool_decide_eq_false in Hk.
  - by exists b.
  - intros c Hc. exists (close_id (eb_binding_id b) at_ c). split; [simpl; apply list_elem_of_fmap; by exists c|exact (close_id_kept s key b at_ c Hs Eo Hc)].
Qed.

(** ** Witnesses *)

(** Evaluation by the virtual machine, without the normal form. *)
Ltac by_vm := match goal with |- ?a = ?b => exact (@eq_refl _ b <: a = b) end.
(** What a run that succeeds leaves, without comparing whole stores. *)
Definition from_ok {E A} (d : A) (r : result E A) : A := match r with Ok a => a | Err _ => d end.
Lemma from_ok_eq {E A} (d : A) (r : result E A) : is_ok r = true -> r = Ok (from_ok d r).
Proof. by destruct r. Qed.

Definition no_fault (_ : Statement) : bool := false.
Definition s1_key : sessionKey := mk_Key HarnessClaudeCode "s1".
Definition tail_of (jid at_ : Z) (kind : N) (event actor : string) : SessionTailInput :=
  mk_TailInput HarnessClaudeCode claude_contract kind session_s1 (Some (toy_payload event)) CaptureValid jid (Some at_)
    actor (Some 45).
Definition tailed (i : SessionTailInput) (s : Store) : Store :=
  (RecordLifecycleSessionTail (H := toy_codec) no_fault i s).1.1.
Definition prompted : Store := tailed (tail_of 1 50 4 "UserPromptSubmit" "alice") fresh_store.

Lemma fresh_ok : store_ok fresh_store.
Proof.
  split; simpl.
  - split; [apply NoDup_nil_2|]. intros i j b c Hb. done.
  - apply NoDup_nil_2.
  - by intros r b ?%elem_of_nil.
  - by intros r ?%elem_of_nil.
Qed.

Lemma prompted_ok : store_ok prompted.
Proof.
  destruct (RecordLifecycleSessionTail (H := toy_codec) no_fault (tail_of 1 50 4 "UserPromptSubmit" "alice") fresh_store)
    as [[s' out] err] eqn:E.
  pose proof (tail_ok (H := toy_codec) _ _ _ _ _ _ E fresh_ok) as [Hok _]. unfold prompted, tailed. rewrite E. exact Hok.
Qed.

Definition request_e1 : SessionBindRequest := mk_BindRequest "E1" "worker" "".
Definition bound_store (s : Store) : Store * SessionBindingResult :=
  from_ok (s, mk_BindingResult "" "" "" 0 None 0 false)
    (Bind no_fault (String.eqb "E1") HarnessClaudeCode "s1" request_e1 "b-1" 55 56 s).

Lemma bound_store_ok :
  Bind no_fault (String.eqb "E1") HarnessClaudeCode "s1" request_e1 "b-1" 55 56 prompted
  = Ok ((bound_store prompted).1, (bound_store prompted).2).
Proof. rewrite <- surjective_pairing. apply from_ok_eq. by_vm. Qed.

Lemma Bind_exact_witness : open_binding (bound_store prompted).1 s1_key
  = Some (mk_EpochBinding "b-1" s1_key "E1" "worker" 56 None) /\ history_kept prompted (bound_store prompted).1.
Proof.
  split; [by_vm|].
  refine (proj1 (proj2 (proj2 (proj2 (Bind_exact no_fault (String.eqb "E1") HarnessClaudeCode "s1" request_e1 "b-1" 55 56
    prompted (bound_store prompted).1 (bound_store prompted).2 prompted_ok bound_store_ok))))).
Defined.

Lemma bound_ok : store_ok (bound_store prompted).1.
Proof.
  refine (proj1 (Bind_tables no_fault (String.eqb "E1") HarnessClaudeCode "s1" request_e1 "b-1" 55 56
    prompted (bound_store prompted).1 (bound_store prompted).2 prompted_ok bound_store_ok)).
Qed.

(** The end of a bound session closes its binding. *)
Lemma tail_isolated_witness :
  store_ok (tailed (tail_of 2 60 3 "SessionEnd" "") (bound_store prompted).1)
  /\ st_bindings (tailed (tail_of 2 60 3 "SessionEnd" "") (bound_store prompted).1)
     = [mk_EpochBinding "b-1" s1_key "E1" "worker" 56 (Some (60, ReasonSessionEnd))].
Proof.
  split; [|by_vm].
  pose proof (tail_isolated (H := toy_codec) no_fault (tail_of 2 60 3 "SessionEnd" "") (bound_store prompted).1 bound_ok) as Ht.
  unfold tailed. revert Ht.
  destruct (RecordLifecycleSessionTail (H := toy_codec) no_fault (tail_of 2 60 3 "SessionEnd" "") (bound_store prompted).1)
    as [[s' out] err]. exact (fun Ht => proj1 Ht).
Defined.

Lemma Unbind_exact_witness :
  match Unbind no_fault HarnessClaudeCode "s1" "b-1" 70 (bound_store prompted).1 with
  | Ok (s', r) => open_binding s' s1_key = None
  | Err _ => False
  end.
Proof.
  pose proof (Unbind_exact no_fault HarnessClaudeCode "s1" "b-1" 70 (bound_store prompted).1 bound_ok) as Hu.
  assert (He : is_ok (Unbind no_fault HarnessClaudeCode "s1" "b-1" 70 (bound_store prompted).1) = true) by (by_vm).
  revert Hu He. destruct (Unbind no_fault HarnessClaudeCode "s1" "b-1" 70 (bound_store prompted).1) as [[s' r]|].
  - intros Hu _. exact (proj1 (proj2 Hu)).
  - intros _ He. discriminate He.
Defined.

(** Two processes claim at once: the second insert finds the first. *)
Lemma first_claim_wins_witness :
  co_State (RecordLifecycleSessionClaim no_fault HarnessClaudeCode session_s1 "bob" (Some 46) fresh_store prompted id).1.2
    = SessionClaimLostRace
  /\ st_claim prompted ⊆ st_claim (RecordLifecycleSessionClaim no_fault HarnessClaudeCode session_s1 "bob" (Some 46)
       fresh_store prompted id).1.1.
Proof.
  split; [by_vm|].
  pose proof (first_claim_wins no_fault HarnessClaudeCode session_s1 "bob" (Some 46) fresh_store prompted id
    (map_empty_subseteq _) (fun s => reflexivity _)) as Hc. revert Hc.
  destruct (RecordLifecycleSessionClaim no_fault HarnessClaudeCode session_s1 "bob" (Some 46) fresh_store prompted id)
    as [[s' out] err]. exact (fun Hc => proj1 Hc).
Defined.
