(* ===== verification/SessionReplay.v ===== *)
(** SessionReplay: the session cache from the journal
    (internal/tasks/session_state_rebuild.go, session_infer.go,
    internal/lifecycle/projection/fact_pages.go).

    The scan reads the occurrences behind a cursor page by page at the snapshot
    of its first page; the inference derives bindings from claims and ownership;
    the publication writes both in one transaction, fenced on what another
    publication changes.  The journal's page query and the ownership query are
    interfaces: they belong to the provenance library. *)

From Stdlib Require Import NArith ZArith Lia String Sorting.Sorted.
From stdpp Require Import base tactics list strings gmap.
From S2P Require Import Prelude GoStrings Execution Registration RuntimeDescriptor SessionEvidence SessionRows SessionStore.
Local Open Scope string_scope.
Local Open Scope list_scope.
Local Open Scope Z_scope.

(** ** The journal *)

(** A row of the journal is a lifecycle occurrence, with the transition token it
    stores, an occurrence of a kind this build does not know, or something else. *)
Inductive JournalEntry :=
  | Occurrence (fact : OccurrenceFact) (token : string)
  | UnknownOccurrence
  | OtherRow.
Abbreviation Journal := (list (Z * JournalEntry)) (only parsing).

Definition max_jid (J : Journal) : Z := fold_right (fun r m => Z.max r.1 m) 0 J.
Definition in_range (after upto : Z) (r : Z * JournalEntry) : bool := (after <? r.1) && (r.1 <=? upto).

(** The decoder on a row the page query returned. *)
Definition decodeOccurrence (e : JournalEntry) : option OccurrenceFact :=
  match e with
  | Occurrence f token =>
      if transition_admitted (of_Version f) (of_Contract f) (of_Event f) (of_Capture f) (of_Bindings f) token
      then Some f else None
  | _ => None
  end.
Definition is_occurrence (e : JournalEntry) : bool := match e with Occurrence _ _ => true | _ => false end.
Definition unknown_kind (e : JournalEntry) : bool := match e with UnknownOccurrence => true | _ => false end.

Definition RefuseUnknownOccurrenceKinds (J : Journal) (after snapshot : Z) : bool :=
  existsb (fun r => unknown_kind r.2 && in_range after snapshot r) J.

(** ** Pages *)
Record FactPageRequest := mk_PageRequest { pr_Limit : nat; pr_AfterJournalID : Z; pr_SnapshotMaxJournalID : Z }.
Record EvidencePage := mk_EvidencePage {
  ep_Rows : list (Z * JournalEntry);
  ep_SnapshotMaxJournalID : Z;
  ep_Next : option (Z * Z);
}.
Record OccurrenceFactPage := mk_FactPage {
  fp_Facts : list OccurrenceFact;
  fp_SnapshotMaxJournalID : Z;
  fp_Next : option (Z * Z);
}.

(** The provenance library: its page bound and its evidence query, on the
    occurrence kinds. *)
Class EvidenceReader := {
  MaxFactPageSize : nat;
  QueryEvidence : Journal -> FactPageRequest -> option EvidencePage;
}.

Inductive PageError := LimitInvalid | QueryRefused | CursorBeyond | UnknownKind | DecodeRefused.

Section page.
Context `{EvidenceReader}.

Fixpoint decode_rows (rows : list (Z * JournalEntry)) : option (list OccurrenceFact) :=
  match rows with
  | [] => Some []
  | (_, e) :: rest =>
      match decodeOccurrence e with
      | None => None
      | Some f => cons f <$> decode_rows rest
      end
  end.

Definition read_at (J : Journal) (request : FactPageRequest) : result PageError OccurrenceFactPage :=
  match QueryEvidence J request with
  | None => Err QueryRefused
  | Some page =>
      if RefuseUnknownOccurrenceKinds J (pr_AfterJournalID request) (ep_SnapshotMaxJournalID page)
      then Err UnknownKind
      else match decode_rows (ep_Rows page) with
      | None => Err DecodeRefused
      | Some facts => Ok (mk_FactPage facts (ep_SnapshotMaxJournalID page) (ep_Next page))
      end
  end.
(** A request for current evidence behind a cursor first asks for the snapshot. *)
Definition ReadOccurrenceFactPage (J : Journal) (request : FactPageRequest) : result PageError OccurrenceFactPage :=
  if (pr_Limit request <? 1)%nat || (MaxFactPageSize <? pr_Limit request)%nat then Err LimitInvalid
  else if (pr_SnapshotMaxJournalID request =? 0) && negb (pr_AfterJournalID request =? 0) then
    match QueryEvidence J (mk_PageRequest 1 0 0) with
    | None => Err QueryRefused
    | Some page =>
        if ep_SnapshotMaxJournalID page <? pr_AfterJournalID request then Err CursorBeyond
        else read_at J (mk_PageRequest (pr_Limit request) (pr_AfterJournalID request) (ep_SnapshotMaxJournalID page))
    end
  else read_at J request.
End page.

(** ** The scan *)
Class ExecutionCodec := {
  (** json.Marshal; [None] is its error *)
  encode_execution : Metadata -> option bytes;
}.

(** A row of the scan with the executions its session's facts carry. *)
Record replayed := mk_Replayed { rp_row : sessionRebuildRow; rp_executions : list (Z * sessionExecutionRow) }.
Definition empty_replayed : replayed := mk_Replayed empty_rebuild [].
Abbreviation rebuild_rows := (gmap sessionKey replayed) (only parsing).

Inductive ScanError :=
  | PageFault (e : PageError)
  | ScanAmbiguous
  | SessionInvalid
  | EncodeFault (journal : Z)
  | BudgetExceeded
  | TransitionFault (e : ReplayError).

Section scan.
Context `{PayloadCodec, EvidenceReader, ExecutionCodec}.
(** The payload table, whose rows are addressed by their content. *)
Context (payloads : string -> PayloadRow).

Definition executionBudget : Z := Z.of_nat MaxFactPageSize * Z.of_nat MaxNativePayloadBytes.

(** What the replay reads from a fact. *)
Definition fact_observation (f : OccurrenceFact) (t : SessionTransition) : Observation :=
  mk_Obs (of_JournalID f) (of_ReceivedAt f) (default "" (NativeName (of_Contract f) (of_Event f))) t.

Definition scan_fact (rows : rebuild_rows) (used : Z) (f : OccurrenceFact)
    : result ScanError (rebuild_rows * Z) :=
  match lifecycleSession (of_Bindings f) with
  | None => Err ScanAmbiguous
  | Some session =>
      if String.eqb session "" then Ok (rows, used)
      else if negb (ValidateBindingText session) then Err SessionInvalid
      else
        let key := mk_Key (ri_harness (of_Contract f)) session in
        let row := default empty_replayed (rows !! key) in
        executed ← (match of_Execution f with
          | None => Ok (rp_executions row, used)
          | Some x =>
              match encode_execution x with
              | None => Err (EncodeFault (of_JournalID f))
              | Some encoded =>
                  let used' := used + Z.of_nat (length encoded) in
                  if executionBudget <? used' then Err BudgetExceeded
                  else Ok (rp_executions row ++
                    [(of_JournalID f, mk_ExecutionRow key (of_ReceivedAt f) (md_Kind x) (sc_AgentID (md_Scope x))
                        (sc_TurnID (md_Scope x)) (sc_RequestID (md_Scope x)) encoded)], used')
              end
          end);
        match replaySessionTransition payloads f with
        | Err e => Err (TransitionFault e)
        | Ok t => Ok (<[key := mk_Replayed (replay_step (rp_row row) (fact_observation f t)) executed.1]> rows, executed.2)
        end
  end.
Fixpoint scan_facts (rows : rebuild_rows) (used : Z) (facts : list OccurrenceFact)
    : result ScanError (rebuild_rows * Z) :=
  match facts with
  | [] => Ok (rows, used)
  | f :: rest => next ← scan_fact rows used f; scan_facts next.1 next.2 rest
  end.

(** One page after another; page [n] reads the journal [Js n] of its own
    transaction. [None] is exhausted fuel. *)
Fixpoint scan_loop (fuel : nat) (Js : nat -> Journal) (n : nat) (request : FactPageRequest)
    (rows : rebuild_rows) (used : Z) (found : bool) : option (result ScanError (rebuild_rows * Z * bool)) :=
  match fuel with
  | O => None
  | S fuel' =>
      match ReadOccurrenceFactPage (Js n) request with
      | Err e => Some (Err (PageFault e))
      | Ok page =>
          match scan_facts rows used (fp_Facts page) with
          | Err e => Some (Err e)
          | Ok (rows', used') =>
              let found' := found || negb (bool_decide (fp_Facts page = [])) in
              match fp_Next page with
              | None => Some (Ok (rows', fp_SnapshotMaxJournalID page, found'))
              | Some (snapshot, after) =>
                  scan_loop fuel' Js (S n) (mk_PageRequest (pr_Limit request) after snapshot) rows' used' found'
              end
          end
      end
  end.
Definition scanSessionReplay (fuel : nat) (Js : nat -> Journal) (after : Z)
    : option (result ScanError (rebuild_rows * Z * bool)) :=
  scan_loop fuel Js 0 (mk_PageRequest MaxFactPageSize after 0) ∅ 0 false.

(** *** The reference: the facts behind the cursor up to the snapshot *)
Definition occurrences (J : Journal) (after upto : Z) : list (Z * JournalEntry) :=
  List.filter (fun r => is_occurrence r.2 && in_range after upto r) J.
Definition replay_range (J : Journal) (after upto : Z) : result ScanError (rebuild_rows * Z) :=
  if RefuseUnknownOccurrenceKinds J after upto then Err (PageFault UnknownKind)
  else match decode_rows (occurrences J after upto) with
  | None => Err (PageFault DecodeRefused)
  | Some facts => scan_facts ∅ 0 facts
  end.
End scan.

(** ** The inference (session_infer.go) *)

(** The provenance library on actors and their ownership, and the classifier of
    the one actor that only attributes. *)
Class Ownership := {
  ActorID : Type;
  actor_eq :: EqDecision ActorID;
  ParseActorID : string -> option ActorID;
  actor_String : ActorID -> string;
  IsDefaultLLMActor : ActorID -> bool;
  (** [None] is a fault; the flag says whether the store knows the actor. *)
  QueryActorOwnership : ActorID -> option (bool * list string);
  (** the SHA-256 of the key and the epoch, in hex *)
  inferredBindingID : sessionKey -> string -> string;
}.

Definition sessionInferenceReason : string := "claim-ownership".
Definition sessionInferenceRole : string := "owner-responsibility".
Definition sessionInferenceConfidence : string := "observed".

(** The single owned task that is an epoch. *)
Fixpoint owned_epochs (tasks : list string) (epochs : gset string) (seen : list string) : list string :=
  match tasks with
  | [] => seen
  | t :: rest =>
      if bool_decide (t ∉ epochs) || one_of t seen then owned_epochs rest epochs seen
      else owned_epochs rest epochs (t :: seen)
  end.
Definition unambiguousOwnedEpoch (tasks : list string) (epochs : gset string) : option string :=
  match owned_epochs tasks epochs [] with [t] => Some t | _ => None end.

Section inference.
Context `{Ownership}.

Record sessionClaimRow := mk_ClaimRow { sc_key : sessionKey; sc_actor : string; sc_claimedAt : Z }.

Definition key_less (a b : sessionClaimRow) : bool :=
  let h := Compare (to_bytes (sk_harness (sc_key a))) (to_bytes (sk_harness (sc_key b))) in
  (h <? 0) || ((h =? 0) && string_less (sk_session (sc_key a)) (sk_session (sc_key b))).
Definition readSessionClaims (s : Store) : list sessionClaimRow :=
  sort_slice key_less ((fun p => mk_ClaimRow p.1 (cl_actor p.2) (cl_claimed_at p.2)) <$> map_to_list (st_claim s)).

Definition eligible_actor (actor : string) : option ActorID :=
  match ParseActorID actor with
  | Some a => if IsDefaultLLMActor a then None else Some a
  | None => None
  end.
Fixpoint claim_actors (claims : list sessionClaimRow) (seen : list ActorID) : list ActorID :=
  match claims with
  | [] => seen
  | c :: rest =>
      match eligible_actor (sc_actor c) with
      | None => claim_actors rest seen
      | Some a => if bool_decide (a ∈ seen) then claim_actors rest seen else claim_actors rest (seen ++ [a])
      end
  end.
Definition sessionClaimActors (claims : list sessionClaimRow) : list ActorID :=
  sort_slice (fun a b => string_less (actor_String a) (actor_String b)) (claim_actors claims []).

Fixpoint own_loop (actors : list ActorID) (epochs : gset string) (m : list (ActorID * string))
    : option (list (ActorID * string)) :=
  match actors with
  | [] => Some m
  | a :: rest =>
      match QueryActorOwnership a with
      | None => None
      | Some (known, tasks) =>
          if negb known then own_loop rest epochs m
          else match unambiguousOwnedEpoch tasks epochs with
               | Some e => own_loop rest epochs ((a, e) :: m)
               | None => own_loop rest epochs m
               end
      end
  end.
Definition epoch_of (m : list (ActorID * string)) (a : ActorID) : option string :=
  snd <$> List.find (fun p => bool_decide (p.1 = a)) m.
Definition infer_row (m : list (ActorID * string)) (now : Z) (c : sessionClaimRow) : option sessionInferredBinding :=
  match ParseActorID (sc_actor c) with
  | None => None
  | Some a =>
      match epoch_of m a with
      | None => None
      | Some e =>
          if sc_claimedAt c <=? 0 then None
          else Some (mk_Inferred (inferredBindingID (sc_key c) e) (sc_key c) e sessionInferenceRole
                       (sc_claimedAt c) now sessionInferenceReason sessionInferenceConfidence)
      end
  end.

(** [epochs] is the projection inventory, [api] whether the journal answers the
    ownership query; [None] is the error. *)
Definition planSessionInference (s : Store) (epochs : gset string) (api : bool) (now : Z)
    : option (list sessionInferredBinding) :=
  let claims := readSessionClaims s in
  if bool_decide (claims = []) then Some []
  else let actors := sessionClaimActors claims in
  if bool_decide (actors = []) then Some []
  else if bool_decide (epochs = ∅) then Some []
  else if negb api then None
  else match own_loop actors epochs [] with
  | None => None
  | Some m => Some (omap (infer_row m now) claims)
  end.
End inference.

(** ** The publication *)
Record SessionStateStatus := mk_Status {
  ss_Found : bool;
  ss_Revision : Z;
  ss_Dirty : bool;
  ss_CompletedThroughJournalID : Z;
  ss_CacheVersion : Z;
}.
Definition readSessionStatus (s : Store) : SessionStateStatus :=
  match st_api s with
  | None => mk_Status false 0 false 0 0
  | Some a => mk_Status true (as_revision a) (as_dirty a) (as_completed_through_jid a) (as_cache_version a)
  end.
Record SessionStateRebuildOutcome := mk_RebuildOutcome {
  ro_Sessions : nat;
  ro_Revision : Z;
  ro_CompletedThroughJournalID : Z;
}.

Section publish.
Context (fails : Statement -> bool).

(** The timestamps of the bindings and the claims, into the scanned rows. *)
Definition stamp (rows : rebuild_rows) (key : sessionKey) (ts : Z) : rebuild_rows :=
  let row := default empty_replayed (rows !! key) in
  <[key := mk_Replayed (addTimestamp (rp_row row) ts) (rp_executions row)]> rows.
Definition stamp_binding (rows : rebuild_rows) (b : EpochBinding) : rebuild_rows :=
  let rows1 := stamp rows (eb_key b) (eb_bound_at b) in
  match eb_unbound b with Some (at_, _) => stamp rows1 (eb_key b) at_ | None => rows1 end.
Definition addCurrentSessionBindingsAndClaims (s : Store) (rows : rebuild_rows) : rebuild_rows :=
  fold_left (fun rows p => stamp rows p.1 (cl_claimed_at p.2)) (map_to_list (st_claim s))
    (fold_left stamp_binding (st_bindings s) rows).
Definition explicit_key (s : Store) (key : sessionKey) : bool :=
  existsb (fun b => bool_decide (eb_key b = key)) (st_bindings s).

(** INSERT ... ON CONFLICT(journal_id) DO UPDATE ... WHERE every column agrees:
    [None] is the conflict. *)
Definition insert_execution (m : gmap Z sessionExecutionRow) (p : Z * sessionExecutionRow)
    : option (gmap Z sessionExecutionRow) :=
  match m !! p.1 with
  | None => Some (<[p.1 := p.2]> m)
  | Some x => if bool_decide (x = p.2) then Some m else None
  end.
Fixpoint insert_executions (m : gmap Z sessionExecutionRow) (l : list (Z * sessionExecutionRow))
    : option (gmap Z sessionExecutionRow) :=
  match l with
  | [] => Some m
  | p :: rest => match insert_execution m p with None => None | Some m' => insert_executions m' rest end
  end.
Definition all_executions (rows : rebuild_rows) : list (Z * sessionExecutionRow) :=
  concat ((fun p => rp_executions p.2) <$> map_to_list rows).

(** Every row of the publication, each under its own key. *)
Definition upsert_rows (state : gmap sessionKey SessionRow) (rows : rebuild_rows) : gmap sessionKey SessionRow :=
  merge (fun old new => match new with
                        | Some x => Some (upsertReplayedSessionRow old (rp_row x))
                        | None => old
                        end) state rows.

Definition unsuperseded_end (s : Store) (key : sessionKey) : option Z :=
  match st_state s !! key with
  | Some r => if unsuperseded r then Some (sr_host_end_at r) else None
  | None => None
  end.
(** closeSessionBindingTx of every session of readUnsupersededSessionEnds. *)
Definition close_ended (s : Store) : Store :=
  set_inferred (List.filter (fun r => bool_decide (unsuperseded_end s (ib_key r) = None)) (st_inferred s))
    (set_bindings ((fun b => match unsuperseded_end s (eb_key b) with
                             | Some at_ => close_open (eb_key b) at_ b
                             | None => b
                             end) <$> st_bindings s) s).
Definition any_ended (s : Store) : bool := existsb (fun p => unsuperseded p.2) (map_to_list (st_state s)).

(** The inserts of the derived table, with its two unique constraints. *)
Fixpoint insert_inferred (l : list sessionInferredBinding) (planned : list sessionInferredBinding)
    : option (list sessionInferredBinding) :=
  match planned with
  | [] => Some l
  | r :: rest =>
      if fails InsertInferred
         || existsb (fun i => String.eqb (ib_BindingID i) (ib_BindingID r) || bool_decide (ib_key i = ib_key r)) l
      then None else insert_inferred (l ++ [r]) rest
  end.
(** [s0] is the store the explicit keys were read from. *)
Definition replaceSessionInferredBindings (s0 s : Store) (planned : list sessionInferredBinding)
    : option (list sessionInferredBinding) :=
  if fails DeleteInferred then None
  else insert_inferred [] (List.filter (fun r => negb (explicit_key s0 (ib_key r))
                                                  && bool_decide (unsuperseded_end s (ib_key r) = None)) planned).

Inductive PublishError := ReplayChanged | ExecutionConflict | PublishRefused (st : Statement).
Definition pub {A} (st : Statement) (x : A) : result PublishError A :=
  if fails st then Err (PublishRefused st) else Ok x.

(** The rows and the ends, inside the fence. *)
Definition publish_rows (s : Store) (rows : rebuild_rows) (full : bool) : result PublishError Store :=
  rows' ← pub ReadBindings (addCurrentSessionBindingsAndClaims s rows);
  _ ← pub ReadClaims tt;
  s1 ← (if full then _ ← pub DeleteExecutions tt; pub DeleteState (set_state ∅ (set_executions ∅ s)) else Ok s);
  s2 ← pub UpsertRows (set_state (upsert_rows (st_state s1) rows') s1);
  executions ← (if fails InsertExecutions then Err (PublishRefused InsertExecutions)
                else match insert_executions (st_executions s2) (all_executions rows') with
                     | None => Err ExecutionConflict
                     | Some m => Ok m
                     end);
  let s3 := set_executions executions s2 in
  _ ← pub ReadEnds tt;
  if any_ended s3 && (fails CloseBinding || fails ClearInferred) then Err (PublishRefused CloseBinding)
  else Ok (close_ended s3).

(** The derived table: [None] is a plan that failed. *)
Definition publish_inferred (s0 s : Store) (planned : option (list sessionInferredBinding))
    : result PublishError Store :=
  match planned with
  | None => Ok s
  | Some rows =>
      _ ← pub InferenceSavepoint tt;
      s1 ← (match replaceSessionInferredBindings s0 s rows with
            | Some l => Ok (set_inferred l s)
            | None => _ ← pub RollbackInference tt; pub ClearInference (set_inferred [] s)
            end);
      pub ReleaseInference s1
  end.

Definition fenced (current start : SessionStateStatus) : bool :=
  (ss_CacheVersion current =? ss_CacheVersion start)
  && (ss_CompletedThroughJournalID current =? ss_CompletedThroughJournalID start).

Definition publishSessionReplay (start : SessionStateStatus) (watermark : Z) (rows : rebuild_rows) (full : bool)
    (planned : option (list sessionInferredBinding)) (s : Store)
    : result PublishError (Store * SessionStateRebuildOutcome) :=
  _ ← pub BeginTx tt;
  _ ← pub EnsureApi tt;
  _ ← pub LockApi tt;
  let inserted := bool_decide (st_api s = None) in
  let s' := if inserted then set_api (Some (mk_Api 0 true 0 SessionCacheVersion)) s else s in
  current ← pub ReadStatus (readSessionStatus s');
  let start' := if negb (ss_Found start) && inserted then current else start in
  if negb (fenced current start') then
    if negb (ss_Dirty current) && (ss_CacheVersion current =? SessionCacheVersion)
       && (watermark <=? ss_CompletedThroughJournalID current)
    then pub CountState (s, mk_RebuildOutcome (size (st_state s)) (ss_Revision current)
                              (ss_CompletedThroughJournalID current))
    else Err ReplayChanged
  else
    s1 ← publish_rows s' rows full;
    s2 ← publish_inferred s' s1 planned;
    s3 ← pub PublishApi (set_api ((fun a => mk_Api (as_revision a + 1) false watermark SessionCacheVersion)
                                    <$> st_api s2) s2);
    _ ← pub ReadPublished tt;
    _ ← pub CountState tt;
    pub CommitTx (s3, mk_RebuildOutcome (size (st_state s3)) (ss_Revision (readSessionStatus s3)) watermark).
End publish.

(** ** The refresh *)
Definition sessionReplayMaxAttempts : nat := 8.

Inductive RefreshError :=
  | ErrNewerLayout (version : Z)
  | Stale_Expired | Stale_Status | Stale_Scan (e : option ScanError) | Stale_Publish (e : PublishError)
  | ErrSessionReplayExhausted.

Section refresh.
Context `{PayloadCodec, EvidenceReader, ExecutionCodec, Ownership}.
Context (payloads : string -> PayloadRow) (epochs : gset string) (api : bool).
(** What happens around one attempt: the refused statements, the clock, the
    expiry of the context and of the catch-up window, the journal each page of
    the scan reads, and what other processes commit between its four reads. *)
Record Attempt := mk_Attempt {
  at_fails : Statement -> bool;
  at_now : Z;
  at_expired : bool;
  at_late : bool;
  at_pages : nat -> Journal -> Journal;
  at_scanned : Journal * Store -> Journal * Store;
  at_planned : Journal * Store -> Journal * Store;
  at_published : Journal * Store -> Journal * Store;
}.
Context (attempt : nat -> Attempt) (forceFull : bool).

Definition needs_full (start : SessionStateStatus) : bool :=
  forceFull || negb (ss_Found start) || ss_Dirty start || (ss_Revision start =? 0)
  || negb (ss_CacheVersion start =? SessionCacheVersion).

(** [n] attempts are spent. *)
Fixpoint refresh_loop (left n : nat) (w : Journal * Store) (last : option SessionStateRebuildOutcome)
    : (Journal * Store) * result RefreshError (SessionStateRebuildOutcome * bool) :=
  let quit := match last with Some o => Ok (o, true) | None => Err ErrSessionReplayExhausted end in
  match left with
  | O => (w, quit)
  | S left' =>
      let a := attempt n in
      if at_expired a then (w, Err Stale_Expired)
      else if at_fails a ReadStatus then (w, Err Stale_Status)
      else
        let start := readSessionStatus w.2 in
        if SessionCacheVersion <? ss_CacheVersion start then (w, Err (ErrNewerLayout (ss_CacheVersion start)))
        else
          let full := needs_full start in
          let after := if full then 0 else ss_CompletedThroughJournalID start in
          let Js := fun k => at_pages a k w.1 in
          match scanSessionReplay payloads (S (length (Js 0%nat))) Js after with
          | None => (w, Err (Stale_Scan None))
          | Some (Err e) => (w, Err (Stale_Scan (Some e)))
          | Some (Ok (rows, watermark, found)) =>
              let w1 := at_scanned a w in
              if negb full && negb found
              then (w1, Ok (match last with Some o => (o, true) | None => (mk_RebuildOutcome 0 0 0, false) end))
              else
                let planned := planSessionInference w1.2 epochs api (at_now a) in
                let w2 := at_planned a w1 in
                match publishSessionReplay (at_fails a) start watermark rows full planned w2.2 with
                | Err ReplayChanged => refresh_loop left' (S n) w2 last
                | Err e => (w2, Err (Stale_Publish e))
                | Ok (s', out) =>
                    let w3 := at_published a (w2.1, s') in
                    if (max_jid w3.1 <=? ro_CompletedThroughJournalID out) || negb forceFull || at_late a
                    then (w3, Ok (out, true))
                    else refresh_loop left' (S n) w3 (Some out)
                end
          end
  end.
Definition refreshSessionState (w : Journal * Store)
    : (Journal * Store) * result RefreshError (SessionStateRebuildOutcome * bool) :=
  refresh_loop sessionReplayMaxAttempts 0 w None.
End refresh.

(** ** The scan is pinned *)

(** Coordinates are positive, distinct and ascending, and a fact carries its own. *)
Record journal_ok (J : Journal) : Prop := {
  jo_sorted : StronglySorted Z.lt J.*1;
  jo_positive : forall r, r ∈ J -> 0 < r.1;
  jo_fact : forall j f token, (j, Occurrence f token) ∈ J -> of_JournalID f = j;
}.
(** [J'] is [J] with later rows. *)
Definition extends (J J' : Journal) : Prop := exists K, J' = J ++ K /\ forall r, r ∈ K -> max_jid J < r.1.

Section pinned.
Context `{EvidenceReader}.

(** What the provenance library documents of its evidence pages: a page holds the
    first rows behind the cursor at the snapshot asked for, or at the current one;
    the next cursor, when there is one, points behind them. *)
Record reader_ok : Prop := {
  rk_limit : (1 <= MaxFactPageSize)%nat;
  rk_snapshot : forall J request page, QueryEvidence J request = Some page ->
    ep_SnapshotMaxJournalID page
    = (if pr_SnapshotMaxJournalID request =? 0 then max_jid J else pr_SnapshotMaxJournalID request);
  rk_rows : forall J request page, QueryEvidence J request = Some page ->
    let upto := ep_SnapshotMaxJournalID page in
    match ep_Next page with
    | None => ep_Rows page = occurrences J (pr_AfterJournalID request) upto
    | Some (snapshot, after) =>
        snapshot = upto /\ ep_Rows page <> [] /\ pr_AfterJournalID request <= after <= upto /\ 0 < upto
        /\ occurrences J (pr_AfterJournalID request) upto = ep_Rows page ++ occurrences J after upto
    end;
}.
Definition reader_total : Prop := forall J request, is_Some (QueryEvidence J request).

Lemma max_jid_app J K : max_jid (J ++ K) = Z.max (max_jid J) (max_jid K).
Proof. induction J as [|r J IH]; simpl; [|lia]. clear. induction K; simpl; lia. Qed.
Lemma max_jid_ge J r : r ∈ J -> r.1 <= max_jid J.
Proof. induction J as [|x J IH]; [by intros ?%elem_of_nil|]. intros [->|Hr]%elem_of_cons; simpl; [lia|]. specialize (IH Hr). lia. Qed.
Lemma max_jid_nonneg J : 0 <= max_jid J.
Proof. induction J; simpl; lia. Qed.

Lemma extends_max J J' : extends J J' -> max_jid J <= max_jid J'.
Proof. intros (K & -> & _). rewrite max_jid_app. lia. Qed.
Lemma extends_refl J : extends J J.
Proof. exists []. rewrite app_nil_r. split; [done|]. by intros ? ?%elem_of_nil. Qed.
Lemma extends_trans J J' J'' : extends J J' -> extends J' J'' -> extends J J''.
Proof.
  intros (K & -> & HK) (K' & -> & HK'). exists (K ++ K'). rewrite <- app_assoc. split; [done|].
  intros r [?|Hr]%elem_of_app; [auto|]. specialize (HK' r Hr). rewrite max_jid_app in HK'. lia.
Qed.
Lemma extends_in J J' r : extends J J' -> r ∈ J -> r ∈ J'.
Proof. intros (K & -> & _) ?. apply elem_of_app. by left. Qed.

(** At a snapshot of the old journal the later rows are out of range. *)
Lemma extends_filter (p : Z * JournalEntry -> bool) J J' after upto :
  extends J J' -> upto <= max_jid J ->
  List.filter (fun r => p r && in_range after upto r) J' = List.filter (fun r => p r && in_range after upto r) J.
Proof.
  intros (K & -> & HK) Hu. rewrite List.filter_app.
  replace (List.filter _ K) with (@nil (Z * JournalEntry)); [apply app_nil_r|].
  symmetry. induction K as [|r K IH]; [done|]. simpl.
  assert (in_range after upto r = false) as ->.
  { unfold in_range. pose proof (HK r ltac:(by left)). destruct (Z.leb_spec r.1 upto); [lia|]. apply andb_false_r. }
  rewrite andb_false_r. apply IH. intros; apply HK. by right.
Qed.
Lemma existsb_filter {A} (p : A -> bool) l : existsb p l = negb (bool_decide (List.filter p l = [])).
Proof. induction l as [|a l IH]; simpl; [done|]. by destruct (p a). Qed.
Lemma extends_refuse J J' after upto : extends J J' -> upto <= max_jid J ->
  RefuseUnknownOccurrenceKinds J' after upto = RefuseUnknownOccurrenceKinds J after upto.
Proof. intros. unfold RefuseUnknownOccurrenceKinds. rewrite !existsb_filter. by rewrite (extends_filter (fun r => unknown_kind r.2) J J'). Qed.
Lemma extends_occurrences J J' after upto : extends J J' -> upto <= max_jid J ->
  occurrences J' after upto = occurrences J after upto.
Proof. intros. unfold occurrences. by apply (extends_filter (fun r => is_occurrence r.2)). Qed.

Lemma refuse_narrow J after after' upto : after <= after' ->
  RefuseUnknownOccurrenceKinds J after upto = false -> RefuseUnknownOccurrenceKinds J after' upto = false.
Proof.
  unfold RefuseUnknownOccurrenceKinds. rewrite <- !not_true_iff_false, !List.existsb_exists.
  intros Hle Hn (r & Hr & Hu). apply Hn. exists r. split; [done|]. unfold in_range in *.
  rewrite !andb_true_iff, ?Z.ltb_lt, ?Z.leb_le in *. naive_solver lia.
Qed.

Lemma decode_rows_app a b :
  decode_rows (a ++ b) = match decode_rows a, decode_rows b with Some x, Some y => Some (x ++ y) | _, _ => None end.
Proof.
  induction a as [|[j e] a IH]; simpl; [by destruct (decode_rows b)|].
  destruct (decodeOccurrence e); [|done]. rewrite IH.
  destruct (decode_rows a), (decode_rows b); done.
Qed.
Lemma decode_rows_nil l : decode_rows l = Some [] -> l = [].
Proof. destruct l as [|[j e] l]; [done|]. simpl. destruct (decodeOccurrence e); [|done]. by destruct (decode_rows l). Qed.
Lemma decode_rows_length l fs : decode_rows l = Some fs -> length fs = length l.
Proof.
  revert fs; induction l as [|[j e] l IH]; simpl; intros fs; [by intros [= <-]|].
  destruct (decodeOccurrence e); [|done]. destruct (decode_rows l); [|done]. intros [= <-]. simpl. by rewrite (IH l0).
Qed.

(** What a page is, of the facts behind [after] up to [upto]. *)
Definition page_of (J0 : Journal) (after upto : Z) (page : OccurrenceFactPage) : Prop :=
  fp_SnapshotMaxJournalID page = upto
  /\ RefuseUnknownOccurrenceKinds J0 after upto = false
  /\ match fp_Next page with
     | None => decode_rows (occurrences J0 after upto) = Some (fp_Facts page)
     | Some (s, after') =>
         s = upto /\ after <= after' <= upto /\ 0 < upto /\ fp_Facts page <> []
         /\ exists rows, occurrences J0 after upto = rows ++ occurrences J0 after' upto
                         /\ decode_rows rows = Some (fp_Facts page)
     end.
Definition pinned_at (J0 : Journal) (snapshot : Z) : Z := if snapshot =? 0 then max_jid J0 else snapshot.

Lemma pinned_at_le J0 snapshot : snapshot <= max_jid J0 -> pinned_at J0 snapshot <= max_jid J0.
Proof. unfold pinned_at. destruct (snapshot =? 0); lia. Qed.

Lemma read_at_pinned J0 J limit after snapshot s page :
  reader_ok -> extends J0 J -> snapshot <= max_jid J0 -> (snapshot = 0 -> J = J0) ->
  s = snapshot \/ s = pinned_at J0 snapshot ->
  read_at J (mk_PageRequest limit after s) = Ok page -> page_of J0 after (pinned_at J0 snapshot) page.
Proof.
  intros [_ Hsnap Hrows] Hex Hs H0 Hs' Hr. unfold read_at in Hr.
  destruct (QueryEvidence J _) as [p|] eqn:Eq; [|done].
  assert (Hup : ep_SnapshotMaxJournalID p = pinned_at J0 snapshot).
  { rewrite (Hsnap _ _ _ Eq). simpl. unfold pinned_at in *. destruct (Z.eqb_spec snapshot 0) as [E|E].
    - rewrite (H0 E) in *. destruct Hs' as [->| ->]; [by rewrite E|].
      destruct (Z.eqb_spec (max_jid J0) 0); lia.
    - destruct Hs' as [->| ->]; by rewrite (proj2 (Z.eqb_neq _ _) E). }
  pose proof (pinned_at_le J0 snapshot Hs) as Hle.
  rewrite Hup in Hr. simpl in Hr. rewrite (extends_refuse J0 J) in Hr by done.
  destruct (RefuseUnknownOccurrenceKinds J0 after _) eqn:Eu; [done|].
  specialize (Hrows _ _ _ Eq). simpl in Hrows. rewrite Hup in Hrows.
  destruct (decode_rows (ep_Rows p)) as [facts|] eqn:Ed; [|done]. injection Hr as <-.
  split_and!; [done|done|]. simpl. destruct (ep_Next p) as [[s1 a1]|].
  - rewrite !(extends_occurrences J0 J) in Hrows by done. destruct Hrows as (-> & Hne & Hle' & Hpos & Heq).
    split_and!; [done|lia|lia|done| |by exists (ep_Rows p)]. intros ->. by apply Hne, decode_rows_nil.
  - by rewrite <- (extends_occurrences J0 J), <- Hrows by done.
Qed.

(** A page of the scan, at its pinned snapshot. *)
Lemma read_page_pinned J0 J limit after snapshot page :
  reader_ok -> extends J0 J -> snapshot <= max_jid J0 -> (snapshot = 0 -> J = J0) ->
  ReadOccurrenceFactPage J (mk_PageRequest limit after snapshot) = Ok page ->
  page_of J0 after (pinned_at J0 snapshot) page.
Proof.
  intros Hok Hex Hs H0. unfold ReadOccurrenceFactPage. destruct (_ || _); [done|]. simpl.
  destruct ((snapshot =? 0) && negb (after =? 0)) eqn:Eb.
  - apply andb_true_iff in Eb as [Es%Z.eqb_eq _]. destruct (QueryEvidence J _) as [p|] eqn:Eq; [|done].
    destruct (_ <? _); [done|]. rewrite (rk_snapshot Hok _ _ _ Eq). simpl.
    eapply read_at_pinned; try done. right. unfold pinned_at. by rewrite (H0 Es), Es.
  - eapply read_at_pinned; try done. by left.
Qed.

(** It is refused only for what the facts hold. *)
Lemma read_page_total J0 J limit after snapshot facts :
  reader_ok -> reader_total -> extends J0 J -> snapshot <= max_jid J0 -> (snapshot = 0 -> J = J0) ->
  (1 <= limit <= MaxFactPageSize)%nat -> after <= max_jid J0 ->
  RefuseUnknownOccurrenceKinds J0 after (pinned_at J0 snapshot) = false ->
  decode_rows (occurrences J0 after (pinned_at J0 snapshot)) = Some facts ->
  exists page, ReadOccurrenceFactPage J (mk_PageRequest limit after snapshot) = Ok page.
Proof.
  intros Hok Ht Hex Hs H0 Hl Ha Hu Hd.
  assert (Hread : forall s, s = snapshot \/ s = pinned_at J0 snapshot ->
            exists page, read_at J (mk_PageRequest limit after s) = Ok page).
  { intros s Hs'. unfold read_at. destruct (Ht J (mk_PageRequest limit after s)) as [p Ep]. rewrite Ep.
    assert (Hup : ep_SnapshotMaxJournalID p = pinned_at J0 snapshot).
    { rewrite (rk_snapshot Hok _ _ _ Ep). simpl. unfold pinned_at in *. destruct (Z.eqb_spec snapshot 0) as [E|E].
      - rewrite (H0 E) in *. destruct Hs' as [->| ->]; [by rewrite E|]. destruct (Z.eqb_spec (max_jid J0) 0); lia.
      - destruct Hs' as [->| ->]; by rewrite (proj2 (Z.eqb_neq _ _) E). }
    pose proof (pinned_at_le J0 snapshot Hs). rewrite Hup. simpl. rewrite (extends_refuse J0 J), Hu by done.
    pose proof (rk_rows Hok _ _ _ Ep) as Hr. simpl in Hr. rewrite Hup in Hr.
    destruct (ep_Next p) as [[s1 a1]|].
    - destruct Hr as (_ & _ & _ & _ & Hr). rewrite !(extends_occurrences J0 J) in Hr by done.
      rewrite Hr, decode_rows_app in Hd. destruct (decode_rows (ep_Rows p)); [by eexists|done].
    - rewrite (extends_occurrences J0 J) in Hr by done. rewrite Hr, Hd. by eexists. }
  unfold ReadOccurrenceFactPage. simpl.
  destruct (Nat.ltb_spec limit 1); [lia|]. destruct (Nat.ltb_spec MaxFactPageSize limit); [lia|]. simpl.
  destruct ((snapshot =? 0) && negb (after =? 0)) eqn:Eb; [|apply Hread; by left].
  apply andb_true_iff in Eb as [Es%Z.eqb_eq _].
  destruct (Ht J (mk_PageRequest 1 0 0)) as [p Ep]. rewrite Ep, (rk_snapshot Hok _ _ _ Ep). simpl.
  rewrite (H0 Es). destruct (Z.ltb_spec (max_jid J0) after); [lia|].
  rewrite (H0 Es) in Hread. apply Hread. right. unfold pinned_at. by rewrite Es.
Qed.
End pinned.

Section pinned_scan.
Context `{PayloadCodec, EvidenceReader, ExecutionCodec}.
Context (payloads : string -> PayloadRow) (J0 : Journal) (Js : nat -> Journal).
Context (Hok : reader_ok) (Hfirst : Js 0%nat = J0) (Hgrow : forall n, extends J0 (Js n)).

Lemma scan_facts_app rows used a b :
  scan_facts payloads rows used (a ++ b)
  = (next ← scan_facts payloads rows used a; scan_facts payloads next.1 next.2 b).
Proof.
  revert rows used; induction a as [|f a IH]; intros; simpl; [done|].
  destruct (scan_fact payloads rows used f); simpl; [apply IH|done].
Qed.

Definition first_or_pinned (n : nat) (snapshot : Z) : Prop :=
  snapshot <= max_jid J0 /\ (snapshot = 0 -> Js n = J0).
Lemma next_pinned n snapshot : first_or_pinned n snapshot -> 0 < pinned_at J0 snapshot ->
  first_or_pinned (S n) (pinned_at J0 snapshot) /\ pinned_at J0 (pinned_at J0 snapshot) = pinned_at J0 snapshot.
Proof.
  intros [Hle _] Hpos. pose proof (pinned_at_le J0 snapshot Hle). split; [split; [done|lia]|].
  unfold pinned_at at 1. by destruct (Z.eqb_spec (pinned_at J0 snapshot) 0); [lia|].
Qed.

Lemma scan_loop_sound fuel n limit after snapshot rows used found rows' w found' :
  first_or_pinned n snapshot ->
  scan_loop payloads fuel Js n (mk_PageRequest limit after snapshot) rows used found = Some (Ok (rows', w, found')) ->
  w = pinned_at J0 snapshot /\ RefuseUnknownOccurrenceKinds J0 after w = false
  /\ exists facts used', decode_rows (occurrences J0 after w) = Some facts
      /\ scan_facts payloads rows used facts = Ok (rows', used')
      /\ found' = found || negb (bool_decide (facts = [])).
Proof.
  revert n after snapshot rows used found. induction fuel as [|fuel IH]; [done|].
  intros n after snapshot rows used found Hp. cbn [scan_loop].
  destruct (ReadOccurrenceFactPage _ _) as [page|] eqn:Ep; [|done].
  apply (read_page_pinned J0) in Ep as (Hw & Hu & Hn); [|done|done|apply Hp..].
  destruct (scan_facts payloads rows used _) as [[rows1 used1]|] eqn:Es; [|done].
  destruct (fp_Next page) as [[s a]|].
  - destruct Hn as (-> & Hle & Hpos & Hne & rs & Hocc & Hd). intros Hl.
    destruct (next_pinned n snapshot Hp Hpos) as [Hp' Hid].
    apply IH in Hl as (-> & _ & facts & used' & Hd' & Hs' & ->); [|done]. rewrite Hid in Hd' |- *.
    split_and!; [done|done|]. exists (fp_Facts page ++ facts), used'.
    rewrite Hocc, decode_rows_app, Hd, Hd', scan_facts_app, Es. split_and!; [done|done|].
    rewrite (bool_decide_false (fp_Facts page = [])) by done.
    rewrite (bool_decide_false (fp_Facts page ++ facts = [])) by (by destruct (fp_Facts page)).
    simpl. by rewrite !orb_true_r.
  - intros [= <- <- <-]. split_and!; [done|by rewrite Hw|]. rewrite Hw. eauto.
Qed.

Lemma scan_loop_complete fuel n limit after snapshot rows used found facts rows' used' :
  reader_total -> first_or_pinned n snapshot -> (1 <= limit <= MaxFactPageSize)%nat ->
  after <= pinned_at J0 snapshot ->
  (length (occurrences J0 after (pinned_at J0 snapshot)) < fuel)%nat ->
  RefuseUnknownOccurrenceKinds J0 after (pinned_at J0 snapshot) = false ->
  decode_rows (occurrences J0 after (pinned_at J0 snapshot)) = Some facts ->
  scan_facts payloads rows used facts = Ok (rows', used') ->
  exists w found', scan_loop payloads fuel Js n (mk_PageRequest limit after snapshot) rows used found
                   = Some (Ok (rows', w, found')).
Proof.
  intros Ht. revert n after snapshot rows used found facts.
  induction fuel as [|fuel IH]; intros n after snapshot rows used found facts Hp Hl Ha Hf Hu Hd Hs; [lia|].
  pose proof (pinned_at_le J0 snapshot (proj1 Hp)).
  destruct (read_page_total J0 (Js n) limit after snapshot facts) as [page Ep]; try done; [apply Hp|apply Hp|lia|].
  cbn [scan_loop]. rewrite Ep. apply (read_page_pinned J0) in Ep as (Hw & _ & Hn); [|done|done|apply Hp..].
  destruct (fp_Next page) as [[s a]|].
  - destruct Hn as (-> & Hle & Hpos & Hne & rs & Hocc & Hd'). rewrite Hocc, decode_rows_app, Hd' in Hd.
    destruct (decode_rows (occurrences J0 a _)) as [rest|] eqn:Er; [|done]. injection Hd as <-.
    rewrite scan_facts_app in Hs. destruct (scan_facts payloads rows used (fp_Facts page)) as [[r1 u1]|]; [|done].
    destruct (next_pinned n snapshot Hp Hpos) as [Hp' Hid]. simpl in *.
    assert (rs <> []) by (intros ->; simpl in Hd'; congruence).
    eapply IH; rewrite ?Hid; eauto; [lia| |].
    + rewrite Hocc, length_app in Hf. destruct rs; [done|]. simpl in Hf. lia.
    + eapply refuse_narrow; [|done]. lia.
  - rewrite Hd in Hn. injection Hn as ->. rewrite Hs. eauto.
Qed.
End pinned_scan.

Section snapshot.
Context `{PC : PayloadCodec, ER : EvidenceReader, EC : ExecutionCodec}.
Context (payloads : string -> PayloadRow) (Js : nat -> Journal) (after : Z).
Context (Hok : reader_ok) (Hg : forall n, extends (Js 0%nat) (Js n)).
Local Abbreviation upto := (max_jid (Js 0%nat)).
Local Abbreviation scan := (scanSessionReplay payloads (S (length (Js 0%nat))) Js after).

Lemma first_page : first_or_pinned (Js 0%nat) Js 0 0.
Proof. split; [apply max_jid_nonneg|done]. Qed.

Lemma scan_sound rows w found : scan = Some (Ok (rows, w, found)) ->
  w = upto /\ exists used, replay_range payloads (Js 0%nat) after upto = Ok (rows, used)
  /\ (found = false <-> occurrences (Js 0%nat) after upto = []).
Proof.
  intros Hsc. unfold scanSessionReplay in Hsc.
  apply (scan_loop_sound payloads (Js 0%nat) Js Hok Hg) in Hsc
    as (Hw & Hu & facts & used & Hd & Hf & ->); [|apply first_page].
  change (pinned_at (Js 0%nat) 0) with upto in Hw. subst w. split; [done|]. exists used.
  unfold replay_range. rewrite Hu, Hd. split; [done|]. simpl.
  rewrite negb_false_iff, bool_decide_eq_true.
  split; [intros ->; by apply decode_rows_nil|]. intros He. rewrite He in Hd. by injection Hd as <-.
Qed.

Lemma scan_complete rows used : reader_total -> after <= upto ->
  replay_range payloads (Js 0%nat) after upto = Ok (rows, used) -> exists found, scan = Some (Ok (rows, upto, found)).
Proof.
  intros Ht Ha. unfold replay_range.
  destruct (RefuseUnknownOccurrenceKinds _ _ _) eqn:Eu; [done|].
  destruct (decode_rows _) as [facts|] eqn:Ed; [|done]. intros Hf.
  destruct (scan_loop_complete payloads (Js 0%nat) Js Hok Hg (S (length (Js 0%nat))) 0 MaxFactPageSize after 0
              ∅ 0 false facts rows used Ht first_page) as (w & found & Hl); try done.
  - split; [apply Hok|lia].
  - pose proof (filter_length_le (fun r => is_occurrence r.2 && in_range after upto r) (Js 0%nat)).
    unfold occurrences. change (pinned_at (Js 0%nat) 0) with upto. lia.
  - exists found. destruct (scan_sound rows w found Hl) as [-> _]. exact Hl.
Qed.
End snapshot.

(** C22: The scan is a snapshot.  Whatever rows other processes append between its
    pages, the paged scan returns what one pass over the journal of its first page
    gives: the same rows, that journal's last coordinate as its watermark, and
    whether there was any occurrence.  When no query is refused it returns
    whenever the single pass does: it never runs out of fuel. *)
Theorem scan_pinned `{PayloadCodec, EvidenceReader, ExecutionCodec} payloads Js after :
  reader_ok -> (forall n, extends (Js 0%nat) (Js n)) -> after <= max_jid (Js 0%nat) ->
  let upto := max_jid (Js 0%nat) in
  let scan := scanSessionReplay payloads (S (length (Js 0%nat))) Js after in
  (forall rows w found, scan = Some (Ok (rows, w, found)) ->
     w = upto /\ exists used, replay_range payloads (Js 0%nat) after upto = Ok (rows, used)
     /\ (found = false <-> occurrences (Js 0%nat) after upto = []))
  /\ (reader_total -> forall rows used, replay_range payloads (Js 0%nat) after upto = Ok (rows, used) ->
       exists found, scan = Some (Ok (rows, upto, found))).
Proof.
  intros Hok Hg Ha upto scan. split; [intros rows w found; by apply scan_sound|].
  intros Ht rows used Hr. by eapply scan_complete.
Qed.

(** ** What a scan reads of each session *)
Definition fact_key (f : OccurrenceFact) : option sessionKey :=
  match lifecycleSession (of_Bindings f) with
  | Some session => if String.eqb session "" then None else Some (mk_Key (ri_harness (of_Contract f)) session)
  | None => None
  end.

Section reading.
Context `{PayloadCodec, EvidenceReader, ExecutionCodec}.
Context (payloads : string -> PayloadRow).

(** The observations the replay reads from [facts] of one session. *)
Definition replay_reads (facts : list OccurrenceFact) (key : sessionKey) : Observation -> Prop := fun o =>
  exists f t, f ∈ facts /\ fact_key f = Some key /\ replaySessionTransition payloads f = Ok t
              /\ o = fact_observation f t.
(** The execution row a fact carries. *)
Definition fact_execution (f : OccurrenceFact) : option (Z * sessionExecutionRow) :=
  match fact_key f, of_Execution f with
  | Some key, Some x =>
      (fun encoded => (of_JournalID f, mk_ExecutionRow key (of_ReceivedAt f) (md_Kind x) (sc_AgentID (md_Scope x))
                        (sc_TurnID (md_Scope x)) (sc_RequestID (md_Scope x)) encoded)) <$> encode_execution x
  | _, _ => None
  end.

Definition rows_evidence (rows : rebuild_rows) (key : sessionKey) : Evidence :=
  rebuild_evidence (rp_row (default empty_replayed (rows !! key))).
Definition row_executions (rows : rebuild_rows) (key : sessionKey) : list (Z * sessionExecutionRow) :=
  rp_executions (default empty_replayed (rows !! key)).

(** One fact: another session's rows stay, its own row takes the observation. *)
Lemma scan_fact_cases rows used f rows' used' :
  scan_fact payloads rows used f = Ok (rows', used') ->
  (fact_key f = None /\ rows' = rows /\ fact_execution f = None)
  \/ exists key t, fact_key f = Some key /\ replaySessionTransition payloads f = Ok t
     /\ (forall k, k <> key -> rows' !! k = rows !! k) /\ is_Some (rows' !! key)
     /\ rp_row (default empty_replayed (rows' !! key))
        = replay_step (rp_row (default empty_replayed (rows !! key))) (fact_observation f t)
     /\ row_executions rows' key = row_executions rows key ++ option_list (fact_execution f).
Proof.
  unfold scan_fact, fact_execution, fact_key, row_executions.
  destruct (lifecycleSession (of_Bindings f)) as [session|]; [|done].
  destruct (String.eqb session ""); [intros [= <- <-]; by left|].
  destruct (negb _); [done|]. set (key := mk_Key _ session).
  intros Hx. right. exists key. revert Hx.
  assert (Hrest : forall ex u, (match replaySessionTransition payloads f with
      | Err e => Err (TransitionFault e)
      | Ok t => Ok (<[key := mk_Replayed (replay_step (rp_row (default empty_replayed (rows !! key))) (fact_observation f t)) ex]> rows, u)
      end) = Ok (rows', used') ->
    exists t, Some key = Some key /\ replaySessionTransition payloads f = Ok t
     /\ (forall k, k <> key -> rows' !! k = rows !! k) /\ is_Some (rows' !! key)
     /\ rp_row (default empty_replayed (rows' !! key))
        = replay_step (rp_row (default empty_replayed (rows !! key))) (fact_observation f t)
     /\ rp_executions (default empty_replayed (rows' !! key)) = ex).
  { intros ex u. destruct (replaySessionTransition payloads f) as [t|]; [|done]. intros [= <- <-].
    exists t. rewrite lookup_insert_eq. split_and!; try done. intros k Hk. by rewrite lookup_insert_ne. }
  destruct (of_Execution f) as [x|].
  - destruct (encode_execution x); [|done]. simpl. destruct (_ <? _); [done|]. simpl.
    intros (t & ?)%Hrest. by exists t.
  - simpl. intros (t & Ht)%Hrest. exists t. by rewrite app_nil_r.
Qed.

Lemma replay_reads_cons f facts key o :
  replay_reads (f :: facts) key o <-> replay_reads [f] key o \/ replay_reads facts key o.
Proof.
  unfold replay_reads. split.
  - intros (g & t & [->|Hg]%elem_of_cons & Hr); [left; exists f, t; split; [by left|done]|right; by exists g, t].
  - intros [(g & t & ->%list_elem_of_singleton & Hr)|(g & t & Hg & Hr)];
      [exists f, t; split; [by left|done]|exists g, t; split; [by right|done]].
Qed.

Lemma replay_reads_one f key o t : fact_key f = Some key -> replaySessionTransition payloads f = Ok t ->
  replay_reads [f] key o <-> o = fact_observation f t.
Proof.
  intros Hk Ht. split.
  - intros (g & t' & ->%list_elem_of_singleton & _ & Ht' & ->). congruence.
  - intros ->. exists f, t. split; [by left|done].
Qed.
Lemma replay_reads_other f key o : fact_key f <> Some key -> ~ replay_reads [f] key o.
Proof. intros Hk (g & t' & ->%list_elem_of_singleton & Hk' & _). done. Qed.

Lemma replay_reads_positive facts key :
  (forall f, f ∈ facts -> 0 < of_JournalID f) -> positive_jids (replay_reads facts key).
Proof. intros Hf o (f & t & Hin & _ & _ & ->). by apply Hf. Qed.

Lemma scan_facts_shows facts rows used rows' used' key S :
  (forall f, f ∈ facts -> 0 < of_JournalID f) -> positive_jids S -> shows (rows_evidence rows key) S ->
  scan_facts payloads rows used facts = Ok (rows', used') ->
  shows (rows_evidence rows' key) (either S (replay_reads facts key)).
Proof.
  revert rows used S. induction facts as [|f facts IH]; intros rows used S Hf HS Hs Hr; simpl in Hr.
  { injection Hr as <- <-. eapply shows_ext; [|exact Hs]. unfold either, replay_reads.
    intros o. split; [by left|]. intros [?|(? & ? & ?%elem_of_nil & _)]; done. }
  destruct (scan_fact payloads rows used f) as [[rows1 used1]|] eqn:Es; [|done]. simpl in Hr.
  assert (Hpf : 0 < of_JournalID f) by (apply Hf; left).
  assert (Hfs : forall g, g ∈ facts -> 0 < of_JournalID g) by (intros; apply Hf; by right).
  assert (Hone : shows (rows_evidence rows1 key) (either S (replay_reads [f] key))).
  { apply scan_fact_cases in Es as [(Hk & -> & _)|(k & t & Hk & Ht & Ho & _ & Hrow & _)].
    - eapply shows_ext; [|exact Hs]. intros o. unfold either. split; [by left|]. intros [?|Hx]; [done|].
      exfalso. revert Hx. apply replay_reads_other. by rewrite Hk.
    - unfold rows_evidence. destruct (decide (k = key)) as [->|Hne].
      + rewrite Hrow. eapply shows_ext; [|by apply replay_shows]. intros o. unfold either, one.
        by rewrite (replay_reads_one f key o t).
      + rewrite Ho by done. eapply shows_ext; [|exact Hs]. intros o. unfold either. split; [by left|].
        intros [?|Hx]; [done|]. exfalso. revert Hx. apply replay_reads_other. congruence. }
  eapply shows_ext; [|eapply IH; [exact Hfs| |exact Hone|exact Hr]].
  - intros o. unfold either. rewrite (replay_reads_cons f facts). tauto.
  - apply positive_either; [done|]. apply replay_reads_positive. by intros g ->%list_elem_of_singleton.
Qed.

Lemma scan_facts_readable facts rows used rows' used' f key :
  scan_facts payloads rows used facts = Ok (rows', used') -> f ∈ facts -> fact_key f = Some key ->
  exists t, replaySessionTransition payloads f = Ok t.
Proof.
  revert rows used. induction facts as [|g facts IH]; intros rows used Hr Hin Hk; [by apply elem_of_nil in Hin|].
  simpl in Hr. destruct (scan_fact payloads rows used g) as [[rows1 used1]|] eqn:Es; [|done].
  apply elem_of_cons in Hin as [->|Hin]; [|by eapply IH].
  apply scan_fact_cases in Es as [(Hk' & _)|(k & t & _ & Ht & _)]; [congruence|by exists t].
Qed.

Lemma fact_execution_key f p : fact_execution f = Some p -> exists key, fact_key f = Some key /\ p.1 = of_JournalID f.
Proof.
  unfold fact_execution. destruct (fact_key f) as [key|]; [|done]. destruct (of_Execution f); [|done].
  intros (e & _ & ->)%fmap_Some. by exists key.
Qed.

Lemma scan_facts_executions facts rows used rows' used' key p :
  scan_facts payloads rows used facts = Ok (rows', used') ->
  p ∈ row_executions rows' key
  <-> p ∈ row_executions rows key \/ exists f, f ∈ facts /\ fact_key f = Some key /\ fact_execution f = Some p.
Proof.
  revert rows used. induction facts as [|f facts IH]; intros rows used Hr; simpl in Hr.
  { injection Hr as <- <-. split; [by left|]. intros [?|(f & ?%elem_of_nil & _)]; done. }
  destruct (scan_fact payloads rows used f) as [[rows1 used1]|] eqn:Es; [|done]. rewrite (IH _ _ Hr).
  assert (Hcons : (exists g, g ∈ f :: facts /\ fact_key g = Some key /\ fact_execution g = Some p)
    <-> (fact_key f = Some key /\ fact_execution f = Some p)
        \/ exists g, g ∈ facts /\ fact_key g = Some key /\ fact_execution g = Some p) by set_solver.
  rewrite Hcons. clear Hcons IH Hr.
  enough (p ∈ row_executions rows1 key
          <-> p ∈ row_executions rows key \/ (fact_key f = Some key /\ fact_execution f = Some p)) by tauto.
  apply scan_fact_cases in Es as [(Hk & -> & _)|(k & t & Hk & _ & Ho & _ & _ & Hx)].
  - rewrite Hk. split; [by left|]. by intros [?|[? _]].
  - destruct (decide (k = key)) as [->|Hne].
    + rewrite Hx, elem_of_app, Hk. destruct (fact_execution f); simpl; [rewrite list_elem_of_singleton|rewrite elem_of_nil]; naive_solver.
    + unfold row_executions. rewrite Ho by done. rewrite Hk. split; [by left|]. intros [?|[? _]]; [done|congruence].
Qed.
End reading.

(** ** The publication: lemmas *)
Lemma stamp_evidence rows key ts k :
  rows_evidence (stamp rows key ts) k = rows_evidence rows k /\ row_executions (stamp rows key ts) k = row_executions rows k.
Proof.
  unfold stamp, rows_evidence, row_executions. destruct (decide (k = key)) as [->|Hne].
  - rewrite lookup_insert_eq. simpl. by rewrite addTimestamp_evidence.
  - by rewrite lookup_insert_ne.
Qed.
Lemma stamps_evidence s rows k :
  rows_evidence (addCurrentSessionBindingsAndClaims s rows) k = rows_evidence rows k
  /\ row_executions (addCurrentSessionBindingsAndClaims s rows) k = row_executions rows k.
Proof.
  unfold addCurrentSessionBindingsAndClaims.
  assert (Hc : forall l rows, rows_evidence (fold_left (fun rows p => stamp rows p.1 (cl_claimed_at p.2)) l rows) k = rows_evidence rows k
    /\ row_executions (fold_left (fun rows p => stamp rows p.1 (cl_claimed_at p.2)) l rows) k = row_executions rows k).
  { induction l as [|p l IH]; intros rs; [done|]. simpl. destruct (IH (stamp rs p.1 (cl_claimed_at p.2))) as [-> ->].
    apply stamp_evidence. }
  destruct (Hc (map_to_list (st_claim s)) (fold_left stamp_binding (st_bindings s) rows)) as [-> ->].
  revert rows. induction (st_bindings s) as [|b l IH]; intros rows; [done|]. simpl.
  destruct (IH (stamp_binding rows b)) as [-> ->]. unfold stamp_binding.
  destruct (stamp_evidence rows (eb_key b) (eb_bound_at b) k) as [E1 E2].
  destruct (eb_unbound b) as [[at_ r]|]; [|done].
  destruct (stamp_evidence (stamp rows (eb_key b) (eb_bound_at b)) (eb_key b) at_ k) as [-> ->]. done.
Qed.

Lemma shows_empty S : positive_jids S -> shows no_evidence S -> forall o, ~ S o.
Proof.
  intros HS ([(_ & _ & Hn)|(o' & Ho' & _ & Hj & _)] & _) o Ho; simpl in *.
  - by specialize (Hn o Ho).
  - specialize (HS o' Ho'). lia.
Qed.

Definition base_state (s : Store) (full : bool) : gmap sessionKey SessionRow := if full then ∅ else st_state s.
Definition base_executions (s : Store) (full : bool) : gmap Z sessionExecutionRow :=
  if full then ∅ else st_executions s.

Lemma publish_rows_ok fails s rows full s' :
  publish_rows fails s rows full = Ok s' ->
  exists s3, s' = close_ended s3 /\ st_claim s3 = st_claim s /\ st_bindings s3 = st_bindings s
  /\ st_inferred s3 = st_inferred s /\ st_api s3 = st_api s
  /\ st_state s3 = upsert_rows (base_state s full) (addCurrentSessionBindingsAndClaims s rows)
  /\ insert_executions (base_executions s full) (all_executions (addCurrentSessionBindingsAndClaims s rows))
     = Some (st_executions s3).
Proof.
  unfold publish_rows, pub, base_state, base_executions. destruct (fails ReadBindings); [done|]. simpl.
  destruct (fails ReadClaims); [done|]. simpl.
  destruct full; simpl.
  - destruct (fails DeleteExecutions); [done|]. simpl. destruct (fails DeleteState); [done|]. simpl.
    destruct (fails UpsertRows); [done|]. simpl. destruct (fails InsertExecutions); [done|].
    destruct (insert_executions _ _) as [m|] eqn:Em; [|done]. simpl. destruct (fails ReadEnds); [done|]. simpl.
    destruct (_ && _); [done|]. intros [= <-]. eexists. by split_and!.
  - destruct (fails UpsertRows); [done|]. simpl. destruct (fails InsertExecutions); [done|].
    destruct (insert_executions _ _) as [m|] eqn:Em; [|done]. simpl. destruct (fails ReadEnds); [done|]. simpl.
    destruct (_ && _); [done|]. intros [= <-]. eexists. by split_and!.
Qed.

Lemma upsert_rows_lookup state rows k :
  upsert_rows state rows !! k
  = match rows !! k with Some x => Some (upsertReplayedSessionRow (state !! k) (rp_row x)) | None => state !! k end.
Proof. unfold upsert_rows. rewrite lookup_merge. by destruct (state !! k), (rows !! k). Qed.

(** The evidence a publication leaves of a session. *)
Lemma upsert_rows_shows s state rows k S T :
  positive_jids S -> positive_jids T ->
  shows (row_evidence (state !! k)) S -> shows (rows_evidence rows k) T ->
  shows (row_evidence (upsert_rows state (addCurrentSessionBindingsAndClaims s rows) !! k)) (either S T).
Proof.
  intros HS HT Hs Ht. rewrite upsert_rows_lookup.
  rewrite <- (proj1 (stamps_evidence s rows k)) in Ht. unfold rows_evidence in Ht.
  destruct (addCurrentSessionBindingsAndClaims s rows !! k) as [x|]; simpl in *.
  - apply (publish_shows _ _ _ _ HS HT Hs Ht). intros Hn. rewrite Hn in Hs. by apply shows_empty.
  - eapply shows_ext; [|exact Hs]. pose proof (shows_empty T HT Ht). unfold either. naive_solver.
Qed.

Lemma all_executions_in rows p : p ∈ all_executions rows <-> exists k, p ∈ row_executions rows k.
Proof.
  unfold all_executions, row_executions. rewrite list_elem_of_In, List.in_concat. split.
  - intros (l & Hl & Hp). apply list_elem_of_In, list_elem_of_fmap in Hl as ([k x] & -> & Hx%elem_of_map_to_list).
    exists k. rewrite Hx. by apply list_elem_of_In.
  - intros [k Hp]. destruct (rows !! k) as [x|] eqn:Ex; simpl in Hp; [|by apply elem_of_nil in Hp].
    exists (rp_executions x). split; [|by apply list_elem_of_In]. apply list_elem_of_In, list_elem_of_fmap.
    exists (k, x). split; [done|]. by apply elem_of_map_to_list.
Qed.

(** When table and observations render one journal there is no conflict. *)
Lemma insert_executions_consistent (g : Z -> option sessionExecutionRow) l m :
  (forall p, p ∈ l -> g p.1 = Some p.2) -> (forall j x, m !! j = Some x -> g j = Some x) ->
  exists m', insert_executions m l = Some m' /\ (forall j x, m' !! j = Some x -> g j = Some x)
  /\ (forall p, p ∈ l -> m' !! p.1 = Some p.2) /\ m ⊆ m'.
Proof.
  revert m. induction l as [|p l IH]; intros m Hl Hm; simpl.
  { exists m. split_and!; [done|done|by intros p ?%elem_of_nil|done]. }
  pose proof (Hl p ltac:(by left)) as Hp.
  assert (Hstep : exists m1, insert_execution m p = Some m1 /\ m1 !! p.1 = Some p.2 /\ m ⊆ m1
            /\ forall j x, m1 !! j = Some x -> g j = Some x).
  { unfold insert_execution. destruct (m !! p.1) as [x|] eqn:Ex.
    - pose proof (Hm _ _ Ex). rewrite bool_decide_true by congruence. exists m. split_and!; [done|congruence|done|done].
    - exists (<[p.1 := p.2]> m). rewrite lookup_insert_eq. split_and!; [done|done|by apply insert_subseteq|].
      intros j x [[<- <-]|[_ ?]]%lookup_insert_Some; auto. }
  destruct Hstep as (m1 & -> & H1 & Hsub & Hm1).
  destruct (IH m1 (fun q Hq => Hl q ltac:(by right)) Hm1) as (m' & -> & Hg & Hin & Hsub').
  exists m'. split_and!; [done|done| |by etrans].
  intros q [->|Hq]%elem_of_cons; [by eapply lookup_weaken|auto].
Qed.

(** *** Ends *)
Lemma close_ended_state s : st_state (close_ended s) = st_state s.
Proof. done. Qed.
Lemma unsuperseded_end_same s s' k : st_state s' = st_state s -> unsuperseded_end s' k = unsuperseded_end s k.
Proof. unfold unsuperseded_end. by intros ->. Qed.

Lemma close_ended_closes s : only_closes (fun b => match unsuperseded_end s (eb_key b) with
                                                  | Some at_ => close_open (eb_key b) at_ b
                                                  | None => b
                                                  end).
Proof. intros b. destruct (unsuperseded_end s (eb_key b)); [|done]. apply close_open_closes. Qed.

Lemma close_ended_ok s : store_ok s -> store_ok (close_ended s).
Proof. intros Hs. eapply (store_ok_step s); [apply close_ended_closes|done|done|done|done]. Qed.

Lemma close_ended_settled s k at_ :
  unsuperseded_end s k = Some at_ ->
  (forall b, b ∈ st_bindings (close_ended s) -> is_open k b = true -> at_ < eb_bound_at b)
  /\ (forall r, r ∈ st_inferred (close_ended s) -> ib_key r <> k).
Proof.
  intros Hk. split.
  - simpl. intros b (c & -> & Hc)%list_elem_of_fmap Ho.
    destruct (close_ended_closes s c) as (_ & Ek & _). apply is_open_true in Ho as Ho'. destruct Ho' as [Eb _].
    rewrite Ek in Eb. rewrite Eb, Hk in Ho |- *.
    apply (close_open_closed k at_ [c]); [|done]. by left.
  - simpl. intros r [_ Hr]%inferred_filter_in Hrk. apply bool_decide_eq_true in Hr. congruence.
Qed.

(** *** The derived table *)
Lemma insert_inferred_ok fails l planned l' :
  insert_inferred fails l planned = Some l' -> NoDup (ib_key <$> l) ->
  l' = l ++ planned /\ NoDup (ib_key <$> l').
Proof.
  revert l. induction planned as [|r planned IH]; intros l; simpl.
  { intros [= <-] ?. by rewrite app_nil_r. }
  destruct (_ || _) eqn:Ex; [done|]. intros Hi Hl. apply orb_false_elim in Ex as [_ Ex].
  apply IH in Hi as [-> Hn]; [split; [by rewrite <- app_assoc|done]|].
  rewrite fmap_app. apply NoDup_app. split_and!; [done| |apply NoDup_singleton].
  intros k (i & -> & Hi')%list_elem_of_fmap Hk. apply list_elem_of_singleton in Hk.
  apply not_true_iff_false in Ex. apply Ex, List.existsb_exists. exists i. split; [by apply list_elem_of_In|].
  by rewrite bool_decide_true, orb_true_r.
Qed.

(** What the savepoint leaves: the old table, none, or the plan less the sessions
    with explicit history and the ended ones. *)
Lemma publish_inferred_cases fails s0 s planned s' :
  publish_inferred fails s0 s planned = Ok s' ->
  exists l, s' = set_inferred l s
  /\ ((planned = None /\ l = st_inferred s) \/ (is_Some planned /\ l = [])
      \/ exists rows, planned = Some rows /\ NoDup (ib_key <$> l)
         /\ l = List.filter (fun r => negb (explicit_key s0 (ib_key r))
                                      && bool_decide (unsuperseded_end s (ib_key r) = None)) rows).
Proof.
  unfold publish_inferred, pub. destruct planned as [rows|].
  2: { intros [= <-]. exists (st_inferred s). split; [by destruct s|by left]. }
  destruct (fails InferenceSavepoint); [done|]. simpl.
  unfold replaceSessionInferredBindings. destruct (fails DeleteInferred).
  - destruct (fails RollbackInference); [done|]. simpl. destruct (fails ClearInference); [done|]. simpl.
    destruct (fails ReleaseInference); [done|]. intros [= <-]. exists []. split; [done|]. right; left. by split.
  - destruct (insert_inferred _ _ _) as [l|] eqn:Ei.
    + simpl. destruct (fails ReleaseInference); [done|]. intros [= <-]. exists l. split; [done|]. right; right.
      apply insert_inferred_ok in Ei as [-> Hn]; [|apply NoDup_nil_2]. by exists rows.
    + destruct (fails RollbackInference); [done|]. simpl. destruct (fails ClearInference); [done|]. simpl.
      destruct (fails ReleaseInference); [done|]. intros [= <-]. exists []. split; [done|]. right; left. by split.
Qed.

(** *** The whole transaction *)
Lemma publish_cases fails start watermark rows full planned s s' out :
  publishSessionReplay fails start watermark rows full planned s = Ok (s', out) ->
  let inserted := bool_decide (st_api s = None) in
  let s0 := if inserted then set_api (Some (mk_Api 0 true 0 SessionCacheVersion)) s else s in
  let start' := if negb (ss_Found start) && inserted then readSessionStatus s0 else start in
  (s' = s /\ fenced (readSessionStatus s0) start' = false
   /\ ss_Dirty (readSessionStatus s0) = false /\ ss_CacheVersion (readSessionStatus s0) = SessionCacheVersion
   /\ watermark <= ss_CompletedThroughJournalID (readSessionStatus s0)
   /\ ro_CompletedThroughJournalID out = ss_CompletedThroughJournalID (readSessionStatus s0))
  \/ (fenced (readSessionStatus s0) start' = true /\ ro_CompletedThroughJournalID out = watermark
      /\ exists s1 s2, publish_rows fails s0 rows full = Ok s1 /\ publish_inferred fails s0 s1 planned = Ok s2
         /\ s' = set_api ((fun a => mk_Api (as_revision a + 1) false watermark SessionCacheVersion) <$> st_api s2) s2).
Proof.
  unfold publishSessionReplay, pub. destruct (fails BeginTx); [done|]. destruct (fails EnsureApi); [done|].
  destruct (fails LockApi); [done|]. simpl. destruct (fails ReadStatus); [done|]. cbn [mbind result_bind].
  set (inserted := bool_decide _). set (s0 := if inserted then _ else s).
  set (start' := if negb (ss_Found start) && inserted then _ else start). cbn zeta.
  destruct (fenced (readSessionStatus s0) start') eqn:Ef; cbn [negb].
  - destruct (publish_rows fails s0 rows full) as [s1|] eqn:E1; [|done]. cbn [mbind result_bind].
    destruct (publish_inferred fails s0 s1 planned) as [s2|] eqn:E2; [|done]. cbn [mbind result_bind].
    destruct (fails PublishApi); [done|]. destruct (fails ReadPublished); [done|]. destruct (fails CountState); [done|].
    destruct (fails CommitTx); [done|]. intros [= <- <-]. right. split_and!; [done|done|]. by exists s1, s2.
  - destruct (negb _ && _ && _) eqn:Es; [|done]. destruct (fails CountState); [done|]. intros [= <- <-]. left.
    apply andb_true_iff in Es as [[Ed%negb_true_iff Ev%Z.eqb_eq]%andb_true_iff Ew%Z.leb_le]. done.
Qed.

Lemma explicit_key_in s b : b ∈ st_bindings s -> explicit_key s (eb_key b) = true.
Proof.
  intros Hb. apply List.existsb_exists. exists b. split; [by apply list_elem_of_In|]. by apply bool_decide_eq_true.
Qed.

(** The plan names claimed sessions, at the instant of their claim. *)
Definition plan_ok (s : Store) (planned : option (list sessionInferredBinding)) : Prop :=
  forall rows r, planned = Some rows -> r ∈ rows ->
    exists c, st_claim s !! ib_key r = Some c /\ cl_claimed_at c = ib_BoundAt r.

Lemma publish_ok fails start watermark rows full planned s s' out :
  store_ok s -> plan_ok s planned ->
  publishSessionReplay fails start watermark rows full planned s = Ok (s', out) ->
  store_ok s' /\ st_claim s' = st_claim s.
Proof.
  intros Hs Hp [(-> & _)|(_ & _ & s1 & s2 & E1 & E2 & ->)]%publish_cases; [done|].
  set (s0 := if bool_decide (st_api s = None) then _ else s) in *.
  assert (Hs0 : store_ok s0 /\ st_claim s0 = st_claim s).
  { subst s0. destruct (bool_decide _); [|done]. split; [|done]. by apply (same_tables_ok s). }
  destruct Hs0 as [Hs0 Ec0].
  apply publish_rows_ok in E1 as (s3 & -> & Ec & Eb & Ei & _ & _ & _).
  assert (Hs3 : store_ok s3) by (apply (same_tables_ok s0); [done|done|done|by rewrite Ec]).
  apply close_ended_ok in Hs3 as Hc.
  apply publish_inferred_cases in E2 as (l & -> & Hl). simpl. split; [|congruence].
  enough (store_ok (set_inferred l (close_ended s3))) as Hfin by by apply (same_tables_ok _ _ Hfin).
  destruct Hl as [(_ & ->)|[(_ & ->)|(planned' & -> & Hn & ->)]].
  - by destruct Hc.
  - destruct Hc as [Hb _ _ _]. split; simpl; [done|by apply NoDup_nil_2|by intros r b ?%elem_of_nil|by intros r ?%elem_of_nil].
  - destruct Hc as [Hb _ _ _]. split; [done|done| |].
    + intros r b [_ [Hr _]%andb_true_iff]%inferred_filter_in Hin Hk. apply negb_true_iff in Hr.
      simpl in Hin. apply list_elem_of_fmap in Hin as (c & -> & Hc').
      destruct (close_ended_closes s3 c) as (_ & Ek & _). rewrite Ek in Hk.
      rewrite Eb in Hc'. pose proof (explicit_key_in s0 c Hc'). congruence.
    + intros r [Hr _]%inferred_filter_in. simpl. rewrite Ec, Ec0. eauto.
Qed.

(** ** The inference: lemmas *)
Lemma owned_epochs_spec tasks epochs seen :
  NoDup seen -> NoDup (owned_epochs tasks epochs seen)
  /\ forall t, t ∈ owned_epochs tasks epochs seen <-> t ∈ seen \/ (t ∈ tasks /\ t ∈ epochs).
Proof.
  revert seen. induction tasks as [|x tasks IH]; intros seen Hn; simpl; [set_solver|].
  case_bool_decide as Hx; simpl.
  - destruct (IH seen Hn) as [H1 H2]. split; [done|]. intros t. rewrite H2. set_solver.
  - destruct (one_of x seen) eqn:Eo.
    + destruct (IH seen Hn) as [H1 H2]. apply one_of_spec in Eo. split; [done|]. intros t. rewrite H2. set_solver.
    + apply not_true_iff_false in Eo. rewrite one_of_spec in Eo.
      destruct (IH (x :: seen)) as [H1 H2]; [by constructor|]. split; [done|]. intros t. rewrite H2.
      destruct (decide (x ∈ epochs)); set_solver.
Qed.

Lemma unambiguous_spec tasks epochs e :
  unambiguousOwnedEpoch tasks epochs = Some e <-> forall t, (t ∈ tasks /\ t ∈ epochs) <-> t = e.
Proof.
  unfold unambiguousOwnedEpoch. destruct (owned_epochs_spec tasks epochs [] (NoDup_nil_2)) as [Hn Hin].
  destruct (owned_epochs tasks epochs []) as [|a [|b l]].
  - split; [done|]. intros He. exfalso. apply (proj1 (elem_of_nil e)), Hin. right. by apply He.
  - split.
    + intros [= ->] t. rewrite <- list_elem_of_singleton, Hin. set_solver.
    + intros He. f_equal. symmetry. apply list_elem_of_singleton, Hin. right. by apply He.
  - split; [done|]. intros He. exfalso. apply NoDup_cons in Hn as [Hn _]. apply Hn.
    assert (Hall : forall t, t ∈ a :: b :: l -> t = e) by (intros t [?%elem_of_nil|?]%Hin; [done|by apply He]).
    rewrite (Hall a) by left. rewrite (Hall b) by (right; left).
    by left.
Qed.

Section inference_facts.
Context `{Ownership}.

(** The store knows the actor, and of the tasks it owns [e] is the only epoch. *)
Definition owns_only (epochs : gset string) (a : ActorID) (e : string) : Prop :=
  exists tasks, QueryActorOwnership a = Some (true, tasks) /\ forall t, (t ∈ tasks /\ t ∈ epochs) <-> t = e.

Lemma owns_only_unique epochs a e e' : owns_only epochs a e -> owns_only epochs a e' -> e = e'.
Proof. intros (ts & E & He) (ts' & E' & He'). simplify_eq. apply He'. by apply He. Qed.

Lemma own_loop_spec actors epochs m m' :
  own_loop actors epochs m = Some m' ->
  forall a e, (a, e) ∈ m' <-> (a, e) ∈ m \/ (a ∈ actors /\ owns_only epochs a e).
Proof.
  revert m. induction actors as [|x actors IH]; intros m; simpl; [intros [= ->]; set_solver|].
  destruct (QueryActorOwnership x) as [[known tasks]|] eqn:Eq; [|done].
  assert (Hx : forall e, owns_only epochs x e <-> known = true /\ unambiguousOwnedEpoch tasks epochs = Some e).
  { intros e. rewrite unambiguous_spec. unfold owns_only. rewrite Eq. naive_solver. }
  destruct known; simpl.
  2: { intros Hl a e. rewrite (IH _ Hl). split; [set_solver|]. intros [?|[[->|?]%elem_of_cons Ho]]; [by left| |by right].
       apply Hx in Ho as [? _]. done. }
  destruct (unambiguousOwnedEpoch tasks epochs) as [e0|] eqn:Eu; intros Hl a e; rewrite (IH _ Hl).
  - rewrite elem_of_cons. split.
    + intros [[[= -> ->]|?]|[? ?]]; [right; split; [by left|by apply Hx]|by left|right; split; [by right|done]].
    + intros [?|[[->|?]%elem_of_cons Ho]]; [by left; right| |by right]. apply Hx in Ho as [_ [= ->]]. by left; left.
  - split; [set_solver|]. intros [?|[[->|?]%elem_of_cons Ho]]; [by left| |by right]. by apply Hx in Ho as [_ ?].
Qed.

Lemma claim_actors_in claims seen a :
  a ∈ claim_actors claims seen <-> a ∈ seen \/ exists c, c ∈ claims /\ eligible_actor (sc_actor c) = Some a.
Proof.
  revert seen. induction claims as [|c claims IH]; intros seen; simpl; [set_solver|].
  destruct (eligible_actor (sc_actor c)) as [x|] eqn:Ex.
  - case_bool_decide as Hx; rewrite IH.
    + split; [set_solver|]. intros [?|(c' & [->|?]%elem_of_cons & ?)]; [by left| |right; eauto]. simplify_eq. by left.
    + rewrite elem_of_app, list_elem_of_singleton. split.
      * intros [[?| ->]|(c' & ? & ?)]; [by left|right; exists c; split; [by left|done]|right; exists c'; split; [by right|done]].
      * intros [?|(c' & [->|?]%elem_of_cons & ?)]; [by left; left|simplify_eq; by left; right|right; eauto].
  - rewrite IH. split; [set_solver|]. intros [?|(c' & [->|?]%elem_of_cons & ?)]; [by left|congruence|right; eauto].
Qed.

Lemma epoch_of_Some m a e epochs :
  (forall a e, (a, e) ∈ m -> owns_only epochs a e) -> epoch_of m a = Some e <-> (a, e) ∈ m.
Proof.
  intros Hm. unfold epoch_of. split.
  - intros ([a' e'] & Hf & ->)%fmap_Some. apply List.find_some in Hf as [Hf Ha]. simpl in Ha.
    apply bool_decide_eq_true in Ha as ->. by apply list_elem_of_In.
  - intros Hin. destruct (List.find _ m) as [[a' e']|] eqn:Ef.
    + apply List.find_some in Ef as [Hf Ha]. simpl in *. apply bool_decide_eq_true in Ha as ->. f_equal.
      eapply owns_only_unique; apply Hm; [by apply list_elem_of_In|done].
    + apply list_elem_of_In in Hin. pose proof (List.find_none _ _ Ef _ Hin) as Hn. simpl in Hn.
      by apply bool_decide_eq_false in Hn.
Qed.

Lemma readSessionClaims_in s c :
  c ∈ readSessionClaims s <-> st_claim s !! sc_key c = Some (mk_Claim (sc_actor c) (sc_claimedAt c)).
Proof.
  unfold readSessionClaims. rewrite (sort_slice_Permutation key_less). rewrite list_elem_of_fmap. split.
  - intros ([k [a t]] & -> & Hin%elem_of_map_to_list). done.
  - intros Hk. exists (sc_key c, mk_Claim (sc_actor c) (sc_claimedAt c)). split; [by destruct c|].
    by apply elem_of_map_to_list.
Qed.
End inference_facts.

Section inference_theorems.
Context `{Ownership}.

Lemma infer_row_Some m now c r : infer_row m now c = Some r ->
  ib_key r = sc_key c /\ ib_BoundAt r = sc_claimedAt c /\ 0 < sc_claimedAt c
  /\ exists a, ParseActorID (sc_actor c) = Some a /\ epoch_of m a = Some (ib_EpochID r).
Proof.
  unfold infer_row. destruct (ParseActorID _) as [a|]; [|done]. destruct (epoch_of m a) as [e|] eqn:Ee; [|done].
  destruct (Z.leb_spec (sc_claimedAt c) 0); [done|]. intros [= <-]. split_and!; try done. by exists a.
Qed.

Lemma planSessionInference_plan s epochs api now rows :
  planSessionInference s epochs api now = Some rows ->
  exists m, rows = omap (infer_row m now) (readSessionClaims s)
  /\ forall a e, (a, e) ∈ m <-> (exists c, c ∈ readSessionClaims s /\ eligible_actor (sc_actor c) = Some a)
                                /\ owns_only epochs a e.
Proof.
  unfold planSessionInference. case_bool_decide as Hc; [intros [= <-]; exists []; rewrite Hc; split; [done|]; set_solver|].
  assert (Hact : forall a, a ∈ sessionClaimActors (readSessionClaims s)
            <-> exists c, c ∈ readSessionClaims s /\ eligible_actor (sc_actor c) = Some a).
  { intros a. unfold sessionClaimActors. rewrite (sort_slice_Permutation (fun a b => string_less (actor_String a) (actor_String b))).
    rewrite claim_actors_in. set_solver. }
  assert (Hnone : forall l, omap (infer_row [] now) l = []).
  { induction l as [|c l IH]; [done|]. simpl. unfold infer_row at 1. by destruct (ParseActorID (sc_actor c)). }
  case_bool_decide as Ha.
  { intros [= <-]. exists []. rewrite Hnone. split; [done|]. intros a e. split; [by intros ?%elem_of_nil|].
    intros [Hx%Hact _]. rewrite Ha in Hx. by apply elem_of_nil in Hx. }
  case_bool_decide as He.
  { intros [= <-]. exists []. rewrite Hnone. split; [done|]. intros a e. split; [by intros ?%elem_of_nil|].
    intros [_ (ts & _ & Ho)]. subst epochs. set_solver. }
  destruct (negb api); [done|]. destruct (own_loop _ epochs []) as [m|] eqn:Em; [|done]. intros [= <-].
  exists m. split; [done|]. intros a e. rewrite (own_loop_spec _ _ _ _ Em), Hact. set_solver.
Qed.

(** The inference is exactly its rule.  A plan that succeeds has a row for a
    session, at the instant of its claim, exactly when the session is claimed at a
    positive instant by an actor that parses, is not the attribution-only one, is
    known to the store and owns exactly one epoch; the row names that epoch.  No
    other session has a row. *)
Theorem inference_exact s epochs api now rows key e :
  planSessionInference s epochs api now = Some rows ->
  (exists r, r ∈ rows /\ ib_key r = key /\ ib_EpochID r = e)
  <-> exists c a, st_claim s !! key = Some c /\ 0 < cl_claimed_at c /\ eligible_actor (cl_actor c) = Some a
                  /\ owns_only epochs a e.
Proof.
  intros (m & -> & Hm)%planSessionInference_plan.
  assert (Hep : forall a e, epoch_of m a = Some e <-> (a, e) ∈ m)
    by (intros; eapply epoch_of_Some; intros ? ? Hin; by apply Hm in Hin as [_ ?]).
  split.
  - intros (r & Hr & <- & <-). apply list_elem_of_omap in Hr as (c & Hc & Hr).
    apply infer_row_Some in Hr as (-> & _ & Hpos & a & Hp & He).
    apply readSessionClaims_in in Hc. exists (mk_Claim (sc_actor c) (sc_claimedAt c)), a.
    apply Hep, Hm in He as [(c' & _ & He') Ho]. split_and!; [done|done| |done]. simpl.
    unfold eligible_actor in *. rewrite Hp. destruct (ParseActorID (sc_actor c')) as [a'|]; [|done].
    destruct (IsDefaultLLMActor a') eqn:El; [done|]. injection He' as ->. by rewrite El.
  - intros (c & a & Hc & Hpos & Ha & Ho). set (row := mk_ClaimRow key (cl_actor c) (cl_claimed_at c)).
    assert (Hrow : row ∈ readSessionClaims s) by (apply readSessionClaims_in; by destruct c).
    assert (Hin : epoch_of m a = Some e) by (apply Hep, Hm; split; [by exists row|done]).
    assert (Hp : ParseActorID (cl_actor c) = Some a).
    { unfold eligible_actor in Ha. destruct (ParseActorID (cl_actor c)) as [a'|]; [|done].
      destruct (IsDefaultLLMActor a'); [done|]. congruence. }
    eexists. split; [apply list_elem_of_omap; exists row; split; [exact Hrow|]|].
    + unfold infer_row. simpl. rewrite Hp, Hin. destruct (Z.leb_spec (cl_claimed_at c) 0); [lia|done].
    + done.
Qed.

Lemma plan_claims s epochs api now : plan_ok s (planSessionInference s epochs api now).
Proof.
  intros rows r (m & -> & _)%planSessionInference_plan Hr.
  apply list_elem_of_omap in Hr as (c & Hc & (-> & -> & _)%infer_row_Some).
  apply readSessionClaims_in in Hc. by eexists.
Qed.
End inference_theorems.

(** A publication settles.  It either leaves the store to a publication that
    already covers its snapshot, or certifies the cache through its watermark,
    clean and of the current layout; then no session the cache calls ended has an
    open binding that began by its end, nor a derived one; the derived table is
    the plan less the sessions with explicit history and the ended ones, or empty
    when it could not be written, or the old one less the ended when there was no
    plan; no claim changed and the binding history lost no row. *)
Theorem publication_settles fails start watermark rows full planned s s' out :
  publishSessionReplay fails start watermark rows full planned s = Ok (s', out) ->
  (s' = s /\ watermark <= ro_CompletedThroughJournalID out)
  \/ (st_claim s' = st_claim s /\ history_kept s s'
      /\ (exists a, st_api s' = Some a /\ as_dirty a = false /\ as_cache_version a = SessionCacheVersion
                    /\ as_completed_through_jid a = watermark)
      /\ (forall key at_, unsuperseded_end s' key = Some at_ ->
            (forall b, b ∈ st_bindings s' -> is_open key b = true -> at_ < eb_bound_at b)
            /\ (forall r, r ∈ st_inferred s' -> ib_key r <> key))
      /\ match planned with
         | Some plan => st_inferred s' = [] \/
             forall r, r ∈ st_inferred s' <-> r ∈ plan /\ explicit_key s (ib_key r) = false
                                             /\ unsuperseded_end s' (ib_key r) = None
         | None => forall r, r ∈ st_inferred s' <-> r ∈ st_inferred s /\ unsuperseded_end s' (ib_key r) = None
         end).
Proof.
  intros [(-> & _ & _ & _ & Hw & ->)|(_ & Ho & s1 & s2 & E1 & E2 & ->)]%publish_cases; [by left|right].
  set (s0 := if bool_decide (st_api s = None) then _ else s) in *.
  assert (Hs0 : st_claim s0 = st_claim s /\ st_bindings s0 = st_bindings s /\ st_inferred s0 = st_inferred s
                /\ is_Some (st_api s0)).
  { subst s0. case_bool_decide as Ha; [by eauto|]. destruct (st_api s); [by eauto|done]. }
  destruct Hs0 as (Ec0 & Eb0 & Ei0 & [a Ea0]).
  apply publish_rows_ok in E1 as (s3 & -> & Ec & Eb & Ei & Ea & _).
  apply publish_inferred_cases in E2 as (l & -> & Hl).
  assert (Hexp : forall k, explicit_key s0 k = explicit_key s k) by (intros; unfold explicit_key; by rewrite Eb0).
  assert (Hend : forall k, unsuperseded_end (set_inferred l (close_ended s3)) k = unsuperseded_end s3 k) by done.
  split_and!.
  - simpl. congruence.
  - intros b Hb. rewrite <- Eb0, <- Eb in Hb. eexists. split; [simpl; apply list_elem_of_fmap; by exists b|].
    cbn beta. destruct (unsuperseded_end s3 (eb_key b)); [|done]. unfold close_open.
    destruct (_ && _) eqn:Ex; [|done]. apply andb_true_iff in Ex as [[_ Ex%bool_decide_eq_true]%andb_true_iff _].
    unfold kept. simpl. split_and!; done.
  - simpl. rewrite Ea, Ea0. simpl. by eexists.
  - intros k at_ Hk. change (unsuperseded_end s3 k = Some at_) in Hk.
    destruct (close_ended_settled s3 k at_ Hk) as [H1 H2]. split; [done|]. simpl. intros r Hr.
    destruct Hl as [(_ & ->)|[(_ & ->)|(plan & _ & _ & ->)]]; [by apply H2|by apply elem_of_nil in Hr|].
    intros Hrk. apply inferred_filter_in in Hr as [_ [_ Hr%bool_decide_eq_true]%andb_true_iff].
    change (unsuperseded_end s3 (ib_key r) = None) in Hr. congruence.
  - destruct Hl as [(-> & ->)|[([p ->] & ->)|(plan & -> & _ & ->)]].
    + intros r. simpl. rewrite inferred_filter_in, bool_decide_eq_true, Ei, Ei0. done.
    + by left.
    + right. intros r. simpl. rewrite inferred_filter_in, andb_true_iff, negb_true_iff, bool_decide_eq_true, Hexp. done.
Qed.

(** ** Witnesses *)

(** A reader of one row a page, where the rows ascend. *)
Definition toy_page (J : Journal) (request : FactPageRequest) : EvidencePage :=
  let upto := if pr_SnapshotMaxJournalID request =? 0 then max_jid J else pr_SnapshotMaxJournalID request in
  let rows := occurrences J (pr_AfterJournalID request) upto in
  match rows with
  | r :: x :: rest =>
      if forallb (fun y => r.1 <? y.1) (x :: rest) && (0 <? upto) then mk_EvidencePage [r] upto (Some (upto, r.1))
      else mk_EvidencePage rows upto None
  | _ => mk_EvidencePage rows upto None
  end.
Definition toy_reader : EvidenceReader := {| MaxFactPageSize := 200; QueryEvidence J request := Some (toy_page J request) |}.

Lemma filter_filter_tail r rest J after upto :
  occurrences J after upto = r :: rest -> forallb (fun x => r.1 <? x.1) rest = true -> occurrences J r.1 upto = rest.
Proof.
  intros Ho Hall.
  assert (Hsub : after < r.1).
  { assert (Hin : r ∈ occurrences J after upto) by (rewrite Ho; left).
    unfold occurrences in Hin. apply list_elem_of_In, List.filter_In in Hin as [_ Hin].
    unfold in_range in Hin. rewrite !andb_true_iff, Z.ltb_lt in Hin. tauto. }
  assert (Hff : occurrences J r.1 upto = List.filter (fun x => r.1 <? x.1) (occurrences J after upto)).
  { clear -Hsub. unfold occurrences. induction J as [|x J IH]; [done|]. simpl. unfold in_range in *.
    destruct (is_occurrence x.2); simpl; [|done].
    destruct (Z.ltb_spec r.1 x.1), (Z.ltb_spec after x.1), (Z.leb_spec x.1 upto); simpl;
      repeat (match goal with |- context [?a <? ?b] => destruct (Z.ltb_spec a b) end; simpl); try lia; congruence. }
  rewrite Hff, Ho. simpl. rewrite Z.ltb_irrefl. clear -Hall. induction rest as [|x rest IH]; [done|].
  simpl in *. apply andb_true_iff in Hall as [-> Hall]. f_equal. auto.
Qed.

Lemma toy_reader_ok : @reader_ok toy_reader.
Proof.
  split; [simpl; lia| |].
  - intros J request page [= <-]. unfold toy_page. destruct (occurrences _ _ _) as [|r [|x rest]]; try done.
    by destruct (_ && _).
  - intros J request page [= <-]. unfold toy_page.
    set (upto := if pr_SnapshotMaxJournalID request =? 0 then _ else _).
    destruct (occurrences J (pr_AfterJournalID request) upto) as [|r [|x rest]] eqn:Eo; [by rewrite <- Eo..|].
    destruct (forallb (fun y => r.1 <? y.1) (x :: rest) && (0 <? upto)) eqn:Ea; [|by rewrite <- Eo].
    cbn [ep_Rows ep_Next ep_SnapshotMaxJournalID].
    apply andb_true_iff in Ea as [Ea Hup%Z.ltb_lt].
    assert (Hin : r ∈ occurrences J (pr_AfterJournalID request) upto) by (rewrite Eo; left).
    unfold occurrences in Hin. apply list_elem_of_In, List.filter_In in Hin as [_ Hin].
    unfold in_range in Hin. rewrite !andb_true_iff, Z.ltb_lt, Z.leb_le in Hin.
    split_and!; [done|done|lia|lia|done|]. by rewrite (filter_filter_tail r (x :: rest) J _ upto Eo).
Qed.
Lemma toy_reader_total : @reader_total toy_reader.
Proof. intros J request. by eexists. Qed.

Definition toy_encoder : ExecutionCodec := {| encode_execution _ := Some [] |}.
Definition toy_owners : Ownership := {|
  ActorID := string; actor_eq := _; ParseActorID s := if String.eqb s "" then None else Some s; actor_String a := a;
  IsDefaultLLMActor a := String.eqb a "llm";
  QueryActorOwnership a := Some (true, if String.eqb a "alice" then ["T2"; "E1"; "E1"] else []);
  inferredBindingID k e := String.append (sk_session k) e;
|}.
Definition no_payloads (_ : string) : PayloadRow := NoPayload.

Definition journal2 : Journal := [(1, Occurrence prompt_fact ""); (2, Occurrence end_fact "")].
Definition growing (n : nat) : Journal := match n with O => journal2 | _ => journal2 ++ [(3, OtherRow)] end.

Lemma growing_extends n : extends (growing 0%nat) (growing n).
Proof. destruct n; [apply extends_refl|]. exists [(3, OtherRow)]. split; [done|]. by intros r ->%list_elem_of_singleton. Qed.

Definition scanned2 : rebuild_rows :=
  match replay_range (H := toy_codec) (H0 := toy_reader) (H1 := toy_encoder) no_payloads journal2 0 2 with
  | Ok (rows, _) => rows
  | Err _ => ∅
  end.

Lemma scan_pinned_witness : exists found,
  scanSessionReplay (H := toy_codec) (H0 := toy_reader) (H1 := toy_encoder) no_payloads 3 growing 0
  = Some (Ok (scanned2, 2, found)).
Proof.
  refine (proj2 (scan_pinned (H := toy_codec) (H0 := toy_reader) (H1 := toy_encoder) no_payloads growing 0 toy_reader_ok
    growing_extends _) toy_reader_total scanned2 0 _); [vm_compute; discriminate|by_vm].
Defined.

(** Alice claimed the session and owns the one epoch E1. *)
Definition plan_alice : list sessionInferredBinding :=
  default [] (planSessionInference (H := toy_owners) prompted {["E1"]} true 99).

Lemma inference_exact_witness : exists r, r ∈ plan_alice /\ ib_key r = s1_key /\ ib_EpochID r = "E1".
Proof.
  refine (proj2 (inference_exact (H := toy_owners) prompted {["E1"]} true 99 plan_alice s1_key "E1" _) _).
  - by_vm.
  - exists (mk_Claim "alice" 45), "alice". split_and!; [by_vm|reflexivity|reflexivity|].
    exists ["T2"; "E1"; "E1"]. split; [reflexivity|]. intros t. set_solver.
Defined.

Definition published2 : Store * SessionStateRebuildOutcome :=
  from_ok (prompted, mk_RebuildOutcome 0 0 0)
    (publishSessionReplay no_fault (readSessionStatus prompted) 2 scanned2 true (Some plan_alice) prompted).

(** The journal ends the session: the publication keeps no derived binding. *)
Lemma publication_settles_witness :
  st_inferred published2.1 = [] /\ unsuperseded_end published2.1 s1_key = Some 60
  /\ st_claim published2.1 = st_claim prompted.
Proof.
  split; [by_vm|]. split; [by_vm|].
  destruct (publication_settles no_fault (readSessionStatus prompted) 2 scanned2 true (Some plan_alice) prompted
    published2.1 published2.2) as [[Heq _]|[Hc _]]; [|by rewrite Heq|exact Hc].
  rewrite <- surjective_pairing. apply from_ok_eq. by_vm.
Defined.

(** A tail refused after the scan marks the cache dirty for an occurrence beyond
    the scanned range; the publication of the earlier snapshot takes the marker
    away.  The occurrence stays beyond the certified coordinate, where the next
    refresh reads it. *)
Definition upsert_fault (st : Statement) : bool := match st with StateUpsert => true | _ => false end.
Definition marked : Store :=
  (RecordLifecycleSessionTail (H := toy_codec) upsert_fault (tail_of 2 60 3 "SessionEnd" "") prompted).1.1.
Example dirty_cleared_beyond_scan :
  as_dirty <$> st_api marked = Some true
  /\ match publishSessionReplay no_fault (readSessionStatus prompted) 1 ∅ false None marked with
     | Ok (s', _) => (as_dirty <$> st_api s') = Some false /\ unsuperseded_end s' s1_key = None
                     /\ (as_completed_through_jid <$> st_api s') = Some 1
     | Err _ => False
     end.
Proof. vm_compute. done. Qed.
