(* ===== verification/SessionWorld.v ===== *)
(** SessionWorld: the processes around one store
    (the hook handlers and the daemon lane, which append receipts and run tails;
    the session API, which binds and unbinds; any number of publishers, which
    refresh the cache).

    A step is one transaction of one process.  The invariant says what the cache
    holds at every instant; at the journal's end it is what one replay gives. *)

From Stdlib Require Import NArith ZArith Lia String Sorting.Sorted.
From stdpp Require Import base tactics list strings gmap relations.
From S2P Require Import Prelude GoStrings Execution Registration RuntimeDescriptor SessionEvidence SessionRows SessionStore SessionReplay.
Local Open Scope string_scope.
Local Open Scope list_scope.
Local Open Scope Z_scope.

Section world.
Context `{PC : PayloadCodec, ER : EvidenceReader, EC : ExecutionCodec, OW : Ownership}.
Context (payloads : string -> PayloadRow).

(** ** The world *)

(** A publisher between its status read and its publication. *)
Record Publisher := mk_Publisher {
  pb_start : SessionStateStatus;
  pb_full : bool;
  pb_scan : option (rebuild_rows * Z);
  pb_plan : option (option (list sessionInferredBinding));
}.
Record World := mk_World {
  w_journal : list (Z * JournalEntry);
  w_store : Store;
  w_publishers : list Publisher;
}.
Definition after_of (p : Publisher) : Z := if pb_full p then 0 else ss_CompletedThroughJournalID (pb_start p).

(** The tail of a receipt this build wrote: it has the payload at hand. *)
Definition receipt_tail (f : OccurrenceFact) (raw : bytes) (actor : string) (clock : option Z) : SessionTailInput :=
  mk_TailInput (ri_harness (of_Contract f)) (of_Contract f) (of_Event f) (of_Bindings f) (Some raw) (of_Capture f)
    (of_JournalID f) (Some (of_ReceivedAt f)) actor clock.

Inductive wstep : World -> World -> Prop :=
  | w_append J s ps j e :
      max_jid J < j -> (forall f token, e = Occurrence f token -> of_JournalID f = j) ->
      wstep (mk_World J s ps) (mk_World (J ++ [(j, e)]) s ps)
  | w_tail J s ps fails jid at_ contract kind raw capture bindings execution token actor clock s' out err :
      let f := receipt_fact jid at_ contract kind raw capture bindings execution in
      (jid, Occurrence f token) ∈ J ->
      RecordLifecycleSessionTail fails (receipt_tail f raw actor clock) s = (s', out, err) ->
      wstep (mk_World J s ps) (mk_World J s' ps)
  | w_dirty J s ps fails s' err :
      MarkSessionStateDirty fails s = (s', err) -> wstep (mk_World J s ps) (mk_World J s' ps)
  | w_claim J s ps fails harness bindings claim clock s_read reread s' out err :
      RecordLifecycleSessionClaim fails harness bindings claim clock s_read s reread = (s', out, err) ->
      wstep (mk_World J s ps) (mk_World J s' ps)
  | w_bind J s ps fails tasks harness session req id closed_at bound_at s' r :
      Bind fails tasks harness session req id closed_at bound_at s = Ok (s', r) ->
      wstep (mk_World J s ps) (mk_World J s' ps)
  | w_unbind J s ps fails harness session expected at_ s' r :
      Unbind fails harness session expected at_ s = Ok (s', r) ->
      wstep (mk_World J s ps) (mk_World J s' ps)
  | w_begin J s ps forceFull :
      ss_CacheVersion (readSessionStatus s) <= SessionCacheVersion ->
      wstep (mk_World J s ps)
        (mk_World J s (mk_Publisher (readSessionStatus s) (needs_full forceFull (readSessionStatus s)) None None :: ps))
  | w_scan J s ps1 p ps2 rows used :
      replay_range payloads J (after_of p) (max_jid J) = Ok (rows, used) ->
      wstep (mk_World J s (ps1 ++ p :: ps2))
        (mk_World J s (ps1 ++ mk_Publisher (pb_start p) (pb_full p) (Some (rows, max_jid J)) (pb_plan p) :: ps2))
  | w_plan J s ps1 p ps2 epochs api now :
      wstep (mk_World J s (ps1 ++ p :: ps2))
        (mk_World J s (ps1 ++ mk_Publisher (pb_start p) (pb_full p) (pb_scan p)
                                (Some (planSessionInference s epochs api now)) :: ps2))
  | w_publish J s ps1 p ps2 fails rows watermark planned s' out :
      pb_scan p = Some (rows, watermark) -> pb_plan p = Some planned ->
      publishSessionReplay fails (pb_start p) watermark rows (pb_full p) planned s = Ok (s', out) ->
      wstep (mk_World J s (ps1 ++ p :: ps2)) (mk_World J s' (ps1 ++ ps2))
  | w_drop J s ps1 p ps2 :
      wstep (mk_World J s (ps1 ++ p :: ps2)) (mk_World J s (ps1 ++ ps2)).

(** A store this build opens: the marker is there; a cache of the current layout
    starts empty, one of an older layout holds anything. *)
Definition opened (J : list (Z * JournalEntry)) (s : Store) : Prop :=
  store_ok s /\ exists a, st_api s = Some a /\ 0 <= as_completed_through_jid a <= max_jid J /\
  (as_cache_version a = SessionCacheVersion ->
   st_state s = ∅ /\ st_executions s = ∅ /\ as_completed_through_jid a = 0).
Definition reachable (w : World) : Prop :=
  exists J s, journal_ok J /\ opened J s /\ rtc wstep (mk_World J s []) w.

(** ** The reference *)

(** The facts of the journal. *)
Definition in_journal (J : list (Z * JournalEntry)) (f : OccurrenceFact) : Prop :=
  exists token, (of_JournalID f, Occurrence f token) ∈ J.

(** What some path may have read of a session: an occurrence of the journal, with
    the transition the replay reads or with none. *)
Definition may_read (J : list (Z * JournalEntry)) (key : sessionKey) : Observation -> Prop := fun o =>
  exists f t, in_journal J f /\ fact_key f = Some key
    /\ (t = SessionTransitionNone \/ replaySessionTransition payloads f = Ok t) /\ o = fact_observation f t.
(** What the replay through [upto] reads of it. *)
Definition replayed_through (J : list (Z * JournalEntry)) (upto : Z) (key : sessionKey) : Observation -> Prop := fun o =>
  exists f t, in_journal J f /\ of_JournalID f <= upto /\ fact_key f = Some key
    /\ replaySessionTransition payloads f = Ok t /\ o = fact_observation f t.
Definition readable_through (J : list (Z * JournalEntry)) (upto : Z) : Prop :=
  forall f key, in_journal J f -> of_JournalID f <= upto -> fact_key f = Some key ->
    exists t, replaySessionTransition payloads f = Ok t.
(** The execution rows of the journal. *)
Definition journal_execution (J : list (Z * JournalEntry)) (j : Z) : option sessionExecutionRow :=
  match List.find (fun r => r.1 =? j) J with
  | Some (_, Occurrence f _) => snd <$> fact_execution f
  | _ => None
  end.

(** The rows of a cache of the current layout. *)
Definition journal_executes (J : list (Z * JournalEntry)) (m : gmap Z sessionExecutionRow) (completed : Z) : Prop :=
  (forall j x, m !! j = Some x -> journal_execution J j = Some x)
  /\ (forall j x, journal_execution J j = Some x -> j <= completed -> m !! j = Some x).
Definition rows_ok (J : list (Z * JournalEntry)) (state : gmap sessionKey SessionRow) (completed : Z) : Prop :=
  forall key, exists S, shows (row_evidence (state !! key)) S
    /\ (forall o, S o -> may_read J key o) /\ (forall o, replayed_through J completed key o -> S o).
Record cache_ok (J : list (Z * JournalEntry)) (s : Store) (completed : Z) : Prop := {
  co_readable : readable_through J completed;
  co_rows : rows_ok J (st_state s) completed;
  co_executions : journal_executes J (st_executions s) completed;
}.
Definition publisher_ok (J : list (Z * JournalEntry)) (s : Store) (p : Publisher) : Prop :=
  (pb_full p = false -> ss_CacheVersion (pb_start p) = SessionCacheVersion)
  /\ 0 <= ss_CompletedThroughJournalID (pb_start p) <= max_jid J
  /\ (forall rows watermark, pb_scan p = Some (rows, watermark) ->
        ss_CompletedThroughJournalID (pb_start p) <= watermark <= max_jid J
        /\ exists used, replay_range payloads J (after_of p) watermark = Ok (rows, used))
  /\ (forall planned, pb_plan p = Some planned -> plan_ok s planned).
Record world_ok (w : World) : Prop := {
  wo_journal : journal_ok (w_journal w);
  wo_store : store_ok (w_store w);
  wo_api : exists a, st_api (w_store w) = Some a /\ 0 <= as_completed_through_jid a <= max_jid (w_journal w)
    /\ (as_cache_version a = SessionCacheVersion ->
        cache_ok (w_journal w) (w_store w) (as_completed_through_jid a));
  wo_publishers : forall p, p ∈ w_publishers w -> publisher_ok (w_journal w) (w_store w) p;
}.

(** ** The journal: lemmas *)
Lemma in_journal_positive J f : journal_ok J -> in_journal J f -> 0 < of_JournalID f <= max_jid J.
Proof. intros HJ [token Hin]. split; [apply (jo_positive _ HJ _ Hin)|apply (max_jid_ge _ _ Hin)]. Qed.

Lemma may_read_positive J key : journal_ok J -> positive_jids (may_read J key).
Proof. intros HJ o (f & t & Hf & _ & _ & ->). by apply (in_journal_positive J). Qed.

Lemma journal_find J j e : journal_ok J -> (j, e) ∈ J -> List.find (fun r => r.1 =? j) J = Some (j, e).
Proof.
  intros [Hs _ _]. induction J as [|[j' e'] J IH]; [by intros ?%elem_of_nil|].
  simpl in Hs. apply StronglySorted_inv in Hs as [Hs Hall].
  intros [[= -> ->]|Hin]%elem_of_cons; simpl; [by rewrite Z.eqb_refl|].
  destruct (Z.eqb_spec j' j) as [->|]; [|auto].
  rewrite List.Forall_forall in Hall. specialize (Hall j).
  enough (j < j) by lia. apply Hall, list_elem_of_In, list_elem_of_fmap. by exists (j, e).
Qed.

Lemma journal_execution_fact J f p :
  journal_ok J -> in_journal J f -> fact_execution f = Some p -> journal_execution J p.1 = Some p.2.
Proof.
  intros HJ [token Hin] Hx. destruct (fact_execution_key f p Hx) as (_ & _ & ->).
  unfold journal_execution. by rewrite (journal_find _ _ _ HJ Hin), Hx.
Qed.

Lemma journal_execution_Some J j x : journal_ok J -> journal_execution J j = Some x ->
  exists f, in_journal J f /\ of_JournalID f = j /\ fact_execution f = Some (j, x).
Proof.
  intros HJ. unfold journal_execution. destruct (List.find _ J) as [[j' [f token| |]]|] eqn:Ef; try done.
  apply List.find_some in Ef as [Hin Hj]. apply list_elem_of_In in Hin. simpl in Hj. apply Z.eqb_eq in Hj as ->.
  pose proof (jo_fact _ HJ _ _ _ Hin) as Hj. intros ([j' x'] & Hx & ->)%fmap_Some. exists f.
  destruct (fact_execution_key f _ Hx) as (_ & _ & Hj'). simpl in *. split_and!; [by exists token; rewrite Hj|done|congruence].
Qed.

(** The facts of a range. *)
Lemma decode_rows_in l facts f : decode_rows l = Some facts ->
  f ∈ facts <-> exists r, r ∈ l /\ decodeOccurrence r.2 = Some f.
Proof.
  revert facts. induction l as [|[j e] l IH]; intros facts; simpl; [intros [= <-]; set_solver|].
  destruct (decodeOccurrence e) as [g|] eqn:Eg; [|done]. destruct (decode_rows l) as [fs|]; [|done].
  intros [= <-]. rewrite elem_of_cons, (IH fs eq_refl). split.
  - intros [->|(r & ? & ?)]; [exists (j, e); split; [by left|done]|exists r; split; [by right|done]].
  - intros (r & [->|?]%elem_of_cons & ?); [simpl in *; left; congruence|right; by exists r].
Qed.

Lemma range_facts J after upto facts f :
  journal_ok J -> decode_rows (occurrences J after upto) = Some facts ->
  f ∈ facts <-> in_journal J f /\ after < of_JournalID f <= upto.
Proof.
  intros HJ Hd. rewrite (decode_rows_in _ _ _ Hd). unfold occurrences.
  assert (Hocc : forall r, r ∈ List.filter (fun r => is_occurrence r.2 && in_range after upto r) J
            <-> r ∈ J /\ is_occurrence r.2 = true /\ after < r.1 <= upto).
  { intros r. rewrite !list_elem_of_In, List.filter_In. unfold in_range. rewrite !andb_true_iff, Z.ltb_lt, Z.leb_le. tauto. }
  split.
  - intros ([j e] & Hr & He). apply Hocc in Hr as (Hin & _ & Hj). destruct e as [g token| |]; try done. simpl in *.
    destruct (transition_admitted _ _ _ _ _ _); [|done]. injection He as ->.
    rewrite (jo_fact _ HJ _ _ _ Hin). split; [|done]. exists token. by rewrite (jo_fact _ HJ _ _ _ Hin).
  - intros [[token Hin] Hj]. assert (Hr : (of_JournalID f, Occurrence f token) ∈ List.filter (fun r => is_occurrence r.2 && in_range after upto r) J)
      by by apply Hocc.
    exists (of_JournalID f, Occurrence f token). split; [done|].
    destruct (decodeOccurrence (Occurrence f token)) as [g|] eqn:Eg; simpl in Eg.
    + destruct (transition_admitted _ _ _ _ _ _) eqn:Et; [|done]. simpl. by rewrite Et.
    + exfalso. revert Hr Hd. unfold occurrences. generalize (List.filter (fun r => is_occurrence r.2 && in_range after upto r) J).
      intros l. revert facts. induction l as [|[j e] l IHl]; intros facts Hl; [by apply elem_of_nil in Hl|].
      simpl. apply elem_of_cons in Hl as [[= <- <-]|Hl]; simpl; [by destruct (transition_admitted _ _ _ _ _ _)|].
      destruct (decodeOccurrence e); [|done]. destruct (decode_rows l); [|done]. intros _. by eapply IHl.
Qed.

Lemma replay_range_facts J after upto rows used :
  replay_range payloads J after upto = Ok (rows, used) ->
  exists facts, decode_rows (occurrences J after upto) = Some facts /\ scan_facts payloads ∅ 0 facts = Ok (rows, used).
Proof.
  unfold replay_range. destruct (RefuseUnknownOccurrenceKinds _ _ _); [done|].
  destruct (decode_rows _) as [facts|]; [|done]. intros. by exists facts.
Qed.

(** What a scanned range shows of a session. *)
Lemma range_shows J after upto rows used key :
  journal_ok J -> replay_range payloads J after upto = Ok (rows, used) ->
  exists T, shows (rows_evidence rows key) T /\ positive_jids T
  /\ (forall o, T o -> may_read J key o)
  /\ (forall o, replayed_through J upto key o -> ~ replayed_through J after key o -> T o)
  /\ (forall f, in_journal J f -> after < of_JournalID f <= upto -> fact_key f = Some key ->
        exists t, replaySessionTransition payloads f = Ok t).
Proof.
  intros HJ (facts & Hd & Hs)%replay_range_facts.
  assert (Hin : forall f, f ∈ facts <-> in_journal J f /\ after < of_JournalID f <= upto) by (intros; by apply range_facts).
  assert (Hpos : forall f, f ∈ facts -> 0 < of_JournalID f) by (intros f [Hf _]%Hin; by apply (in_journal_positive J)).
  exists (replay_reads payloads facts key). split_and!.
  - assert (Hnone : shows (rows_evidence (∅ : rebuild_rows) key) (fun _ => False))
      by (unfold rows_evidence; rewrite lookup_empty; exact shows_none).
    eapply shows_ext; [|exact (scan_facts_shows payloads facts ∅ 0 rows used key _ Hpos positive_none Hnone Hs)].
    unfold either. naive_solver.
  - by apply replay_reads_positive.
  - intros o (f & t & [Hf _]%Hin & Hk & Ht & ->). exists f, t. split_and!; [done|done|by right|done].
  - intros o (f & t & Hf & Hle & Hk & Ht & ->) Hn. exists f, t. split_and!; [|done|done|done].
    apply Hin. split; [done|]. split; [|done]. destruct (Z.lt_ge_cases after (of_JournalID f)); [done|].
    destruct Hn. exists f, t. split_and!; done.
  - intros f Hf Hj Hk. eapply scan_facts_readable; [exact Hs|by apply Hin|done].
Qed.

(** ** A receipt is appended *)
Section append.
Context (J : list (Z * JournalEntry)) (j : Z) (e : JournalEntry).
Context (HJ : journal_ok J) (Hj : max_jid J < j) (He : forall f token, e = Occurrence f token -> of_JournalID f = j).

Lemma append_extends : extends J (J ++ [(j, e)]).
Proof. exists [(j, e)]. split; [done|]. by intros r ->%list_elem_of_singleton. Qed.

Lemma append_journal_ok : journal_ok (J ++ [(j, e)]).
Proof.
  destruct HJ as [Hs Hp Hf]. pose proof (max_jid_nonneg J). split.
  - rewrite fmap_app. simpl. clear Hf He. revert Hj. induction J as [|r K IH]; intros Hm; simpl.
    { by repeat constructor. }
    simpl in Hs, Hm. apply StronglySorted_inv in Hs as [Hs Hall]. constructor.
    + apply IH; [| done | | |lia].
      * split; [done| |]; intros; [apply Hp; by right|eapply (jo_fact _ HJ); by right].
      * intros; apply Hp; by right.
      * apply max_jid_nonneg.
    + rewrite List.Forall_forall in Hall |- *. intros x [Hx|[<-|[]]]%List.in_app_iff; [by apply Hall|]. lia.
  - intros r [?| ->%list_elem_of_singleton]%elem_of_app; [by apply Hp|]. simpl. lia.
  - intros j' f token [?|Hin%list_elem_of_singleton]%elem_of_app; [by eapply Hf|].
    injection Hin as -> Hin. by eapply He.
Qed.

Lemma append_in_journal f : in_journal J f -> in_journal (J ++ [(j, e)]) f.
Proof. intros [token ?]. exists token. apply elem_of_app. by left. Qed.

Lemma append_old f : in_journal (J ++ [(j, e)]) f -> of_JournalID f <= max_jid J -> in_journal J f.
Proof.
  intros [token [?|Hin%list_elem_of_singleton]%elem_of_app] Hle; [by exists token|].
  injection Hin as Hf _. lia.
Qed.

Lemma append_execution i : i <= max_jid J -> journal_execution (J ++ [(j, e)]) i = journal_execution J i.
Proof.
  intros Hi. unfold journal_execution. assert (Hf : List.find (fun r => r.1 =? i) (J ++ [(j, e)]) = List.find (fun r => r.1 =? i) J).
  { clear He HJ. revert Hi Hj. induction J as [|r K IH]; intros Hi Hj'; simpl in *.
    - destruct (Z.eqb_spec j i); [lia|done].
    - destruct (r.1 =? i) eqn:Er; [done|]. destruct (Z.le_gt_cases i (max_jid K)); [apply IH; [done|lia]|].
      assert (List.find (fun r0 => r0.1 =? i) K = None) as ->.
      { destruct (List.find _ K) as [x|] eqn:Ef; [|done]. apply List.find_some in Ef as [Hx Hxi].
        apply list_elem_of_In, max_jid_ge in Hx. apply Z.eqb_eq in Hxi. lia. }
      destruct (List.find _ (K ++ _)) as [x|] eqn:Ef; [|done]. apply List.find_some in Ef as [Hx Hxi].
      apply Z.eqb_eq in Hxi. apply List.in_app_iff in Hx as [Hx|[<-|[]]]; simpl in *; [|lia].
      apply list_elem_of_In, max_jid_ge in Hx. lia. }
  by rewrite Hf.
Qed.

Lemma execution_in_range i x : journal_execution J i = Some x -> i <= max_jid J.
Proof. intros (f & Hf & <- & _)%journal_execution_Some; [|done]. by apply in_journal_positive. Qed.

Lemma append_cache_ok s completed : completed <= max_jid J -> cache_ok J s completed -> cache_ok (J ++ [(j, e)]) s completed.
Proof.
  intros Hc [Hr Hrows [Hx1 Hx2]]. split.
  - intros f key Hf Hle Hk. eapply Hr; [|done|done]. apply append_old; [done|lia].
  - intros key. destruct (Hrows key) as (S & Hs & Hm & Hin). exists S. split_and!; [done| |].
    + intros o Ho. destruct (Hm o Ho) as (f & t & Hf & Hrest). exists f, t. split; [by apply append_in_journal|done].
    + intros o (f & t & Hf & Hle & Hrest). apply Hin. exists f, t. split; [|done]. apply append_old; [done|lia].
  - split.
    + intros i x Hi. pose proof (Hx1 _ _ Hi) as Hx. rewrite append_execution; [done|]. by eapply execution_in_range.
    + intros i x Hi Hle. apply Hx2; [|done]. rewrite append_execution in Hi; [done|lia].
Qed.

Lemma append_range after upto : upto <= max_jid J ->
  replay_range payloads (J ++ [(j, e)]) after upto = replay_range payloads J after upto.
Proof.
  intros Hu. unfold replay_range. rewrite (extends_refuse J), (extends_occurrences J); auto using append_extends.
Qed.

Lemma append_world_ok s ps : world_ok (mk_World J s ps) -> world_ok (mk_World (J ++ [(j, e)]) s ps).
Proof.
  intros [_ Hs (a & Ha & Hb & Hc) Hp]. pose proof (extends_max _ _ append_extends) as Hmax. simpl in *.
  split; simpl; [apply append_journal_ok|done| |].
  - exists a. split_and!; [done|lia|lia|]. intros Hv. apply append_cache_ok; [lia|auto].
  - intros p Hin. destruct (Hp p Hin) as (P1 & P2 & P3 & P4). split_and!; [done|lia|lia| |done].
    intros rows wm Hscan. destruct (P3 rows wm Hscan) as (Hw & used & Hr). split; [lia|]. exists used.
    by rewrite append_range by lia.
Qed.
End append.

(** ** A transaction of another process *)
Definition api_agrees (s s' : Store) : Prop :=
  forall a, st_api s = Some a -> exists a', st_api s' = Some a'
    /\ as_completed_through_jid a' = as_completed_through_jid a /\ as_cache_version a' = as_cache_version a.

Lemma plan_ok_mono s s' planned : st_claim s ⊆ st_claim s' -> plan_ok s planned -> plan_ok s' planned.
Proof.
  intros Hs Hp rows r Hr Hin. destruct (Hp rows r Hr Hin) as (c & Hc & ?). exists c. split; [|done]. by eapply lookup_weaken.
Qed.

(** [D] is what the transaction read of each session. *)
Lemma other_world_ok J s s' ps (D : sessionKey -> Observation -> Prop) :
  world_ok (mk_World J s ps) -> store_ok s' -> st_claim s ⊆ st_claim s' -> st_executions s' = st_executions s ->
  api_agrees s s' ->
  (forall key o, D key o -> may_read J key o) ->
  (forall key S, positive_jids S -> shows (row_evidence (st_state s !! key)) S ->
     shows (row_evidence (st_state s' !! key)) (either S (D key))) ->
  world_ok (mk_World J s' ps).
Proof.
  intros [HJ Hs (a & Ha & Hb & Hc) Hp] Hok Hcl Hx Hapi HD Hrows. split; [done|done| |].
  - destruct (Hapi a Ha) as (a' & Ha' & Ec & Ev). exists a'. simpl in *. rewrite Ec, Ev. split_and!; [done|lia|lia|].
    intros Hv. destruct (Hc Hv) as [C1 C2 C3]. split; [done| |by rewrite Hx].
    intros key. destruct (C2 key) as (S & HS & Hm & Hin). exists (either S (D key)). split_and!.
    + apply Hrows; [|done]. intros o Ho. by apply (may_read_positive J key HJ), Hm.
    + intros o [?|?]; eauto.
    + intros o Ho. left. auto.
  - intros p Hin. destruct (Hp p Hin) as (P1 & P2 & P3 & P4). split_and!; [done|apply P2|apply P2|done|].
    intros planned Hpl. eapply plan_ok_mono; eauto.
Qed.

Lemma quiet_world_ok J s s' ps :
  world_ok (mk_World J s ps) -> store_ok s' -> st_claim s ⊆ st_claim s' -> st_executions s' = st_executions s ->
  api_agrees s s' -> (forall key, all_evidence s' key = all_evidence s key) -> world_ok (mk_World J s' ps).
Proof.
  intros Hw H1 H2 H3 H4 Hev. eapply (other_world_ok J s s' ps (fun _ _ => False)); try done.
  intros key S _ HS. unfold all_evidence in Hev. rewrite Hev. eapply shows_ext; [|exact HS]. unfold either. tauto.
Qed.

Lemma api_agrees_refl s s' : st_api s' = st_api s -> api_agrees s s'.
Proof. intros E a Ha. exists a. by rewrite E. Qed.
Lemma api_agrees_map (g : ApiState -> ApiState) s s' :
  (forall a, as_completed_through_jid (g a) = as_completed_through_jid a /\ as_cache_version (g a) = as_cache_version a) ->
  st_api s' = g <$> st_api s -> api_agrees s s'.
Proof. intros Hg E a Ha. exists (g a). rewrite E, Ha. split; [done|]. apply Hg. Qed.

Lemma api_agrees_bump s s' : st_api s' = api_after_bump s -> api_agrees s s'.
Proof. intros E a Ha. exists (bump_api a). rewrite E. unfold api_after_bump. by rewrite Ha. Qed.

(** *** The tail *)
Lemma receipt_tail_observation jid at_ contract kind raw capture bindings execution actor clock :
  let f := receipt_fact jid at_ contract kind raw capture bindings execution in
  exists t, tail_observation (receipt_tail f raw actor clock) at_ = fact_observation f t
  /\ (t = SessionTransitionNone \/ replaySessionTransition payloads f = Ok t).
Proof.
  intros f. exists (ExtractSessionTransition contract kind raw capture bindings). split; [done|].
  destruct (receipt_replayed payloads jid at_ contract kind raw capture bindings execution) as (_ & read & Hr & Hl & _).
  destruct (N.eq_dec (ExtractSessionTransition contract kind raw capture bindings) SessionTransitionNone) as [|Hne]; [by left|].
  right. unfold f. rewrite Hr. by rewrite (Hl Hne).
Qed.

Lemma tail_world_ok J s ps fails jid at_ contract kind raw capture bindings execution token actor clock s' out err :
  let f := receipt_fact jid at_ contract kind raw capture bindings execution in
  (jid, Occurrence f token) ∈ J ->
  RecordLifecycleSessionTail fails (receipt_tail f raw actor clock) s = (s', out, err) ->
  world_ok (mk_World J s ps) -> world_ok (mk_World J s' ps).
Proof.
  intros f Hin Ht Hw. pose proof (wo_store _ Hw) as Hs. simpl in Hs. pose proof (wo_journal _ Hw) as HJ. simpl in HJ.
  destruct (tail_ok _ _ _ _ _ _ Ht Hs) as (Hok & Hcl & Hx).
  apply tail_cases in Ht as [[_ ->]|[(_ & _ & -> & _)|(session & now & at' & s1 & claim & _ & Hl & Hne & _ & Hat & _ & Hc & Hr & _)]];
    [done..|]. injection Hat as <-. set (key := mk_Key (ri_harness contract) session). simpl in Hl, Hc.
  destruct (receipt_tail_observation jid at_ contract kind raw capture bindings execution actor clock) as (t & Ho & Hread).
  fold f in Ho, Hread. rewrite Ho in Hr. change (mk_Key (ti_Harness (receipt_tail f raw actor clock)) session) with key in Hr, Hc.
  assert (Hc' : claimed s s1 key actor now) by (destruct Hc as [(_ & -> & _)|[? _]]; [by left|done]).
  destruct (claimed_tables _ _ _ _ _ Hc') as (_ & C2 & _ & _ & _ & C6).
  destruct Hr as [changed|].
  - destruct (tail_effect_tables s1 key (fact_observation f t)) as (_ & _ & T3 & T4).
    assert (Hst : st_state (bump_if (changed || wrote claim) (tail_effect s1 key (fact_observation f t)))
              = <[key := (upsertSessionState (st_state s !! key) (excluded_row (fact_observation f t))).1]> (st_state s)).
    { unfold bump_if. rewrite <- C2, <- T4. by destruct (changed || wrote claim). }
    eapply (other_world_ok J s _ ps (fun k o => k = key /\ o = fact_observation f t)); [done|done|done|done| | |].
    + unfold bump_if. destruct (changed || wrote claim).
      * eapply (api_agrees_map bump_api); [done|]. simpl. by rewrite T3, C6.
      * apply api_agrees_refl. congruence.
    + intros k o [-> ->]. exists f, t. split_and!; [by exists token| |done|done].
      unfold fact_key. simpl. rewrite Hl. by destruct (String.eqb_spec session "").
    + intros k S HS Hsh. rewrite Hst. destruct (decide (k = key)) as [->|Hk].
      * rewrite lookup_insert_eq. eapply shows_ext; [|apply (live_shows _ S (fact_observation f t)); [done| |done]].
        -- unfold either, one. naive_solver.
        -- apply (in_journal_positive J f HJ). by exists token.
      * rewrite lookup_insert_ne by done. eapply shows_ext; [|exact Hsh]. unfold either. naive_solver.
  - eapply quiet_world_ok; [exact Hw|done|done|done| |].
    + eapply (api_agrees_map dirty_api); [done|]. simpl. by rewrite C6.
    + intros k. unfold all_evidence. simpl. by rewrite C2.
Qed.

(** *** The publication *)

(** What a publication has of the cache before its scanned rows. *)
Lemma base_rows_ok J s after (full : bool) :
  (full = true /\ after = 0 \/ full = false /\ cache_ok J s after) -> journal_ok J ->
  rows_ok J (base_state s full) after
  /\ journal_executes J (base_executions s full) after /\ readable_through J after.
Proof.
  intros [[-> ->]|[-> [C1 C2 C3]]] HJ; [|by split_and!]. simpl. split_and!.
  - intros key. exists (fun _ => False). rewrite lookup_empty. split_and!; [exact shows_none|done|].
    intros o (f & t & Hf & Hle & _). pose proof (in_journal_positive J f HJ Hf). lia.
  - split; [intros j x; by rewrite lookup_empty|]. intros j x (f & Hf & <- & _)%journal_execution_Some Hle; [|done].
    pose proof (in_journal_positive J f HJ Hf). lia.
  - intros f key Hf Hle. pose proof (in_journal_positive J f HJ Hf). lia.
Qed.

Lemma published_rows_ok J s base after upto rows used :
  journal_ok J -> rows_ok J base after -> replay_range payloads J after upto = Ok (rows, used) ->
  rows_ok J (upsert_rows base (addCurrentSessionBindingsAndClaims s rows)) upto.
Proof.
  intros HJ Hbase Hr key. destruct (Hbase key) as (S & HS & Hm & Hin).
  destruct (range_shows J after upto rows used key HJ Hr) as (T & HT & Hpos & HTm & HTin & _).
  assert (positive_jids S) by (intros o Ho; by apply (may_read_positive J key HJ), Hm).
  exists (either S T). split_and!; [by apply upsert_rows_shows|intros o [?|?]; auto|].
  intros o Ho. pose proof Ho as (f & t & Hf & Hle & Hk & Ht & ->).
  destruct (Z.le_gt_cases (of_JournalID f) after).
  - left. apply Hin. by exists f, t.
  - right. apply HTin; [done|]. intros (g & t' & Hg & Hle' & _ & _ & [= Hj _ _ _]). lia.
Qed.

(** The executions of a scanned range never conflict with a table that renders the
    journal. *)
Lemma scanned_executions_insert J s base after upto rows used :
  journal_ok J -> journal_executes J base after -> replay_range payloads J after upto = Ok (rows, used) ->
  exists m, insert_executions base (all_executions (addCurrentSessionBindingsAndClaims s rows)) = Some m
            /\ journal_executes J m upto.
Proof.
  intros HJ [Hb1 Hb2] (facts & Hd & Hs)%replay_range_facts.
  assert (Hin : forall f, f ∈ facts <-> in_journal J f /\ after < of_JournalID f <= upto) by (intros; by apply range_facts).
  assert (Hall : forall p, p ∈ all_executions (addCurrentSessionBindingsAndClaims s rows)
            <-> exists f, f ∈ facts /\ fact_execution f = Some p).
  { intros p. rewrite all_executions_in. setoid_rewrite (fun k => proj2 (stamps_evidence s rows k)).
    setoid_rewrite (fun k => scan_facts_executions payloads facts ∅ 0 rows used k p Hs). split.
    - intros [k [Hk|(f & ? & _ & ?)]]; [|by exists f]. unfold row_executions in Hk. rewrite lookup_empty in Hk.
      by apply elem_of_nil in Hk.
    - intros (f & Hf & Hx). destruct (fact_execution_key f p Hx) as (k & Hk & _). exists k. right. by exists f. }
  destruct (insert_executions_consistent (journal_execution J)
    (all_executions (addCurrentSessionBindingsAndClaims s rows)) base) as (m & Hi & Hm1 & Hm2 & Hsub); [|done|].
  { intros p (f & Hf & Hx)%Hall. apply Hin in Hf as [Hf _]. by eapply journal_execution_fact. }
  exists m. split; [done|]. split; [done|]. intros j x Hx Hle.
  destruct (Z.le_gt_cases j after); [eapply lookup_weaken; [|exact Hsub]; by apply Hb2|].
  destruct (journal_execution_Some J j x HJ Hx) as (f & Hf & Hj & Hfx).
  apply (Hm2 (j, x)), Hall. exists f. split; [|done]. apply Hin. split; [done|lia].
Qed.

Lemma range_readable J after upto rows used :
  journal_ok J -> readable_through J after -> replay_range payloads J after upto = Ok (rows, used) ->
  readable_through J upto.
Proof.
  intros HJ Ha Hr f key Hf Hle Hk. destruct (Z.le_gt_cases (of_JournalID f) after); [by eapply Ha|].
  destruct (range_shows J after upto rows used key HJ Hr) as (_ & _ & _ & _ & _ & Hread). apply Hread; [done|lia|done].
Qed.

Lemma publish_world_ok J s ps p fails rows watermark planned s' out :
  pb_scan p = Some (rows, watermark) -> pb_plan p = Some planned ->
  publishSessionReplay fails (pb_start p) watermark rows (pb_full p) planned s = Ok (s', out) ->
  world_ok (mk_World J s (p :: ps)) -> world_ok (mk_World J s' ps).
Proof.
  intros Hscan Hplan Hpub [HJ Hs (a & Ha & Hb & Hc) Hp]. simpl in *.
  destruct (Hp p ltac:(by left)) as (P1 & P2 & P3 & P4). destruct (P3 _ _ Hscan) as (Hw & used & Hr). specialize (P4 _ Hplan).
  destruct (publish_ok _ _ _ _ _ _ _ _ _ Hs P4 Hpub) as [Hok Hcl].
  assert (Hps : forall q, q ∈ ps -> publisher_ok J s' q).
  { intros q Hq. destruct (Hp q ltac:(by right)) as (Q1 & Q2 & Q3 & Q4). split_and!; [done|apply Q2|apply Q2|done|].
    intros pl Hpl. eapply plan_ok_mono; [|eauto]. by rewrite Hcl. }
  split; simpl; [done|done| |exact Hps]. clear Hps.
  apply publish_cases in Hpub as [(-> & _)|(Hf & _ & s1 & s2 & E1 & E2 & ->)]; [by exists a|].
  rewrite (bool_decide_false (st_api s = None)) in Hf, E1, E2 by congruence. rewrite andb_false_r in Hf.
  unfold fenced, readSessionStatus in Hf. rewrite Ha in Hf. simpl in Hf.
  apply andb_true_iff in Hf as [Hv%Z.eqb_eq Hcomp%Z.eqb_eq].
  apply publish_rows_ok in E1 as (s3 & -> & _ & _ & _ & Ea & Est & Eex).
  apply publish_inferred_cases in E2 as (l & -> & _). simpl. rewrite Ea, Ha. simpl.
  eexists. split; [done|]. simpl. split; [lia|]. intros _.
  destruct (base_rows_ok J s (after_of p) (pb_full p)) as (B1 & B2 & B3); [|done|].
  { unfold after_of. destruct (pb_full p) eqn:Ef; [by left|right]. split; [done|]. rewrite <- Hcomp. apply Hc.
    rewrite Hv. by apply P1. }
  split; simpl.
  - by eapply range_readable.
  - rewrite Est. by eapply published_rows_ok.
  - destruct (scanned_executions_insert J s _ _ _ _ _ HJ B2 Hr) as (m & Hm & Hok'). rewrite Eex in Hm.
    injection Hm as <-. exact Hok'.
Qed.

(** ** The invariant *)
Lemma world_ok_publishers J s ps ps' : (forall p, p ∈ ps' -> p ∈ ps) ->
  world_ok (mk_World J s ps) -> world_ok (mk_World J s ps').
Proof. intros Hp [H1 H2 H3 H4]. split; try done. simpl in *. auto. Qed.

Lemma replace_publisher J s ps1 p p' ps2 :
  world_ok (mk_World J s (ps1 ++ p :: ps2)) -> (publisher_ok J s p -> publisher_ok J s p') ->
  world_ok (mk_World J s (ps1 ++ p' :: ps2)).
Proof.
  intros [H1 H2 H3 H4] Hp. split; try done. simpl in *. intros q Hq.
  apply elem_of_app in Hq as [Hq|[->|Hq]%elem_of_cons].
  - apply H4, elem_of_app. by left.
  - apply Hp, H4, elem_of_app. right. left.
  - apply H4, elem_of_app. right. by right.
Qed.

Lemma needs_full_false forceFull start : needs_full forceFull start = false ->
  ss_CacheVersion start = SessionCacheVersion.
Proof. unfold needs_full. rewrite !orb_false_iff. by intros [_ Hv%negb_false_iff%Z.eqb_eq]. Qed.

Lemma status_bounds s a : st_api s = Some a ->
  ss_CompletedThroughJournalID (readSessionStatus s) = as_completed_through_jid a.
Proof. unfold readSessionStatus. by intros ->. Qed.

Lemma wstep_ok w w' : wstep w w' -> world_ok w -> world_ok w'.
Proof.
  intros [J s ps j e Hj He|J s ps fails jid at_ contract kind raw capture bindings execution token actor clock s' out err f Hin Ht
         |J s ps fails s' err Hd|J s ps fails harness bindings claim clock s_read reread s' out err Hc
         |J s ps fails tasks harness session req id closed_at bound_at s' r Hb|J s ps fails harness session expected at_ s' r Hu
         |J s ps forceFull Hv|J s ps1 p ps2 rows used Hr|J s ps1 p ps2 epochs api now
         |J s ps1 p ps2 fails rows watermark planned s' out Hs Hp Hpub|J s ps1 p ps2] Hw.
  - apply append_world_ok; [apply Hw|done|done|done].
  - by eapply tail_world_ok.
  - unfold MarkSessionStateDirty in Hd. destruct (fails MarkDirty); injection Hd as <- _; [done|].
    eapply quiet_world_ok; [exact Hw| |done|done|by apply (api_agrees_map dirty_api)|done].
    eapply same_tables_ok; [apply Hw|done..].
  - assert (Hcase : s' = s \/ exists k c, st_claim s !! k = None /\ s' = set_claim (<[k := c]> (st_claim s)) s).
    { by eapply RecordLifecycleSessionClaim_cases. }
    destruct Hcase as [->|(k & c & Hk & ->)]; [done|].
    eapply quiet_world_ok; [exact Hw| |by apply insert_subseteq|done|by apply api_agrees_refl|done].
    eapply same_tables_ok; [apply Hw|done|done|by apply insert_subseteq].
  - destruct (Bind_tables _ _ _ _ _ _ _ _ _ _ _ (wo_store _ Hw) Hb) as (T1 & T2 & T3 & T4 & T5).
    eapply quiet_world_ok; [exact Hw|done|by rewrite T2|done| |done].
    destruct T5; [by apply api_agrees_refl|by apply api_agrees_bump].
  - destruct (Unbind_tables _ _ _ _ _ _ _ _ (wo_store _ Hw) Hu) as (T1 & T2 & T3 & T4 & T5).
    eapply quiet_world_ok; [exact Hw|done|by rewrite T2|done|by apply api_agrees_bump|].
    intros key. unfold all_evidence. simpl in T4. by rewrite T4.
  - destruct Hw as [H1 H2 (a & Ha & Hb & Hc) H4]. simpl in *. split; [done|done|by exists a|]. simpl.
    intros p [->|Hp]%elem_of_cons; [|by apply H4]. split_and!; simpl.
    + apply needs_full_false.
    + rewrite (status_bounds s a Ha). lia.
    + rewrite (status_bounds s a Ha). lia.
    + done.
    + done.
  - eapply replace_publisher; [exact Hw|]. intros (P1 & P2 & P3 & P4). split_and!; [done|apply P2|apply P2| |done].
    simpl. intros rows' wm [= <- <-]. split; [lia|]. by exists used.
  - eapply replace_publisher; [exact Hw|]. intros (P1 & P2 & P3 & P4). split_and!; [done|apply P2|apply P2|done|].
    simpl. intros pl [= <-]. apply plan_claims.
  - eapply (publish_world_ok J s (ps1 ++ ps2) p); [done|done|done|]. eapply world_ok_publishers; [|exact Hw].
    intros q. rewrite !elem_of_cons, !elem_of_app, elem_of_cons. tauto.
  - eapply world_ok_publishers; [|exact Hw]. intros q. rewrite !elem_of_app, elem_of_cons. tauto.
Qed.

Lemma wsteps_ok w w' : rtc wstep w w' -> world_ok w -> world_ok w'.
Proof. induction 1; [done|]. eauto using wstep_ok. Qed.

Lemma opened_ok J s : journal_ok J -> opened J s -> world_ok (mk_World J s []).
Proof.
  intros HJ (Hs & a & Ha & Hb & Hv). split; simpl; [done|done| |by intros p ?%elem_of_nil].
  exists a. split_and!; [done|lia|lia|]. intros (Est & Eex & Ec)%Hv. rewrite Ec.
  destruct (base_rows_ok J s 0 true) as (B1 & B2 & B3); [by left|done|]. simpl in *.
  split; [done|by rewrite Est|by rewrite Eex].
Qed.

Lemma reachable_world_ok w : reachable w -> world_ok w.
Proof. intros (J & s & HJ & Ho & Hr). eapply wsteps_ok; [exact Hr|]. by apply opened_ok. Qed.

(** ** What the cache holds *)

(** A set of observations that adds nothing to one it contains. *)
Lemma newest_shrink {A} p (val : Observation -> A) d (S R : Observation -> Prop) j v :
  (forall o, R o -> S o) ->
  (forall o, S o -> p o = true -> exists o', R o' /\ p o' = true /\ ob_jid o' = ob_jid o /\ val o' = val o) ->
  newest p val d S j v -> newest p val d R j v.
Proof.
  intros Hsub Hback [(-> & -> & Hn)|(o & Ho & Hp & <- & <- & Hm)]; [left; eauto|right].
  destruct (Hback o Ho Hp) as (o' & Ho' & Hp' & Hj & Hv). exists o'. split_and!; [done|done|done|done|].
  intros x Hx Hpx. eauto.
Qed.

Lemma covered_shows J completed key e S :
  readable_through J completed -> (forall f, in_journal J f -> of_JournalID f <= completed) ->
  shows e S -> (forall o, S o -> may_read J key o) -> (forall o, replayed_through J completed key o -> S o) ->
  shows e (replayed_through J completed key).
Proof.
  intros Hread Hcov (H1 & H2 & H3 & H4) Hm Hin.
  assert (Hback : forall o, S o -> exists o', replayed_through J completed key o' /\ ob_jid o' = ob_jid o
            /\ ob_at o' = ob_at o /\ ob_event o' = ob_event o
            /\ (ob_transition o = SessionTransitionNone \/ ob_transition o' = ob_transition o)).
  { intros o Ho. destruct (Hm o Ho) as (f & t & Hf & Hk & Ht & ->).
    destruct (Hread f key Hf (Hcov f Hf) Hk) as [t' Ht']. exists (fact_observation f t').
    split_and!; try done; [exists f, t'; auto|]. destruct Ht as [->|Ht]; [by left|right]. simpl. congruence. }
  assert (Hkind : forall t, t <> SessionTransitionNone -> forall o, S o -> (ob_transition o =? t)%N = true ->
            exists o', replayed_through J completed key o' /\ (ob_transition o' =? t)%N = true
                       /\ ob_jid o' = ob_jid o /\ ob_at o' = ob_at o).
  { intros t Ht o Ho Hp%N.eqb_eq. destruct (Hback o Ho) as (o' & Hr & Ej & Ea & _ & Et).
    exists o'. split_and!; try done. apply N.eqb_eq. destruct Et; congruence. }
  split_and!.
  - eapply newest_shrink; [exact Hin| |exact H1]. intros o Ho _. destruct (Hback o Ho) as (o' & ? & ? & _ & ? & _).
    by exists o'.
  - eapply newest_shrink; [exact Hin|apply (Hkind SessionTransitionPrompt); done|exact H2].
  - eapply newest_shrink; [exact Hin|apply (Hkind SessionTransitionEnd); done|exact H3].
  - eapply newest_shrink; [exact Hin|apply (Hkind SessionTransitionResume); done|exact H4].
Qed.

Lemma cache_covered J s completed :
  cache_ok J s completed -> (forall f, in_journal J f -> of_JournalID f <= completed) ->
  forall key, shows (all_evidence s key) (replayed_through J completed key).
Proof.
  intros [C1 C2 C3] Hcov key. destruct (C2 key) as (S & HS & Hm & Hin). by eapply covered_shows.
Qed.

Lemma cache_executions J s completed :
  journal_ok J -> cache_ok J s completed -> (forall f, in_journal J f -> of_JournalID f <= completed) ->
  forall j, st_executions s !! j = journal_execution J j.
Proof.
  intros HJ [_ _ [C1 C2]] Hcov j. destruct (st_executions s !! j) as [x|] eqn:Ex; [symmetry; by apply C1|].
  destruct (journal_execution J j) as [x|] eqn:Ej; [|done]. rewrite <- Ex. apply C2; [done|].
  destruct (journal_execution_Some J j x HJ Ej) as (f & Hf & <- & _). by apply Hcov.
Qed.

(** The execution table a publication of the whole journal writes. *)
Lemma full_executions J s rows used m :
  journal_ok J -> replay_range payloads J 0 (max_jid J) = Ok (rows, used) ->
  (forall j, m !! j = journal_execution J j) ->
  insert_executions ∅ (all_executions (addCurrentSessionBindingsAndClaims s rows)) = Some m.
Proof.
  intros HJ Hr Hm. destruct (base_rows_ok J s 0 true) as (_ & B2 & _); [by left|done|].
  destruct (scanned_executions_insert J s _ _ _ rows used HJ B2 Hr) as (m' & Hi & [H1 H2]). simpl in Hi.
  rewrite Hi. f_equal. apply map_eq. intros j. rewrite Hm.
  destruct (m' !! j) as [x|] eqn:Ex; [symmetry; by apply H1|].
  destruct (journal_execution J j) as [x|] eqn:Ej; [|done]. rewrite <- Ex. apply H2; [done|].
  destruct (journal_execution_Some J j x HJ Ej) as (f & Hf & <- & _). by apply in_journal_positive.
Qed.

(** C17: The cache between two publications.  In every reachable world whose cache
    has the current layout, each row shows a set of observations that holds
    everything the replay reads up to the certified coordinate and nothing but
    readings of journal occurrences; the execution cache renders journal rows, and
    all of them up to that coordinate. *)
Theorem cache_invariant w a :
  reachable w -> st_api (w_store w) = Some a -> as_cache_version a = SessionCacheVersion ->
  let completed := as_completed_through_jid a in
  0 <= completed <= max_jid (w_journal w)
  /\ (forall key, exists S, shows (all_evidence (w_store w) key) S
       /\ (forall o, S o -> may_read (w_journal w) key o)
       /\ (forall o, replayed_through (w_journal w) completed key o -> S o))
  /\ (forall j x, st_executions (w_store w) !! j = Some x -> journal_execution (w_journal w) j = Some x)
  /\ (forall j x, journal_execution (w_journal w) j = Some x -> j <= completed -> st_executions (w_store w) !! j = Some x).
Proof.
  intros [_ _ (a' & Ha' & Hb & Hc) _]%reachable_world_ok Ha Hv. rewrite Ha in Ha'. injection Ha' as <-.
  destruct (Hc Hv) as [C1 C2 [C3 C4]]. split_and!; try done; lia.
Qed.

(** C16: The certified cache holds the evidence of a replay.  When no occurrence of
    the journal is beyond the certified coordinate, whichever tails ran, in whatever
    order, with whatever faults, the evidence columns of every row (the last event,
    the last prompt, the end and the last resume, each with its journal coordinate)
    are those one replay of the whole journal computes, and show exactly what it
    reads; and the execution table is the one a full rebuild writes.  The columns
    first_seen, last_seen and updated_at are not claimed: they may keep the time of a
    late tail that a full rebuild would replace ([late_tail_rewinds_last_seen]). *)
Theorem certified_is_replay w a rows used key :
  reachable w -> st_api (w_store w) = Some a -> as_cache_version a = SessionCacheVersion ->
  (forall f, in_journal (w_journal w) f -> of_JournalID f <= as_completed_through_jid a) ->
  replay_range payloads (w_journal w) 0 (max_jid (w_journal w)) = Ok (rows, used) ->
  all_evidence (w_store w) key = rows_evidence rows key
  /\ shows (rows_evidence rows key) (replayed_through (w_journal w) (as_completed_through_jid a) key)
  /\ insert_executions ∅ (all_executions (addCurrentSessionBindingsAndClaims (w_store w) rows))
     = Some (st_executions (w_store w)).
Proof.
  intros Hw%reachable_world_ok Ha Hv Hcov Hr. pose proof (wo_journal _ Hw) as HJ.
  destruct Hw as [_ _ (a' & Ha' & Hb & Hc) _]. rewrite Ha in Ha'. injection Ha' as <-. specialize (Hc Hv).
  pose proof (cache_covered _ _ _ Hc Hcov key) as Hs.
  set (R := replayed_through (w_journal w) (as_completed_through_jid a) key) in *.
  assert (HR : shows (rows_evidence rows key) R).
  { destruct (range_shows _ _ _ _ _ key HJ Hr) as (T & HT & _ & HTm & HTin & _).
    eapply covered_shows; [apply Hc|done|exact HT|done|].
    intros o (f & t & Hf & Hle & Hk & Ht & ->). apply HTin.
    - exists f, t. split_and!; try done. by apply in_journal_positive.
    - intros (g & t' & Hg & Hle' & _). pose proof (in_journal_positive _ g HJ Hg). lia. }
  split_and!; [|done|by eapply full_executions; [done|exact Hr|eapply cache_executions]].
  apply (shows_unique _ _ R); [| |done|done].
  - intros o (f & t & Hf & _ & _ & _ & ->). by apply (in_journal_positive (w_journal w)).
  - intros o o' (f & t & [tk Hf] & _ & _ & _ & ->) (f' & t' & [tk' Hf'] & _ & _ & _ & ->) Hj. simpl in *.
    pose proof (journal_find _ _ _ HJ Hf) as E. rewrite Hj, (journal_find _ _ _ HJ Hf') in E.
    injection E as <- _. done.
Qed.

(** C21: Explicit bindings rule.  In every reachable world a session has at most
    one open binding; a session that was ever bound explicitly, whether or not it
    still is, has no derived binding; and every derived binding is of a claimed
    session, dated at the claim. *)
Theorem explicit_rules w :
  reachable w ->
  (forall key b c, b ∈ st_bindings (w_store w) -> c ∈ st_bindings (w_store w) ->
     is_open key b = true -> is_open key c = true -> b = c)
  /\ (forall b r, b ∈ st_bindings (w_store w) -> r ∈ st_inferred (w_store w) -> eb_key b <> ib_key r)
  /\ (forall r, r ∈ st_inferred (w_store w) ->
       exists c, st_claim (w_store w) !! ib_key r = Some c /\ cl_claimed_at c = ib_BoundAt r)
  /\ NoDup (ib_key <$> st_inferred (w_store w)).
Proof.
  intros [_ [[_ Ho] Hn He Hc] _ _]%reachable_world_ok. split_and!; [|by eauto|done|done].
  intros key b c [i Hi]%list_elem_of_lookup [j Hj]%list_elem_of_lookup [Hb Ub]%is_open_true [Hc' Uc]%is_open_true.
  assert (i = j) as <- by (eapply Ho; eauto; congruence). congruence.
Qed.

(** ** What never goes back *)
Definition completed_of (s : Store) : Z := ss_CompletedThroughJournalID (readSessionStatus s).

Lemma agrees_completed J s ps s' : world_ok (mk_World J s ps) -> api_agrees s s' -> completed_of s' = completed_of s.
Proof.
  intros [_ _ (a & Ha & _) _] Hag. simpl in Ha. destruct (Hag a Ha) as (a' & Ha' & Hc & _).
  unfold completed_of, readSessionStatus. by rewrite Ha, Ha'.
Qed.

Lemma tail_agrees fails i s s' out err : RecordLifecycleSessionTail fails i s = (s', out, err) -> api_agrees s s'.
Proof.
  intros [[_ ->]|[(_ & _ & -> & _)|(session & now & at_ & s1 & claim & _ & _ & _ & _ & _ & _ & Hc & Hr & _)]]%tail_cases;
    [by apply api_agrees_refl..|].
  assert (Hc' : claimed s s1 (mk_Key (ti_Harness i) session) (ti_ActorClaim i) now)
    by (destruct Hc as [(_ & -> & _)|[? _]]; [by left|done]).
  destruct (claimed_tables _ _ _ _ _ Hc') as (_ & _ & _ & _ & _ & C6).
  destruct Hr as [changed|].
  - destruct (tail_effect_tables s1 (mk_Key (ti_Harness i) session) (tail_observation i at_)) as (_ & _ & T3 & _).
    unfold bump_if. destruct (changed || wrote claim).
    + eapply (api_agrees_map bump_api); [done|]. simpl. by rewrite T3, C6.
    + apply api_agrees_refl. congruence.
  - eapply (api_agrees_map dirty_api); [done|]. simpl. by rewrite C6.
Qed.

Definition goes_on (w w' : World) : Prop :=
  st_claim (w_store w) ⊆ st_claim (w_store w') /\ completed_of (w_store w) <= completed_of (w_store w')
  /\ exists K, w_journal w' = w_journal w ++ K.

Lemma goes_on_store J s s' ps ps' : world_ok (mk_World J s ps) -> st_claim s ⊆ st_claim s' -> api_agrees s s' ->
  goes_on (mk_World J s ps) (mk_World J s' ps').
Proof.
  intros Hw Hc Ha. split_and!; [done| |exists []; simpl; by rewrite app_nil_r]. simpl.
  rewrite (agrees_completed J s ps s' Hw Ha). lia.
Qed.
Lemma goes_on_same J s ps ps' : goes_on (mk_World J s ps) (mk_World J s ps').
Proof. split_and!; [done|simpl; lia|exists []; simpl; by rewrite app_nil_r]. Qed.

Lemma publish_goes_on J s ps p fails rows watermark planned s' out :
  pb_scan p = Some (rows, watermark) -> pb_plan p = Some planned ->
  publishSessionReplay fails (pb_start p) watermark rows (pb_full p) planned s = Ok (s', out) ->
  world_ok (mk_World J s (p :: ps)) ->
  st_claim s ⊆ st_claim s' /\ completed_of s <= completed_of s' /\ ro_CompletedThroughJournalID out <= completed_of s'.
Proof.
  intros Hscan Hplan Hpub [HJ Hs (a & Ha & Hb & Hc) Hp]. simpl in *.
  destruct (Hp p ltac:(by left)) as (P1 & P2 & P3 & P4). destruct (P3 _ _ Hscan) as (Hw & used & Hr).
  destruct (publish_ok _ _ _ _ _ _ _ _ _ Hs (P4 _ Hplan) Hpub) as [_ Hcl]. rewrite Hcl. split; [done|].
  unfold completed_of, readSessionStatus.
  apply publish_cases in Hpub as [(-> & _ & _ & _ & _ & ->)|(Hf & -> & s1 & s2 & E1 & E2 & ->)].
  { rewrite (bool_decide_false (st_api s = None)) by congruence. unfold readSessionStatus. rewrite Ha. simpl. lia. }
  rewrite (bool_decide_false (st_api s = None)) in Hf, E1, E2 by congruence. rewrite andb_false_r in Hf.
  unfold fenced, readSessionStatus in Hf. rewrite Ha in Hf. simpl in Hf.
  apply andb_true_iff in Hf as [_ Hcomp%Z.eqb_eq].
  apply publish_rows_ok in E1 as (s3 & -> & _ & _ & _ & Ea & _).
  apply publish_inferred_cases in E2 as (l & -> & _). simpl. rewrite Ea, Ha. simpl. lia.
Qed.

Lemma wstep_goes_on w w' : wstep w w' -> world_ok w -> goes_on w w'.
Proof.
  intros [J s ps j e Hj He|J s ps fails jid at_ contract kind raw capture bindings execution token actor clock s' out err f Hin Ht
         |J s ps fails s' err Hd|J s ps fails harness bindings claim clock s_read reread s' out err Hc
         |J s ps fails tasks harness session req id closed_at bound_at s' r Hb|J s ps fails harness session expected at_ s' r Hu
         |J s ps forceFull Hv|J s ps1 p ps2 rows used Hr|J s ps1 p ps2 epochs api now
         |J s ps1 p ps2 fails rows watermark planned s' out Hs Hp Hpub|J s ps1 p ps2] Hw;
    try apply goes_on_same.
  - split_and!; [done|simpl; lia|by eexists].
  - eapply goes_on_store; [exact Hw| |by eapply tail_agrees]. by eapply tail_ok; [|apply Hw].
  - unfold MarkSessionStateDirty in Hd. destruct (fails MarkDirty); injection Hd as <- _; [apply goes_on_same|].
    eapply goes_on_store; [exact Hw|done|]. by apply (api_agrees_map dirty_api).
  - apply RecordLifecycleSessionClaim_cases in Hc as [->|(k & c & Hk & ->)]; [apply goes_on_same|].
    eapply goes_on_store; [exact Hw|by apply insert_subseteq|by apply api_agrees_refl].
  - destruct (Bind_tables _ _ _ _ _ _ _ _ _ _ _ (wo_store _ Hw) Hb) as (T1 & T2 & T3 & T4 & T5).
    eapply goes_on_store; [exact Hw|by rewrite T2|]. destruct T5; [by apply api_agrees_refl|by apply api_agrees_bump].
  - destruct (Unbind_tables _ _ _ _ _ _ _ _ (wo_store _ Hw) Hu) as (T1 & T2 & T3 & T4 & T5).
    eapply goes_on_store; [exact Hw|by rewrite T2|by apply api_agrees_bump].
  - destruct (publish_goes_on J s (ps1 ++ ps2) p fails rows watermark planned s' out) as (H1 & H2 & _); [done|done|done| |].
    + eapply world_ok_publishers; [|exact Hw]. intros q. rewrite !elem_of_cons, !elem_of_app, elem_of_cons. tauto.
    + split_and!; [done|done|exists []; simpl; by rewrite app_nil_r].
Qed.

Lemma wsteps_completed w w' : rtc wstep w w' -> world_ok w -> completed_of (w_store w) <= completed_of (w_store w').
Proof.
  induction 1 as [|x z y Hs Hr IHr]; intros Hx; [lia|].
  destruct (wstep_goes_on x z Hs Hx) as (_ & Hle & _). specialize (IHr (wstep_ok x z Hs Hx)). lia.
Qed.

(** Nothing goes back.  However a reachable world goes on, every claim keeps
    its actor, the certified coordinate never decreases and the journal keeps its
    rows. *)
Theorem sessions_never_go_back w w' :
  reachable w -> rtc wstep w w' ->
  (forall key actor, stored_actor (w_store w) key = Some actor -> stored_actor (w_store w') key = Some actor)
  /\ completed_of (w_store w) <= completed_of (w_store w')
  /\ exists K, w_journal w' = w_journal w ++ K.
Proof.
  intros Hw%reachable_world_ok Hr. assert (goes_on w w') as (Hc & Hle & HK).
  { clear -Hw Hr. induction Hr as [w|w w1 w2 Hs Hr IH]; [split_and!; [done|lia|exists []; by rewrite app_nil_r]|].
    destruct (wstep_goes_on w w1 Hs Hw) as (A1 & A2 & K1 & A3).
    destruct IH as (B1 & B2 & K2 & B3); [by eapply wstep_ok|].
    split_and!; [by etrans|lia|exists (K1 ++ K2)]. by rewrite B3, A3, <- app_assoc. }
  split_and!; [|done|done]. unfold stored_actor. intros key actor (c & Hk & ->)%fmap_Some.
  by rewrite (lookup_weaken _ _ _ _ Hk Hc).
Qed.

(** ** The refresh as a process *)
Definition run (w w' : list (Z * JournalEntry) * Store) : Prop :=
  forall ps, rtc wstep (mk_World w.1 w.2 ps) (mk_World w'.1 w'.2 ps).

(** What happens between the reads of an attempt are steps of other processes. *)
Definition honest (a : Attempt) : Prop := forall w,
  (forall n, extends (at_pages a 0%nat w.1) (at_pages a n w.1))
  /\ (exists s0, run w (at_pages a 0%nat w.1, s0) /\ run (at_pages a 0%nat w.1, s0) (at_scanned a w))
  /\ run w (at_planned a w) /\ run w (at_published a w).

Section refines.
Context (epochs : gset string) (api : bool) (attempt : nat -> Attempt) (forceFull : bool).
Context (Hreader : reader_ok) (Hhonest : forall n, honest (attempt n)).
Local Abbreviation alone w ps := (mk_World (fst w) (snd w) ps).

(** From the status read to the scanned rows. *)
Lemma refresh_scanned n w rows watermark found :
  let start := readSessionStatus w.2 in
  let full := needs_full forceFull start in
  ss_CacheVersion start <= SessionCacheVersion ->
  scanSessionReplay payloads (S (length (at_pages (attempt n) 0%nat w.1))) (fun k => at_pages (attempt n) k w.1)
    (if full then 0 else ss_CompletedThroughJournalID start) = Some (Ok (rows, watermark, found)) ->
  rtc wstep (alone w []) (alone (at_scanned (attempt n) w) [mk_Publisher start full (Some (rows, watermark)) None]).
Proof.
  intros start full Hv Hscan. destruct (Hhonest n w) as (Hex & (s0 & R1 & R2) & _).
  apply (scan_sound payloads (fun k => at_pages (attempt n) k w.1)) in Hscan as (-> & used & Hr & _); [|done..].
  eapply rtc_l; [exact (w_begin w.1 w.2 [] forceFull Hv)|]. etrans; [apply R1|].
  eapply rtc_l; [|exact (R2 _)].
  exact (w_scan _ _ [] (mk_Publisher start full None None) [] rows used Hr).
Qed.

Lemma refresh_loop_runs left n w last w' r :
  world_ok (alone w []) -> (forall o, last = Some o -> ro_CompletedThroughJournalID o <= completed_of w.2) ->
  refresh_loop payloads epochs api attempt forceFull left n w last = (w', r) ->
  rtc wstep (alone w []) (alone w' [])
  /\ (forall out, r = Ok (out, true) -> ro_CompletedThroughJournalID out <= completed_of w'.2).
Proof.
  revert n w last. induction left as [|left IH]; intros n w last Hw Hlast; simpl.
  { intros [= <- <-]. split; [done|]. destruct last; intros out [= <-]; auto. }
  destruct (at_expired _); [by intros [= <- <-]|]. destruct (at_fails _ _); [by intros [= <- <-]|].
  destruct (Z.ltb_spec SessionCacheVersion (ss_CacheVersion (readSessionStatus w.2))) as [|Hv]; [by intros [= <- <-]|].
  destruct (scanSessionReplay _ _ _ _) as [[[[rows wm] found]|]|] eqn:Es; [|by intros [= <- <-]..].
  pose proof (refresh_scanned n w rows wm found Hv Es) as R1. cbn zeta in R1.
  set (w1 := at_scanned (attempt n) w) in *. set (start := readSessionStatus w.2) in *.
  set (full := needs_full forceFull start) in *. set (p1 := mk_Publisher start full (Some (rows, wm)) None) in *.
  assert (Hdrop : forall v p, rtc wstep (alone v [p]) (alone v [])) by (intros v p; apply rtc_once, (w_drop _ _ [] p [])).
  assert (Hup : forall v ps, rtc wstep (alone w []) (alone v ps) ->
            world_ok (alone v ps) /\ completed_of w.2 <= completed_of v.2).
  { intros v ps Hr. split; [by eapply wsteps_ok|]. exact (wsteps_completed _ _ Hr Hw). }
  destruct (negb full && negb found).
  { intros [= <- <-]. assert (R : rtc wstep (alone w []) (alone w1 [])) by (etrans; [exact R1|apply Hdrop]).
    split; [done|]. destruct (Hup _ _ R) as [_ Hle]. destruct last; intros out [= <-].
    specialize (Hlast _ eq_refl). lia. }
  set (planned := planSessionInference w1.2 epochs api (at_now (attempt n))).
  set (w2 := at_planned (attempt n) w1). set (p2 := mk_Publisher start full (Some (rows, wm)) (Some planned)).
  assert (R2 : rtc wstep (alone w []) (alone w2 [p2])).
  { etrans; [exact R1|]. eapply rtc_l; [exact (w_plan w1.1 w1.2 [] p1 [] epochs api (at_now (attempt n)))|].
    apply (Hhonest n w1). }
  assert (R2' : rtc wstep (alone w []) (alone w2 [])) by (etrans; [exact R2|apply Hdrop]).
  destruct (Hup _ _ R2) as [Hw2 Hle2]. destruct (Hup _ _ R2') as [Hw2' _].
  destruct (publishSessionReplay _ _ _ _ _ _ _) as [[s' out]|[| |st]] eqn:Ep.
  - pose proof (w_publish w2.1 w2.2 [] p2 [] _ _ _ _ _ _ eq_refl eq_refl Ep) as Hs.
    destruct (publish_goes_on w2.1 w2.2 [] p2 _ _ _ _ _ _ eq_refl eq_refl Ep Hw2) as (_ & Hc2 & Hout).
    set (w3 := at_published (attempt n) (w2.1, s')).
    assert (R3 : rtc wstep (mk_World w2.1 s' []) (alone w3 [])) by apply (Hhonest n (w2.1, s')).
    assert (R : rtc wstep (alone w []) (alone w3 [])) by (etrans; [exact R2|]; eapply rtc_l; [exact Hs|exact R3]).
    assert (Hout3 : ro_CompletedThroughJournalID out <= completed_of w3.2).
    { pose proof (wsteps_completed _ _ R3 (wstep_ok _ _ Hs Hw2)) as Hle. simpl in Hle. lia. }
    destruct (_ || at_late _).
    + intros [= <- <-]. split; [exact R|]. by intros out' [= <-].
    + intros Hl. destruct (Hup _ _ R) as [Hw3 _]. apply IH in Hl as [R4 Hr4]; [|done|by intros o [= <-]].
      split; [by etrans|done].
  - intros Hl. apply IH in Hl as [R4 Hr4]; [split; [by etrans|done]|done|].
    intros o Ho. specialize (Hlast o Ho). lia.
  - intros [= <- <-]. by split.
  - intros [= <- <-]. by split.
Qed.
End refines.

(** C19: A refresh is a run of publishers.  Whatever other processes do between its
    reads, and however its statements fail, what a refresh does to the store it
    began on is a run of the steps of the world: status reads, scans, plans and
    publications of its own, and whole steps of the others.  So it takes nothing
    away that no step takes away, whichever branch it returns from; and when it
    reports a publication, the store is certified at least that far. *)
Theorem refresh_refines epochs api attempt forceFull J s J' s' r :
  reader_ok -> (forall n, honest (attempt n)) -> reachable (mk_World J s []) ->
  refreshSessionState payloads epochs api attempt forceFull (J, s) = (J', s', r) ->
  rtc wstep (mk_World J s []) (mk_World J' s' [])
  /\ (forall out, r = Ok (out, true) -> ro_CompletedThroughJournalID out <= completed_of s').
Proof.
  intros Hreader Hh Hw Hr.
  by destruct (refresh_loop_runs epochs api attempt forceFull Hreader Hh sessionReplayMaxAttempts 0 (J, s) None (J', s') r);
    [apply reachable_world_ok| |exact Hr|].
Qed.

(** *** A refresh nobody disturbs *)
Lemma publish_rows_quiet fails s rows full m :
  (forall st, fails st = false) ->
  insert_executions (base_executions s full) (all_executions (addCurrentSessionBindingsAndClaims s rows)) = Some m ->
  exists s1, publish_rows fails s rows full = Ok s1.
Proof.
  intros Hf Hm. unfold publish_rows, pub, base_executions in *. destruct full; simpl in *;
    repeat (rewrite Hf; simpl); rewrite Hm; simpl; repeat (rewrite Hf; simpl); rewrite andb_false_r; by eexists.
Qed.
Lemma publish_inferred_quiet fails s0 s planned :
  (forall st, fails st = false) -> exists s2, publish_inferred fails s0 s planned = Ok s2.
Proof.
  intros Hf. unfold publish_inferred, pub. destruct planned as [rows|]; [|by eexists]. rewrite Hf. simpl.
  destruct (replaceSessionInferredBindings _ _ _ _); simpl; repeat (rewrite Hf; simpl); by eexists.
Qed.
Lemma publish_quiet fails s a watermark rows full planned m :
  (forall st, fails st = false) -> st_api s = Some a ->
  insert_executions (base_executions s full) (all_executions (addCurrentSessionBindingsAndClaims s rows)) = Some m ->
  exists s' out, publishSessionReplay fails (readSessionStatus s) watermark rows full planned s = Ok (s', out)
                 /\ ro_CompletedThroughJournalID out = watermark.
Proof.
  intros Hf Ha Hm. unfold publishSessionReplay, pub. repeat (rewrite Hf; simpl).
  rewrite (bool_decide_false (st_api s = None)) by congruence. rewrite andb_false_r.
  assert (fenced (readSessionStatus s) (readSessionStatus s) = true) as -> by (unfold fenced; by rewrite !Z.eqb_refl).
  simpl. destruct (publish_rows_quiet fails s rows full m Hf Hm) as [s1 ->]. cbn [mbind result_bind].
  destruct (publish_inferred_quiet fails s s1 planned Hf) as [s2 ->]. cbn [mbind result_bind].
  repeat (rewrite Hf; cbn [mbind result_bind]). eauto.
Qed.

(** It leaves the certified cache. *)
Lemma quiet_publication J s p fails rows watermark planned used :
  (forall st, fails st = false) -> world_ok (mk_World J s [p]) ->
  pb_start p = readSessionStatus s -> pb_scan p = Some (rows, watermark) -> pb_plan p = Some planned ->
  (pb_full p = true \/ pb_full p = false /\ cache_ok J s (after_of p)) ->
  replay_range payloads J (after_of p) watermark = Ok (rows, used) ->
  exists s' out, publishSessionReplay fails (pb_start p) watermark rows (pb_full p) planned s = Ok (s', out)
  /\ ro_CompletedThroughJournalID out = watermark /\ world_ok (mk_World J s' []) /\ cache_ok J s' watermark.
Proof.
  intros Hf Hw Hst Hscan Hplan Hbase Hr. pose proof (wo_journal _ Hw) as HJ. simpl in HJ.
  destruct (wo_api _ Hw) as (a & Ha & Hb & Hc). simpl in Ha.
  destruct (base_rows_ok J s (after_of p) (pb_full p)) as (B1 & B2 & B3); [|done|].
  { destruct Hbase as [E|E]; [left; split; [done|by unfold after_of; rewrite E]|by right]. }
  destruct (scanned_executions_insert J s _ _ _ rows used HJ B2 Hr) as (m & Hm & _).
  destruct (publish_quiet fails s a watermark rows (pb_full p) planned m Hf Ha Hm) as (s' & out & Epub & Hout).
  rewrite <- Hst in Epub. exists s', out. split_and!; [done|done|by eapply publish_world_ok|].
  pose proof (publish_world_ok J s [] p _ _ _ _ _ _ Hscan Hplan Epub Hw) as Hw'.
  destruct (wo_api _ Hw') as (a' & Ha' & _ & Hc'). simpl in Ha', Hc'.
  apply publish_cases in Epub as [(-> & Hfe & _)|(_ & _ & s1 & s2 & E1 & E2 & ->)].
  { exfalso. revert Hfe. rewrite (bool_decide_false (st_api s = None)) by congruence. rewrite andb_false_r, Hst.
    unfold fenced. by rewrite !Z.eqb_refl. }
  rewrite (bool_decide_false (st_api s = None)) in E1 by congruence.
  apply publish_rows_ok in E1 as (s3 & -> & _ & _ & _ & Ea & _).
  apply publish_inferred_cases in E2 as (l & -> & _). simpl in Ha'. rewrite Ea, Ha in Ha'. injection Ha' as <-.
  by apply Hc'.
Qed.

Lemma nothing_new J after f :
  occurrences J after (max_jid J) = [] -> in_journal J f -> of_JournalID f <= after.
Proof.
  intros Hnone [token Hf]. destruct (Z.le_gt_cases (of_JournalID f) after); [done|]. exfalso.
  assert (Hin : (of_JournalID f, Occurrence f token) ∈ occurrences J after (max_jid J)).
  { unfold occurrences. apply list_elem_of_In, List.filter_In. split; [by apply list_elem_of_In|]. simpl.
    apply andb_true_iff. split; [apply Z.ltb_lt; simpl; lia|]. apply Z.leb_le. apply (max_jid_ge _ _ Hf). }
  rewrite Hnone in Hin. by apply elem_of_nil in Hin.
Qed.

Lemma nothing_new_shows J s after key :
  journal_ok J -> cache_ok J s after -> occurrences J after (max_jid J) = [] ->
  shows (all_evidence s key) (replayed_through J (max_jid J) key).
Proof.
  intros HJ Hcache Hnone. assert (Hcov : forall f, in_journal J f -> of_JournalID f <= after)
    by (intros f; by apply nothing_new).
  eapply shows_ext; [|exact (cache_covered J s after Hcache Hcov key)].
  intros o. split; intros (f & t & Hf & Hle & Hrest); exists f, t; (split_and!; [done| |apply Hrest..]); [|by apply Hcov].
  by apply in_journal_positive.
Qed.

Definition undisturbed (a : Attempt) : Prop :=
  (forall st, at_fails a st = false) /\ at_expired a = false /\ (forall n J, at_pages a n J = J)
  /\ (forall w, at_scanned a w = w) /\ (forall w, at_planned a w = w) /\ (forall w, at_published a w = w).

(** C18: A refresh nobody disturbs certifies the cache.  In a reachable world, when
    the journal's page queries answer and the facts the refresh has to read are
    sound, one call returns without error, and then the evidence columns of every
    row show exactly what the replay of the whole journal reads, and the execution
    table holds exactly the executions of its occurrences.  The columns first_seen,
    last_seen and updated_at are not claimed. *)
Theorem refresh_certifies epochs api attempt forceFull J s :
  reader_ok -> reader_total -> undisturbed (attempt 0%nat) -> reachable (mk_World J s []) ->
  let start := readSessionStatus s in
  ss_CacheVersion start <= SessionCacheVersion ->
  is_ok (replay_range payloads J (if needs_full forceFull start then 0 else ss_CompletedThroughJournalID start)
           (max_jid J)) = true ->
  exists s' out, refreshSessionState payloads epochs api attempt forceFull (J, s) = (J, s', Ok out)
  /\ world_ok (mk_World J s' [])
  /\ (forall key, shows (all_evidence s' key) (replayed_through J (max_jid J) key))
  /\ (forall j, st_executions s' !! j = journal_execution J j).
Proof.
  intros Hreader Htotal (Hf & Hx & Hpg & Hs & Hp & Hpub) Hw%reachable_world_ok start Hv Hok.
  destruct (wo_api _ Hw) as (a & Ha & Hb & Hc). simpl in Ha, Hb, Hc. set (full := needs_full forceFull start) in *.
  set (after := if full then 0 else ss_CompletedThroughJournalID start) in *.
  destruct (replay_range payloads J after (max_jid J)) as [[rows used]|] eqn:Er; [|done].
  assert (Hstart : ss_CompletedThroughJournalID start = as_completed_through_jid a) by (by apply status_bounds).
  assert (Hafter : after <= max_jid J) by (subst after; destruct full; [apply max_jid_nonneg|lia]).
  assert (Hbase : full = true \/ full = false /\ cache_ok J s after).
  { subst after. destruct full eqn:Efull; [by left|right]. split; [done|]. rewrite Hstart. apply Hc.
    apply needs_full_false in Efull. unfold start, readSessionStatus in Efull. by rewrite Ha in Efull. }
  assert (Hgrow : forall n, extends (at_pages (attempt 0%nat) 0%nat J) (at_pages (attempt 0%nat) n J))
    by (intros n; rewrite !Hpg; apply extends_refl).
  destruct (scan_complete payloads (fun k => at_pages (attempt 0%nat) k J) after Hreader Hgrow rows used)
    as [found Hscan]; rewrite ?Hpg; try done.
  assert (Hsound := Hscan). apply (scan_sound payloads (fun k => at_pages (attempt 0%nat) k J) after Hreader Hgrow) in Hsound
    as (_ & used' & _ & Hfound). rewrite !Hpg in Hscan, Hfound.
  unfold refreshSessionState. change sessionReplayMaxAttempts with (S 7). generalize 7%nat. intros left.
  cbn [refresh_loop fst snd]. rewrite Hx, Hf, Hpg.
  fold start. destruct (Z.ltb_spec SessionCacheVersion (ss_CacheVersion start)); [lia|]. fold full. fold after.
  rewrite Hscan, Hs. destruct (negb full && negb found) eqn:Eq.
  - apply andb_true_iff in Eq as [Ef%negb_true_iff Efo%negb_true_iff]. destruct Hbase as [?|[_ Hcache]]; [congruence|].
    apply Hfound in Efo. do 2 eexists. split_and!; [done|done| |].
    + intros key. eapply nothing_new_shows; [apply Hw|exact Hcache|done].
    + apply (cache_executions J s after); [apply Hw|done|]. intros f. by apply nothing_new.
  - cbn [fst snd]. rewrite Hp. cbn [fst snd]. set (plan := planSessionInference s epochs api (at_now (attempt 0%nat))).
    destruct (quiet_publication J s (mk_Publisher start full (Some (rows, max_jid J)) (Some plan))
                (at_fails (attempt 0%nat)) rows (max_jid J) plan used) as (s' & out & Epub & Hout & Hw' & Hcache); try done.
    { destruct Hw as [W1 W2 W3 W4]. split; [done|done|done|]. simpl. intros q ->%list_elem_of_singleton.
      split_and!; simpl; [apply needs_full_false|lia|lia| |intros pl [= <-]; apply plan_claims].
      intros rows' wm [= <- <-]. split; [lia|]. by exists used. }
    cbn [pb_start pb_full] in Epub. rewrite Epub, Hpub. cbn [fst snd]. rewrite Hout, Z.leb_refl. cbn [orb].
    assert (Hcov : forall f, in_journal J f -> of_JournalID f <= max_jid J)
      by (intros f Hf'; by apply in_journal_positive; [apply Hw|]).
    exists s', (out, true). split_and!; [done|done| |].
    + intros key. by apply (cache_covered J s' _ Hcache).
    + by apply (cache_executions J s' _ (wo_journal _ Hw') Hcache).
Qed.
End world.

(** ** Witnesses *)
Section witnesses.
#[local] Existing Instances toy_codec toy_reader toy_encoder toy_owners.
Local Abbreviation step := (wstep no_payloads).
Local Abbreviation reached := (reachable no_payloads).

Definition journal1 : list (Z * JournalEntry) := [(1, Occurrence prompt_fact "")].
Definition begun : Publisher :=
  mk_Publisher (readSessionStatus prompted) (needs_full false (readSessionStatus prompted)) None None.
Definition planned2 : option (list sessionInferredBinding) := planSessionInference prompted {["E1"]} true 99.
Definition ready : Publisher :=
  mk_Publisher (pb_start begun) (pb_full begun) (Some (scanned2, max_jid journal2)) (Some planned2).
Definition settled : Store * SessionStateRebuildOutcome :=
  from_ok (prompted, mk_RebuildOutcome 0 0 0)
    (publishSessionReplay no_fault (readSessionStatus prompted) 2 scanned2 false planned2 prompted).

Lemma reached_start : reached (mk_World [] fresh_store []).
Proof.
  exists [], fresh_store. split_and!; [|split; [exact fresh_ok|]|done].
  - split; [constructor|by intros r ?%elem_of_nil|by intros j f t ?%elem_of_nil].
  - eexists. split_and!; [reflexivity|done|done|done].
Qed.

Lemma reached_on w w' : reached w -> rtc step w w' -> reached w'.
Proof. intros (J & s & HJ & Ho & Hr) Hs. exists J, s. split_and!; [done|done|by etrans]. Qed.

Lemma run_prompted : rtc step (mk_World [] fresh_store []) (mk_World journal2 prompted []).
Proof.
  eapply rtc_l; [apply (w_append no_payloads [] fresh_store [] 1 (Occurrence prompt_fact "")); [done|by intros f t [= <- _]]|].
  eapply rtc_l.
  { eapply (w_tail no_payloads journal1 fresh_store [] no_fault 1 50 claude_contract 4 (toy_payload "UserPromptSubmit")
      CaptureValid session_s1 None "" "alice" (Some 45) prompted
      (mk_TailOutcome (mk_ClaimOutcome SessionClaimWrote "alice") true false) None); [by left|]. by_vm. }
  apply rtc_once. apply (w_append no_payloads journal1 prompted [] 2 (Occurrence end_fact "")); [done|by intros f t [= <- _]].
Qed.

Lemma run_settled : rtc step (mk_World journal2 prompted []) (mk_World journal2 settled.1 []).
Proof.
  eapply rtc_l; [apply (w_begin no_payloads journal2 prompted [] false); vm_compute; discriminate|].
  eapply rtc_l; [refine (w_scan no_payloads journal2 prompted [] begun [] scanned2 0 _); by_vm|].
  eapply rtc_l; [apply (w_plan no_payloads journal2 prompted [] _ [] {["E1"]} true 99)|].
  apply rtc_once. refine (w_publish no_payloads journal2 prompted [] ready [] no_fault scanned2 2 planned2 settled.1 settled.2 eq_refl eq_refl _).
  rewrite <- surjective_pairing. apply from_ok_eq. by_vm.
Qed.

Lemma reached_prompted : reached (mk_World journal2 prompted []).
Proof. exact (reached_on _ _ reached_start run_prompted). Qed.
Lemma reached_settled : reached (mk_World journal2 settled.1 []).
Proof. exact (reached_on _ _ reached_prompted run_settled). Qed.

Definition settled_api : ApiState := mk_Api 2 false 2 SessionCacheVersion.

Lemma cache_invariant_witness : exists S, shows (all_evidence prompted s1_key) S
  /\ (forall o, S o -> may_read no_payloads journal2 s1_key o).
Proof.
  destruct (cache_invariant no_payloads (mk_World journal2 prompted []) (mk_Api 1 false 0 SessionCacheVersion)
    reached_prompted eq_refl eq_refl) as (_ & Hrows & _).
  destruct (Hrows s1_key) as (S & H1 & H2 & _). exists S. split; [exact H1|exact H2].
Defined.

Lemma certified_is_replay_witness :
  all_evidence settled.1 s1_key = rows_evidence scanned2 s1_key
  /\ all_evidence settled.1 s1_key = mk_Evidence (2, "SessionEnd") (1, 50) (2, 60) (0, 0).
Proof.
  split; [|by_vm].
  refine (proj1 (certified_is_replay no_payloads (mk_World journal2 settled.1 []) settled_api scanned2 0 s1_key
    reached_settled _ _ _ _)); [by_vm|by_vm| |by_vm].
  intros f [token Hin]. simpl. apply elem_of_cons in Hin as [[= -> _ _]|Hin]; [discriminate|].
  apply list_elem_of_singleton in Hin. injection Hin as -> _ _. discriminate.
Defined.

Lemma explicit_rules_witness :
  Forall (fun r => exists c, st_claim settled.1 !! ib_key r = Some c /\ cl_claimed_at c = ib_BoundAt r) (st_inferred settled.1)
  /\ NoDup (ib_key <$> st_inferred settled.1).
Proof.
  destruct (explicit_rules no_payloads _ reached_settled) as (_ & _ & Hc & Hd).
  split; [apply Forall_forall; exact Hc|exact Hd].
Defined.

Lemma sessions_never_go_back_witness :
  stored_actor settled.1 s1_key = Some "alice" /\ completed_of prompted <= completed_of settled.1.
Proof.
  destruct (sessions_never_go_back no_payloads _ _ reached_prompted run_settled) as (Hc & Hle & _).
  split; [apply Hc; by_vm|exact Hle].
Defined.

Definition quiet_attempt : Attempt := mk_Attempt no_fault 99 false false (fun _ J => J) id id id.

Lemma quiet_honest : honest no_payloads quiet_attempt.
Proof.
  intros [J s]. split_and!; [intros n; apply extends_refl| |by intros ps|by intros ps]. exists s. by split; intros ps.
Qed.

Definition refreshed : (list (Z * JournalEntry) * Store) * result RefreshError (SessionStateRebuildOutcome * bool) :=
  refreshSessionState no_payloads {["E1"]} true (fun _ => quiet_attempt) false (journal2, prompted).

Lemma refresh_refines_witness :
  rtc step (mk_World journal2 prompted []) (mk_World journal2 refreshed.1.2 []).
Proof.
  refine (proj1 (refresh_refines no_payloads {["E1"]} true (fun _ => quiet_attempt) false journal2 prompted journal2
    refreshed.1.2 refreshed.2 toy_reader_ok (fun _ => quiet_honest) reached_prompted _)).
  assert (Hj : refreshed.1.1 = journal2) by by_vm.
  transitivity refreshed; [reflexivity|]. rewrite <- Hj. by rewrite <- !surjective_pairing.
Defined.

Lemma refresh_certifies_witness : exists s' out,
  refreshSessionState no_payloads {["E1"]} true (fun _ => quiet_attempt) false (journal2, prompted) = (journal2, s', Ok out)
  /\ forall key, shows (all_evidence s' key) (replayed_through no_payloads journal2 2 key).
Proof.
  destruct (refresh_certifies no_payloads {["E1"]} true (fun _ => quiet_attempt) false journal2 prompted
    toy_reader_ok toy_reader_total) as (s' & out & Hr & _ & Hs & _).
  - split_and!; done.
  - exact reached_prompted.
  - vm_compute. discriminate.
  - by_vm.
  - exists s', out. split; [exact Hr|exact Hs].
Defined.
End witnesses.
