(* ===== verification/AuditWriter.v ===== *)
(** AuditWriter: the retrying atomic writer of the audit trail
    (internal/audit/write_retry.go).

    A write is one transaction, attempted until it commits, fails for another
    reason than contention, or its budget is spent.  The writer must not write
    twice: it may only try again when the failed attempt is known not to have
    committed, and what it reports about the database must be true.  The
    database, the pool and the clock answer as the environment pleases. *)

From Stdlib Require Import ZArith Lia.
From stdpp Require Import base tactics list.
From S2P Require Import Prelude.
Local Open Scope list_scope.
Local Open Scope Z_scope.

(** ** Errors

    A Go error is a tree of wrapped and joined causes; [errors.As] and
    [errors.Is] search it in order, so the leaves in that order are enough. *)
Inductive Cause := Coded (code : Z) | ContextDone | TxDone | OtherCause.
#[export] Instance Cause_eq_dec : EqDecision Cause.
Proof. solve_decision. Defined.
Definition Error : Type := list Cause.

Fixpoint first_code (e : Error) : option Z :=
  match e with
  | [] => None
  | Coded c :: _ => Some c
  | _ :: rest => first_code rest
  end.
(** SQLITE_BUSY and SQLITE_LOCKED, with their extended codes. *)
Definition isAuditWriteContention (e : Error) : bool :=
  match first_code e with
  | None => false
  | Some code => let primary := Z.land code 255 in (primary =? 5) || (primary =? 6)
  end.

(** ** Policy *)
Definition ms : Z := 1000000.
Record auditWriterPolicy := mk_Policy { ap_ceiling : Z; ap_initialDelay : Z; ap_maxDelay : Z }.
Definition defaultAuditWriterPolicy : auditWriterPolicy := mk_Policy (30000 * ms) (25 * ms) (1000 * ms).
Definition backoff (p : auditWriterPolicy) (delay : Z) : Z := Z.min (wrap64 (delay * 2)) (ap_maxDelay p).

(** What the report says about the database. *)
Inductive Impact :=
  | Unchanged   (** no transaction committed in this call *)
  | Discarded   (** never reached commit; the connection was discarded *)
  | Committed   (** the complete write committed *)
  | Uncertain   (** the outcome could not be confirmed *).
Record auditAttemptResult := mk_Result { ar_err : option Error; ar_retry : bool; ar_impact : Impact }.

(** ** The environment of one attempt *)
Inductive RestoreResult := Restored | RestoreDeadline | RestoreFailed (e : Error).
Inductive CloseResult := Closed | CloseConnDone | CloseFailed (e : Error).

Section writer.
Context {S : Type}.

(** [aw_others] is what other writers commit before this transaction holds the
    write lock; [aw_durable] whether a commit that reported an error reached the
    disk all the same. The instants are those at which the context is asked. *)
Record Attempt := mk_Attempt {
  aw_others : S -> S;
  aw_conn : option Error;
  aw_window_at : Z;
  aw_pragma : Z -> option Error;
  aw_begin_at : Z;
  aw_begin : option Error;
  aw_op : S -> result Error S;
  aw_op_at : Z;
  aw_commit : option Error;
  aw_durable : bool;
  aw_rollback_at : Z;
  aw_rollback : option Error;
  aw_restore : Z -> Z -> RestoreResult;
  aw_cleanup_expired : bool;
  aw_retire : bool;
  aw_retire_again : bool;
  aw_close : CloseResult;
  aw_warn : option Error;
  aw_end : Z;
  aw_wake : Z -> option Z;
}.

(** The budget: the earlier of the caller's deadline and the ceiling, and the
    caller's cancellation. *)
Context (deadline : Z) (cancelled : Z -> bool) (tier : Z).
Definition done (t : Z) : bool := (deadline <=? t) || cancelled t.

(** The busy timeout of the attempt and the reserve for its cleanup. *)
Definition busy_window (a : Attempt) : Z := Z.min tier (Z.max (deadline - aw_window_at a) 0).
Definition cleanup_budget (a : Attempt) : Z := Z.min (100 * ms) (Z.quot (busy_window a) 5).
Definition busy_cap (a : Attempt) : Z := busy_window a - cleanup_budget a.

(** *** The transaction, up to its commit *)
Inductive Stage := StageBusyTimeout | StageBegin | StageExecute | StageCommit.
#[export] Instance Stage_eq_dec : EqDecision Stage.
Proof. solve_decision. Defined.
Record Body := mk_Body { bd_err : option Error; bd_tx : bool; bd_stage : Stage; bd_store : S }.
Definition committed (b : Body) : bool :=
  bool_decide (bd_stage b = StageCommit) && bool_decide (bd_err b = None).
Definition uncertain (b : Body) : bool :=
  bool_decide (bd_stage b = StageCommit) && negb (bool_decide (bd_err b = None)).

Definition transact (a : Attempt) (s : S) : Body :=
  match aw_pragma a (Z.quot (busy_cap a) ms) with
  | Some e => mk_Body (Some e) false StageBusyTimeout s
  | None =>
      if done (aw_begin_at a) then mk_Body (Some [ContextDone]) false StageBegin s
      else match aw_begin a with
      | Some e => mk_Body (Some e) false StageBegin s
      | None =>
          match aw_op a s with
          | Err e => mk_Body (Some e) true StageExecute s
          | Ok s' =>
              if done (aw_op_at a) then mk_Body (Some [ContextDone]) true StageExecute s
              else match aw_commit a with
              | None => mk_Body None true StageCommit s'
              | Some e => mk_Body (Some e) true StageCommit (if aw_durable a then s' else s)
              end
          end
      end
  end.

(** *** The rollback: whether the connection is discarded, and the error *)
Definition roll_back (a : Attempt) (b : Body) : bool * option Error :=
  if bd_tx b && negb (committed b) then
    match aw_rollback a with
    | None => (false, bd_err b)
    | Some e =>
        if negb (bool_decide (bd_stage b = StageCommit)) && done (aw_rollback_at a) && bool_decide (TxDone ∈ e)
        then (false, bd_err b)
        else (true, Some (default [] (bd_err b) ++ e))
    end
  else (false, bd_err b).

(** *** The release of the connection *)
Inductive Fate := PooledRestored | PooledReduced | RetiredFromPool.
Record Cleanup := mk_Cleanup {
  cu_err : option Error;
  cu_deadline : bool;
  cu_retired : bool;
  cu_close_ok : bool;
  cu_fate : Fate;
}.
Definition join (a b : option Error) : option Error :=
  match a, b with
  | None, _ => b
  | _, None => a
  | Some x, Some y => Some (x ++ y)
  end.
Definition release (a : Attempt) (b : Body) (discard : bool) : Cleanup :=
  let restored :=
    if uncertain b || discard then Restored else aw_restore a (cleanup_budget a) (Z.quot tier ms) in
  let restore_err := match restored with
    | Restored => None | RestoreDeadline => Some [ContextDone] | RestoreFailed e => Some e end in
  let must_retire := uncertain b || discard || negb (bool_decide (restore_err = None)) in
  let retire_err := if must_retire && negb (aw_retire a)
    then Some (OtherCause :: if aw_retire_again a then [] else [OtherCause]) else None in
  let close_err := match aw_close a with CloseFailed e => Some e | _ => None end in
  {| cu_err := join (join restore_err retire_err) close_err;
     cu_deadline := match restored with RestoreDeadline => aw_cleanup_expired a | _ => false end;
     cu_retired := must_retire && aw_retire a;
     cu_close_ok := bool_decide (close_err = None);
     cu_fate := if must_retire
                then if aw_retire a || aw_retire_again a then RetiredFromPool else PooledReduced
                else PooledRestored |}.

(** *** One attempt *)
Definition auditWriteAttempt (a : Attempt) (t : Z) (s : S) : S * auditAttemptResult :=
  if done t then (s, mk_Result (Some [ContextDone]) false Unchanged)
  else
    let s0 := aw_others a s in
    match aw_conn a with
    | Some e => (s0, mk_Result (Some e) (isAuditWriteContention e) Unchanged)
    | None =>
        let b := transact a s0 in
        let '(discard, err) := roll_back a b in
        let c := release a b discard in
        let degraded := committed b && negb discard && cu_deadline c && cu_retired c && cu_close_ok c in
        if degraded && bool_decide (aw_warn a = None) then (bd_store b, mk_Result None false Unchanged)
        else
          let cleanup := if degraded then join (cu_err c) (aw_warn a) else cu_err c in
          let impact := if uncertain b then Uncertain else if committed b then Committed
                        else if discard then Discarded else Unchanged in
          match join err cleanup with
          | None => (bd_store b, mk_Result None false Unchanged)
          | Some e =>
              (bd_store b,
               mk_Result (Some e)
                 (negb (committed b) && negb (uncertain b) && negb discard && bool_decide (cleanup = None)
                  && isAuditWriteContention (default [] err)) impact)
          end
    end.

(** ** The loop *)
Context (attempts : nat -> Attempt) (p : auditWriterPolicy).
Inductive WriteOutcome :=
  | ContextMissing
  | Written (tries : nat)
  | WriteFailed (tries : nat) (impact : Impact) (cause : Error).

(** [None] is exhausted fuel. *)
Fixpoint retryAuditWrite (fuel n : nat) (t delay : Z) (last : option Error) (s : S) : option (S * WriteOutcome) :=
  match fuel with
  | O => None
  | Datatypes.S fuel' =>
      if done t then Some (s, WriteFailed n Unchanged (ContextDone :: default [] last))
      else
        let a := attempts n in
        let '(s', r) := auditWriteAttempt a t s in
        match ar_err r with
        | None => Some (s', Written (Datatypes.S n))
        | Some e =>
            if done (aw_end a) then Some (s', WriteFailed (Datatypes.S n) (ar_impact r) (ContextDone :: e))
            else if negb (ar_retry r) then Some (s', WriteFailed (Datatypes.S n) (ar_impact r) e)
            else
              let wait := Z.min delay (Z.max (deadline - aw_end a) 0) in
              match aw_wake a wait with
              | None => Some (s', WriteFailed (Datatypes.S n) (ar_impact r) (ContextDone :: e))
              | Some t' => retryAuditWrite fuel' (Datatypes.S n) t' (backoff p delay) (Some e) s'
              end
        end
  end.
End writer.
Arguments Attempt : clear implicits.

(** An attempt whose callback leaves a value in the caller's closure. *)
Definition running {S C} (a : Attempt S) (op : S -> result Error (S * C)) : Attempt (S * option C) :=
  {| aw_others x := (aw_others a x.1, x.2); aw_conn := aw_conn a; aw_window_at := aw_window_at a;
     aw_pragma := aw_pragma a; aw_begin_at := aw_begin_at a; aw_begin := aw_begin a;
     aw_op x := match op x.1 with Ok (s', c) => Ok (s', Some c) | Err e => Err e end;
     aw_op_at := aw_op_at a; aw_commit := aw_commit a; aw_durable := aw_durable a;
     aw_rollback_at := aw_rollback_at a; aw_rollback := aw_rollback a; aw_restore := aw_restore a;
     aw_cleanup_expired := aw_cleanup_expired a; aw_retire := aw_retire a; aw_retire_again := aw_retire_again a;
     aw_close := aw_close a; aw_warn := aw_warn a; aw_end := aw_end a; aw_wake := aw_wake a |}.

(** The ceiling of the policy and the caller's own deadline; a zero ceiling is
    the default policy. [caller] is the caller's context: its deadline and its
    cancellation. *)
Definition effective_policy (p : auditWriterPolicy) : auditWriterPolicy :=
  if ap_ceiling p =? 0 then defaultAuditWriterPolicy else p.
Definition write_deadline (p : auditWriterPolicy) (caller : option Z) (t0 : Z) : Z :=
  let own := t0 + ap_ceiling (effective_policy p) in
  match caller with Some d => Z.min d own | None => own end.
Definition withAuditWrite {S} (fuel : nat) (p : auditWriterPolicy) (caller : option (option Z * (Z -> bool)))
    (tier t0 : Z) (attempts : nat -> Attempt S) (s : S) : option (S * WriteOutcome) :=
  match caller with
  | None => Some (s, ContextMissing)
  | Some (d, cancelled) =>
      let p' := effective_policy p in
      retryAuditWrite (write_deadline p d t0) cancelled tier attempts p' fuel 0 t0 (ap_initialDelay p') None s
  end.

(** [fuel] attempts exhaust what remains of a budget even when an attempt itself
    takes no time. *)
Fixpoint exhausts (next : Z -> Z) (fuel : nat) (remaining delay : Z) : bool :=
  match fuel with
  | O => false
  | S fuel' => (remaining <=? 0) || exhausts next fuel' (remaining - Z.min delay (Z.max remaining 0)) (next delay)
  end.
Lemma exhausts_mono next fuel r r' delay : r' <= r -> exhausts next fuel r delay = true -> exhausts next fuel r' delay = true.
Proof.
  revert r r' delay. induction fuel as [|fuel IH]; intros r r' delay Hr; simpl; [done|].
  rewrite !orb_true_iff, !Z.leb_le. intros [H|H]; [left; lia|]. right. revert H. apply IH. lia.
Qed.

(** * One attempt *)
Lemma join_none (a b : option Error) : join a b = None <-> a = None /\ b = None.
Proof. destruct a, b; simpl; naive_solver. Qed.

Section attempt.
Context {S : Type} (deadline : Z) (cancelled : Z -> bool) (tier : Z).

(** The write of this attempt, on what the others left. *)
Definition own_write (a : Attempt S) (s s' : S) : Prop := aw_op a (aw_others a s) = Ok s'.

Lemma transact_store (a : Attempt S) s :
  let b := transact deadline cancelled tier a s in
  if committed b then aw_op a s = Ok (bd_store b)
  else if uncertain b then bd_store b = s \/ aw_op a s = Ok (bd_store b)
  else bd_store b = s.
Proof.
  unfold transact, committed, uncertain. destruct (aw_pragma a _); [done|].
  destruct (done _ _ (aw_begin_at a)); [done|]. destruct (aw_begin a); [done|].
  destruct (aw_op a s) as [s'|e] eqn:Ho; [|done]. destruct (done _ _ (aw_op_at a)); [done|].
  destruct (aw_commit a); simpl; [|done]. destruct (aw_durable a); auto.
Qed.
Lemma transact_err (a : Attempt S) s :
  let b := transact deadline cancelled tier a s in
  committed b = bool_decide (bd_err b = None) /\ (bd_err b = None -> bd_stage b = StageCommit).
Proof.
  unfold transact, committed. destruct (aw_pragma a _); [done|].
  destruct (done _ _ (aw_begin_at a)); [done|]. destruct (aw_begin a); [done|].
  destruct (aw_op a s) as [s'|e] eqn:Ho; [|done]. destruct (done _ _ (aw_op_at a)); [done|].
  by destruct (aw_commit a).
Qed.
Lemma committed_not_uncertain (b : Body (S:=S)) : committed b = true -> uncertain b = false.
Proof. unfold committed, uncertain. by destruct (bool_decide (bd_stage b = _)), (bool_decide (bd_err b = None)). Qed.

Lemma roll_back_err (a : Attempt S) (b : Body (S:=S)) discard err :
  roll_back deadline cancelled a b = (discard, err) ->
  (committed b = true -> discard = false /\ err = bd_err b) /\ (err = None -> bd_err b = None)
  /\ (discard = false -> err = bd_err b).
Proof.
  unfold roll_back. destruct (bd_tx b); simpl; [|by intros [= <- <-]].
  destruct (committed b) eqn:Hc; simpl; [by intros [= <- <-]|].
  destruct (aw_rollback a) as [e|]; [|by intros [= <- <-]].
  destruct (_ && _); by intros [= <- <-].
Qed.

(** What one attempt reports is true of the database and of the pool. *)
Definition truthful (a : Attempt S) (t : Z) (s s' : S) (r : auditAttemptResult) : Prop :=
  match ar_err r with
  | None => own_write a s s'
  | Some _ =>
      (ar_retry r = true -> s' = aw_others a s /\ ar_impact r = Unchanged)
      /\ match ar_impact r with
         | Unchanged => s' = aw_others a s \/ (s' = s /\ done deadline cancelled t = true)
         | Discarded => s' = aw_others a s
         | Committed => own_write a s s'
         | Uncertain => s' = aw_others a s \/ own_write a s s'
         end
  end.

Lemma attempt_truthful a t s s' r :
  auditWriteAttempt deadline cancelled tier a t s = (s', r) -> truthful a t s s' r.
Proof.
  unfold auditWriteAttempt, truthful. destruct (done deadline cancelled t) eqn:Ht.
  { intros [= <- <-]. simpl. split; [done|auto]. }
  destruct (aw_conn a) as [e|]; [intros [= <- <-]; simpl; auto|].
  set (b := transact _ _ _ _ _). destruct (roll_back _ _ a b) as [discard err] eqn:Hr.
  pose proof (transact_store a (aw_others a s)) as Hs. fold b in Hs. cbv zeta in Hs.
  destruct (transact_err a (aw_others a s)) as [Hc _]. fold b in Hc.
  destruct (roll_back_err a b discard err Hr) as (Hcommit & Hnone & _).
  assert (Hok : err = None -> committed b = true) by (intros He; rewrite Hc; apply bool_decide_eq_true; auto).
  destruct (_ && bool_decide (aw_warn a = None)) eqn:Hd.
  { intros [= <- <-]. simpl. rewrite !andb_true_iff in Hd. destruct Hd as [[[[[Hcb _] _] _] _] _].
    rewrite Hcb in Hs. exact Hs. }
  match goal with |- context [join err ?c] => generalize c; intros cleanup end.
  destruct (join err cleanup) as [e|] eqn:Hj; intros [= <- <-]; simpl.
  - destruct (committed b) eqn:Hcb; simpl.
    + rewrite (committed_not_uncertain b Hcb). simpl. split; [done|exact Hs].
    + destruct (uncertain b) eqn:Hu; simpl; [by split|]. destruct discard; simpl; [by split|]. split; [done|by left].
  - apply join_none in Hj as [He _]. rewrite (Hok He) in Hs. exact Hs.
Qed.
End attempt.

(** * The loop *)
Section loop.
Context {S : Type} (deadline : Z) (cancelled : Z -> bool) (tier : Z) (attempts : nat -> Attempt S) (p : auditWriterPolicy).

(** What the others commit around the first [j] attempts. *)
Fixpoint quiet (j : nat) (s : S) : S :=
  match j with O => s | Datatypes.S j' => aw_others (attempts j') (quiet j' s) end.

(** The meaning of an outcome: how often, and on what, this call wrote. *)
Definition outcome_holds (s s' : S) (out : WriteOutcome) : Prop :=
  match out with
  | ContextMissing => s' = s
  | Written tries => exists j, tries = Datatypes.S j /\ own_write (attempts j) (quiet j s) s'
  | WriteFailed tries Unchanged _ => s' = quiet tries s \/ exists j, tries = Datatypes.S j /\ s' = quiet j s
  | WriteFailed tries Discarded _ => s' = quiet tries s
  | WriteFailed tries Committed _ => exists j, tries = Datatypes.S j /\ own_write (attempts j) (quiet j s) s'
  | WriteFailed tries Uncertain _ =>
      s' = quiet tries s \/ exists j, tries = Datatypes.S j /\ own_write (attempts j) (quiet j s) s'
  end.

Lemma failed_outcome n t s s' r e cause :
  auditWriteAttempt deadline cancelled tier (attempts n) t (quiet n s) = (s', r) -> ar_err r = Some e ->
  outcome_holds s s' (WriteFailed (Datatypes.S n) (ar_impact r) cause).
Proof.
  intros Ha He. apply attempt_truthful in Ha. unfold truthful in Ha. rewrite He in Ha. destruct Ha as [_ Ha].
  simpl. destruct (ar_impact r); simpl; [|done|by exists n|].
  - destruct Ha as [->|[-> _]]; [by left|]. right. by exists n.
  - destruct Ha as [->|Ha]; [by left|]. right. by exists n.
Qed.

Lemma retry_holds fuel n t delay last s s' out :
  retryAuditWrite deadline cancelled tier attempts p fuel n t delay last (quiet n s) = Some (s', out) ->
  outcome_holds s s' out.
Proof.
  revert n t delay last. induction fuel as [|fuel IH]; intros n t delay last; simpl; [done|].
  destruct (done deadline cancelled t) eqn:Ht; [intros [= <- <-]; simpl; by left|].
  destruct (auditWriteAttempt deadline cancelled tier (attempts n) t (quiet n s)) as [s1 r] eqn:Ha.
  pose proof (attempt_truthful _ _ _ _ _ _ _ _ Ha) as Hr. unfold truthful in Hr.
  destruct (ar_err r) as [e|] eqn:He; [|intros [= <- <-]; by exists n].
  pose proof (fun c => failed_outcome n t s s1 r e c Ha He) as Hf.
  destruct (done _ _ (aw_end _)); [intros [= <- <-]; apply Hf|].
  destruct (ar_retry r) eqn:Hretry; simpl; [|intros [= <- <-]; apply Hf].
  destruct (aw_wake _ _) as [t'|]; [|intros [= <- <-]; apply Hf].
  destruct Hr as [Hr _]. destruct (Hr eq_refl) as [-> _]. apply (IH (Datatypes.S n)).
Qed.

(** The clock of the environment: an attempt does not end before it begins, and
    a timer does not fire early. *)
Definition clock_ok : Prop :=
  forall n wait t', aw_wake (attempts n) wait = Some t' -> aw_end (attempts n) + wait <= t'.
Definition starts_ok (t0 : Z) : Prop :=
  t0 <= aw_end (attempts 0) /\
  forall n wait t', aw_wake (attempts n) wait = Some t' -> t' <= aw_end (attempts (Datatypes.S n)).

Lemma retry_total fuel n t delay last s :
  clock_ok -> t <= aw_end (attempts n) ->
  (forall m wait t', aw_wake (attempts m) wait = Some t' -> t' <= aw_end (attempts (Datatypes.S m))) ->
  exhausts (backoff p) fuel (deadline - t) delay = true ->
  exists s' out, retryAuditWrite deadline cancelled tier attempts p fuel n t delay last s = Some (s', out)
  /\ match out with ContextMissing => False | Written k | WriteFailed k _ _ => (k < n + fuel)%nat end.
Proof.
  intros Hc. revert n t delay last s. induction fuel as [|fuel IH]; intros n t delay last s He Hs Hx; [done|].
  simpl in *. destruct (done deadline cancelled t) eqn:Ht; [do 2 eexists; split; [done|simpl; lia]|].
  unfold done in Ht. apply orb_false_iff in Ht as [Ht%Z.leb_gt _].
  apply orb_true_iff in Hx as [Hx%Z.leb_le|Hx]; [lia|].
  destruct (auditWriteAttempt _ _ _ _ _ _) as [s1 r].
  assert (Hfuel : fuel <> O) by (intros ->; done).
  destruct (ar_err r) as [e|]; [|do 2 eexists; split; [done|simpl; lia]].
  destruct (done _ _ (aw_end _)); [do 2 eexists; split; [done|simpl; lia]|].
  destruct (ar_retry r); simpl; [|do 2 eexists; split; [done|simpl; lia]].
  destruct (aw_wake _ _) as [t'|] eqn:Hw; [|do 2 eexists; split; [done|simpl; lia]].
  pose proof (Hc _ _ _ Hw). pose proof (Hs _ _ _ Hw).
  destruct (IH (Datatypes.S n) t' (backoff p delay) (Some e) s1) as (s' & out & -> & Hk); [done|done| |].
  - eapply exhausts_mono; [|exact Hx]. lia.
  - do 2 eexists; split; [done|]. destruct out; simpl in *; lia.
Qed.
End loop.

Lemma quiet_running {S C} (env : nat -> Attempt S) (op : nat -> S -> result Error (S * C)) j s c :
  quiet (fun n => running (env n) (op n)) j (s, c) = (quiet env j s, c).
Proof. induction j as [|j IH]; [done|]. simpl. by rewrite IH. Qed.

(** [audit_write_once] for an operation that returns a value. *)
Definition value_written {S C} (env : nat -> Attempt S) (op : nat -> S -> result Error (S * C)) (s s' : S) (c : option C) : Prop :=
  exists j v, c = Some v /\ op j (aw_others (env j) (quiet env j s)) = Ok (s', v).
Lemma own_write_running {S C} (env : nat -> Attempt S) (op : nat -> S -> result Error (S * C)) j s s' c :
  own_write (running (env j) (op j)) (quiet (fun n => running (env n) (op n)) j (s, None)) (s', c) ->
  value_written env op s s' c.
Proof.
  unfold own_write. rewrite quiet_running. simpl. destruct (op j _) as [[s1 v]|] eqn:Ho; [|done].
  intros [= <- <-]. by exists j, v.
Qed.
Lemma running_outcome {S C} fuel p caller tier t0 (env : nat -> Attempt S) (op : nat -> S -> result Error (S * C)) s s' c out :
  withAuditWrite fuel p caller tier t0 (fun n => running (env n) (op n)) (s, None) = Some (s', c, out) ->
  match out with
  | ContextMissing => s' = s
  | Written _ | WriteFailed _ Committed _ => value_written env op s s' c
  | WriteFailed _ Unchanged _ => exists j, s' = quiet env j s
  | WriteFailed k Discarded _ => s' = quiet env k s
  | WriteFailed k Uncertain _ => s' = quiet env k s \/ value_written env op s s' c
  end.
Proof.
  intros Hw. assert (Hq : forall j, (s', c) = quiet (fun n => running (env n) (op n)) j (s, None) -> s' = quiet env j s)
    by (intros j; rewrite quiet_running; by intros [= -> ->]).
  revert Hw. unfold withAuditWrite. destruct caller as [[d cancelled]|]; [|by intros [= <- <- <-]].
  intros Hw%(retry_holds _ _ _ _ _ _ 0). destruct out as [|k|k [| | |] cause]; simpl in Hw.
  - by injection Hw.
  - destruct Hw as (j & _ & Hj). by eapply own_write_running.
  - destruct Hw as [Hw|(j & _ & Hw)]; eauto.
  - auto.
  - destruct Hw as (j & _ & Hj). by eapply own_write_running.
  - destruct Hw as [Hw|(j & _ & Hj)]; [auto|]. right. by eapply own_write_running.
Qed.

(** * Properties *)

(** C24: The writer writes at most once and says truthfully whether it did.  When
    it returns nil exactly one attempt committed, the last, on what the other
    writers left; when it reports that nothing committed, nothing of this call
    did; when it reports a commit, its write is there once; only an outcome it
    calls uncertain may be either. *)
Theorem audit_write_once {S} fuel p caller tier t0 (attempts : nat -> Attempt S) s s' out :
  withAuditWrite fuel p caller tier t0 attempts s = Some (s', out) ->
  outcome_holds attempts s s' out.
Proof.
  unfold withAuditWrite. destruct caller as [[d cancelled]|]; [|by intros [= <- <-]].
  by intros H%(retry_holds _ _ _ _ _ _ 0).
Qed.

(** C25: The writer ends.  Whatever the database answers and however long it
    takes, on a clock that does not run backwards the loop returns; with the
    policy of the source it makes at most thirty-six attempts. *)
Theorem audit_write_ends {S} p caller tier t0 (attempts : nat -> Attempt S) s :
  ap_ceiling p = 0 -> clock_ok attempts -> starts_ok attempts t0 ->
  exists s' out, withAuditWrite 37 p caller tier t0 attempts s = Some (s', out)
  /\ match out with ContextMissing => caller = None | Written k | WriteFailed k _ _ => (k <= 36)%nat end.
Proof.
  intros Hp Hc [H0 Hs]. unfold withAuditWrite, effective_policy. rewrite Hp. simpl.
  destruct caller as [[d cancelled]|]; [|by do 2 eexists].
  destruct (retry_total (write_deadline p d t0) cancelled tier attempts defaultAuditWriterPolicy 37 0 t0
    (25 * ms) None s Hc H0 Hs) as (s' & out & Hr & Hk).
  - apply (exhausts_mono _ 37 (30000 * ms)); [|by vm_compute].
    unfold write_deadline, effective_policy. rewrite Hp. simpl. destruct d; lia.
  - exists s', out. split; [exact Hr|]. destruct out; [done|lia..].
Qed.

(** No connection goes back to the pool with the shortened busy timeout
    unnoticed.  A successful attempt has restored or retired its connection; an
    attempt that will be repeated has restored it; one whose transaction is in
    doubt never returns it. *)
Theorem connection_accounted {S} deadline cancelled tier (a : Attempt S) t s s' r :
  done deadline cancelled t = false -> aw_conn a = None ->
  auditWriteAttempt deadline cancelled tier a t s = (s', r) ->
  let b := transact deadline cancelled tier a (aw_others a s) in
  let discard := (roll_back deadline cancelled a b).1 in
  let fate := cu_fate (release deadline tier a b discard) in
  (ar_err r = None -> fate <> PooledReduced)
  /\ (ar_retry r = true -> fate = PooledRestored)
  /\ (uncertain b || discard = true -> fate <> PooledRestored).
Proof.
  intros Ht Hconn. unfold auditWriteAttempt. rewrite Ht, Hconn. cbv zeta.
  set (b := transact _ _ _ _ _). destruct (roll_back _ _ a b) as [discard err] eqn:Hr. cbn [fst].
  set (c := release deadline tier a b discard). intros Hrun.
  assert (Hnone : cu_err c = None -> cu_fate c <> PooledReduced /\ cu_fate c = if uncertain b || discard then RetiredFromPool else PooledRestored).
  { unfold c, release. simpl. destruct (uncertain b || discard); simpl.
    - destruct (aw_retire a); simpl; [done|]. by destruct (aw_close a).
    - destruct (aw_restore a _ _); simpl; [done|..]; by destruct (aw_retire a), (aw_close a). }
  assert (Hret : cu_retired c = true -> cu_fate c = RetiredFromPool).
  { unfold c, release. simpl. by intros [-> ->]%andb_true_iff. }
  assert (Hud : uncertain b || discard = true -> cu_fate c <> PooledRestored).
  { intros Hud. unfold c, release. simpl. rewrite Hud. simpl. by destruct (aw_retire a || aw_retire_again a). }
  clearbody c. split_and!; [| |exact Hud].
  - revert Hrun. destruct (_ && bool_decide (aw_warn a = None)) eqn:Hd.
    + intros _ _. rewrite !andb_true_iff in Hd. destruct Hd as [[[_ Hre] _] _]. by rewrite (Hret Hre).
    + destruct (committed b && _ && _ && _ && _) eqn:Hg.
      * destruct (aw_warn a) as [w|]; [|by rewrite andb_comm in Hd]. intros _ _.
        rewrite !andb_true_iff in Hg. destruct Hg as [[_ Hre] _]. by rewrite (Hret Hre).
      * destruct (join err (cu_err c)) eqn:Hj; intros [= <- <-]; [done|].
        apply join_none in Hj as [_ Hj]. intros _. by apply Hnone.
  - revert Hrun. destruct (_ && bool_decide (aw_warn a = None)); [by intros [= <- <-]|].
    match goal with |- context [join err ?x] => set (cleanup := x) end.
    assert (Hcl : cleanup = None -> cu_err c = None).
    { unfold cleanup. destruct (_ && _); [|done]. by intros [? _]%join_none. }
    destruct (join err cleanup); intros [= <- <-]; simpl; [|done].
    rewrite !andb_true_iff, !negb_true_iff. intros [[[[_ Hu] Hdis] Hcn%bool_decide_eq_true] _].
    destruct (Hnone (Hcl Hcn)) as [_ ->]. by rewrite Hu, Hdis.
Qed.

(** The busy timeout of an attempt stays within the configured tier and the
    remaining budget, and leaves the cleanup a fifth of it, at most 100 ms. *)
Theorem busy_window_bounds {S} deadline tier (a : Attempt S) :
  0 <= tier ->
  0 <= busy_cap deadline tier a /\ 0 <= cleanup_budget deadline tier a <= 100 * ms
  /\ busy_cap deadline tier a + cleanup_budget deadline tier a <= tier
  /\ (aw_window_at a <= deadline ->
      aw_window_at a + busy_cap deadline tier a + cleanup_budget deadline tier a <= deadline).
Proof.
  intros Ht. unfold busy_cap, cleanup_budget. set (w := busy_window deadline tier a).
  assert (Hw : 0 <= w <= tier) by (unfold w, busy_window; lia).
  assert (Hd : aw_window_at a <= deadline -> aw_window_at a + w <= deadline) by (unfold w, busy_window; lia).
  rewrite Z.quot_div_nonneg by lia. pose proof (Z.div_mod w 5 ltac:(lia)). pose proof (Z.mod_pos_bound w 5 ltac:(lia)).
  unfold ms in *. split_and!; lia.
Qed.

(** ** Witnesses: a first attempt meets an extended busy code, the second commits *)
Definition busy_then_write (n : nat) : Attempt (list nat) :=
  let t := Z.of_nat n * 100 * ms in
  {| aw_others s := s ++ [n + 7]%nat; aw_conn := None; aw_window_at := t; aw_pragma _ := None; aw_begin_at := t;
     aw_begin := if (n =? 0)%nat then Some [OtherCause; Coded 517] else None;
     aw_op s := Ok (s ++ [0%nat]); aw_op_at := t; aw_commit := None; aw_durable := false;
     aw_rollback_at := t; aw_rollback := None; aw_restore _ _ := Restored; aw_cleanup_expired := false;
     aw_retire := true; aw_retire_again := true; aw_close := Closed; aw_warn := None;
     aw_end := t; aw_wake wait := if wait <=? 100 * ms then Some (t + 100 * ms) else None |}.
Definition no_cancel (_ : Z) : bool := false.
Definition zero_policy : auditWriterPolicy := mk_Policy 0 0 0.

Lemma audit_write_once_witness :
  outcome_holds busy_then_write [5%nat] [5; 7; 8; 0]%nat (Written 2)
  /\ withAuditWrite 37 zero_policy (Some (None, no_cancel)) (5000 * ms) 0 busy_then_write [5%nat]
     = Some ([5; 7; 8; 0]%nat, Written 2).
Proof.
  split; [|vm_compute; reflexivity].
  apply (audit_write_once 37 zero_policy (Some (None, no_cancel)) (5000 * ms) 0). vm_compute. reflexivity.
Defined.

Lemma busy_clock : clock_ok busy_then_write.
Proof. intros n wait t'. simpl. destruct (Z.leb_spec wait (100 * ms)); [|done]. intros [= <-]. lia. Qed.
Lemma busy_starts : starts_ok busy_then_write 0.
Proof. split; [done|]. intros n wait t'. simpl. destruct (wait <=? 100 * ms); [|done]. intros [= <-]. unfold ms. lia. Qed.

Lemma audit_write_ends_witness : exists s' out,
  withAuditWrite 37 zero_policy (Some (None, no_cancel)) (5000 * ms) 0 busy_then_write [5%nat] = Some (s', out).
Proof.
  destruct (audit_write_ends zero_policy (Some (None, no_cancel)) (5000 * ms) 0 busy_then_write [5%nat] eq_refl
    busy_clock busy_starts) as (s' & out & H & _).
  exists s', out. exact H.
Defined.

Lemma connection_accounted_witness :
  cu_fate (release (30000 * ms) (5000 * ms) (busy_then_write 0)
    (transact (30000 * ms) no_cancel (5000 * ms) (busy_then_write 0) [5; 7]%nat) false) = PooledRestored.
Proof.
  refine (proj1 (proj2 (connection_accounted (30000 * ms) no_cancel (5000 * ms) (busy_then_write 0) 0 [5%nat]
    [5; 7]%nat (mk_Result (Some [OtherCause; Coded 517]) true Unchanged) _ _ _)) _); vm_compute; reflexivity.
Defined.

Lemma busy_window_bounds_witness : 0 <= busy_cap (30 * ms) (5000 * ms) (busy_then_write 0) <= 30 * ms.
Proof.
  destruct (busy_window_bounds (30 * ms) (5000 * ms) (busy_then_write 0)) as (H1 & H2 & _ & H4); [vm_compute; discriminate|].
  split; [exact H1|]. specialize (H4 ltac:(vm_compute; discriminate)). simpl in H4. lia.
Defined.
