(* ===== verification/AuditTrail.v ===== *)
(** AuditTrail: the audit trail and its two backends (internal/audit/sqlite.go,
    query.go, memory.go).

    The durable trail attributes an event to an agent, inserts it once per
    deduplication key and attaches it to its epoch, all in one transaction of
    [AuditWriter]; a query joins the tables back into the events.  The
    in-memory trail keeps the list.  [shows] says which list of events the
    tables stand for. *)

From Stdlib Require Import ZArith Lia Ascii String Sorting.Sorted.
From stdpp Require Import base tactics list strings gmap sorting.
From S2P Require Import Prelude GoStrings Vocabulary AuditWriter.
Local Open Scope string_scope.
Local Open Scope list_scope.
Local Open Scope Z_scope.

(** ** Data *)

(** encoding/json on the payload object: [MarshalPayload] is [None] on its error;
    [Normal] is what a payload is after it was written and read back. *)
Class PayloadJson := {
  Payload : Type;
  MarshalPayload : Payload -> option string;
  UnmarshalPayload : string -> option Payload;
  Normal : Payload -> Payload;
}.

(** The agents and agents_software rows of one agent. *)
Record Software := mk_Software { sw_name : string; sw_version : string; sw_source : string }.
Record Agent := mk_Agent { ag_id : string; ag_kind : Z; ag_software : option Software }.
Record AuditRow := mk_AuditRow {
  ev_id : Z;
  ev_phase : string;
  ev_agent : string;
  ev_type : string;
  ev_payload : string;
  ev_timestamp : Z;
  ev_dedup : option string;
}.
(** audit_events with its AUTOINCREMENT counter, context_edges, agents. *)
Record AuditDb := mk_AuditDb {
  ad_events : list AuditRow;
  ad_seq : Z;
  ad_edges : list (Z * string * string);
  ad_agents : list Agent;
}.
Definition empty_audit : AuditDb := mk_AuditDb [] 0 [] [].

Definition legacyRoleAgentNamePrefix : string := "pasture/legacy-role/".
Definition legacyRoleAgentVersion : string := "v0".
Definition legacyRoleAgentSource : string := "pasture/internal/audit/migrate".
Definition legacyRoleAgentNamespace : string := "pasture".

(** The statements the database may refuse, and the identifier generator. *)
Inductive TrailStmt :=
  | FindAutomaton | FindLegacy | InsertAgent | InsertSoftware | InsertEvent | RowsAffected | FindReplay
  | LastInsertId | InsertEdge.
Record Oracle := mk_Oracle { or_refuse : TrailStmt -> option Error; or_uuid : option string }.
Definition ask {A} (o : Oracle) (st : TrailStmt) (x : A) : result Error A :=
  match or_refuse o st with Some e => Err e | None => Ok x end.

(** ** The agent of a role *)
Definition software_named (name : string) (a : Agent) : bool :=
  (ag_kind a =? 2) && match ag_software a with Some sw => String.eqb (sw_name sw) name | None => false end.
(** Of agents with equal names the query may return any; the first is taken. *)
Definition find_agent (db : AuditDb) (name : string) : option string :=
  ag_id <$> List.find (software_named name) (ad_agents db).
Definition automaton_role (role : string) : bool := HasPrefix (to_bytes role) (to_bytes "pasture/automaton/").
Definition legacy_name (role : string) : string := String.append legacyRoleAgentNamePrefix role.

Definition resolveLegacyRoleAgentId (o : Oracle) (cache : gmap string string) (db : AuditDb) (role : string)
    : result Error (AuditDb * string) :=
  match cache !! role with
  | Some agent => Ok (db, agent)
  | None =>
      direct ← (if automaton_role role then ask o FindAutomaton (find_agent db role) else Ok None);
      match direct with
      | Some agent => Ok (db, agent)
      | None =>
          existing ← ask o FindLegacy (find_agent db (legacy_name role));
          match existing with
          | Some agent => Ok (db, agent)
          | None =>
              match or_uuid o with
              | None => Err [OtherCause]
              | Some uuid =>
                  let agent := String.append legacyRoleAgentNamespace (String.append "/" uuid) in
                  if existsb (fun a => String.eqb (ag_id a) agent) (ad_agents db) then Err [OtherCause]
                  else
                    _ ← ask o InsertAgent tt;
                    ask o InsertSoftware
                      (mk_AuditDb (ad_events db) (ad_seq db) (ad_edges db)
                         (ad_agents db ++ [mk_Agent agent 2 (Some (mk_Software (legacy_name role)
                                             legacyRoleAgentVersion legacyRoleAgentSource))]), agent)
              end
          end
      end
  end.

Section trail.
Context `{PayloadJson}.

(** protocol.AuditEvent with its payload; an instant is nanoseconds since 1970. *)
Record TrailEvent := mk_Event {
  te_ID : Z;
  te_EpochId : string;
  te_Phase : string;
  te_Role : string;
  te_EventType : string;
  te_Payload : Payload;
  te_Timestamp : Z;
  te_DedupKey : string;
}.
Definition dedup_key (e : TrailEvent) : option string :=
  if String.eqb (te_DedupKey e) "" then None else Some (te_DedupKey e).
Definition has_key (key : option string) (r : AuditRow) : bool :=
  match key with Some k => bool_decide (ev_dedup r = Some k) | None => false end.

(** ** Recording (RecordEventReturningId) *)

(** INSERT ... ON CONFLICT(dedup_key) DO NOTHING: the row identity and the rows
    affected; [None] is the exhausted counter. *)
Definition insert_event (db : AuditDb) (e : TrailEvent) (agent payload : string) : option (AuditDb * Z * nat) :=
  if existsb (has_key (dedup_key e)) (ad_events db) then Some (db, 0, 0%nat)
  else if ad_seq db =? max_int64 then None
  else let id := ad_seq db + 1 in
    Some (mk_AuditDb
            (ad_events db ++ [mk_AuditRow id (te_Phase e) agent (te_EventType e) payload (wrap64 (te_Timestamp e)) (dedup_key e)])
            id (ad_edges db) (ad_agents db), id, 1%nat).
(** INSERT OR IGNORE into context_edges. *)
Definition add_edge (db : AuditDb) (edge : Z * string * string) : AuditDb :=
  if bool_decide (edge ∈ ad_edges db) then db
  else mk_AuditDb (ad_events db) (ad_seq db) (ad_edges db ++ [edge]) (ad_agents db).

(** What runs inside the transaction; the value is the agent and the row. *)
Definition record_tx (o : Oracle) (cache : gmap string string) (e : TrailEvent) (payload : string) (db : AuditDb)
    : result Error (AuditDb * (string * Z)) :=
  resolved ← resolveLegacyRoleAgentId o cache db (te_Role e);
  let '(db1, agent) := resolved in
  inserted ← ask o InsertEvent (insert_event db1 e agent payload);
  match inserted with
  | None => Err [Coded 13]
  | Some (db2, id, affected) =>
      replayed ← (if bool_decide (dedup_key e = None) then Ok false else ask o RowsAffected (affected =? 0)%nat);
      if (replayed : bool) then
        found ← ask o FindReplay (List.find (has_key (dedup_key e)) (ad_events db2));
        match found with
        | Some r => Ok (db2, (agent, ev_id r))
        | None => Err [OtherCause]
        end
      else
        id' ← ask o LastInsertId id;
        if id' <=? 0 then Err [OtherCause]
        else if String.eqb (te_EpochId e) "" then Ok (db2, (agent, id'))
        else ask o InsertEdge (add_edge db2 (id', "EpochContext", te_EpochId e), (agent, id'))
  end.

Inductive RecordError := RoleMissing | PayloadInvalid | WriteError (out : WriteOutcome).

(** The call: the callback runs in every attempt of the writer, and the cache of
    agents is published after the commit. *)
Definition RecordEventReturningId (fuel : nat) (p : auditWriterPolicy) (caller : option (option Z * (Z -> bool)))
    (tier t0 : Z) (env : nat -> Attempt AuditDb) (orc : nat -> Oracle) (cache : gmap string string)
    (e : TrailEvent) (db : AuditDb) : option (AuditDb * gmap string string * result RecordError Z) :=
  if String.eqb (te_Role e) "" then Some (db, cache, Err RoleMissing)
  else match MarshalPayload (te_Payload e) with
  | None => Some (db, cache, Err PayloadInvalid)
  | Some payload =>
      match withAuditWrite fuel p caller tier t0
              (fun n => running (env n) (record_tx (orc n) cache e payload)) (db, None) with
      | None => None
      | Some ((db', closure), Written _) =>
          match closure with
          | Some (agent, id) =>
              Some (db', if String.eqb agent "" then cache else <[te_Role e := agent]> cache, Ok id)
          | None => Some (db', cache, Ok 0)
          end
      | Some ((db', _), out) => Some (db', cache, Err (WriteError out))
      end
  end.

(** ** Querying (QueryEventsOn) *)
Definition agent_name (db : AuditDb) (agent : string) : option string :=
  match List.find (fun a => String.eqb (ag_id a) agent) (ad_agents db) with
  | Some a => sw_name <$> ag_software a
  | None => None
  end.
Definition stripLegacyRolePrefix (name : string) : string :=
  match strip_prefix (to_bytes legacyRoleAgentNamePrefix) (to_bytes name) with
  | Some rest => of_bytes rest
  | None => name
  end.
Definition row_selected (db : AuditDb) (phase role : option string) (r : AuditRow) : bool :=
  match phase with Some p => String.eqb (ev_phase r) p | None => true end
  && match role with
     | Some x => bool_decide (agent_name db (ev_agent r) = Some (legacy_name x))
     | None => true
     end.
Definition read_row (db : AuditDb) (epoch : string) (r : AuditRow) : option TrailEvent :=
  match UnmarshalPayload (ev_payload r) with
  | None => None
  | Some payload =>
      Some (mk_Event (ev_id r) epoch (ev_phase r) (stripLegacyRolePrefix (default "" (agent_name db (ev_agent r))))
              (ev_type r) payload (ev_timestamp r) "")
  end.
(** One result per matching edge; [None] is a payload that does not parse. *)
Definition QueryEvents (db : AuditDb) (epoch : string) (phase role : option string) : option (list TrailEvent) :=
  mapM (read_row db epoch)
    (concat ((fun r => (fun _ => r) <$> List.filter (fun edge => bool_decide (edge = (ev_id r, "EpochContext", epoch))) (ad_edges db))
       <$> List.filter (row_selected db phase role) (ad_events db))).

(** ** The in-memory trail *)
Record InMemoryAuditTrail := mk_Memory { mm_events : list TrailEvent; mm_lastEventId : Z }.
Definition NewInMemoryAuditTrail : InMemoryAuditTrail := mk_Memory [] 0.
Definition with_id (e : TrailEvent) (id : Z) : TrailEvent :=
  mk_Event id (te_EpochId e) (te_Phase e) (te_Role e) (te_EventType e) (te_Payload e) (te_Timestamp e) (te_DedupKey e).
Definition memory_record (m : InMemoryAuditTrail) (e : TrailEvent) : InMemoryAuditTrail * Z :=
  let id := wrap64 (mm_lastEventId m + 1) in
  (mk_Memory (mm_events m ++ [with_id e id]) id, id).
Definition matches (epoch : string) (phase role : option string) (e : TrailEvent) : bool :=
  String.eqb (te_EpochId e) epoch
  && match phase with Some p => String.eqb (te_Phase e) p | None => true end
  && match role with Some r => String.eqb (te_Role e) r | None => true end.
Definition memory_query (m : InMemoryAuditTrail) (epoch : string) (phase role : option string) : list TrailEvent :=
  List.filter (matches epoch phase role) (mm_events m).
End trail.

(** * The events the tables stand for *)
Section shows.
Context `{PayloadJson}.

(** [agent] is registered and named for [role]. *)
Definition agent_for (db : AuditDb) (agent role : string) : Prop :=
  exists a sw, a ∈ ad_agents db /\ ag_id a = agent /\ ag_software a = Some sw
  /\ (sw_name sw = legacy_name role \/ (automaton_role role = true /\ sw_name sw = role)).
Definition row_for (db : AuditDb) (r : AuditRow) (e : TrailEvent) : Prop :=
  ev_id r = te_ID e /\ ev_phase r = te_Phase e /\ ev_type r = te_EventType e
  /\ ev_timestamp r = wrap64 (te_Timestamp e) /\ MarshalPayload (te_Payload e) = Some (ev_payload r)
  /\ ev_dedup r = dedup_key e /\ agent_for db (ev_agent r) (te_Role e).
Definition edges_for (db : AuditDb) (e : TrailEvent) : Prop :=
  forall epoch, (te_ID e, "EpochContext", epoch) ∈ ad_edges db <-> te_EpochId e = epoch /\ epoch <> "".

Record shows (db : AuditDb) (l : list TrailEvent) : Prop := {
  sh_rows : Forall2 (row_for db) (ad_events db) l;
  sh_sorted : StronglySorted Z.lt (te_ID <$> l);
  sh_range : forall e, e ∈ l -> 0 < te_ID e <= ad_seq db;
  sh_seq : 0 <= ad_seq db <= max_int64;
  sh_edges : forall e, e ∈ l -> edges_for db e;
  sh_edges_seq : forall edge, edge ∈ ad_edges db -> edge.1.1 <= ad_seq db;
  sh_edges_nodup : NoDup (ad_edges db);
  sh_agents : NoDup (ag_id <$> ad_agents db);
  sh_keys : forall e e', e ∈ l -> e' ∈ l -> dedup_key e <> None -> dedup_key e = dedup_key e' -> e = e';
}.
Definition cache_ok (cache : gmap string string) (db : AuditDb) : Prop :=
  forall role agent, cache !! role = Some agent -> agent_for db agent role.

Lemma empty_shows : shows empty_audit [].
Proof.
  split; simpl; try (by intros ? ?%elem_of_nil); try (by intros ?? ?%elem_of_nil); try (by constructor).
Qed.

Lemma agent_for_mono db db' agent role :
  ad_agents db ⊆ ad_agents db' -> agent_for db agent role -> agent_for db' agent role.
Proof. intros Hs (a & sw & Ha & ?). exists a, sw. split; [by apply Hs|done]. Qed.
Lemma row_for_mono db db' r e : ad_agents db ⊆ ad_agents db' -> row_for db r e -> row_for db' r e.
Proof. intros Hs (?&?&?&?&?&?&Ha). split_and!; try done. by eapply agent_for_mono. Qed.
Lemma cache_ok_mono cache db db' : ad_agents db ⊆ ad_agents db' -> cache_ok cache db -> cache_ok cache db'.
Proof. intros Hs Hc role agent Ha. eapply agent_for_mono; [done|]. by apply Hc. Qed.

Lemma find_agent_Some db name agent :
  find_agent db name = Some agent ->
  exists a sw, a ∈ ad_agents db /\ ag_id a = agent /\ ag_software a = Some sw /\ sw_name sw = name.
Proof.
  unfold find_agent. destruct (List.find _ _) as [a|] eqn:Hf; [|done]. intros [= <-].
  apply List.find_some in Hf as [Hin Hn]. unfold software_named in Hn. apply andb_true_iff in Hn as [_ Hn].
  destruct (ag_software a) as [sw|] eqn:Hs; [|done]. apply String.eqb_eq in Hn.
  exists a, sw. rewrite list_elem_of_In. done.
Qed.

(** The new rows of one registration change nothing of the events. *)
Definition registers (db db' : AuditDb) : Prop :=
  ad_events db' = ad_events db /\ ad_seq db' = ad_seq db /\ ad_edges db' = ad_edges db
  /\ ad_agents db ⊆ ad_agents db' /\ (NoDup (ag_id <$> ad_agents db) -> NoDup (ag_id <$> ad_agents db')).
Lemma registers_refl db : registers db db.
Proof. by split_and!. Qed.
Lemma registers_shows db db' l : registers db db' -> shows db l -> shows db' l.
Proof.
  intros (He & Hs & Hg & Ha & Hn) [Hrows ?????? Hag ?]. split; rewrite ?He, ?Hs, ?Hg; try done.
  - eapply Forall2_impl; [exact Hrows|]. intros r e. by apply row_for_mono.
  - intros e Hin epoch. rewrite Hg. by apply sh_edges0.
  - by apply Hn.
Qed.

Lemma resolve_ok o cache db role db' agent :
  cache_ok cache db -> resolveLegacyRoleAgentId o cache db role = Ok (db', agent) ->
  registers db db' /\ agent_for db' agent role.
Proof.
  intros Hc. unfold resolveLegacyRoleAgentId, ask. destruct (cache !! role) as [x|] eqn:Hx.
  { intros [= <- <-]. split; [apply registers_refl|by apply Hc]. }
  assert (Hfound : forall name x, find_agent db name = Some x ->
    name = legacy_name role \/ (automaton_role role = true /\ name = role) -> registers db db /\ agent_for db x role).
  { intros name x (a & sw & Hin & Hid & Hsw & <-)%find_agent_Some Hn. split; [apply registers_refl|]. by exists a, sw. }
  assert (Hmint : forall uuid, existsb (fun a => String.eqb (ag_id a) (String.append legacyRoleAgentNamespace (String.append "/" uuid))) (ad_agents db) = false ->
    let agent := String.append legacyRoleAgentNamespace (String.append "/" uuid) in
    let db1 := mk_AuditDb (ad_events db) (ad_seq db) (ad_edges db)
      (ad_agents db ++ [mk_Agent agent 2 (Some (mk_Software (legacy_name role) legacyRoleAgentVersion legacyRoleAgentSource))]) in
    registers db db1 /\ agent_for db1 agent role).
  { intros uuid Hfresh a db1. split.
    - split_and!; try done; [simpl; set_solver|]. simpl. rewrite fmap_app, NoDup_app. intros Hnd.
      split_and!; [done| |apply NoDup_singleton]. intros i Hi Hi'. apply list_elem_of_singleton in Hi' as ->.
      apply list_elem_of_fmap in Hi as (b & Hb & Hin). apply Bool.not_true_iff_false in Hfresh. apply Hfresh.
      apply existsb_exists. exists b. rewrite <- list_elem_of_In. split; [done|]. by apply String.eqb_eq.
    - eexists _, _. split_and!; [apply elem_of_app; right; by apply list_elem_of_singleton|done|done|by left]. }
  destruct (if automaton_role role then _ else _) as [[x|]|] eqn:Hd; simpl; [| |done].
  { intros [= <- <-]. destruct (automaton_role role) eqn:Ha; [|done].
    destruct (or_refuse o FindAutomaton); [done|]. injection Hd as Hd. apply (Hfound _ _ Hd). by right. }
  destruct (or_refuse o FindLegacy); simpl; [done|].
  destruct (find_agent db (legacy_name role)) as [x|] eqn:Hl; [intros [= <- <-]; apply (Hfound _ _ Hl); by left|].
  destruct (or_uuid o) as [uuid|]; [|done]. destruct (existsb _ _) eqn:Hex; [done|].
  destruct (or_refuse o InsertAgent); simpl; [done|]. destruct (or_refuse o InsertSoftware); [done|].
  intros [= <- <-]. by apply Hmint.
Qed.
End shows.

(** * Recording *)
Section recording.
Context `{PayloadJson}.

Definition appended (db : AuditDb) (e : TrailEvent) (agent payload : string) : AuditDb :=
  let id := ad_seq db + 1 in
  mk_AuditDb
    (ad_events db ++ [mk_AuditRow id (te_Phase e) agent (te_EventType e) payload (wrap64 (te_Timestamp e)) (dedup_key e)])
    id (ad_edges db ++ if String.eqb (te_EpochId e) "" then [] else [(id, "EpochContext", te_EpochId e)]) (ad_agents db).

Lemma rows_in db l r : shows db l -> r ∈ ad_events db -> exists e, e ∈ l /\ row_for db r e.
Proof.
  intros Hs [i Hi]%list_elem_of_lookup. destruct (Forall2_lookup_l _ _ _ _ _ (sh_rows _ _ Hs) Hi) as (e & He & ?).
  exists e. split; [by eapply list_elem_of_lookup_2|done].
Qed.
Lemma events_in db l e : shows db l -> e ∈ l -> exists r, r ∈ ad_events db /\ row_for db r e.
Proof.
  intros Hs [i Hi]%list_elem_of_lookup. destruct (Forall2_lookup_r _ _ _ _ _ (sh_rows _ _ Hs) Hi) as (r & He & ?).
  exists r. split; [by eapply list_elem_of_lookup_2|done].
Qed.

Lemma key_used db l e : shows db l ->
  existsb (has_key (dedup_key e)) (ad_events db) = true <-> dedup_key e <> None /\ exists x, x ∈ l /\ dedup_key x = dedup_key e.
Proof.
  intros Hs. rewrite existsb_exists. split.
  - intros (r & Hin & Hk). apply list_elem_of_In in Hin. destruct (rows_in _ _ _ Hs Hin) as (x & Hx & Hr).
    unfold has_key in Hk. destruct (dedup_key e) as [k|]; [|done]. apply bool_decide_eq_true in Hk.
    split; [done|]. exists x. destruct Hr as (_ & _ & _ & _ & _ & Hd & _). by rewrite <- Hd.
  - intros (Hne & x & Hx & Hk). destruct (events_in _ _ _ Hs Hx) as (r & Hr & Hrow). exists r.
    rewrite <- list_elem_of_In. split; [done|]. unfold has_key. destruct (dedup_key e) as [k|]; [|done].
    apply bool_decide_eq_true. destruct Hrow as (_ & _ & _ & _ & _ & -> & _). done.
Qed.

Lemma appended_shows db l e agent payload :
  shows db l -> ad_seq db < max_int64 -> agent_for db agent (te_Role e) ->
  MarshalPayload (te_Payload e) = Some payload -> existsb (has_key (dedup_key e)) (ad_events db) = false ->
  shows (appended db e agent payload) (l ++ [with_id e (ad_seq db + 1)]).
Proof.
  intros Hs Hseq Ha Hp Hk. pose proof (sh_seq _ _ Hs) as Hr. unfold appended. set (id := ad_seq db + 1).
  assert (Hid : forall x, x ∈ l -> te_ID x < id) by (intros x Hx; destruct (sh_range _ _ Hs x Hx); lia).
  assert (Hnew : forall k c, (id, k, c) ∉ ad_edges db) by (intros k c Hin; pose proof (sh_edges_seq _ _ Hs _ Hin); simpl in *; lia).
  assert (Hkey : dedup_key e <> None -> forall x, x ∈ l -> dedup_key x <> dedup_key e).
  { intros Hne x Hx Heq. apply Bool.not_true_iff_false in Hk. apply Hk. apply (key_used db l e Hs). eauto. }
  split; simpl.
  - apply Forall2_app.
    + eapply Forall2_impl; [exact (sh_rows _ _ Hs)|]. intros r x. by apply row_for_mono.
    + constructor; [|constructor]. by split_and!.
  - rewrite fmap_app. apply StronglySorted_app. split_and!; [|apply Hs|repeat constructor].
    intros a b Hin Hb. apply list_elem_of_singleton in Hb as ->. apply list_elem_of_fmap in Hin as (x & -> & Hx). by apply Hid.
  - intros x [Hx|Hx%list_elem_of_singleton]%elem_of_app; [specialize (Hid x Hx); destruct (sh_range _ _ Hs x Hx); lia|subst x; simpl; lia].
  - unfold max_int64 in *. lia.
  - intros x [Hx|Hx%list_elem_of_singleton]%elem_of_app epoch; simpl; rewrite elem_of_app.
    + rewrite (sh_edges _ _ Hs x Hx epoch). split; [|by left]. intros [?|Hin]; [done|]. specialize (Hid x Hx).
      destruct (String.eqb_spec (te_EpochId e) ""); [by apply elem_of_nil in Hin|]. apply list_elem_of_singleton in Hin.
      injection Hin. lia.
    + subst x. simpl. destruct (String.eqb_spec (te_EpochId e) "") as [He|He].
      * split; [intros [Hin|Hin%elem_of_nil]; [by apply Hnew in Hin|done]|]. intros [Heq Hne]. congruence.
      * rewrite list_elem_of_singleton. split; [intros [Hin|Hin]; [by apply Hnew in Hin|]; by injection Hin as ->|].
        intros [-> _]. by right.
  - intros edge [Hin|Hin]%elem_of_app; [pose proof (sh_edges_seq _ _ Hs _ Hin); lia|].
    destruct (String.eqb_spec (te_EpochId e) ""); [by apply elem_of_nil in Hin|].
    apply list_elem_of_singleton in Hin as ->. simpl. lia.
  - apply NoDup_app. split_and!; [apply Hs| |by destruct (String.eqb _ _); [constructor|apply NoDup_singleton]].
    intros edge Hin Hin'. destruct (String.eqb _ _); [by apply elem_of_nil in Hin'|].
    apply list_elem_of_singleton in Hin' as ->. by apply Hnew in Hin.
  - apply Hs.
  - intros x y [Hx|Hx%list_elem_of_singleton]%elem_of_app [Hy|Hy%list_elem_of_singleton]%elem_of_app Hne Heq.
    + by apply (sh_keys _ _ Hs).
    + subst y. change (dedup_key (with_id e id)) with (dedup_key e) in Heq. exfalso. apply (Hkey ltac:(congruence) x Hx Heq).
    + subst x. change (dedup_key (with_id e id)) with (dedup_key e) in *. exfalso. by apply (Hkey Hne y Hy).
    + by subst.
Qed.

(** An effective insert and the edge behind it are one append. *)
Lemma edge_appended db e agent payload db2 id :
  existsb (has_key (dedup_key e)) (ad_events db) = false ->
  (forall edge, edge ∈ ad_edges db -> edge.1.1 <= ad_seq db) ->
  insert_event db e agent payload = Some (db2, id, 1%nat) ->
  id = ad_seq db + 1 /\ ad_seq db <> max_int64
  /\ (if String.eqb (te_EpochId e) "" then db2 else add_edge db2 (id, "EpochContext", te_EpochId e))
     = appended db e agent payload.
Proof.
  intros Hk Hedge. unfold insert_event. rewrite Hk. destruct (Z.eqb_spec (ad_seq db) max_int64) as [|Hne]; [done|].
  intros [= <- <-]. split_and!; [done|done|]. unfold appended, add_edge. simpl.
  destruct (String.eqb (te_EpochId e) ""); [by rewrite app_nil_r|].
  rewrite bool_decide_eq_false_2; [done|]. intros Hin. specialize (Hedge _ Hin). simpl in Hedge. lia.
Qed.

(** The event is in the list once: the new one, or the one its key already had. *)
Definition recorded (l l' : list TrailEvent) (e : TrailEvent) (id : Z) : Prop :=
  (l' = l ++ [with_id e id] /\ forall x, x ∈ l -> dedup_key e <> None -> dedup_key x <> dedup_key e)
  \/ (l' = l /\ dedup_key e <> None /\ exists x, x ∈ l /\ dedup_key x = dedup_key e /\ te_ID x = id).

Lemma record_tx_ok o cache e payload db l db' agent id :
  shows db l -> cache_ok cache db -> MarshalPayload (te_Payload e) = Some payload ->
  record_tx o cache e payload db = Ok (db', (agent, id)) ->
  exists l', shows db' l' /\ recorded l l' e id /\ cache_ok (<[te_Role e := agent]> cache) db'
  /\ ad_agents db ⊆ ad_agents db'
  /\ ad_seq db' = (if existsb (has_key (dedup_key e)) (ad_events db) then ad_seq db else id)
  /\ (existsb (has_key (dedup_key e)) (ad_events db) = false -> id = ad_seq db + 1 /\ id <= max_int64 /\ l' = l ++ [with_id e id]).
Proof.
  intros Hs Hc Hp. unfold record_tx.
  destruct (resolveLegacyRoleAgentId o cache db (te_Role e)) as [[db1 ag]|] eqn:Hres; simpl; [|done].
  destruct (resolve_ok _ _ _ _ _ _ Hc Hres) as [Hreg Ha]. pose proof (registers_shows _ _ _ Hreg Hs) as Hs1.
  assert (Hag : ad_agents db ⊆ ad_agents db1) by apply Hreg.
  destruct Hreg as (Hev & Hsq & _ & _ & _). rewrite <- Hev, <- Hsq.
  assert (Hcache : forall db2, ad_agents db1 ⊆ ad_agents db2 -> cache_ok (<[te_Role e := ag]> cache) db2 /\ ad_agents db ⊆ ad_agents db2).
  { intros db2 Hsub. split; [|by etrans]. intros role x. destruct (decide (role = te_Role e)) as [->|Hr].
    - rewrite lookup_insert_eq. intros [= <-]. by eapply agent_for_mono.
    - rewrite lookup_insert_ne by done. intros Hx. eapply agent_for_mono; [|by apply Hc]. by etrans. }
  unfold ask. destruct (or_refuse o InsertEvent); simpl; [done|].
  destruct (insert_event db1 e ag payload) as [[[db2 rid] n]|] eqn:Hi; [|done].
  destruct (existsb (has_key (dedup_key e)) (ad_events db1)) eqn:Hk.
  - unfold insert_event in Hi. rewrite Hk in Hi. injection Hi as <- <- <-.
    pose proof (proj1 (key_used _ _ _ Hs1) Hk) as [Hne _]. rewrite (bool_decide_eq_false_2 _ Hne).
    destruct (or_refuse o RowsAffected); simpl; [done|]. destruct (or_refuse o FindReplay); simpl; [done|].
    destruct (List.find _ _) as [r|] eqn:Hf; [|done]. intros [= <- <- <-]. exists l.
    split_and!; [done| |by apply Hcache..|done|done]. right. split_and!; [done|done|].
    apply List.find_some in Hf as [Hin Hkey]. apply list_elem_of_In in Hin. destruct (rows_in _ _ _ Hs1 Hin) as (x & Hx & Hrow).
    exists x. unfold has_key in Hkey. destruct (dedup_key e) as [k|]; [|done]. apply bool_decide_eq_true in Hkey.
    destruct Hrow as (Hid & _ & _ & _ & _ & Hd & _). by rewrite <- Hd, <- Hid.
  - assert (n = 1%nat) as ->.
    { unfold insert_event in Hi. rewrite Hk in Hi. destruct (_ =? _); [done|]. by injection Hi. }
    destruct (edge_appended _ _ _ _ _ _ Hk (sh_edges_seq _ _ Hs1) Hi) as (-> & Hfull & Happ).
    assert (Hnot : forall x, x ∈ l -> dedup_key e <> None -> dedup_key x <> dedup_key e).
    { intros x Hx Hne Heq. apply Bool.not_true_iff_false in Hk. apply Hk. apply (key_used db1 l e Hs1). eauto. }
    pose proof (sh_seq _ _ Hs1) as Hr.
    destruct (if bool_decide (dedup_key e = None) then Ok false else match or_refuse o RowsAffected with Some e0 => Err e0 | None => Ok (1 =? 0)%nat end) as [[|]|] eqn:Hrep; simpl; [|  |done].
    { exfalso. revert Hrep. destruct (bool_decide _); [done|]. by destruct (or_refuse o RowsAffected). }
    destruct (or_refuse o LastInsertId); simpl; [done|].
    destruct (Z.leb_spec (ad_seq db1 + 1) 0); [lia|].
    intros Hrun. assert (db' = appended db1 e ag payload /\ agent = ag /\ id = ad_seq db1 + 1) as (-> & -> & ->).
    { rewrite <- Happ. destruct (String.eqb (te_EpochId e) ""); [by injection Hrun|].
      destruct (or_refuse o InsertEdge); [done|]. by injection Hrun. }
    exists (l ++ [with_id e (ad_seq db1 + 1)]). split_and!; [|by left|by apply Hcache..|done|intros _; split_and!; [done|lia|done]].
    apply appended_shows; [done|lia|done..].
Qed.

(** Other writers only append events and register agents. *)
Definition appends (f : AuditDb -> AuditDb) : Prop :=
  forall db l, shows db l -> (exists k, shows (f db) (l ++ k)) /\ ad_agents db ⊆ ad_agents (f db).
Lemma quiet_appends (env : nat -> Attempt AuditDb) j db l :
  (forall n, appends (aw_others (env n))) -> shows db l ->
  (exists k, shows (quiet env j db) (l ++ k)) /\ ad_agents db ⊆ ad_agents (quiet env j db).
Proof.
  intros Ho Hs. induction j as [|j ((k & IH) & Ha)]; simpl; [split; [exists []; by rewrite app_nil_r|done]|].
  destruct (Ho j _ _ IH) as ((k' & Hk) & Ha'). split; [exists (k ++ k'); by rewrite app_assoc|by etrans].
Qed.
End recording.

(** * Reading back *)
Section reading.
Context `{PayloadJson}.

(** What encoding/json documents of a marshalled object. *)
Definition payload_ok : Prop :=
  forall p text, MarshalPayload p = Some text -> UnmarshalPayload text = Some (Normal p).
(** An event as a query returns it. *)
Definition stored (e : TrailEvent) : TrailEvent :=
  mk_Event (te_ID e) (te_EpochId e) (te_Phase e) (te_Role e) (te_EventType e) (Normal (te_Payload e))
    (wrap64 (te_Timestamp e)) "".

Lemma strip_legacy role : stripLegacyRolePrefix (legacy_name role) = role.
Proof.
  unfold stripLegacyRolePrefix, legacy_name. rewrite (bytes_app legacyRoleAgentNamePrefix role).
  destruct (strip_prefix _ _) as [rest|] eqn:Hs.
  - apply strip_prefix_Some, app_inv_head in Hs as <-. apply of_to_bytes.
  - exfalso. enough (strip_prefix (to_bytes legacyRoleAgentNamePrefix) (to_bytes legacyRoleAgentNamePrefix ++ to_bytes role)
      = Some (to_bytes role)) by congruence. by apply strip_prefix_Some.
Qed.
Lemma legacy_name_inj a b : legacy_name a = legacy_name b -> a = b.
Proof. intros Heq. by rewrite <- (strip_legacy a), Heq, strip_legacy. Qed.
Lemma strip_automaton role : automaton_role role = true -> stripLegacyRolePrefix role = role.
Proof. intros (rest & Hr)%HasPrefix_spec. unfold stripLegacyRolePrefix. by rewrite Hr. Qed.
Lemma legacy_not_automaton role : automaton_role (legacy_name role) = false.
Proof. unfold automaton_role, legacy_name, HasPrefix. by rewrite (bytes_app legacyRoleAgentNamePrefix role). Qed.

Lemma find_unique {A B} `{EqDecision B} (f : A -> B) (p : A -> bool) l x :
  NoDup (f <$> l) -> x ∈ l -> (forall y, p y = bool_decide (f y = f x)) -> List.find p l = Some x.
Proof.
  intros Hn Hx Hp. induction l as [|y l IH]; [by apply elem_of_nil in Hx|]. simpl. rewrite Hp.
  apply NoDup_cons in Hn as [Hy Hn]. case_bool_decide as Hf.
  - apply elem_of_cons in Hx as [->|Hx]; [done|]. exfalso. apply Hy. rewrite Hf. by apply list_elem_of_fmap_2.
  - apply elem_of_cons in Hx as [->|Hx]; [done|]. by apply IH.
Qed.

Lemma agent_name_for db agent role :
  NoDup (ag_id <$> ad_agents db) -> agent_for db agent role ->
  exists name, agent_name db agent = Some name /\ (name = legacy_name role \/ (automaton_role role = true /\ name = role)).
Proof.
  intros Hn (a & sw & Ha & <- & Hsw & Hname). exists (sw_name sw). split; [|exact Hname]. unfold agent_name.
  rewrite (find_unique ag_id _ _ a Hn Ha); [by rewrite Hsw|]. intros y.
  destruct (String.eqb_spec (ag_id y) (ag_id a)); by case_bool_decide.
Qed.

Lemma filter_one {A} `{EqDecision A} (x : A) l : NoDup l ->
  List.filter (fun y => bool_decide (y = x)) l = if bool_decide (x ∈ l) then [x] else [].
Proof.
  intros Hn. induction l as [|y l IH]; [done|]. apply NoDup_cons in Hn as [Hy Hn]. simpl. rewrite (IH Hn).
  destruct (decide (y = x)) as [->|Hyx].
  - by rewrite (bool_decide_eq_true_2 (x = x)), (bool_decide_eq_false_2 (x ∈ l)), (bool_decide_eq_true_2 (x ∈ x :: l)) by (done || left).
  - rewrite (bool_decide_eq_false_2 (y = x)) by done. rewrite (bool_decide_ext (x ∈ y :: l) (x ∈ l)); [done|].
    rewrite elem_of_cons. naive_solver.
Qed.

Lemma legacy_name_neq role : legacy_name role <> role.
Proof.
  intros E. apply (f_equal (fun s => length (to_bytes s))) in E. unfold legacy_name in E.
  rewrite (bytes_app legacyRoleAgentNamePrefix role), length_app in E.
  change (length (to_bytes legacyRoleAgentNamePrefix)) with 20%nat in E. lia.
Qed.

(** The role filters whose rows all have the name the query compares with. *)
Definition plain_filter (role : option string) : Prop :=
  match role with Some r => automaton_role r = false | None => True end.
(** The row is attributed to the built-in automaton of its role, which the query
    by role does not look for. *)
Definition builtin_row (db : AuditDb) (r : AuditRow) (e : TrailEvent) : bool :=
  bool_decide (agent_name db (ev_agent r) = Some (te_Role e)).
Definition builtin_event (db : AuditDb) (e : TrailEvent) : bool :=
  existsb (fun r => (ev_id r =? te_ID e) && builtin_row db r e) (ad_events db).
(** The events a query with this role filter can find. *)
Definition findable (db : AuditDb) (role : option string) (e : TrailEvent) : bool :=
  match role with Some _ => negb (builtin_event db e) | None => true end.

Lemma rows_sorted db l : shows db l -> StronglySorted Z.lt (ev_id <$> ad_events db).
Proof.
  intros Hs. pose proof (sh_sorted _ _ Hs) as Hsort. pose proof (sh_rows _ _ Hs) as HF.
  assert (ev_id <$> ad_events db = te_ID <$> l) as ->; [|done].
  clear -HF. induction HF as [|r e rows l [Hid _] _ IH]; [done|]. rewrite !fmap_cons. by f_equal.
Qed.

Lemma builtin_event_row db l r e :
  shows db l -> r ∈ ad_events db -> ev_id r = te_ID e -> builtin_event db e = builtin_row db r e.
Proof.
  intros Hs Hr Hid. pose proof (rows_sorted _ _ Hs) as Hsort.
  assert (Hone : forall r', r' ∈ ad_events db -> ev_id r' = te_ID e -> r' = r).
  { intros r' Hr' Hid'. apply list_elem_of_lookup in Hr as [i Hi], Hr' as [j Hj].
    assert (i = j) as ->; [|congruence].
    apply (NoDup_lookup (ev_id <$> ad_events db) i j (ev_id r)).
    - clear -Hsort. induction Hsort as [|x xs _ IH Hall]; constructor; [|done].
      intros Hin. rewrite List.Forall_forall in Hall. apply list_elem_of_In in Hin. specialize (Hall x Hin). lia.
    - by rewrite list_lookup_fmap, Hi.
    - rewrite list_lookup_fmap, Hj. simpl. congruence. }
  apply eq_true_iff_eq. unfold builtin_event. rewrite existsb_exists. split.
  - intros (r' & Hin & [Hi%Z.eqb_eq Hb]%andb_true_iff). apply list_elem_of_In in Hin. by rewrite <- (Hone r').
  - intros Hb. exists r. rewrite <- list_elem_of_In, Hb, andb_true_r. by rewrite Z.eqb_eq.
Qed.

Lemma row_selected_for db phase role r e :
  NoDup (ag_id <$> ad_agents db) -> row_for db r e ->
  row_selected db phase role r
  = (match phase with Some p => String.eqb (te_Phase e) p | None => true end)
    && (match role with Some x => String.eqb (te_Role e) x | None => true end)
    && (match role with Some _ => negb (builtin_row db r e) | None => true end).
Proof.
  intros Hn (_ & Hp & _ & _ & _ & _ & Ha). unfold row_selected, builtin_row. rewrite Hp, <- andb_assoc. f_equal.
  destruct role as [x|]; [|done]. destruct (agent_name_for _ _ _ Hn Ha) as (name & -> & Hname).
  pose proof (legacy_name_neq (te_Role e)) as Hneq.
  destruct Hname as [->|[Hau ->]].
  - rewrite (bool_decide_eq_false_2 (Some (legacy_name (te_Role e)) = Some (te_Role e))) by congruence.
    rewrite andb_true_r. destruct (String.eqb_spec (te_Role e) x) as [->|Hne]; [by apply bool_decide_eq_true_2|].
    apply bool_decide_eq_false_2. intros E%(inj Some)%legacy_name_inj. done.
  - rewrite (bool_decide_eq_true_2 (Some (te_Role e) = Some (te_Role e))) by done. rewrite andb_false_r.
    apply bool_decide_eq_false_2. intros E%(inj Some). rewrite E, legacy_not_automaton in Hau. done.
Qed.

(** A plain filter excludes no built-in automaton's row that it could match. *)
Lemma plain_findable db l role e :
  plain_filter role -> shows db l -> e ∈ l ->
  match role with Some x => String.eqb (te_Role e) x | None => true end = true -> findable db role e = true.
Proof.
  intros Hrole Hs He Hx. destruct role as [x|]; [|done]. simpl in *. apply String.eqb_eq in Hx as <-.
  destruct (events_in _ _ _ Hs He) as (r & Hr & Hrow). pose proof Hrow as (Hid & _ & _ & _ & _ & _ & Ha).
  rewrite (builtin_event_row _ _ _ _ Hs Hr Hid). unfold builtin_row.
  destruct (agent_name_for _ _ _ (sh_agents _ _ Hs) Ha) as (name & -> & [->|[Hau _]]); [|congruence].
  rewrite bool_decide_eq_false_2; [done|]. intros E%(inj Some). by apply legacy_name_neq in E.
Qed.

Lemma filter_every {A} (p : A -> bool) l : (forall x, x ∈ l -> p x = true) -> List.filter p l = l.
Proof.
  induction l as [|x l IH]; intros Hp; [done|]. simpl. rewrite (Hp x) by left. rewrite IH; [done|].
  intros y Hy. apply Hp. by right.
Qed.
Lemma read_row_for db r e : NoDup (ag_id <$> ad_agents db) -> payload_ok -> row_for db r e ->
  read_row db (te_EpochId e) r = Some (stored e).
Proof.
  intros Hn Hp (Hid & Hph & Hty & Hts & Hm & _ & Ha). unfold read_row. rewrite (Hp _ _ Hm).
  destruct (agent_name_for _ _ _ Hn Ha) as (name & -> & Hname). unfold stored. simpl.
  rewrite Hid, Hph, Hty, Hts. do 2 f_equal. destruct Hname as [->|[Hau ->]]; [apply strip_legacy|by apply strip_automaton].
Qed.

Lemma query_rows db epoch phase role rows l :
  NoDup (ag_id <$> ad_agents db) -> NoDup (ad_edges db) -> payload_ok -> epoch <> "" ->
  Forall2 (fun r e => row_for db r e /\ edges_for db e /\ builtin_event db e = builtin_row db r e) rows l ->
  mapM (read_row db epoch)
    (concat ((fun r => (fun _ => r) <$> List.filter (fun edge => bool_decide (edge = (ev_id r, "EpochContext", epoch))) (ad_edges db))
       <$> List.filter (row_selected db phase role) rows))
  = Some (stored <$> List.filter (fun e => matches epoch phase role e && findable db role e) l).
Proof.
  intros Hn Hd Hp He HF. induction HF as [|r e rows l (Hr & Hedge & Hb) HF IH]; [done|]. simpl.
  rewrite (row_selected_for _ _ _ _ _ Hn Hr). unfold matches at 1, findable at 1. rewrite Hb, <- !andb_assoc.
  destruct (_ && (_ && _)) eqn:Hsel; rewrite ?andb_false_r, ?andb_true_r; [|exact IH]. cbn [fmap list_fmap concat].
  rewrite (filter_one _ _ Hd). destruct Hr as [Hid Hr]. rewrite Hid.
  destruct (String.eqb_spec (te_EpochId e) epoch) as [<-|Hne].
  - rewrite bool_decide_eq_true_2 by (apply Hedge; done). cbn [fmap list_fmap app mapM].
    rewrite (read_row_for db r e Hn Hp (conj Hid Hr)). simpl. by rewrite IH.
  - rewrite bool_decide_eq_false_2; [exact IH|]. intros [Heq _]%Hedge. done.
Qed.
End reading.

(** * Properties *)
Section properties.
Context `{PayloadJson}.

(** The committed attempt of a call, on what the others had written by then. *)
Lemma value_recorded env orc cache e payload db l db' closure :
  (forall n, appends (aw_others (env n))) -> shows db l -> cache_ok cache db ->
  MarshalPayload (te_Payload e) = Some payload ->
  value_written env (fun n => record_tx (orc n) cache e payload) db db' closure ->
  exists j others l' agent id, shows (quiet env j db) (l ++ others) /\ shows db' l' /\ recorded (l ++ others) l' e id
  /\ cache_ok (<[te_Role e := agent]> cache) db' /\ cache_ok cache db' /\ closure = Some (agent, id).
Proof.
  intros Ho Hs Hc Hp (j & [agent id] & -> & Hrun).
  destruct (quiet_appends env (S j) db l Ho Hs) as ((k & Hk) & Ha). pose proof Hk as Hk'. simpl in Hk', Ha.
  pose proof (cache_ok_mono _ _ _ Ha Hc) as Hck.
  destruct (record_tx_ok _ _ _ _ _ _ _ _ _ Hk' Hck Hp Hrun) as (l' & Hs' & Hrec & Hca & Hag & _ & _).
  exists (S j), k, l', agent, id. split_and!; try done. by eapply cache_ok_mono.
Qed.

(** C26: An event is recorded exactly once.  Whatever contention, faults and other
    writers a call meets, the tables it leaves show what the others had written at
    some point of the call, and after that, when the call returns an identity,
    exactly one row more, the event under that identity, and only if no row had
    its deduplication key; if one had, the tables gain nothing and the identity is
    that row's. An event without a key is always one row more. A call that reports
    that its write committed has the same effect; one that reports doubt has that
    effect or none; every other error leaves the tables as the others left them,
    or, before the first attempt, untouched. *)
Theorem event_recorded_once fuel p caller tier t0 env orc cache e db l db' cache' r :
  (forall n, appends (aw_others (env n))) -> shows db l -> cache_ok cache db ->
  RecordEventReturningId fuel p caller tier t0 env orc cache e db = Some (db', cache', r) ->
  exists j others l', shows (quiet env j db) (l ++ others) /\ shows db' l' /\ cache_ok cache' db'
  /\ match r with
     | Ok id => recorded (l ++ others) l' e id
     | Err (WriteError (WriteFailed _ Committed _)) => exists id, recorded (l ++ others) l' e id
     | Err (WriteError (WriteFailed _ Uncertain _)) =>
         db' = quiet env j db /\ l' = l ++ others \/ exists id, recorded (l ++ others) l' e id
     | Err (WriteError (WriteFailed tries Discarded _)) => j = tries /\ db' = quiet env j db /\ l' = l ++ others
     | Err (WriteError (WriteFailed _ Unchanged _)) => db' = quiet env j db /\ l' = l ++ others
     | Err _ => db' = db /\ l' = l
     end.
Proof.
  intros Ho Hs Hc. unfold RecordEventReturningId.
  assert (Hrest : exists others, shows (quiet env 0 db) (l ++ others)) by (exists []; by rewrite app_nil_r).
  assert (Hquiet : forall j, exists k, shows (quiet env j db) (l ++ k) /\ cache_ok cache (quiet env j db)).
  { intros j. destruct (quiet_appends env j db l Ho Hs) as ((k & Hk) & Ha). exists k. split; [done|by eapply cache_ok_mono]. }
  destruct (String.eqb (te_Role e) "").
  { intros [= <- <- <-]. destruct Hrest as [k Hk]. by exists 0%nat, k, l. }
  destruct (MarshalPayload (te_Payload e)) as [payload|] eqn:Hp;
    [|intros [= <- <- <-]; destruct Hrest as [k Hk]; by exists 0%nat, k, l].
  destruct (withAuditWrite _ _ _ _ _ _ _) as [[[db1 closure] out]|] eqn:Hw; [|done].
  apply running_outcome in Hw.
  pose proof (fun Hv => value_recorded env orc cache e payload db l db1 closure Ho Hs Hc Hp Hv) as Hkept.
  destruct out as [|tries|tries impact cause].
  - intros [= <- <- <-]. rewrite Hw. destruct Hrest as [k Hk]. by exists 0%nat, k, l.
  - destruct (Hkept Hw) as (j & k & l' & agent & id & Hk & Hs' & Hrec & Hca & Hcold & ->).
    intros [= <- <- <-]. exists j, k, l'. split_and!; [done|done|by destruct (String.eqb agent "")|done].
  - intros [= <- <- <-]. destruct impact.
    + destruct Hw as [j Hj]. destruct (Hquiet j) as (k & ? & ?). exists j, k, (l ++ k). by rewrite Hj.
    + destruct (Hquiet tries) as (k & ? & ?). exists tries, k, (l ++ k). by rewrite Hw.
    + destruct (Hkept Hw) as (j & k & l' & agent & id & Hk & Hs' & Hrec & _ & Hcold & _).
      exists j, k, l'. by eauto.
    + destruct Hw as [Hj|Hw].
      * destruct (Hquiet tries) as (k & ? & ?). exists tries, k, (l ++ k). rewrite Hj. by split_and!; [..|left].
      * destruct (Hkept Hw) as (j & k & l' & agent & id & Hk & Hs' & Hrec & _ & Hcold & _).
        exists j, k, l'. split_and!; [done..|right; by exists id].
Qed.

(** A query returns exactly the matching events it can find.  For an epoch and any
    filter the join over the tables gives the matching events of the list in
    order, each under its recorded role, with its payload as JSON keeps it; with
    a role filter, without those attributed to the built-in automaton of the role. *)
Theorem query_exact db l epoch phase role :
  payload_ok -> shows db l -> epoch <> "" ->
  QueryEvents db epoch phase role
  = Some (stored <$> List.filter (fun e => matches epoch phase role e && findable db role e) l).
Proof.
  intros Hp Hs He. unfold QueryEvents. apply query_rows; [apply Hs|apply Hs|done..|].
  apply Forall2_same_length_lookup. split; [by eapply Forall2_length, (sh_rows _ _ Hs)|].
  intros i r x Hr Hx. pose proof (Forall2_lookup_lr _ _ _ _ _ _ (sh_rows _ _ Hs) Hr Hx) as Hrow.
  split_and!; [done|apply (sh_edges _ _ Hs); by eapply list_elem_of_lookup_2|].
  eapply builtin_event_row; [done|by eapply list_elem_of_lookup_2|apply Hrow].
Qed.

(** ** Both trails on one history *)

(** The first event of every deduplication key, and every event without one. *)
Definition same_key (e x : TrailEvent) : bool :=
  match dedup_key e with Some k => bool_decide (dedup_key x = Some k) | None => false end.
Definition keep_first (acc : list TrailEvent) (e : TrailEvent) : list TrailEvent :=
  if existsb (same_key e) acc then acc else acc ++ [e].
Definition first_of (l : list TrailEvent) : list TrailEvent := fold_left keep_first l [].
Definition in_memory (l : list TrailEvent) : InMemoryAuditTrail :=
  fold_left (fun m e => (memory_record m e).1) l NewInMemoryAuditTrail.

(** [l] was recorded on a new store, one call after the other, each under its own
    oracle, while agents were registered. *)
Inductive sequential : list TrailEvent -> gmap string string -> AuditDb -> Prop :=
  | seq_empty : sequential [] ∅ empty_audit
  | seq_record l cache db o e payload db' agent id :
      sequential l cache db -> MarshalPayload (te_Payload e) = Some payload ->
      record_tx o cache e payload db = Ok (db', (agent, id)) ->
      sequential (l ++ [e]) (<[te_Role e := agent]> cache) db'
  | seq_register l cache db db' : sequential l cache db -> registers db db' -> sequential l cache db'.

Lemma in_memory_snoc l e : in_memory (l ++ [e]) = (memory_record (in_memory l) e).1.
Proof. unfold in_memory. by rewrite fold_left_app. Qed.
Lemma first_of_snoc l e : first_of (l ++ [e]) = keep_first (first_of l) e.
Proof. unfold first_of. by rewrite fold_left_app. Qed.
Lemma in_memory_keys l : dedup_key <$> mm_events (in_memory l) = dedup_key <$> l.
Proof.
  induction l as [|e l IH] using rev_ind; [done|]. rewrite in_memory_snoc. simpl. rewrite !fmap_app, IH. done.
Qed.
Lemma same_key_memory e l : existsb (same_key e) (mm_events (in_memory l)) = existsb (same_key e) l.
Proof.
  assert (Hk : forall m, existsb (same_key e) m
    = existsb (fun k => match dedup_key e with Some x => bool_decide (k = Some x) | None => false end) (dedup_key <$> m)).
  { intros m. induction m as [|x m IH]; [done|]. simpl. by rewrite IH. }
  by rewrite !Hk, in_memory_keys.
Qed.
Lemma has_key_same db l e : shows db l -> existsb (has_key (dedup_key e)) (ad_events db) = existsb (same_key e) l.
Proof.
  intros Hs. apply eq_true_iff_eq. rewrite (key_used db l e Hs), existsb_exists. setoid_rewrite <- list_elem_of_In.
  unfold same_key. destruct (dedup_key e) as [k|]; [|naive_solver]. setoid_rewrite bool_decide_eq_true. naive_solver.
Qed.

Lemma sequential_memory l cache db :
  sequential l cache db ->
  shows db (mm_events (in_memory (first_of l))) /\ cache_ok cache db
  /\ ad_seq db = mm_lastEventId (in_memory (first_of l)).
Proof.
  induction 1 as [|l cache db o e payload db' agent id _ (Hs & Hc & Hq) Hp Hrun|l cache db db' _ (Hs & Hc & Hq) Hreg].
  - split_and!; [apply empty_shows|done|done].
  - destruct (record_tx_ok _ _ _ _ _ _ _ _ _ Hs Hc Hp Hrun) as (l' & Hs' & Hrec & Hca & _ & Hseq & Hnew).
    rewrite first_of_snoc. unfold keep_first. rewrite <- same_key_memory.
    rewrite (has_key_same _ _ _ Hs) in Hseq, Hnew. destruct (existsb (same_key e) _) eqn:Hk.
    + destruct Hrec as [[_ Hno]|[-> _]]; [|split_and!; [done|done|congruence]].
      exfalso. apply existsb_exists in Hk as (x & Hx & Hk). apply list_elem_of_In in Hx. unfold same_key in Hk.
      destruct (dedup_key e) as [k|] eqn:Hde; [|done]. apply bool_decide_eq_true in Hk. by apply (Hno x Hx).
    + destruct (Hnew eq_refl) as (-> & Hmax & ->). rewrite in_memory_snoc. unfold memory_record. simpl. rewrite <- Hq.
      pose proof (sh_seq _ _ Hs). rewrite wrap64_id by (unfold in_int64, min_int64 in *; lia). by split_and!.
  - split_and!; [by eapply registers_shows|eapply cache_ok_mono; [apply Hreg|done]|].
    destruct Hreg as (_ & -> & _). done.
Qed.

(** C27: The durable trail against the in-memory one.  After any history of calls
    on a new store, every query of an epoch, under any filters, answers with the
    events the in-memory trail answers with when it is given each deduplication key
    once, in the same order and under the same identities, except that a query by
    role does not find the events attributed to the built-in automaton of that role;
    for the role of no automaton, and without a role filter, nothing is excepted.
    The in-memory trail itself does not deduplicate. What the tables answer of an
    event is [stored]: the deduplication key is not returned, and the payload is the
    one JSON keeps. *)
Theorem trails_agree l cache db epoch phase role :
  payload_ok -> sequential l cache db -> epoch <> "" ->
  let answer := memory_query (in_memory (first_of l)) epoch phase role in
  QueryEvents db epoch phase role = Some (stored <$> List.filter (findable db role) answer)
  /\ (plain_filter role -> QueryEvents db epoch phase role = Some (stored <$> answer)).
Proof.
  intros Hp (Hs & _ & _)%sequential_memory He answer.
  assert (HQ : QueryEvents db epoch phase role = Some (stored <$> List.filter (findable db role) answer)).
  { rewrite (query_exact db _ epoch phase role Hp Hs He). unfold answer, memory_query. by rewrite filter_filter. }
  split; [exact HQ|]. intros Hrole. rewrite HQ. do 2 f_equal. apply filter_every. intros e Hin.
  unfold answer, memory_query in Hin. apply list_elem_of_In, List.filter_In in Hin as [Hin Hm].
  eapply plain_findable; [done|exact Hs|by apply list_elem_of_In|].
  unfold matches in Hm. by apply andb_true_iff in Hm as [_ Hm].
Qed.
End properties.

(** ** Witnesses: plain payloads, a replayed emission, a built-in automaton *)
Definition text_payloads : PayloadJson :=
  {| Payload := string; MarshalPayload s := Some s; UnmarshalPayload s := Some s; Normal s := s |}.
#[local] Existing Instance text_payloads.
Definition calm (uuid : string) : Oracle := mk_Oracle (fun _ => None) (Some uuid).
Definition vote_event : TrailEvent := mk_Event 0 "E1" "p4" "reviewer" "VoteRecorded" "{}" 70 "E1:p4:1".
Definition note_event : TrailEvent := mk_Event 0 "E1" "p4" "pasture/automaton/check" "ConstraintChecked" "{}" 80 "".
Definition automaton_store : AuditDb :=
  mk_AuditDb [] 0 [] [mk_Agent "a/1" 2 (Some (mk_Software "pasture/automaton/check" "v1" "daemon"))].
Definition recorded_by (cache : gmap string string) (uuid : string) (e : TrailEvent) (db : AuditDb) : AuditDb :=
  match record_tx (calm uuid) cache e "{}" db with Ok (db', _) => db' | Err _ => db end.
Definition store1 : AuditDb := recorded_by ∅ "u1" vote_event automaton_store.
Definition cache1 : gmap string string := {["reviewer" := "pasture/u1"]}.
Definition store2 : AuditDb := recorded_by cache1 "u2" vote_event store1.
Definition store3 : AuditDb := recorded_by cache1 "u3" note_event store2.

Lemma text_payload_ok : payload_ok.
Proof. by intros p text [= ->]. Qed.
Lemma automaton_registered : registers empty_audit automaton_store.
Proof. split_and!; try done; simpl; [set_solver|]. intros _. apply NoDup_singleton. Qed.
Lemma sequential3 : sequential [vote_event; vote_event; note_event] (<["pasture/automaton/check" := "a/1"]> cache1) store3.
Proof.
  apply (seq_record [vote_event; vote_event] cache1 store2 (calm "u3") note_event "{}" store3 "a/1" 2); [|done|vm_compute; reflexivity].
  replace cache1 with (<["reviewer" := "pasture/u1"]> cache1) by (vm_compute; reflexivity).
  apply (seq_record [vote_event] cache1 store1 (calm "u2") vote_event "{}" store2 "pasture/u1" 1); [|done|vm_compute; reflexivity].
  apply (seq_record [] ∅ automaton_store (calm "u1") vote_event "{}" store1 "pasture/u1" 1); [|done|vm_compute; reflexivity].
  eapply seq_register; [constructor|apply automaton_registered].
Qed.

(** The first attempt meets a busy database, the second commits. *)
Definition busy_trail (n : nat) : Attempt AuditDb :=
  let t := Z.of_nat n * 100 * ms in
  {| aw_others db := db; aw_conn := None; aw_window_at := t; aw_pragma _ := None; aw_begin_at := t;
     aw_begin := if (n =? 0)%nat then Some [OtherCause; Coded 517] else None;
     aw_op db := Ok db; aw_op_at := t; aw_commit := None; aw_durable := false;
     aw_rollback_at := t; aw_rollback := None; aw_restore _ _ := Restored; aw_cleanup_expired := false;
     aw_retire := true; aw_retire_again := true; aw_close := Closed; aw_warn := None;
     aw_end := t; aw_wake wait := if wait <=? 100 * ms then Some (t + 100 * ms) else None |}.

Lemma event_recorded_once_witness :
  exists l' cache', RecordEventReturningId 37 zero_policy (Some (None, no_cancel)) (5000 * ms) 0 busy_trail
      (fun _ => calm "u9") ∅ vote_event automaton_store
    = Some (recorded_by ∅ "u9" vote_event automaton_store, cache', Ok 1)
  /\ shows (recorded_by ∅ "u9" vote_event automaton_store) l' /\ exists others, recorded ([] ++ others) l' vote_event 1.
Proof.
  destruct (RecordEventReturningId 37 zero_policy (Some (None, no_cancel)) (5000 * ms) 0 busy_trail
      (fun _ => calm "u9") ∅ vote_event automaton_store) as [[[db' cache'] r]|] eqn:Hrun; [|vm_compute in Hrun; done].
  assert (db' = recorded_by ∅ "u9" vote_event automaton_store /\ r = Ok 1) as [-> ->]
    by (vm_compute in Hrun; injection Hrun as <- _ <-; split; vm_compute; reflexivity).
  destruct (event_recorded_once 37 zero_policy (Some (None, no_cancel)) (5000 * ms) 0 busy_trail (fun _ => calm "u9")
    ∅ vote_event automaton_store [] _ _ _ ltac:(intros n db l Hs; split; [exists []; by rewrite app_nil_r|done])
    (registers_shows _ _ _ automaton_registered empty_shows) ltac:(done) Hrun)
    as (j & others & l' & _ & Hs & _ & Hrec).
  exists l', cache'. split_and!; [done|exact Hs|]. exists others. exact Hrec.
Defined.

Lemma query_exact_witness :
  QueryEvents store3 "E1" (Some "p4") (Some "reviewer") = Some [stored (with_id vote_event 1)].
Proof.
  refine (query_exact store3 [with_id vote_event 1; with_id note_event 2] "E1" (Some "p4") (Some "reviewer")
    text_payload_ok _ _); [|done].
  exact (proj1 (sequential_memory _ _ _ sequential3)).
Defined.

Lemma trails_agree_witness :
  QueryEvents store3 "E1" None None = Some [stored (with_id vote_event 1); stored (with_id note_event 2)]
  /\ QueryEvents store3 "E1" None (Some "pasture/automaton/check") = Some [].
Proof.
  split.
  - exact (proj2 (trails_agree _ _ _ "E1" None None text_payload_ok sequential3 ltac:(done)) I).
  - exact (proj1 (trails_agree _ _ _ "E1" None (Some "pasture/automaton/check") text_payload_ok sequential3 ltac:(done))).
Defined.

(** The events of a built-in automaton are listed under its role, and not found
    by it; the in-memory trail finds them. *)
Example automaton_role_not_found :
  option_map (map te_Role) (QueryEvents store3 "E1" None None) = Some ["reviewer"; "pasture/automaton/check"]
  /\ QueryEvents store3 "E1" None (Some "pasture/automaton/check") = Some []
  /\ length (memory_query (in_memory [vote_event; note_event]) "E1" None (Some "pasture/automaton/check")) = 1%nat.
Proof. vm_compute. done. Qed.
