(* ===== verification/AuditSessions.v ===== *)
(** AuditSessions: the transcript entries of a session in the audit trail and its
    two backends (internal/audit/sqlite.go, memory.go; SessionEntry of
    pkg/protocol/session_entry.go).

    A batch of entries is inserted row by row in one transaction of
    [AuditWriter]; the in-memory trail appends it.  A query filters by session
    and orders by entry index, and by insertion where the index is equal. *)

From Stdlib Require Import ZArith Lia Ascii String Sorting.Sorted.
From stdpp Require Import base tactics list strings sorting.
From S2P Require Import Prelude GoStrings Vocabulary AuditWriter.
Local Open Scope string_scope.
Local Open Scope list_scope.
Local Open Scope Z_scope.

(** ** Data *)

(** protocol.SessionEntry; [Flag] is bool in the program and an integer in the
    columns of session_entries. *)
Record SessionEntry (Flag : Type) := mk_Entry {
  se_SessionId : string;
  se_EntryIndex : Z;
  se_Provider : string;
  se_EntryType : string;
  se_Role : string;
  se_TimestampMs : option Z;
  se_ContentPreview : option string;
  se_TokensIn : option Z;
  se_TokensOut : option Z;
  se_HasToolUse : Flag;
  se_ToolKind : option string;
  se_ToolNamesCsv : option string;
  se_HasThinking : Flag;
  se_IsError : Flag;
  se_StopReason : option string;
  se_RawByteLength : option Z;
  se_ToolCallId : option string;
  se_EntryId : option string;
  se_ParentEntryId : option string;
  se_Depth : Z;
  se_ParentIndex : option Z;
  se_ToolInput : option string;
  se_ToolOutput : option string;
  se_Extra : option string;
}.
Arguments mk_Entry {Flag}.
Arguments se_SessionId {Flag}.
Arguments se_EntryIndex {Flag}.

Definition with_flags {A B} (f : A -> B) (e : SessionEntry A) : SessionEntry B :=
  match e with
  | mk_Entry sid idx provider type role ts preview tin tout tool kind names thinking err stop raw call eid parent depth pidx
      input output extra =>
      mk_Entry sid idx provider type role ts preview tin tout (f tool) kind names (f thinking) (f err) stop raw call eid parent
        depth pidx input output extra
  end.
Definition boolToInt (b : bool) : Z := if b then 1 else 0.
(** What the statement writes and what the row scan reads. *)
Definition to_columns : SessionEntry bool -> SessionEntry Z := with_flags boolToInt.
Definition of_columns : SessionEntry Z -> SessionEntry bool := with_flags (fun n => negb (n =? 0)).

(** session_entries with its AUTOINCREMENT counter. *)
Record EntryTable := mk_Table { et_rows : list (Z * SessionEntry Z); et_seq : Z }.
Definition empty_entries : EntryTable := mk_Table [] 0.

(** ** Recording *)
Definition insert_entry (tb : EntryTable) (e : SessionEntry bool) : result Error EntryTable :=
  if et_seq tb =? max_int64 then Err [Coded 13]
  else Ok (mk_Table (et_rows tb ++ [(et_seq tb + 1, to_columns e)]) (et_seq tb + 1)).
(** The loop over the prepared statement; [refuse i] is the fault the database
    has for the [i]-th row. *)
Fixpoint insert_entries (refuse : nat -> option Error) (i : nat) (entries : list (SessionEntry bool)) (tb : EntryTable)
    : result Error EntryTable :=
  match entries with
  | [] => Ok tb
  | e :: rest =>
      match refuse i with
      | Some err => Err err
      | None => tb' ← insert_entry tb e; insert_entries refuse (S i) rest tb'
      end
  end.

(** The statement is prepared first; [env] and [orc] are the attempts. *)
Record EntryOracle := mk_EntryOracle { eo_prepare : option Error; eo_insert : nat -> option Error }.
Definition entries_tx (o : EntryOracle) (entries : list (SessionEntry bool)) (tb : EntryTable)
    : result Error (EntryTable * unit) :=
  match eo_prepare o with
  | Some err => Err err
  | None => tb' ← insert_entries (eo_insert o) 0 entries tb; Ok (tb', tt)
  end.
Definition RecordSessionEntries (fuel : nat) (p : auditWriterPolicy) (caller : option (option Z * (Z -> bool)))
    (tier t0 : Z) (env : nat -> Attempt EntryTable) (orc : nat -> EntryOracle) (entries : list (SessionEntry bool))
    (tb : EntryTable) : option (EntryTable * result WriteOutcome unit) :=
  match entries with
  | [] => Some (tb, Ok tt)
  | _ =>
      match withAuditWrite fuel p caller tier t0 (fun n => running (env n) (entries_tx (orc n) entries)) (tb, None) with
      | None => None
      | Some ((tb', _), Written _) => Some (tb', Ok tt)
      | Some ((tb', _), out) => Some (tb', Err out)
      end
  end.

(** ** Querying *)

(** ORDER BY entry_index ASC, id ASC. *)
Definition row_le (a b : Z * SessionEntry Z) : Prop :=
  se_EntryIndex a.2 < se_EntryIndex b.2 \/ (se_EntryIndex a.2 = se_EntryIndex b.2 /\ a.1 <= b.1).
#[global] Instance row_le_dec : RelDecision row_le.
Proof. intros a b. unfold row_le. apply _. Defined.
Definition QuerySessionEntries (tb : EntryTable) (session : string) : list (SessionEntry bool) :=
  (fun r => of_columns r.2) <$>
    merge_sort row_le (List.filter (fun r => String.eqb (se_SessionId r.2) session) (et_rows tb)).

(** sort.SliceStable by entry index: an element goes before the first one that
    is not smaller. *)
Fixpoint insert_stable (e : SessionEntry bool) (l : list (SessionEntry bool)) : list (SessionEntry bool) :=
  match l with
  | [] => [e]
  | x :: rest => if se_EntryIndex x <? se_EntryIndex e then x :: insert_stable e rest else e :: x :: rest
  end.
Definition SliceStable (l : list (SessionEntry bool)) : list (SessionEntry bool) := fold_right insert_stable [] l.
Definition memory_entries (l : list (SessionEntry bool)) (session : string) : list (SessionEntry bool) :=
  SliceStable (List.filter (fun e => String.eqb (se_SessionId e) session) l).
Definition memory_record_entries (l entries : list (SessionEntry bool)) : list (SessionEntry bool) :=
  match entries with [] => l | _ => l ++ entries end.

(** * The entries the table stands for *)
Record holds (tb : EntryTable) (l : list (SessionEntry bool)) : Prop := {
  ho_rows : snd <$> et_rows tb = to_columns <$> l;
  ho_sorted : StronglySorted Z.lt (fst <$> et_rows tb);
  ho_range : forall r, r ∈ et_rows tb -> r.1 <= et_seq tb;
}.

Lemma empty_holds : holds empty_entries [].
Proof. split; [done|constructor|]. by intros r ?%elem_of_nil. Qed.
Lemma of_to_columns e : of_columns (to_columns e) = e.
Proof. destruct e as [????????? [] ?? [] [] ??????????]; done. Qed.

Lemma insert_entry_holds tb tb' e l : holds tb l -> insert_entry tb e = Ok tb' -> holds tb' (l ++ [e]).
Proof.
  intros [Hr Hs Hle]. unfold insert_entry. destruct (_ =? _); [done|]. intros [= <-]. split; simpl.
  - by rewrite !fmap_app, Hr.
  - rewrite fmap_app. apply StronglySorted_app. split_and!; [|done|repeat constructor].
    intros x y Hx Hy. apply list_elem_of_singleton in Hy as ->. apply list_elem_of_fmap in Hx as (r & -> & Hr').
    specialize (Hle r Hr'). simpl. lia.
  - intros r [Hr'|Hr'%list_elem_of_singleton]%elem_of_app; [specialize (Hle r Hr'); lia|]. subst r. simpl. lia.
Qed.
Lemma insert_entries_holds refuse entries : forall i tb tb' l,
  holds tb l -> insert_entries refuse i entries tb = Ok tb' -> holds tb' (l ++ entries).
Proof.
  induction entries as [|e entries IH]; simpl; intros i tb tb' l Hl.
  - intros [= <-]. by rewrite app_nil_r.
  - destruct (refuse i); [done|]. destruct (insert_entry tb e) as [tb1|] eqn:Hi; simpl; [|done].
    intros Hrun. rewrite (cons_middle e l entries), app_assoc. eapply IH; [|exact Hrun]. by eapply insert_entry_holds.
Qed.
Lemma entries_tx_holds o entries tb tb' l v :
  holds tb l -> entries_tx o entries tb = Ok (tb', v) -> holds tb' (l ++ entries).
Proof.
  intros Hl. unfold entries_tx. destruct (eo_prepare o); [done|].
  destruct (insert_entries _ _ _ _) as [tb1|] eqn:Hi; simpl; [|done]. intros [= <- _]. by eapply insert_entries_holds.
Qed.

(** Other writers only append batches. *)
Definition entries_append (f : EntryTable -> EntryTable) : Prop :=
  forall tb l, holds tb l -> exists k, holds (f tb) (l ++ k).
Lemma quiet_entries (env : nat -> Attempt EntryTable) j tb l :
  (forall n, entries_append (aw_others (env n))) -> holds tb l -> exists k, holds (quiet env j tb) (l ++ k).
Proof.
  intros Ho Hl. induction j as [|j (k & IH)]; simpl; [exists []; by rewrite app_nil_r|].
  destruct (Ho j _ _ IH) as (k' & Hk). exists (k ++ k'). by rewrite app_assoc.
Qed.

(** * The two orders *)
#[global] Instance row_le_trans : Transitive row_le.
Proof. intros a b c. unfold row_le. lia. Qed.
#[global] Instance row_le_total : Total row_le.
Proof. intros a b. unfold row_le. lia. Qed.

(** The stable sort on rows: the same insertions, row identities kept. *)
Fixpoint insert_row (r : Z * SessionEntry Z) (l : list (Z * SessionEntry Z)) : list (Z * SessionEntry Z) :=
  match l with
  | [] => [r]
  | x :: rest => if se_EntryIndex x.2 <? se_EntryIndex r.2 then x :: insert_row r rest else r :: x :: rest
  end.
Lemma insert_row_perm r l : insert_row r l ≡ₚ r :: l.
Proof. induction l as [|x l IH]; simpl; [done|]. destruct (_ <? _); [|done]. rewrite IH. apply Permutation_swap. Qed.
Lemma insert_row_sorted r l :
  (forall x, x ∈ l -> r.1 <= x.1) -> StronglySorted row_le l -> StronglySorted row_le (insert_row r l).
Proof.
  intros Hr Hs. induction Hs as [|x l Hs IH Hall]; simpl; [repeat constructor|].
  destruct (Z.ltb_spec (se_EntryIndex x.2) (se_EntryIndex r.2)) as [Hlt|Hge].
  - constructor; [apply IH; intros y Hy; apply Hr; by right|]. rewrite Forall_forall in *.
    intros y. rewrite insert_row_perm. intros [->|Hy]%elem_of_cons; [left; lia|by apply Hall].
  - assert (Hx : row_le r x) by (specialize (Hr x (list_elem_of_here _ _)); unfold row_le; lia).
    constructor; [by constructor|]. constructor; [done|]. eapply Forall_impl; [exact Hall|]. intros y Hy. by etrans.
Qed.
Definition sort_rows (l : list (Z * SessionEntry Z)) : list (Z * SessionEntry Z) := fold_right insert_row [] l.
Lemma sort_rows_perm l : sort_rows l ≡ₚ l.
Proof. induction l as [|r l IH]; simpl; [done|]. by rewrite insert_row_perm, IH. Qed.
Lemma sort_rows_sorted l : StronglySorted Z.lt (fst <$> l) -> StronglySorted row_le (sort_rows l).
Proof.
  induction l as [|r l IH]; simpl; [constructor|]. intros [Hs Hall]%StronglySorted_inv. apply insert_row_sorted; [|by apply IH].
  intros x. rewrite sort_rows_perm. intros Hx. rewrite Forall_forall in Hall.
  specialize (Hall x.1 (list_elem_of_fmap_2 _ _ _ Hx)). lia.
Qed.
Lemma sorted_ids_inj l (a b : Z * SessionEntry Z) :
  StronglySorted Z.lt (fst <$> l) -> a ∈ l -> b ∈ l -> a.1 = b.1 -> a = b.
Proof.
  induction l as [|r l IH]; simpl; [by intros _ ?%elem_of_nil|]. intros [Hs Hall]%StronglySorted_inv.
  rewrite Forall_forall in Hall. assert (Hlt : forall x, x ∈ l -> r.1 < x.1).
  { intros x Hx. apply (Hall x.1). by apply list_elem_of_fmap_2. }
  intros [->|Ha]%elem_of_cons [->|Hb]%elem_of_cons Heq; [done| | |by apply IH].
  - specialize (Hlt b Hb). lia.
  - specialize (Hlt a Ha). lia.
Qed.
Lemma merge_is_stable l : StronglySorted Z.lt (fst <$> l) -> merge_sort row_le l = sort_rows l.
Proof.
  intros Hs. apply (StronglySorted_unique_strong row_le).
  - intros a b. rewrite merge_sort_Permutation, sort_rows_perm. intros Ha Hb Hab Hba.
    apply (sorted_ids_inj l); [done..|]. unfold row_le in *. lia.
  - apply (StronglySorted_merge_sort row_le).
  - by apply sort_rows_sorted.
  - by rewrite merge_sort_Permutation, sort_rows_perm.
Qed.
Lemma index_columns e : se_EntryIndex (to_columns e) = se_EntryIndex e.
Proof. by destruct e. Qed.
Lemma session_columns e : se_SessionId (to_columns e) = se_SessionId e.
Proof. by destruct e. Qed.

(** The table's rows and the entries, side by side. *)
Definition aligned (rows : list (Z * SessionEntry Z)) (l : list (SessionEntry bool)) : Prop :=
  Forall2 (fun r e => r.2 = to_columns e) rows l.
Lemma aligned_rows tb l : holds tb l -> aligned (et_rows tb) l.
Proof.
  intros [Hr _ _]. unfold aligned. revert l Hr. induction (et_rows tb) as [|r rows IH]; intros [|e l] Hr; try done.
  simpl in Hr. injection Hr as Hre Hr. constructor; [done|]. by apply IH.
Qed.
Lemma aligned_filter rows l session : aligned rows l ->
  aligned (List.filter (fun r => String.eqb (se_SessionId r.2) session) rows)
    (List.filter (fun e => String.eqb (se_SessionId e) session) l).
Proof.
  induction 1 as [|r e rows l Hr _ IH]; simpl; [constructor|]. rewrite Hr, session_columns.
  destruct (String.eqb _ _); [by constructor|done].
Qed.
Lemma aligned_insert r e rows l : r.2 = to_columns e -> aligned rows l -> aligned (insert_row r rows) (insert_stable e l).
Proof.
  intros Hr HF. induction HF as [|x y rows l Hx HF IH]; simpl; [repeat constructor; done|].
  rewrite Hx, Hr, !index_columns. destruct (_ <? _); repeat (constructor; try done).
Qed.
Lemma aligned_sort rows l : aligned rows l -> aligned (sort_rows rows) (SliceStable l).
Proof. induction 1; simpl; [constructor|]. by apply aligned_insert. Qed.
Lemma aligned_read rows l : aligned rows l -> (fun r => of_columns r.2) <$> rows = l.
Proof. induction 1 as [|r e rows l Hr _ IH]; [done|]. by rewrite fmap_cons, Hr, of_to_columns, IH. Qed.
Lemma sorted_filter (p : Z * SessionEntry Z -> bool) rows :
  StronglySorted Z.lt (fst <$> rows) -> StronglySorted Z.lt (fst <$> List.filter p rows).
Proof.
  induction rows as [|r rows IH]; simpl; [done|]. intros [Hs Hall]%StronglySorted_inv.
  destruct (p r); [|by apply IH]. simpl. constructor; [by apply IH|]. rewrite Forall_forall in *.
  intros x (y & -> & Hy)%list_elem_of_fmap. apply Hall. apply list_elem_of_fmap_2.
  apply list_elem_of_In in Hy. apply List.filter_In in Hy as [Hy _]. by apply list_elem_of_In.
Qed.

(** * Properties *)

(** C28: A batch of entries is recorded whole or not at all.  Whatever contention,
    row faults and other writers the call meets, the table goes on holding a list
    of entries that only grows; success appends the whole batch in its order
    behind what the others wrote, and a call that reports nothing committed left
    only the others' rows. *)
Theorem session_batch_atomic fuel p caller tier t0 env orc entries tb l tb' r :
  (forall n, entries_append (aw_others (env n))) -> holds tb l ->
  RecordSessionEntries fuel p caller tier t0 env orc entries tb = Some (tb', r) ->
  match r with
  | Ok _ | Err (WriteFailed _ Committed _) => exists k, holds tb' (l ++ k ++ entries)
  | Err ContextMissing => tb' = tb
  | Err (WriteFailed tries Discarded _) => tb' = quiet env tries tb /\ exists k, holds tb' (l ++ k)
  | Err (WriteFailed _ Unchanged _) => exists j k, tb' = quiet env j tb /\ holds tb' (l ++ k)
  | Err _ => exists k, holds tb' (l ++ k) \/ holds tb' (l ++ k ++ entries)
  end.
Proof.
  intros Ho Hl Hrun. assert (Hq : forall j, exists k, holds (quiet env j tb) (l ++ k)) by (intros j; by apply quiet_entries).
  assert (Hv : forall c, value_written env (fun n => entries_tx (orc n) entries) tb tb' c -> exists k, holds tb' (l ++ k ++ entries)).
  { intros c (j & v & -> & Hop). destruct (quiet_entries env (S j) tb l Ho Hl) as (k & Hk). exists k. rewrite app_assoc.
    by eapply entries_tx_holds. }
  unfold RecordSessionEntries in Hrun. destruct entries as [|e entries].
  { injection Hrun as <- <-. exists []. by rewrite !app_nil_r. }
  destruct (withAuditWrite _ _ _ _ _ _ _) as [[[tb1 c] out]|] eqn:Hw; [|done]. apply running_outcome in Hw.
  destruct out as [|tries|tries [] cause]; injection Hrun as <- <-; eauto.
  - destruct Hw as [j ->]. destruct (Hq j) as (k & ?). eauto.
  - subst tb1. destruct (Hq tries) as (k & ?). eauto.
  - destruct Hw as [->|Hw]; [destruct (Hq tries) as (k & ?); eauto|]. destruct (Hv _ Hw) as (k & ?). eauto.
Qed.

(** C29: Both backends order a session alike.  What the table returns for a
    session, sorted by index and row identity, is what the in-memory trail
    returns by a stable sort of its list, whatever the indices. *)
Theorem session_entries_agree tb l session :
  holds tb l -> QuerySessionEntries tb session = memory_entries l session.
Proof.
  intros Hl. unfold QuerySessionEntries, memory_entries. rewrite merge_is_stable by (apply sorted_filter, Hl).
  apply aligned_read, aligned_sort, aligned_filter. by apply aligned_rows.
Qed.

(** ** Witnesses: two entries of one index, another writer in between *)
Definition entry (session : string) (index : Z) (role : string) (tool : bool) : SessionEntry bool :=
  mk_Entry session index "claude" "message" role None (Some "text") None None tool None None false false None None None None
    None 0 None None None None.
Definition batch : list (SessionEntry bool) := [entry "s1" 2 "user" false; entry "s1" 1 "assistant" true].
Definition other_entry (tb : EntryTable) : EntryTable :=
  match insert_entry tb (entry "s1" 1 "user" false) with Ok tb' => tb' | Err _ => tb end.
Definition busy_entries (n : nat) : Attempt EntryTable :=
  let t := Z.of_nat n * 100 * ms in
  {| aw_others tb := if (n =? 0)%nat then other_entry tb else tb; aw_conn := None; aw_window_at := t; aw_pragma _ := None;
     aw_begin_at := t; aw_begin := if (n =? 0)%nat then Some [OtherCause; Coded 517] else None;
     aw_op tb := Ok tb; aw_op_at := t; aw_commit := None; aw_durable := false;
     aw_rollback_at := t; aw_rollback := None; aw_restore _ _ := Restored; aw_cleanup_expired := false;
     aw_retire := true; aw_retire_again := true; aw_close := Closed; aw_warn := None;
     aw_end := t; aw_wake wait := if wait <=? 100 * ms then Some (t + 100 * ms) else None |}.
Definition calm_entries : EntryOracle := mk_EntryOracle None (fun _ => None).
Definition table3 : EntryTable :=
  mk_Table [(1, to_columns (entry "s1" 1 "user" false)); (2, to_columns (entry "s1" 2 "user" false));
            (3, to_columns (entry "s1" 1 "assistant" true))] 3.

Lemma busy_entries_append n : entries_append (aw_others (busy_entries n)).
Proof.
  intros tb l Hl. simpl. destruct (n =? 0)%nat; [|exists []; by rewrite app_nil_r]. unfold other_entry.
  destruct (insert_entry _ _) as [tb'|] eqn:Hi; [|exists []; by rewrite app_nil_r]. eexists. by eapply insert_entry_holds.
Qed.
Lemma session_batch_atomic_witness :
  RecordSessionEntries 37 zero_policy (Some (None, no_cancel)) (5000 * ms) 0 busy_entries (fun _ => calm_entries) batch
    empty_entries = Some (table3, Ok tt)
  /\ exists k, holds table3 (k ++ batch).
Proof.
  assert (Hrun : RecordSessionEntries 37 zero_policy (Some (None, no_cancel)) (5000 * ms) 0 busy_entries
    (fun _ => calm_entries) batch empty_entries = Some (table3, Ok tt)) by (vm_compute; reflexivity).
  split; [exact Hrun|].
  exact (session_batch_atomic 37 zero_policy (Some (None, no_cancel)) (5000 * ms) 0 busy_entries (fun _ => calm_entries) batch
    empty_entries [] table3 (Ok tt) busy_entries_append empty_holds Hrun).
Defined.

Lemma table3_holds : holds table3 (entry "s1" 1 "user" false :: batch).
Proof.
  split; [done|repeat constructor; lia|]. intros r Hr. simpl in Hr.
  repeat (apply elem_of_cons in Hr as [->|Hr]; [simpl; lia|]). by apply elem_of_nil in Hr.
Qed.
Lemma session_entries_agree_witness :
  QuerySessionEntries table3 "s1"
  = [entry "s1" 1 "user" false; entry "s1" 1 "assistant" true; entry "s1" 2 "user" false].
Proof. rewrite (session_entries_agree table3 _ "s1" table3_holds). vm_compute. reflexivity. Defined.
