(* ===== verification/SchemaMigrate.v ===== *)
(** SchemaMigrate: the schema version of the database and its forward migrations
    (internal/audit/schema_meta.go, migrate.go, open_retry.go, plan.go,
    migrate_v1_v2.go).

    Every step changes the data and stamps its version in one transaction, taken
    under a write lock that is retried while another process holds it and
    checked again once it is granted.  The change a step makes to the data
    ([StepBody]) is an argument; [evolves] is what any number of racing
    migrators can make of a database. *)

From Stdlib Require Import ZArith Lia String.
From stdpp Require Import base tactics list sets.
From S2P Require Import Prelude AuditWriter.
Local Open Scope string_scope.
Local Open Scope list_scope.
Local Open Scope Z_scope.

(** * Versions *)
Definition MaxKnownSchemaVersion : Z := 13.
(** migrationStep: the version it starts from and the one it stamps. *)
Definition migrationSteps : list (Z * Z) :=
  [(1, 2); (2, 3); (3, 4); (4, 5); (5, 6); (6, 7); (7, 8); (8, 9); (9, 10); (10, 11); (11, 12); (12, 13)].

(** The schema and data change of the step from a version, with its timestamp;
    [None] is a statement or a check of the step that refuses.  The step from
    version 1 changes no data. *)
Class StepBody (D : Type) := step_body : Z -> Z -> D -> option D.

Section database.
Context {D : Type} `{StepBody D}.

(** audit_schema_meta with its version and applied_at, and everything else. *)
Record Database := mk_Database { db_meta : option (list (Z * Z)); db_data : D }.
Definition readVersion (s : Database) : Z :=
  match db_meta s with
  | None | Some [] => 1
  | Some ((v, _) :: rows) => fold_right Z.max v (fst <$> rows)
  end.
(** INSERT OR IGNORE; the insert fails where the table is missing. *)
Definition writeVersion (version now : Z) (s : Database) : option Database :=
  match db_meta s with
  | None => None
  | Some rows =>
      Some (if bool_decide (version ∈ fst <$> rows) then s else mk_Database (Some (rows ++ [(version, now)])) (db_data s))
  end.
(** CREATE TABLE IF NOT EXISTS audit_schema_meta. *)
Definition create_meta (s : Database) : Database := mk_Database (Some (default [] (db_meta s))) (db_data s).
Definition apply_step (step : Z * Z) (now : Z) (s : Database) : option Database :=
  if step.1 =? 1 then writeVersion (step.2) now (create_meta s)
  else match step_body (step.1) now (db_data s) with
       | Some d => writeVersion (step.2) now (mk_Database (db_meta s) d)
       | None => None
       end.

(** ** The write lock *)

(** One attempt to begin: whether the context ended before and after it, what
    BEGIN IMMEDIATE answered ([Some busy] is an error), and the clock. *)
Record LockTry := mk_LockTry {
  lt_cancelled : bool;
  lt_begin : option bool;
  lt_cancelled_after : bool;
  lt_end : Z;
  lt_wake : Z -> option Z;
}.
Inductive LockError := LockCancelled | HeldByAnother | LockRefused | UpgradeInProgress.
(** busyRetryPolicy has the three durations of the writer's policy. *)
Definition defaultBusyRetryPolicy : auditWriterPolicy := mk_Policy (30000 * ms) (50 * ms) (2000 * ms).

Fixpoint busy_loop (next : Z -> Z) (deadline : Z) (tries : nat -> LockTry) (fuel n : nat) (t delay : Z)
    : option (result LockError nat) :=
  match fuel with
  | O => None
  | S fuel' =>
      let a := tries n in
      if lt_cancelled a then Some (Err LockCancelled)
      else if negb (n =? 0)%nat && (deadline <=? t) then Some (Err HeldByAnother)
      else match lt_begin a with
           | None => Some (Ok (S n))
           | Some busy =>
               if lt_cancelled_after a then Some (Err LockCancelled)
               else if negb busy then Some (Err LockRefused)
               else if deadline <? lt_end a then Some (Err UpgradeInProgress)
               else match lt_wake a (Z.min delay (Z.max (deadline - lt_end a) 0)) with
                    | None => Some (Err LockCancelled)
                    | Some t' => busy_loop next deadline tries fuel' (S n) t' (next delay)
                    end
           end
  end.
Definition beginImmediateWithRetryPolicy (p : auditWriterPolicy) (tries : nat -> LockTry) (fuel : nat) (t0 : Z)
    : option (result LockError nat) :=
  busy_loop (backoff p) (t0 + ap_ceiling p) tries fuel 0 t0 (ap_initialDelay p).
Definition retryOnBusy (p : auditWriterPolicy) (tries : nat -> LockTry) (fuel : nat) (t0 : Z) : option (result LockError nat) :=
  busy_loop (fun d => if d <? ap_maxDelay p then backoff p d else d) (t0 + ap_ceiling p) tries fuel 0 t0
    (ap_initialDelay p).

(** ** One step *)
Inductive Checkpoint := BeforeApply | DuringApply | BeforeCommit | DuringCommit.
Inductive MigrateError :=
  | ContextMissing | DatabaseMissing | Cancelled (at_ : option Checkpoint) | VersionUnreadable
  | NewerSchema (version : Z) | StepGap (version from : Z) | LockFailed (e : LockError)
  | ChangedUnderneath (version : Z) | StepRefused | CommitFailed.

(** The world of one step: what other processes commit before the lock is
    granted, the lock attempts, the answers of the database, the checkpoints at
    which the context has ended; a commit that reports an error may be durable. *)
Record StepEnv := mk_StepEnv {
  se_others : Database -> Database;
  se_t0 : Z;
  se_tries : nat -> LockTry;
  se_unreadable : bool;
  se_now : Z;
  se_cancelled : Checkpoint -> bool;
  se_refused : bool;
  se_commit : option bool;
}.

(** [None] is exhausted fuel. *)
Definition runStep (fuel : nat) (en : StepEnv) (step : Z * Z) (s : Database) : option (Database * result MigrateError unit) :=
  let s1 := se_others en s in
  match beginImmediateWithRetryPolicy defaultBusyRetryPolicy (se_tries en) fuel (se_t0 en) with
  | None => None
  | Some (Err e) => Some (s1, Err (LockFailed e))
  | Some (Ok _) => Some (
      if se_unreadable en then (s1, Err VersionUnreadable)
      else
        let v := readVersion s1 in
        if step.2 <=? v then (s1, Ok tt)
        else if negb (v =? step.1) then (s1, Err (ChangedUnderneath v))
        else if se_cancelled en BeforeApply then (s1, Err (Cancelled (Some BeforeApply)))
        else match (if se_refused en then None else apply_step step (se_now en) s1) with
             | None => (s1, Err (if se_cancelled en DuringApply then Cancelled (Some DuringApply) else StepRefused))
             | Some s2 =>
                 if se_cancelled en BeforeCommit then (s1, Err (Cancelled (Some BeforeCommit)))
                 else match se_commit en with
                      | None => (s2, Ok tt)
                      | Some durable =>
                          (if durable then s2 else s1,
                           Err (if se_cancelled en DuringCommit then Cancelled (Some DuringCommit) else CommitFailed))
                      end
             end)
  end.

(** ** The migrator *)
Record MigrateEnv := mk_MigrateEnv {
  me_ctx : bool;
  me_db : bool;
  me_cancelled : bool;
  me_unreadable : bool;
  me_before : nat -> bool;
  me_steps : nat -> StepEnv;
}.
Fixpoint migrate_loop (fuel : nat) (en : MigrateEnv) (ceiling : Z) (steps : list (Z * Z)) (i : nat) (current : Z) (s : Database)
    : option (Database * result MigrateError unit) :=
  match steps with
  | [] => Some (s, Ok tt)
  | step :: rest =>
      if me_before en i then Some (s, Err (Cancelled None))
      else if step.1 <? current then migrate_loop fuel en ceiling rest (S i) current s
      else if negb (step.1 =? current) then Some (s, Err (StepGap current (step.1)))
      else match runStep fuel (me_steps en i) step s with
           | None => None
           | Some (s', Err e) => Some (s', Err e)
           | Some (s', Ok _) =>
               if ceiling <=? step.2 then Some (s', Ok tt) else migrate_loop fuel en ceiling rest (S i) (step.2) s'
           end
  end.
Definition effective_ceiling (ceiling : Z) : Z :=
  if (ceiling <=? 0) || (MaxKnownSchemaVersion <? ceiling) then MaxKnownSchemaVersion else ceiling.
Definition MigrateContextToCeiling (fuel : nat) (en : MigrateEnv) (ceiling : Z) (s : Database)
    : option (Database * result MigrateError unit) :=
  if negb (me_ctx en) then Some (s, Err ContextMissing)
  else if me_cancelled en then Some (s, Err (Cancelled None))
  else if negb (me_db en) then Some (s, Err DatabaseMissing)
  else if me_unreadable en then Some (s, Err VersionUnreadable)
  else
    let current := readVersion s in
    if MaxKnownSchemaVersion <? current then Some (s, Err (NewerSchema current))
    else if effective_ceiling ceiling <=? current then Some (s, Ok tt)
    else migrate_loop fuel en (effective_ceiling ceiling) migrationSteps 0 current s.
Definition Migrate (fuel : nat) (en : MigrateEnv) (s : Database) : option (Database * result MigrateError unit) :=
  MigrateContextToCeiling fuel en MaxKnownSchemaVersion s.

(** Every remaining step in the caller's transaction, whose rollback is the
    caller's. *)
Fixpoint apply_loop (steps : list (Z * Z)) (version now : Z) (s : Database) : result MigrateError Database :=
  match steps with
  | [] => Ok s
  | step :: rest =>
      if step.1 <? version then apply_loop rest version now s
      else if negb (step.1 =? version) then Err (StepGap version (step.1))
      else match apply_step step now s with
           | None => Err StepRefused
           | Some s' => if MaxKnownSchemaVersion <=? step.2 then Ok s' else apply_loop rest (step.2) now s'
           end
  end.
Definition ApplyCeilingInTx (from now : Z) (s : Database) : result MigrateError Database :=
  if MaxKnownSchemaVersion <=? from then Ok s else apply_loop migrationSteps from now s.
Definition assertCurrentSchema (s : Database) : bool := readVersion s =? MaxKnownSchemaVersion.
End database.
Arguments Database : clear implicits.
Arguments StepEnv : clear implicits.
Arguments MigrateEnv : clear implicits.

(** ** The plan (PlanMigrations) *)
Definition stepDescription (from to : Z) : string :=
  match from, to with
  | 1, 2 => "add the schema-version tracker table (no data is changed)"
  | 2, 3 => "add the context-edge, agent-category, and known-agent tables, then backfill agent IDs into audit events and drop the legacy role column"
  | 3, 4 => "backfill epoch IDs into the context-edge table, then drop the legacy epoch_id column"
  | 4, 5 => "add deterministic deduplication keys to audit events"
  | 5, 6 => "add content-addressed lifecycle payload storage and replay-derived occurrence projections"
  | 8, 9 => "remove the retired gate assignment-index tables and triggers; session claims are kept; an older pasture binary will then refuse this database for every command until it is upgraded"
  | 9, 10 => "require the slash task-identity format before opening the database; a populated store must be converted first with 'pasture migrate ids', and an older pasture binary will then refuse this database for every command until it is upgraded"
  | 10, 11 => "add independent session prompt, end and resume watermarks and invalidate the session read cache once; an older pasture binary will then refuse this database for every command until it is upgraded"
  | _, _ => "schema migration"
  end.
Record MigrationStepSummary := mk_Summary { FromVersion : Z; ToVersion : Z; Description : string }.
Fixpoint plan_loop (current : Z) (steps : list (Z * Z)) : list MigrationStepSummary :=
  match steps with
  | [] => []
  | (from, to) :: rest =>
      if from <? current then plan_loop current rest
      else if MaxKnownSchemaVersion <=? from then []
      else mk_Summary from to (stepDescription from to) :: plan_loop current rest
  end.
Definition PlanMigrations (current : Z) : list MigrationStepSummary :=
  if MaxKnownSchemaVersion <=? current then [] else plan_loop current migrationSteps.

(** * Versions and steps *)
Section versions.
Context {D : Type} `{StepBody D}.

Lemma fold_max_snoc a l x : fold_right Z.max a (l ++ [x]) = Z.max (fold_right Z.max a l) x.
Proof. induction l as [|y l IH]; simpl; [lia|]. rewrite IH. lia. Qed.
Lemma fold_max_le a l x : x ∈ l -> x <= fold_right Z.max a l.
Proof. induction l as [|y l IH]; [by intros ?%elem_of_nil|]. intros [->|Hx]%elem_of_cons; simpl; [lia|]. specialize (IH Hx). lia. Qed.
Lemma fold_max_base a l : a <= fold_right Z.max a l.
Proof. induction l as [|y l IH]; simpl; lia. Qed.

Lemma readVersion_meta (s s' : Database D) : db_meta s = db_meta s' -> readVersion s = readVersion s'.
Proof. unfold readVersion. by intros ->. Qed.
Lemma recorded_le (s : Database D) rows v : db_meta s = Some rows -> v ∈ fst <$> rows -> v <= readVersion s.
Proof.
  unfold readVersion. intros ->. destruct rows as [|[v0 n] rows]; [by intros ?%elem_of_nil|].
  rewrite fmap_cons. intros [->|Hv]%elem_of_cons; [apply fold_max_base|by apply fold_max_le].
Qed.
Lemma stamped version now (s s' : Database D) :
  writeVersion version now s = Some s' -> 1 <= readVersion s < version -> readVersion s' = version /\ db_data s' = db_data s.
Proof.
  unfold writeVersion. destruct (db_meta s) as [rows|] eqn:Hm; [|done]. intros [= <-] [H1 Hv].
  rewrite bool_decide_eq_false_2 by (intros Hin; pose proof (recorded_le _ _ _ Hm Hin); lia).
  split; [|done]. unfold readVersion in *. rewrite Hm in Hv. simpl. destruct rows as [|[v0 n] rows]; simpl; [done|].
  rewrite fmap_app. simpl. rewrite fold_max_snoc. lia.
Qed.

Lemma known_step from to : (from, to) ∈ migrationSteps -> to = from + 1 /\ 1 <= from <= 12.
Proof.
  unfold migrationSteps. rewrite !elem_of_cons, elem_of_nil. intros Hin.
  repeat (destruct Hin as [Hin|Hin]; [injection Hin as -> ->; lia|]). done.
Qed.
Lemma step_version step now (s s' : Database D) :
  step ∈ migrationSteps -> readVersion s = step.1 -> apply_step step now s = Some s' -> readVersion s' = step.2.
Proof.
  destruct step as [from to]. simpl. intros [-> Hr]%known_step Hv. unfold apply_step. simpl. destruct (Z.eqb_spec from 1) as [->|].
  - assert (Hc : readVersion (create_meta s) = 1) by (rewrite <- Hv; unfold readVersion, create_meta; simpl; by destruct (db_meta s)).
    intros Hw. apply (stamped _ _ _ _ Hw). lia.
  - destruct (step_body from now (db_data s)) as [d|]; [|done]. intros Hw. apply (stamped _ _ _ _ Hw).
    erewrite readVersion_meta by reflexivity. simpl. erewrite <- (readVersion_meta s); [lia|done].
Qed.

(** The registry has no gap. *)
Inductive chain : Z -> list (Z * Z) -> Prop :=
  | chain_end : chain MaxKnownSchemaVersion []
  | chain_step from rest : chain (from + 1) rest -> chain from ((from, from + 1) :: rest).
Lemma chain_all : chain 1 migrationSteps.
Proof.
  exact (chain_step 1 _ (chain_step 2 _ (chain_step 3 _ (chain_step 4 _ (chain_step 5 _ (chain_step 6 _ (chain_step 7 _ (chain_step 8 _ (chain_step 9 _ (chain_step 10 _ (chain_step 11 _ (chain_step 12 _ (chain_end))))))))))))).
Qed.

(** * What racing migrators make of a database *)

(** What an ordinary write of another process may make of the data: any relation.
    The steps of a migration are ordinary writes only if it says so; with the
    empty relation nobody else writes data. *)
Context (W : D -> D -> Prop).

(** The databases that migrators of this build and ordinary writes reach from
    [s0], with the versions whose step ran, in order. *)
Inductive evolves (s0 : Database D) : list Z -> Database D -> Prop :=
  | ev_here : evolves s0 [] s0
  | ev_write l s s' :
      evolves s0 l s -> db_meta s' = db_meta s -> W (db_data s) (db_data s') -> evolves s0 l s'
  | ev_step l s step now s' :
      evolves s0 l s -> step ∈ migrationSteps -> readVersion s = step.1 -> apply_step step now s = Some s' ->
      evolves s0 (l ++ [step.1]) s'.
Definition respectful (f : Database D -> Database D) : Prop := forall s, exists l, evolves s l (f s).

Lemma evolves_trans s0 l s l' s' : evolves s0 l s -> evolves s l' s' -> evolves s0 (l ++ l') s'.
Proof.
  intros H1 H2. induction H2 as [|l' s1 s2 _ IH Hm Hw|l' s1 step now s2 _ IH Hin Hv Ha]; [by rewrite app_nil_r|by eapply ev_write|].
  rewrite app_assoc. by eapply ev_step.
Qed.
Lemma evolves_version s0 l s : evolves s0 l s -> l = seqZ (readVersion s0) (Z.of_nat (length l)) /\ readVersion s = readVersion s0 + Z.of_nat (length l).
Proof.
  induction 1 as [|l s s' _ [IH IHv] Hm Hw|l s [from to] now s' _ [IH IHv] Hin Hv Ha].
  - split; [done|simpl; lia].
  - split; [done|]. by rewrite (readVersion_meta s' s).
  - destruct (known_step _ _ Hin) as [-> _]. rewrite (step_version _ _ _ _ Hin Hv Ha). simpl in *.
    rewrite length_app. simpl. split; [|lia]. rewrite IH at 1. rewrite Nat2Z.inj_add, seqZ_app by lia. f_equal. simpl.
    rewrite seqZ_cons by lia. simpl. f_equal. lia.
Qed.
Lemma evolves_le s0 l s : evolves s0 l s -> readVersion s0 <= readVersion s.
Proof. intros [_ ->]%evolves_version. lia. Qed.

Lemma runStep_evolves fuel en step s s' r :
  respectful (se_others en) -> step ∈ migrationSteps -> runStep fuel en step s = Some (s', r) ->
  exists l, evolves s l s' /\ (r = Ok tt -> step.2 <= readVersion s') /\ (forall v f, r <> Err (StepGap v f)) /\ (forall v, r <> Err (NewerSchema v)).
Proof.
  intros Hre Hin. unfold runStep. destruct (Hre s) as (l & He).
  destruct (beginImmediateWithRetryPolicy _ _ _ _) as [[n|e]|]; [| |done]; intros [= Hrun].
  2: { subst. exists l. by split_and!. }
  destruct (se_unreadable en); [injection Hrun as <- <-; exists l; by split_and!|].
  destruct (Z.leb_spec (step.2) (readVersion (se_others en s))) as [Hle|Hlt]; [injection Hrun as <- <-; exists l; by split_and!|].
  destruct (Z.eqb_spec (readVersion (se_others en s)) (step.1)) as [Hv|]; simpl in Hrun; [|injection Hrun as <- <-; exists l; by split_and!].
  destruct (se_cancelled en BeforeApply); [injection Hrun as <- <-; exists l; by split_and!|].
  destruct (if se_refused en then None else _) as [s2|] eqn:Ha;
    [|injection Hrun as <- <-; exists l; destruct (se_cancelled en DuringApply); by split_and!].
  destruct (se_refused en); [done|]. pose proof (step_version _ _ _ _ Hin Hv Ha) as Hv2.
  pose proof (ev_step _ _ _ _ _ _ He Hin Hv Ha) as He2.
  destruct (se_cancelled en BeforeCommit); [injection Hrun as <- <-; exists l; by split_and!|].
  destruct (se_commit en) as [[]|]; injection Hrun as <- <-; [| |exists (l ++ [step.1]); split_and!; [done|lia|done..]];
    destruct (se_cancelled en DuringCommit); eexists; by split_and!.
Qed.

Lemma loop_evolves fuel en ceiling steps : forall base i current s s' r,
  (forall n, respectful (se_others (me_steps en n))) -> chain base steps -> steps ⊆ migrationSteps -> base <= current ->
  current < ceiling <= MaxKnownSchemaVersion -> current <= readVersion s ->
  migrate_loop fuel en ceiling steps i current s = Some (s', r) ->
  exists l, evolves s l s' /\ (r = Ok tt -> ceiling <= readVersion s') /\ (forall v f, r <> Err (StepGap v f)) /\ (forall v, r <> Err (NewerSchema v)).
Proof.
  induction steps as [|step rest IH]; intros base i current s s' r Hre Hch Hsub Hb Hc Hv; simpl.
  { inversion Hch; subst. lia. }
  inversion Hch as [|from rest' Hch']; subst. simpl.
  destruct (me_before en i); [intros [= <- <-]; exists []; split_and!; [constructor|done..]|].
  destruct (Z.ltb_spec base current) as [Hlt|Hge].
  { eapply IH; [done|exact Hch'|set_solver|lia|done|done]. }
  assert (current = base) as -> by lia. rewrite Z.eqb_refl. simpl.
  assert (Hin : (base, base + 1) ∈ migrationSteps) by set_solver.
  destruct (runStep fuel _ _ s) as [[s1 [[]|e]]|] eqn:Hrun; [| |done];
    destruct (runStep_evolves _ _ _ _ _ _ (Hre i) Hin Hrun) as (l & He & Hok & Hg & Hn).
  2: { intros [= <- <-]. exists l. by split_and!. }
  specialize (Hok eq_refl). simpl in Hok. destruct (Z.leb_spec ceiling (base + 1)).
  { intros [= <- <-]. exists l. split_and!; [done|lia|done..]. }
  intros Hloop. destruct (IH (base + 1) (S i) (base + 1) s1 s' r) as (l' & He' & ?); [done|done|set_solver|lia|lia|done|done|].
  exists (l ++ l'). split; [by eapply evolves_trans|done].
Qed.
End versions.

(** * The lock *)

(** A timer does not fire early and the clock does not run backwards. *)
Definition tries_ok (tries : nat -> LockTry) (t0 : Z) : Prop :=
  t0 <= lt_end (tries 0%nat)
  /\ forall n wait t', lt_wake (tries n) wait = Some t' -> lt_end (tries n) + wait <= t' <= lt_end (tries (S n)).

Lemma busy_loop_total next deadline tries fuel : forall n t delay,
  (forall m wait t', lt_wake (tries m) wait = Some t' -> lt_end (tries m) + wait <= t' <= lt_end (tries (S m))) ->
  t <= lt_end (tries n) -> (n = 0%nat -> t < deadline) -> exhausts next fuel (deadline - t) delay = true ->
  exists r, busy_loop next deadline tries fuel n t delay = Some r.
Proof.
  induction fuel as [|fuel IH]; intros n t delay Hw He Hn Hx; [done|]. simpl in *.
  destruct (lt_cancelled (tries n)); [eauto|].
  destruct (negb (n =? 0)%nat && (deadline <=? t)) eqn:Hd; [eauto|].
  assert (Ht : t < deadline).
  { destruct (Nat.eqb_spec n 0) as [|Hne]; [by apply Hn|]. simpl in Hd. by apply Z.leb_gt in Hd. }
  apply orb_true_iff in Hx as [Hx%Z.leb_le|Hx]; [lia|].
  destruct (lt_begin (tries n)) as [[]|]; [| |eauto]; destruct (lt_cancelled_after (tries n)); simpl; eauto.
  destruct (deadline <? lt_end (tries n)); [eauto|].
  destruct (lt_wake _ _) as [t'|] eqn:Hk; [|eauto]. pose proof (Hw _ _ _ Hk). apply IH; [done|lia|done|].
  eapply exhausts_mono; [|exact Hx]. lia.
Qed.
Lemma lock_total tries t0 : tries_ok tries t0 ->
  exists r, beginImmediateWithRetryPolicy defaultBusyRetryPolicy tries 22 t0 = Some r.
Proof.
  intros [H0 Hw]. apply busy_loop_total; [done|done|unfold defaultBusyRetryPolicy, ms; simpl; lia|].
  apply (exhausts_mono _ 22 (30000 * ms)); [|by vm_compute]. unfold defaultBusyRetryPolicy, ms. simpl. lia.
Qed.
Lemma retryOnBusy_total tries t0 : tries_ok tries t0 -> exists r, retryOnBusy defaultBusyRetryPolicy tries 22 t0 = Some r.
Proof.
  intros [H0 Hw]. apply busy_loop_total; [done|done|unfold defaultBusyRetryPolicy, ms; simpl; lia|].
  apply (exhausts_mono _ 22 (30000 * ms)); [|by vm_compute]. unfold defaultBusyRetryPolicy, ms. simpl. lia.
Qed.

(** * The plan *)
Definition plan_steps (plan : list MigrationStepSummary) : list (Z * Z) := (fun m => (FromVersion m, ToVersion m)) <$> plan.

Section plan.
Context {D : Type} `{StepBody D}.

(** The steps of a plan one after the other, up to the first that refuses. *)
Fixpoint run_plan (now : Z) (steps : list (Z * Z)) (s : Database D) : Database D * option MigrateError :=
  match steps with
  | [] => (s, None)
  | step :: rest => match apply_step step now s with Some s' => run_plan now rest s' | None => (s, Some StepRefused) end
  end.
Definition outcome_of {A} (x : A) (e : option MigrateError) : result MigrateError A :=
  match e with None => Ok x | Some e => Err e end.

(** Nobody else runs, nothing is refused but by the steps themselves. *)
Definition granted : LockTry := mk_LockTry false None false 0 (fun _ => None).
Definition alone_step (now : Z) : StepEnv D := mk_StepEnv id 0 (fun _ => granted) false now (fun _ => false) false None.
Definition alone (now : Z) : MigrateEnv D := mk_MigrateEnv true true false false (fun _ => false) (fun _ => alone_step now).

Lemma plan_loop_chain base steps c : chain base steps -> c <= base -> plan_loop c steps = plan_loop base steps.
Proof.
  intros Hch. revert c. induction Hch as [|from rest Hch IH]; intros c Hc; [done|]. simpl.
  destruct (Z.ltb_spec from c); [lia|]. destruct (Z.ltb_spec from from); [lia|].
  destruct (MaxKnownSchemaVersion <=? from); [done|]. by rewrite (IH c), (IH from) by lia.
Qed.
Lemma chain_bound base steps : chain base steps -> base <= MaxKnownSchemaVersion.
Proof. induction 1; lia. Qed.

#[local] Arguments apply_step : simpl never.
Lemma loops_follow_plan fuel now steps : forall base i current (s : Database D),
  chain base steps -> steps ⊆ migrationSteps -> base <= current -> current < MaxKnownSchemaVersion -> readVersion s = current ->
  let '(s', e) := run_plan now (plan_steps (plan_loop current steps)) s in
  migrate_loop (S fuel) (alone now) MaxKnownSchemaVersion steps i current s = Some (s', outcome_of tt e)
  /\ apply_loop steps current now s = outcome_of s' e.
Proof.
  induction steps as [|step rest IH]; intros base i current s Hch Hsub Hb Hc Hv.
  { inversion Hch; subst. lia. }
  inversion Hch as [|from rest' Hch']; subst. simpl.
  destruct (Z.ltb_spec base (readVersion s)) as [Hlt|Hge].
  { specialize (IH (base + 1) (S i) (readVersion s) s Hch' ltac:(set_solver) ltac:(lia) Hc eq_refl).
    by destruct (run_plan _ _ s). }
  assert (Hbase : readVersion s = base) by lia. rewrite Hbase, Z.eqb_refl. cbn [negb].
  assert (Hin : (base, base + 1) ∈ migrationSteps) by set_solver.
  destruct (Z.leb_spec (base + 1) base); [lia|]. destruct (Z.leb_spec MaxKnownSchemaVersion base); [lia|]. cbn [plan_steps fmap list_fmap run_plan FromVersion ToVersion].
  destruct (apply_step _ _ _) as [s1|] eqn:Ha; [|done]. pose proof (step_version _ _ _ _ Hin Hbase Ha) as Hv1. simpl in Hv1.
  rewrite (plan_loop_chain (base + 1) rest base Hch') by lia.
  destruct (Z.leb_spec MaxKnownSchemaVersion (base + 1)) as [Hmax|].
  - pose proof (chain_bound _ _ Hch'). assert (base + 1 = MaxKnownSchemaVersion) as Hm by lia. rewrite Hm in *.
    inversion Hch' as [|f r Hbad]; subst; [done|]. pose proof (chain_bound _ _ Hbad). lia.
  - specialize (IH (base + 1) (S i) (base + 1) s1 Hch' ltac:(set_solver) ltac:(lia) ltac:(lia) Hv1).
    by destruct (run_plan _ _ s1).
Qed.
End plan.

(** * Properties *)
Section properties.
Context {D : Type} `{StepBody D}.

Lemma effective_ceiling_max ceiling : effective_ceiling ceiling <= MaxKnownSchemaVersion.
Proof. unfold effective_ceiling. destruct (Z.leb_spec ceiling 0); cbn [orb]; [lia|]. destruct (Z.ltb_spec MaxKnownSchemaVersion ceiling); lia. Qed.
Lemma migrator_evolves W fuel en ceiling (s s' : Database D) r :
  (forall n, respectful W (se_others (me_steps en n))) -> 1 <= readVersion s ->
  MigrateContextToCeiling fuel en ceiling s = Some (s', r) ->
  exists l, evolves W s l s'
  /\ match r with
     | Ok _ => effective_ceiling ceiling <= readVersion s' /\ (effective_ceiling ceiling <= readVersion s -> s' = s)
     | Err (NewerSchema v) => v = readVersion s /\ MaxKnownSchemaVersion < v /\ s' = s
     | Err (StepGap _ _) => False
     | Err _ => True
     end.
Proof.
  intros Hre Hpos. pose proof (ev_here W s) as Hhere. unfold MigrateContextToCeiling.
  destruct (me_ctx en); simpl; [|intros [= <- <-]; by exists []].
  destruct (me_cancelled en); [intros [= <- <-]; by exists []|].
  destruct (me_db en); simpl; [|intros [= <- <-]; by exists []].
  destruct (me_unreadable en); [intros [= <- <-]; by exists []|].
  destruct (Z.ltb_spec MaxKnownSchemaVersion (readVersion s)) as [|Hmax]; [intros [= <- <-]; by exists []|].
  destruct (Z.leb_spec (effective_ceiling ceiling) (readVersion s)) as [|Hlow]; [intros [= <- <-]; by exists []|].
  intros Hloop. pose proof (effective_ceiling_max ceiling) as Heff.
  destruct (loop_evolves W fuel en (effective_ceiling ceiling) migrationSteps 1 0 (readVersion s) s s' r Hre
    chain_all ltac:(done) Hpos ltac:(lia) ltac:(lia) Hloop) as (l & He & Hok & Hg & Hn).
  exists l. split; [done|]. destruct r as [[]|e]; [split; [by apply Hok|intros; lia]|].
  clear Hloop. destruct e; try done; exfalso; [by eapply Hn|by eapply Hg].
Qed.

(** C32: Each migration step runs once, in order, however many processes migrate.
    Let the others write data in any given way while a call waits for its locks,
    and migrate; whatever fails, the database the call leaves is reached from the one
    it found by such writes and by the steps of the consecutive versions between the
    two, each applied once, to a database that stood at its version. Nothing else is
    done to the data: a step that another process has completed is not run again.
    Success means the ceiling is reached, a refused newer schema leaves the database
    alone, and the registry never shows a gap. *)
Theorem steps_run_once W fuel en ceiling (s s' : Database D) r :
  (forall n, respectful W (se_others (me_steps en n))) -> 1 <= readVersion s ->
  MigrateContextToCeiling fuel en ceiling s = Some (s', r) ->
  evolves W s (seqZ (readVersion s) (readVersion s' - readVersion s)) s'
  /\ match r with
     | Ok _ => effective_ceiling ceiling <= readVersion s' /\ (effective_ceiling ceiling <= readVersion s -> s' = s)
     | Err (NewerSchema v) => v = readVersion s /\ MaxKnownSchemaVersion < v /\ s' = s
     | Err (StepGap _ _) => False
     | Err _ => True
     end.
Proof.
  intros Hre Hpos Hrun. destruct (migrator_evolves _ _ _ _ _ _ _ Hre Hpos Hrun) as (l & He & Hr). split; [|done].
  destruct (evolves_version _ _ _ _ He) as [Hl ->].
  replace (readVersion s + Z.of_nat (length l) - readVersion s) with (Z.of_nat (length l)) by lia. by rewrite <- Hl.
Qed.

(** A call of the migrator returns.  On a clock that does not run backwards
    every wait for the write lock ends after at most twenty-one attempts, whoever
    holds it, so the call is total. *)
Theorem migrate_returns en ceiling (s : Database D) :
  (forall n, tries_ok (se_tries (me_steps en n)) (se_t0 (me_steps en n))) ->
  exists s' r, MigrateContextToCeiling 22 en ceiling s = Some (s', r).
Proof.
  intros Ht. unfold MigrateContextToCeiling. do 4 (case_match; [by do 2 eexists|]). do 2 (case_match; [by do 2 eexists|]).
  enough (Hloop : forall steps i current s, exists s' r, migrate_loop 22 en (effective_ceiling ceiling) steps i current s = Some (s', r))
    by apply Hloop.
  clear -Ht. induction steps as [|step rest IH]; intros i current s; [by do 2 eexists|]. cbn [migrate_loop].
  destruct (me_before en i); [by do 2 eexists|]. destruct (step.1 <? current); [apply IH|].
  destruct (negb _); [by do 2 eexists|]. unfold runStep. destruct (lock_total _ _ (Ht i)) as [[n|e] ->]; [|by do 2 eexists].
  match goal with |- context [let (_, _) := ?x in _] => destruct x as [s1 [u|e]] end; [|by do 2 eexists].
  destruct (_ <=? _); [by do 2 eexists|apply IH].
Qed.

(** C33: The dry run's plan is what a migration does.  On a database nobody else
    touches, the migrator runs exactly the planned steps, stopping at the first
    that refuses with everything before it committed, and the conversion
    transaction's ceiling step applies the same steps or fails as a whole. *)
Theorem plan_is_applied now (s : Database D) :
  1 <= readVersion s <= MaxKnownSchemaVersion ->
  let '(s', e) := run_plan now (plan_steps (PlanMigrations (readVersion s))) s in
  Migrate 22 (alone now) s = Some (s', outcome_of tt e)
  /\ ApplyCeilingInTx (readVersion s) now s = outcome_of s' e.
Proof.
  intros Hv. unfold PlanMigrations, Migrate, MigrateContextToCeiling, ApplyCeilingInTx. cbn [alone me_ctx me_cancelled me_db me_unreadable negb].
  destruct (Z.ltb_spec MaxKnownSchemaVersion (readVersion s)); [lia|].
  change (effective_ceiling MaxKnownSchemaVersion) with MaxKnownSchemaVersion.
  destruct (Z.leb_spec MaxKnownSchemaVersion (readVersion s)); [done|].
  apply (loops_follow_plan 21 now migrationSteps 1 0 (readVersion s) s chain_all); [done|lia|lia|done].
Qed.
End properties.

(** ** Witnesses: a legacy database, another process that upgrades it meanwhile *)
Definition log_body : StepBody (list Z) := fun from _ d => Some (d ++ [from]).
#[local] Existing Instance log_body.
Definition legacy : Database (list Z) := mk_Database None [].
(** The other process runs the first step while this one waits for its lock. *)
Definition racer (s : Database (list Z)) : Database (list Z) :=
  match runStep 1 (alone_step 5) (1, 2) s with Some (s', _) => s' | None => s end.
Definition busy_try (n : nat) : LockTry :=
  mk_LockTry false (if (n <? 3)%nat then Some true else None) false (Z.of_nat n * 400 * ms)
    (fun wait => if wait <=? 400 * ms then Some (Z.of_nat (S n) * 400 * ms) else None).
Definition racing_step (n : nat) : StepEnv (list Z) :=
  mk_StepEnv (if (n =? 0)%nat then racer else id) 0 busy_try false (Z.of_nat n) (fun _ => false) false None.
Definition racing : MigrateEnv (list Z) := mk_MigrateEnv true true false false (fun _ => false) racing_step.
Definition migrated9 : Database (list Z) :=
  mk_Database (Some [(2, 5); (3, 1); (4, 2); (5, 3); (6, 4); (7, 5); (8, 6); (9, 7)]) [2; 3; 4; 5; 6; 7; 8].

(** No process writes data but by migrating. *)
Definition no_writes (_ _ : list Z) : Prop := False.
Lemma respectful_id : respectful no_writes id.
Proof. intros s. exists []. constructor. Qed.
Lemma racer_respectful : respectful no_writes racer.
Proof.
  intros s. unfold racer. destruct (runStep 1 (alone_step 5) (1, 2) s) as [[s' r]|] eqn:Hr; [|apply respectful_id].
  destruct (runStep_evolves no_writes 1 (alone_step 5) (1, 2) s s' r respectful_id ltac:(left) Hr) as (l & He & _). by exists l.
Qed.
Lemma racing_respectful n : respectful no_writes (se_others (me_steps racing n)).
Proof. simpl. destruct (n =? 0)%nat; [apply racer_respectful|apply respectful_id]. Qed.

Lemma steps_run_once_witness :
  MigrateContextToCeiling 22 racing 9 legacy = Some (migrated9, Ok tt)
  /\ evolves no_writes legacy [1; 2; 3; 4; 5; 6; 7; 8] migrated9.
Proof.
  assert (Hrun : MigrateContextToCeiling 22 racing 9 legacy = Some (migrated9, Ok tt)) by (vm_compute; reflexivity).
  split; [exact Hrun|].
  exact (proj1 (steps_run_once no_writes 22 racing 9 legacy migrated9 (Ok tt) racing_respectful
    ltac:(vm_compute; discriminate) Hrun)).
Defined.

Lemma busy_tries_ok : tries_ok busy_try 0.
Proof. split; [done|]. intros n wait t'. simpl. destruct (Z.leb_spec wait (400 * ms)); [|done]. intros [= <-]. unfold ms in *. lia. Qed.
Lemma migrate_returns_witness : exists s' r, MigrateContextToCeiling 22 racing 9 legacy = Some (s', r).
Proof. exact (migrate_returns racing 9 legacy (fun _ => busy_tries_ok)). Defined.

Lemma plan_is_applied_witness :
  Migrate 22 (alone 7) migrated9
  = Some (mk_Database (Some [(2, 5); (3, 1); (4, 2); (5, 3); (6, 4); (7, 5); (8, 6); (9, 7); (10, 7); (11, 7); (12, 7); (13, 7)])
            [2; 3; 4; 5; 6; 7; 8; 9; 10; 11; 12], Ok tt).
Proof.
  pose proof (plan_is_applied 7 migrated9 ltac:(vm_compute; split; discriminate)) as Hp.
  refine (eq_trans (proj1 Hp) _). vm_compute. reflexivity.
Defined.

(** A newer build that upgrades the database while this one waits for its lock is
    not noticed: every step is found done, and the call succeeds on a schema it
    does not know. *)
Example newer_schema_missed :
  let newer := mk_StepEnv (fun _ => mk_Database (Some [(14, 0)]) []) 0 busy_try false 0 (fun _ => false) false None in
  option_map (fun x => (readVersion x.1, x.2))
    (Migrate 22 (mk_MigrateEnv true true false false (fun _ => false) (fun _ => newer)) migrated9) = Some (14, Ok tt).
Proof. vm_compute. reflexivity. Qed.
(** The steps whose plan line says nothing about them. *)
Example undescribed_steps :
  List.filter (fun m => String.eqb (Description m) "schema migration") (PlanMigrations 1)
  = [mk_Summary 6 7 "schema migration"; mk_Summary 7 8 "schema migration"; mk_Summary 11 12 "schema migration";
     mk_Summary 12 13 "schema migration"].
Proof. vm_compute. reflexivity. Qed.
