(* ===== verification/IdConvert.v ===== *)
(** IdConvert: the conversion of retired two-dash identities and its dry run
    (internal/idmigrate/idmigrate.go convertRetiredIdentity and looksRetired,
    pasture.go, preview.go).

    One value is recognised and rewritten; columns, identity arrays, the epoch
    projection and audit payloads apply that to the values they declare.  The
    identity parser of the provenance library and the JSON codecs are
    interfaces. *)

From Stdlib Require Import ZArith Lia Ascii String.
From stdpp Require Import base tactics list strings gmap sorting.
From S2P Require Import Prelude GoStrings Vocabulary EpochFSM JsonMembers.
Local Open Scope string_scope.
Local Open Scope list_scope.
Local Open Scope Z_scope.

(** provenance.ParseActorID: the strings it accepts. *)
Class IdentityParser := ParseActorID : bytes -> bool.

(** ** One identity *)

(** strings.LastIndex and LastIndexByte, -1 for none. *)
Fixpoint LastIndex (s sub : bytes) : Z :=
  match s with
  | [] => match sub with [] => 0 | _ => -1 end
  | _ :: rest =>
      let i := LastIndex rest sub in
      if 0 <=? i then i + 1 else if HasPrefix s sub then 0 else -1
  end.
Fixpoint LastIndexByte (s : bytes) (c : ascii) : Z :=
  match s with
  | [] => -1
  | x :: rest =>
      let i := LastIndexByte rest c in
      if 0 <=? i then i + 1 else if Ascii.eqb x c then 0 else -1
  end.
Definition dashes : bytes := ["-"%char; "-"%char].
Definition slash : ascii := "/"%char.

Section identity.
Context `{IdentityParser}.
Inductive RetiredFault := NoSeparator | SlashAfter | NotIdentity.
Definition slashed (raw : bytes) (i : Z) : bytes := take (Z.to_nat i) raw ++ slash :: drop (Z.to_nat (i + 2)) raw.

Definition convertRetired (raw : bytes) : result RetiredFault bytes :=
  let i := LastIndex raw dashes in
  if i <=? 0 then Err NoSeparator
  else if i <? LastIndexByte raw slash then Err SlashAfter
  else if ParseActorID (slashed raw i) then Ok (slashed raw i) else Err NotIdentity.
Definition convertRetiredIdentity (raw : string) : result RetiredFault string :=
  target ← convertRetired (to_bytes raw); Ok (of_bytes target).
Definition looksRetired (raw : string) : bool :=
  let s := to_bytes raw in
  let i := LastIndex s dashes in
  if (i <=? 0) || (i <? LastIndexByte s slash) then false else ParseActorID (slashed s i).
Definition convertPossibleIdentity (raw : string) : result RetiredFault string :=
  if String.eqb raw "" || negb (looksRetired raw) then Ok raw else convertRetiredIdentity raw.

(** ** Columns of identities *)
Inductive ConvertError :=
  | TypedValue (raw : string) (e : RetiredFault) | Collision (first second target : string)
  | UpdateRefused (old : string) | ArrayMalformed (raw : string) | FieldFault (value : string) (e : RetiredFault)
  | EpochUndecodable (id : string) | EpochUnstored (id : string)
  | PayloadUndecodable (id : Z) | PayloadUnstored (id : Z).

(** SELECT DISTINCT ... IS NOT NULL, whose order the database chooses. *)
Definition sources (cells : list (option string)) : list string := remove_dups (omap id cells).

(** The loop over the distinct values: the values seen at every target, and the
    changes. *)
Fixpoint collect_changes (order : list string) (targets : gmap string string) : result ConvertError (list (string * string)) :=
  match order with
  | [] => Ok []
  | raw :: rest =>
      target ← (if looksRetired raw
                then match convertRetiredIdentity raw with Ok t => Ok t | Err e => Err (TypedValue raw e) end
                else Ok raw);
      match targets !! target with
      | Some previous =>
          if String.eqb previous raw
          then changes ← collect_changes rest (<[target := raw]> targets);
               Ok (if String.eqb target raw then changes else (raw, target) :: changes)
          else Err (Collision previous raw target)
      | None => changes ← collect_changes rest (<[target := raw]> targets);
                Ok (if String.eqb target raw then changes else (raw, target) :: changes)
      end
  end.
(** UPDATE ... SET c = new WHERE c = old, which a key of the table may refuse. *)
Definition update_cells (old new : string) (cells : list (option string)) : list (option string) :=
  (fun cell => if bool_decide (cell = Some old) then Some new else cell) <$> cells.
Fixpoint apply_changes (refuse : string -> string -> list (option string) -> bool) (changes : list (string * string))
    (cells : list (option string)) : result ConvertError (list (option string)) :=
  match changes with
  | [] => Ok cells
  | (old, new) :: rest =>
      if refuse old new cells then Err (UpdateRefused old) else apply_changes refuse rest (update_cells old new cells)
  end.
Definition change_less (a b : string * string) : bool := string_less a.1 b.1.

(** [None] is a table that does not exist. *)
Definition convertIdentityColumn (refuse : string -> string -> list (option string) -> bool) (order : list string)
    (column : option (list (option string))) : result ConvertError (option (list (option string)) * nat) :=
  match column with
  | None => Ok (None, 0%nat)
  | Some cells =>
      changes ← collect_changes order ∅;
      cells' ← apply_changes refuse (sort_slice change_less changes) cells;
      Ok (Some cells', length changes)
  end.
Definition countRetired (order : list string) (column : option (list (option string))) : nat :=
  match column with None => 0%nat | Some _ => length (List.filter looksRetired order) end.

(** ** Arrays of identities *)
Fixpoint convert_elements (elements : list string) : result RetiredFault (list string * bool) :=
  match elements with
  | [] => Ok ([], false)
  | e :: rest =>
      t ← convertPossibleIdentity e;
      more ← convert_elements rest;
      Ok (t :: more.1, negb (String.eqb t e) || more.2)
  end.
End identity.

(** encoding/json on a []string. *)
Class StringArrays := {
  UnmarshalStrings : string -> option (list string);
  MarshalStrings : list string -> string;
}.
Section arrays.
Context `{IdentityParser} `{StringArrays}.
Definition convertIdentityArrayValue (raw : string) : result ConvertError (string * bool) :=
  match UnmarshalStrings raw with
  | None => if looksRetired raw then Err (ArrayMalformed raw) else Ok (raw, false)
  | Some elements =>
      match convert_elements elements with
      | Err e => Err (FieldFault raw e)
      | Ok (converted, changed) => Ok (if (changed : bool) then (MarshalStrings converted, true) else (raw, false))
      end
  end.
Definition identityArrayWouldChange (raw : string) : bool :=
  match convertIdentityArrayValue raw with Ok (_, changed) => changed | Err _ => false end.
(** The rows with a value, each updated by its identity. *)
Fixpoint convert_array_rows (refuse : Z -> bool) (rows : list (Z * option string)) : result ConvertError (list (Z * option string) * nat) :=
  match rows with
  | [] => Ok ([], 0%nat)
  | (rowid, None) :: rest => more ← convert_array_rows refuse rest; Ok ((rowid, None) :: more.1, more.2)
  | (rowid, Some raw) :: rest =>
      converted ← convertIdentityArrayValue raw;
      if negb (converted.2) then more ← convert_array_rows refuse rest; Ok ((rowid, Some raw) :: more.1, more.2)
      else if refuse rowid then Err (UpdateRefused raw)
      else more ← convert_array_rows refuse rest; Ok ((rowid, Some (converted.1)) :: more.1, S (more.2))
  end.
Definition convertIdentityArrayColumn (refuse : Z -> bool) (column : option (list (Z * option string)))
    : result ConvertError (option (list (Z * option string)) * nat) :=
  match column with
  | None => Ok (None, 0%nat)
  | Some rows => converted ← convert_array_rows refuse rows; Ok (Some (converted.1), converted.2)
  end.
Definition countRetiredArray (column : option (list (Z * option string))) : nat :=
  match column with
  | None => 0%nat
  | Some rows => length (List.filter identityArrayWouldChange (sources (snd <$> rows)))
  end.
End arrays.

(** ** The epoch projection *)
Section epochs.
Context `{IdentityParser}.
Definition with_slice (r : ReviewCycleRecord) (slice : string) : ReviewCycleRecord :=
  {| rc_SliceId := slice; rc_Round := rc_Round r; rc_Votes := rc_Votes r; rc_FindingCounts := rc_FindingCounts r;
     rc_Timestamp := rc_Timestamp r |}.
Definition with_ids (p : SliceProgressSignal) (slice leaf : string) : SliceProgressSignal :=
  {| sps_SliceId := slice; sps_LeafTaskId := leaf; sps_StageName := sps_StageName p; sps_Completed := sps_Completed p |}.
Definition with_identities (st : EpochState) (cycles : gmap string (list ReviewCycleRecord)) (progress : list SliceProgressSignal)
    : EpochState :=
  mk_EpochState (es_EpochId st) (es_CurrentPhase st) (es_CurrentRole st) (es_CompletedPhases st) (es_ReviewVotes st)
    (es_BlockerCount st) (es_TransitionHistory st) cycles (es_LastError st) (es_ActiveSessionCount st) (es_ActiveSessions st)
    progress.
Definition possible (value : string) : result ConvertError string :=
  match convertPossibleIdentity value with Ok t => Ok t | Err e => Err (FieldFault value e) end.

Fixpoint convert_records (records : list ReviewCycleRecord) : result ConvertError (list ReviewCycleRecord * bool) :=
  match records with
  | [] => Ok ([], false)
  | r :: rest =>
      slice ← possible (rc_SliceId r);
      more ← convert_records rest;
      Ok (with_slice r slice :: more.1, negb (String.eqb slice (rc_SliceId r)) || more.2)
  end.
(** The range over the map, in the order the runtime chooses. *)
Fixpoint convert_cycles (order : list (string * list ReviewCycleRecord)) (next : gmap string (list ReviewCycleRecord))
    : result ConvertError (gmap string (list ReviewCycleRecord) * bool) :=
  match order with
  | [] => Ok (next, false)
  | (key, records) :: rest =>
      key' ← possible key;
      match next !! key' with
      | Some _ => Err (Collision key key key')
      | None =>
          converted ← convert_records records;
          more ← convert_cycles rest (<[key' := converted.1]> next);
          Ok (more.1, converted.2 || negb (String.eqb key' key) || more.2)
      end
  end.
Fixpoint convert_progress (progress : list SliceProgressSignal) : result ConvertError (list SliceProgressSignal * bool) :=
  match progress with
  | [] => Ok ([], false)
  | p :: rest =>
      slice ← possible (sps_SliceId p);
      leaf ← possible (sps_LeafTaskId p);
      more ← convert_progress rest;
      Ok (with_ids p slice leaf :: more.1,
          negb (String.eqb slice (sps_SliceId p)) || negb (String.eqb leaf (sps_LeafTaskId p)) || more.2)
  end.
Definition convertEpochState (order : list (string * list ReviewCycleRecord)) (st : EpochState)
    : result ConvertError (EpochState * bool) :=
  cycles ← (if bool_decide (es_ReviewCycles st = ∅) then Ok (es_ReviewCycles st, false) else convert_cycles order ∅);
  progress ← convert_progress (es_SliceProgress st);
  Ok (with_identities st (cycles.1) (progress.1), cycles.2 || progress.2).
End epochs.

(** encoding/json on protocol.EpochState. *)
Class EpochCodec := {
  DecodeEpoch : string -> option EpochState;
  EncodeEpoch : EpochState -> string;
}.
Section epoch_rows.
Context `{IdentityParser} `{EpochCodec}.
Context (orders : EpochState -> list (string * list ReviewCycleRecord)).
Fixpoint convert_epoch_rows (refuse : string -> bool) (rows : list (string * string))
    : result ConvertError (list (string * string) * nat) :=
  match rows with
  | [] => Ok ([], 0%nat)
  | (id, text) :: rest =>
      match DecodeEpoch text with
      | None => Err (EpochUndecodable id)
      | Some st =>
          converted ← convertEpochState (orders st) st;
          if negb (converted.2) then more ← convert_epoch_rows refuse rest; Ok ((id, text) :: more.1, more.2)
          else if refuse id then Err (EpochUnstored id)
          else more ← convert_epoch_rows refuse rest; Ok ((id, EncodeEpoch (converted.1)) :: more.1, S (more.2))
      end
  end.
Definition convertEpochProjection (refuse : string -> bool) (table : option (list (string * string)))
    : result ConvertError (option (list (string * string)) * nat) :=
  match table with
  | None => Ok (None, 0%nat)
  | Some rows => converted ← convert_epoch_rows refuse rows; Ok (Some (converted.1), converted.2)
  end.
Fixpoint count_epoch_rows (rows : list (string * string)) : result ConvertError nat :=
  match rows with
  | [] => Ok 0%nat
  | (id, text) :: rest =>
      match DecodeEpoch text with
      | None => Err (EpochUndecodable id)
      | Some st =>
          converted ← convertEpochState (orders st) st;
          more ← count_epoch_rows rest;
          Ok (if (converted.2 : bool) then S more else more)
      end
  end.
Definition countEpochProjectionChanges (table : option (list (string * string))) : result ConvertError nat :=
  match table with None => Ok 0%nat | Some rows => count_epoch_rows rows end.
End epoch_rows.

(** ** Audit payloads *)
Definition auditPayloadIdentityKeys : list string :=
  ["taskid"; "actorid"; "agentid"; "sliceid"; "leaftaskid"; "authorid"; "ownerid"; "assigneeid"; "reviewerid"; "childtaskid";
   "parenttaskid"; "occupantid"; "targetid"; "sourceid"].
(** strings.ToLower of a UTF-8 key as far as an ASCII key can tell: outside ASCII
    only U+0130 and U+212A lower to ASCII letters. *)
Fixpoint lower_key (s : bytes) : bytes :=
  match s with
  | [] => []
  | c :: rest =>
      match N_of_ascii c, rest with
      | 196%N, d :: rest' => if (N_of_ascii d =? 176)%N then "i"%char :: lower_key rest' else c :: lower_key rest
      | 226%N, d :: e :: rest' =>
          if (N_of_ascii d =? 132)%N && (N_of_ascii e =? 170)%N then "k"%char :: lower_key rest' else c :: lower_key rest
      | n, _ => (if byte_between 65 90 c then ascii_of_N (n + 32) else c) :: lower_key rest
      end
  end.
Definition isIdentityKey (key : string) : bool :=
  one_of (of_bytes (lower_key (List.filter (fun c => negb (Ascii.eqb c "_"%char)) (to_bytes key)))) auditPayloadIdentityKeys.

(** encoding/json on any value. *)
Class PayloadCodec := {
  DecodeAny : string -> option json;
  EncodeAny : json -> string;
}.
Section payloads.
Context `{IdentityParser}.
Fixpoint convertPayloadNode (node : json) : result ConvertError (json * bool) :=
  match node with
  | JString _ | JLiteral _ => Ok (node, false)
  | JArray elements =>
      converted ← (fix go (l : list json) : result ConvertError (list json * bool) :=
        match l with
        | [] => Ok ([], false)
        | e :: rest => c ← convertPayloadNode e; more ← go rest; Ok (c.1 :: more.1, c.2 || more.2)
        end) elements;
      Ok (JArray (converted.1), converted.2)
  | JObject members =>
      converted ← (fix go (l : list (string * json)) : result ConvertError (list (string * json) * bool) :=
        match l with
        | [] => Ok ([], false)
        | (key, value) :: rest =>
            c ← match value with
                | JString text =>
                    if isIdentityKey key
                    then t ← possible text; Ok (JString t, negb (String.eqb t text))
                    else convertPayloadNode value
                | _ => convertPayloadNode value
                end;
            more ← go rest; Ok ((key, c.1) :: more.1, c.2 || more.2)
        end) members;
      Ok (JObject (converted.1), converted.2)
  end.
Context `{PayloadCodec}.
Fixpoint convert_payload_rows (refuse : Z -> bool) (rows : list (Z * string)) : result ConvertError (list (Z * string) * nat) :=
  match rows with
  | [] => Ok ([], 0%nat)
  | (id, text) :: rest =>
      match DecodeAny text with
      | None => Err (PayloadUndecodable id)
      | Some document =>
          converted ← convertPayloadNode document;
          if negb (converted.2) then more ← convert_payload_rows refuse rest; Ok ((id, text) :: more.1, more.2)
          else if refuse id then Err (PayloadUnstored id)
          else more ← convert_payload_rows refuse rest; Ok ((id, EncodeAny (converted.1)) :: more.1, S (more.2))
      end
  end.
Definition convertAuditPayloads (refuse : Z -> bool) (table : option (list (Z * string)))
    : result ConvertError (option (list (Z * string)) * nat) :=
  match table with
  | None => Ok (None, 0%nat)
  | Some rows => converted ← convert_payload_rows refuse rows; Ok (Some (converted.1), converted.2)
  end.
Fixpoint count_payload_rows (rows : list (Z * string)) : result ConvertError nat :=
  match rows with
  | [] => Ok 0%nat
  | (id, text) :: rest =>
      match DecodeAny text with
      | None => Err (PayloadUndecodable id)
      | Some document =>
          converted ← convertPayloadNode document;
          more ← count_payload_rows rest;
          Ok (if (converted.2 : bool) then S more else more)
      end
  end.
Definition countAuditPayloadChanges (table : option (list (Z * string))) : result ConvertError nat :=
  match table with None => Ok 0%nat | Some rows => count_payload_rows rows end.
End payloads.

(** ** Every declared identity of the store *)
Definition pastureIdentityColumns : list (string * string) :=
  [("audit_events", "agent_id"); ("pasture_agent_categories", "agent_id"); ("pasture_well_known_agents", "agent_id");
   ("pasture_system_identity", "committer_actor_id"); ("pasture_session_claim", "actor");
   ("pasture_session_epoch_binding", "epoch_id"); ("pasture_session_inferred_binding", "epoch_id");
   ("pasture_project_epoch_binding", "epoch_id")].
Definition pastureIdentityArrayColumns : list (string * string) :=
  [("pasture_governed_allocation_audit", "child_task_id"); ("pasture_governed_allocation_audit", "occupant_id")].
Definition context_column : string * string := ("context_edges", "context_id").

(** The columns, the array columns, the epoch projection and the audit payloads
    of a store; a name without an entry is a table that does not exist. *)
Record Tables := mk_Tables {
  tb_columns : list ((string * string) * list (option string));
  tb_arrays : list ((string * string) * list (Z * option string));
  tb_epochs : option (list (string * string));
  tb_payloads : option (list (Z * string));
}.
Definition column_of {A} (cols : list ((string * string) * A)) (name : string * string) : option A :=
  snd <$> List.find (fun c => bool_decide (c.1 = name)) cols.
Definition set_column {A} (cols : list ((string * string) * A)) (name : string * string) (x : A) : list ((string * string) * A) :=
  (fun c => if bool_decide (c.1 = name) then (c.1, x) else c) <$> cols.

(** The identity columns of the provenance library, which its own conversion
    rewrites; in a context row a kind stands beside the identity. *)
Definition previewDependencyColumns : list (string * string) :=
  [("tasks", "id"); ("tasks", "owner_id"); ("agents", "id");
   ("agents_human", "agent_id"); ("agents_ml", "agent_id"); ("agents_software", "agent_id");
   ("activities", "id"); ("activities", "agent_id");
   ("comments", "id"); ("comments", "task_id"); ("comments", "author_id");
   ("labels", "task_id"); ("edges", "source_id"); ("edges", "target_id");
   ("task_attributions", "task_id"); ("task_attributions", "actor_id");
   ("fixed_actor_manifest_entries", "actor_id");
   ("journal", "actor_id"); ("journal_activity_creations", "activity_id");
   ("journal_authority_assignment_episodes", "task_id"); ("journal_authority_assignment_episodes", "actor_id");
   ("journal_decisions", "task_id"); ("journal_evidence", "task_id"); ("journal_task_events", "task_id");
   ("governed_allocation_operations", "actor_id")].
Definition previewDependencyContextColumns : list (string * string) :=
  [("journal_decision_contexts", "context_identity"); ("journal_evidence_contexts", "context_identity");
   ("journal_task_event_contexts", "context_identity")].
Definition contextIdentityConvertedKinds : list string := ["task"; "activity"; "actor"].
Record DependencyTables := mk_Dependency {
  dp_columns : list ((string * string) * list (option string));
  dp_contexts : list ((string * string) * list (string * option string));
}.
Definition converted_contexts (rows : list (string * option string)) : list (option string) :=
  snd <$> List.filter (fun row => one_of (row.1) contextIdentityConvertedKinds) rows.

(** The choices of the database: the order of a SELECT DISTINCT and of a map, and
    which update it refuses. *)
Record ConvertOracle := mk_ConvertOracle {
  co_order : (string * string) -> list string -> list string;
  co_cycles : EpochState -> list (string * list ReviewCycleRecord);
  co_column : (string * string) -> string -> string -> list (option string) -> bool;
  co_array : (string * string) -> Z -> bool;
  co_epoch : string -> bool;
  co_payload : Z -> bool;
}.

Section store.
Context `{IdentityParser} `{StringArrays} `{EpochCodec} `{PayloadCodec}.
Context (o : ConvertOracle).

Definition convert_column (name : string * string) (cols : list ((string * string) * list (option string)))
    : result ConvertError (list ((string * string) * list (option string)) * nat) :=
  let column := column_of cols name in
  converted ← convertIdentityColumn (co_column o name) (co_order o name (sources (default [] column))) column;
  Ok (match converted.1 with Some cells => set_column cols name cells | None => cols end, converted.2).
Fixpoint convert_columns (names : list (string * string)) (cols : list ((string * string) * list (option string)))
    : result ConvertError (list ((string * string) * list (option string)) * nat) :=
  match names with
  | [] => Ok (cols, 0%nat)
  | name :: rest =>
      one ← convert_column name cols; more ← convert_columns rest (one.1); Ok (more.1, (one.2 + more.2)%nat)
  end.
Definition convert_array (name : string * string) (cols : list ((string * string) * list (Z * option string)))
    : result ConvertError (list ((string * string) * list (Z * option string)) * nat) :=
  converted ← convertIdentityArrayColumn (co_array o name) (column_of cols name);
  Ok (match converted.1 with Some rows => set_column cols name rows | None => cols end, converted.2).
Fixpoint convert_arrays (names : list (string * string)) (cols : list ((string * string) * list (Z * option string)))
    : result ConvertError (list ((string * string) * list (Z * option string)) * nat) :=
  match names with
  | [] => Ok (cols, 0%nat)
  | name :: rest => one ← convert_array name cols; more ← convert_arrays rest (one.1); Ok (more.1, (one.2 + more.2)%nat)
  end.
Definition convertPastureIdentities (t : Tables) : result ConvertError (Tables * nat) :=
  scalars ← convert_columns pastureIdentityColumns (tb_columns t);
  arrays ← convert_arrays pastureIdentityArrayColumns (tb_arrays t);
  edges ← convert_column context_column (scalars.1);
  epochs ← convertEpochProjection (co_cycles o) (co_epoch o) (tb_epochs t);
  payloads ← convertAuditPayloads (co_payload o) (tb_payloads t);
  Ok (mk_Tables (edges.1) (arrays.1) (epochs.1) (payloads.1),
      (scalars.2 + arrays.2 + edges.2 + epochs.2 + payloads.2)%nat).

(** *** The dry run *)
Record Preview := mk_Preview {
  pv_Columns : list ((string * string) * nat);
  pv_EpochProjectionRows : nat;
  pv_AuditPayloadRows : nat;
}.
Definition positive (counts : list ((string * string) * nat)) : list ((string * string) * nat) :=
  List.filter (fun c => negb (c.2 =? 0)%nat) counts.
Definition count_in (cols : list ((string * string) * list (option string))) (name : string * string) : (string * string) * nat :=
  let column := column_of cols name in (name, countRetired (co_order o name (sources (default [] column))) column).
Definition count_column (t : Tables) (name : string * string) : (string * string) * nat := count_in (tb_columns t) name.
Definition count_array (t : Tables) (name : string * string) : (string * string) * nat :=
  (name, countRetiredArray (column_of (tb_arrays t) name)).
(** SELECT DISTINCT ... WHERE context_kind IN (...). *)
Definition countRetiredContext (d : DependencyTables) (name : string * string) : (string * string) * nat :=
  let column := option_map converted_contexts (column_of (dp_contexts d) name) in
  (name, countRetired (co_order o name (sources (default [] column))) column).
Definition column_counts (d : DependencyTables) (t : Tables) : list ((string * string) * nat) :=
  map (count_column t) pastureIdentityColumns ++ map (count_in (dp_columns d)) previewDependencyColumns
  ++ map (count_array t) pastureIdentityArrayColumns ++ map (countRetiredContext d) previewDependencyContextColumns
  ++ [count_column t context_column].
Definition preview (retired : bool) (d : DependencyTables) (t : Tables) : result ConvertError Preview :=
  if negb retired then Ok (mk_Preview [] 0 0)
  else
    epochs ← countEpochProjectionChanges (co_cycles o) (tb_epochs t);
    payloads ← countAuditPayloadChanges (tb_payloads t);
    Ok (mk_Preview (positive (column_counts d t)) epochs payloads).
Definition WouldChange (p : Preview) : bool :=
  existsb (fun c => (0 <? c.2)%nat) (pv_Columns p) || (0 <? pv_EpochProjectionRows p)%nat || (0 <? pv_AuditPayloadRows p)%nat.
End store.

(** * One identity *)
Lemma LastIndex_cons x s sub :
  LastIndex (x :: s) sub = if 0 <=? LastIndex s sub then LastIndex s sub + 1 else if HasPrefix (x :: s) sub then 0 else -1.
Proof. done. Qed.
Lemma LastIndex_bounds s sub : sub <> [] -> -1 <= LastIndex s sub.
Proof.
  intros Hs. induction s as [|x s IH]; simpl; [by destruct sub|].
  destruct (0 <=? LastIndex s sub) eqn:Hi; [apply Z.leb_le in Hi; lia|]. destruct (HasPrefix _ _); lia.
Qed.
Lemma LastIndex_none s sub : sub <> [] -> LastIndex s sub = -1 <-> forall a b, s <> a ++ sub ++ b.
Proof.
  intros Hs. induction s as [|x s IH]; simpl.
  - destruct sub as [|y sub]; [done|]. split; [|done]. intros _ a b Heq. by destruct a.
  - pose proof (LastIndex_bounds s sub Hs). destruct (Z.leb_spec 0 (LastIndex s sub)) as [Hi|Hi].
    + split; [lia|]. intros Hno. exfalso. apply Z.le_ngt in Hi. apply Hi. enough (LastIndex s sub = -1) by lia.
      apply IH. intros a b ->. by apply (Hno (x :: a) b).
    + assert (Hn : LastIndex s sub = -1) by lia. destruct (HasPrefix (x :: s) sub) eqn:Hp.
      * split; [done|]. intros Hno. exfalso. apply HasPrefix_spec in Hp as (b & Hb). by apply (Hno [] b).
      * split; [|done]. intros _ [|y a'] b Heq.
        { assert (HasPrefix (x :: s) sub = true) by (apply HasPrefix_spec; by exists b). congruence. }
        injection Heq as -> Heq. by apply (proj1 IH Hn a' b).
Qed.
Lemma LastIndex_dashes s :
  0 <= LastIndex s dashes ->
  exists a b, s = a ++ dashes ++ b /\ LastIndex s dashes = Z.of_nat (length a) /\ LastIndex ("-"%char :: b) dashes = -1.
Proof.
  induction s as [|x s IH]; simpl; [done|].
  destruct (Z.leb_spec 0 (LastIndex s dashes)) as [Hi|Hi].
  - intros _. destruct (IH Hi) as (a & b & -> & -> & Hb). exists (x :: a), b. split_and!; [done|simpl; lia|done].
  - pose proof (LastIndex_bounds s dashes ltac:(done)). destruct (HasPrefix (x :: s) dashes) eqn:Hp; [|lia]. intros _.
    apply HasPrefix_spec in Hp as (b & Hb). simpl in Hb. injection Hb as -> ->. exists [], b.
    split_and!; [done|done|]. simpl in *. lia.
Qed.
Lemma LastIndexByte_none s c : LastIndexByte s c = -1 <-> c ∉ s.
Proof.
  induction s as [|x s IH]; simpl; [split; [intros _; apply not_elem_of_nil|done]|]. rewrite elem_of_cons.
  destruct (Z.leb_spec 0 (LastIndexByte s c)) as [Hi|Hi].
  - split; [lia|]. intros Hn. exfalso. assert (LastIndexByte s c = -1) by (apply IH; tauto). lia.
  - assert (Hc : c ∉ s).
    { apply IH. clear IH. induction s as [|y s IH]; [done|]. simpl in *. destruct (Z.leb_spec 0 (LastIndexByte s c)); [lia|].
      destruct (Ascii.eqb y c); [lia|done]. }
    destruct (Ascii.eqb_spec x c) as [->|Hne]; [split; [done|tauto]|]. split; [intros _ [?|?]; congruence|done].
Qed.
Lemma LastIndexByte_lt s c : -1 <= LastIndexByte s c < Z.of_nat (length s).
Proof. induction s as [|x s IH]; simpl; [lia|]. destruct (Z.leb_spec 0 (LastIndexByte s c)); [lia|]. destruct (Ascii.eqb x c); lia. Qed.
Lemma LastIndexByte_app a b c :
  LastIndexByte (a ++ b) c = if bool_decide (c ∈ b) then Z.of_nat (length a) + LastIndexByte b c else LastIndexByte a c.
Proof.
  induction a as [|x a IH]; simpl.
  - case_bool_decide as Hb; [lia|]. by apply LastIndexByte_none.
  - rewrite IH. case_bool_decide as Hb; [|done].
    assert (0 <= LastIndexByte b c).
    { destruct (LastIndexByte_lt b c). destruct (Z.eq_dec (LastIndexByte b c) (-1)) as [Hn|]; [|lia].
      by apply LastIndexByte_none in Hn. }
    destruct (Z.leb_spec 0 (Z.of_nat (length a) + LastIndexByte b c)); lia.
Qed.

Section one.
Context `{IdentityParser}.

(** [s] is a namespace and an identifier joined by its last two dashes, and [t]
    joins them by a slash. *)
Definition retired (s t : bytes) : Prop :=
  exists a b, s = a ++ dashes ++ b /\ a <> [] /\ LastIndex ("-"%char :: b) dashes = -1 /\ slash ∉ b
  /\ t = a ++ slash :: b /\ ParseActorID t = true.

Lemma slashed_at a b : slashed (a ++ dashes ++ b) (Z.of_nat (length a)) = a ++ slash :: b.
Proof.
  unfold slashed. rewrite Nat2Z.id, take_app_length. f_equal. f_equal.
  replace (Z.to_nat (Z.of_nat (length a) + 2)) with (length (a ++ dashes)) by (rewrite length_app; simpl; lia).
  by rewrite (app_assoc a), drop_app_length.
Qed.
Lemma convertRetired_spec s t : convertRetired s = Ok t <-> retired s t.
Proof.
  unfold convertRetired, retired. split.
  - destruct (Z.leb_spec (LastIndex s dashes) 0) as [|Hi]; [done|].
    destruct (LastIndex_dashes s ltac:(lia)) as (a & b & -> & Ha & Hb). rewrite Ha in *.
    destruct (Z.ltb_spec (Z.of_nat (length a)) (LastIndexByte (a ++ dashes ++ b) slash)) as [|Hs]; [done|].
    rewrite slashed_at. destruct (ParseActorID _) eqn:Hp; [|done]. intros [= <-]. exists a, b.
    split_and!; try done; [by intros ->|]. intros Hin. revert Hs. rewrite LastIndexByte_app, bool_decide_eq_true_2 by (by repeat right).
    rewrite (LastIndexByte_app dashes b), bool_decide_eq_true_2 by done. simpl.
    assert (LastIndexByte b slash <> -1) by (intros Hn%LastIndexByte_none; done). pose proof (LastIndexByte_lt b slash). lia.
  - intros (a & b & -> & Ha & Hb & Hs & -> & Hp).
    assert (Hi : LastIndex (a ++ dashes ++ b) dashes = Z.of_nat (length a)).
    { clear -Hb. induction a as [|x a IH].
      - change (LastIndex ("-"%char :: "-"%char :: b) dashes = 0). rewrite LastIndex_cons, Hb.
        assert (HasPrefix ("-"%char :: "-"%char :: b) dashes = true) as -> by (apply HasPrefix_spec; by exists b). done.
      - change ((x :: a) ++ dashes ++ b) with (x :: (a ++ dashes ++ b)). rewrite LastIndex_cons, IH. simpl length. destruct (Z.leb_spec 0 (Z.of_nat (length a))); lia. }
    rewrite Hi. destruct (Z.leb_spec (Z.of_nat (length a)) 0); [destruct a; simpl in *; [done|lia]|].
    rewrite LastIndexByte_app. rewrite bool_decide_eq_false_2 by (simpl; rewrite !elem_of_cons; naive_solver).
    destruct (LastIndexByte_lt a slash). destruct (Z.ltb_spec (Z.of_nat (length a)) (LastIndexByte a slash)); [lia|].
    by rewrite slashed_at, Hp.
Qed.

(** What becomes of a value: a retired identity takes its slash form, any other
    value stays. *)
Definition settle (raw : string) : string :=
  match convertRetiredIdentity raw with Ok t => t | Err _ => raw end.

Lemma looks_spec raw : looksRetired raw = true <-> exists t, retired (to_bytes raw) t /\ settle raw = of_bytes t.
Proof.
  assert (Hs : forall t, convertRetired (to_bytes raw) = Ok t -> settle raw = of_bytes t).
  { intros t Ht. unfold settle, convertRetiredIdentity. by rewrite Ht. }
  setoid_rewrite <- convertRetired_spec. unfold looksRetired. split.
  - intros Hl. enough (exists t, convertRetired (to_bytes raw) = Ok t) as (t & Ht) by eauto. revert Hl. unfold convertRetired.
    destruct (_ <=? 0); [done|]. simpl. destruct (_ <? _); [done|]. intros ->. eauto.
  - intros (t & Ht & _). revert Ht. unfold convertRetired. destruct (_ <=? 0); [done|]. simpl. destruct (_ <? _); [done|].
    by destruct (ParseActorID _).
Qed.
Lemma settle_other raw : looksRetired raw = false -> settle raw = raw.
Proof.
  intros Hl. unfold settle, convertRetiredIdentity. destruct (convertRetired (to_bytes raw)) as [t|] eqn:Ht; [|done].
  apply Bool.not_true_iff_false in Hl. destruct Hl. apply looks_spec. exists t. split; [by apply convertRetired_spec|].
  unfold settle, convertRetiredIdentity. by rewrite Ht.
Qed.
Lemma possible_settles raw : convertPossibleIdentity raw = Ok (settle raw).
Proof.
  unfold convertPossibleIdentity. destruct (looksRetired raw) eqn:Hl; simpl.
  - apply looks_spec in Hl as (t & Ht & _). apply convertRetired_spec in Ht. rewrite orb_false_r.
    destruct (String.eqb_spec raw "") as [->|]; [done|]. unfold settle, convertRetiredIdentity. by rewrite Ht.
  - rewrite orb_true_r. by rewrite settle_other.
Qed.
Lemma convert_settles raw : looksRetired raw = true -> convertRetiredIdentity raw = Ok (settle raw).
Proof.
  intros (t & Ht & _)%looks_spec. apply convertRetired_spec in Ht. unfold settle, convertRetiredIdentity. by rewrite Ht.
Qed.
Lemma retired_length s t : retired s t -> length s = S (length t).
Proof. intros (a & b & -> & _ & _ & _ & -> & _). rewrite !length_app. simpl. lia. Qed.
Lemma settle_changes raw : settle raw = raw <-> looksRetired raw = false.
Proof.
  split; [|apply settle_other]. intros Heq. apply Bool.not_true_iff_false. intros (t & Ht%retired_length & Hs)%looks_spec.
  rewrite Heq in Hs. rewrite Hs, to_of_bytes in Ht. lia.
Qed.
Lemma retired_settled s t u : retired s t -> ~ retired t u.
Proof.
  intros (a & b & -> & _ & Hb & Hs & -> & _) (a' & b' & Heq & _ & _ & Hs' & _).
  assert (Ha : slash ∈ a').
  { assert (Hin : slash ∈ a ++ slash :: b) by (apply elem_of_app; right; left). rewrite Heq in Hin.
    apply elem_of_app in Hin as [|Hin]; [done|]. simpl in Hin. rewrite !elem_of_cons in Hin. naive_solver. }
  apply list_elem_of_split_r in Ha as (a1 & a2 & -> & Ha2). rewrite <- app_assoc in Heq. simpl in Heq.
  apply app_last_sep in Heq as [_ Hbb]; [|done|].
  - revert Hb. rewrite Hbb. intros Hb. apply (proj1 (LastIndex_none _ dashes ltac:(done)) Hb ("-"%char :: a2) b'). done.
  - rewrite elem_of_app. simpl. rewrite !elem_of_cons. naive_solver.
Qed.
Lemma settle_settled raw : looksRetired (settle raw) = false.
Proof.
  destruct (looksRetired raw) eqn:Hl; [|by rewrite settle_other].
  apply looks_spec in Hl as (t & Ht & ->). apply Bool.not_true_iff_false. intros (u & Hu & _)%looks_spec.
  rewrite to_of_bytes in Hu. exact (retired_settled _ _ _ Ht Hu).
Qed.
Lemma settle_idem raw : settle (settle raw) = settle raw.
Proof. apply settle_other, settle_settled. Qed.
Lemma settle_inj a b : looksRetired a = true -> looksRetired b = true -> settle a = settle b -> a = b.
Proof.
  intros (t & (x & y & Ha & _ & _ & Hy & -> & _) & Hsa)%looks_spec (u & (x' & y' & Hb & _ & _ & Hy' & -> & _) & Hsb)%looks_spec Heq.
  rewrite Hsa, Hsb in Heq. apply (f_equal to_bytes) in Heq. rewrite !to_of_bytes in Heq.
  apply app_last_sep in Heq as [-> ->]; [|done..]. apply bytes_inj. by rewrite Ha, Hb.
Qed.
(** Two values meet only when one is the slash form of the other. *)
Lemma settle_meets a b : a <> b -> settle a = settle b ->
  (looksRetired a = true /\ settle a = b) \/ (looksRetired b = true /\ settle b = a).
Proof.
  intros Hne Heq. destruct (looksRetired a) eqn:Ha, (looksRetired b) eqn:Hb.
  - destruct Hne. by apply settle_inj.
  - left. split; [done|]. by rewrite Heq, settle_other.
  - right. split; [done|]. by rewrite <- Heq, settle_other.
  - destruct Hne. by rewrite <- (settle_other a), <- (settle_other b).
Qed.

(** * A column *)
Definition changes_of (order : list string) : list (string * string) := (fun r => (r, settle r)) <$> List.filter looksRetired order.

Lemma collect_spec order : forall targets,
  NoDup order -> (forall t p, targets !! t = Some p -> settle p = t /\ p ∉ order) ->
  match collect_changes order targets with
  | Ok changes => changes = changes_of order /\ NoDup (settle <$> order) /\ forall a, a ∈ order -> targets !! settle a = None
  | Err (Collision p r t) => p <> r /\ settle p = t /\ settle r = t /\ r ∈ order /\ (p ∈ order \/ targets !! t = Some p)
  | Err _ => False
  end.
Proof.
  induction order as [|raw order IH]; intros targets Hn Ht; simpl.
  { split_and!; [done|constructor|]. by intros a ?%elem_of_nil. }
  apply NoDup_cons in Hn as [Hraw Hn].
  assert (Hhead : (if looksRetired raw then match convertRetiredIdentity raw with Ok t => Ok t | Err e => Err (TypedValue raw e) end
                   else Ok raw) = Ok (settle raw)).
  { destruct (looksRetired raw) eqn:Hl; [by rewrite convert_settles|by rewrite settle_other]. }
  rewrite Hhead. simpl.
  destruct (targets !! settle raw) as [previous|] eqn:Hp.
  { destruct (Ht _ _ Hp) as [Hsp Hnot]. destruct (String.eqb_spec previous raw) as [->|Hne]; [by destruct Hnot; left|].
    split_and!; [done|done|done|by left|by right]. }
  specialize (IH (<[settle raw := raw]> targets) Hn). destruct (collect_changes _ _) as [changes|e].
  - destruct IH as (-> & Hnd & Hfree).
    { intros t p. destruct (decide (t = settle raw)) as [->|Hne]; [rewrite lookup_insert_eq; by intros [= <-]|].
      rewrite lookup_insert_ne by done. intros Hlk. destruct (Ht _ _ Hlk) as [? Hnot]. split; [done|]. intros ?. apply Hnot. by right. }
    unfold changes_of. simpl. split_and!.
    + destruct (looksRetired raw) eqn:Hl.
      * destruct (String.eqb_spec (settle raw) raw) as [Heq|]; [apply settle_changes in Heq; congruence|done].
      * by rewrite settle_other, String.eqb_refl.
    + constructor; [|done]. intros (a & Ha & Hin)%list_elem_of_fmap. specialize (Hfree a Hin). rewrite <- Ha, lookup_insert_eq in Hfree. done.
    + intros a [->|Ha]%elem_of_cons; [done|]. specialize (Hfree a Ha). by apply lookup_insert_None in Hfree as [? _].
  - assert (Hinv : forall t p, <[settle raw := raw]> targets !! t = Some p -> settle p = t /\ p ∉ order).
    { intros t p. destruct (decide (t = settle raw)) as [->|Hne]; [rewrite lookup_insert_eq; by intros [= <-]|].
      rewrite lookup_insert_ne by done. intros Hlk. destruct (Ht _ _ Hlk) as [? Hnot]. split; [done|]. intros ?. apply Hnot. by right. }
    specialize (IH Hinv). destruct e; try done. destruct IH as (? & Hp1 & Hr1 & ? & [?|Hlk]); split_and!; try done; try by right.
    + left. by right.
    + destruct (decide (target = settle raw)) as [->|Hne]; [rewrite lookup_insert_eq in Hlk; injection Hlk as <-; left; by left|].
      rewrite lookup_insert_ne in Hlk by done. by right.
Qed.

Lemma apply_spec refuse changes : forall cells,
  (forall c, c ∈ changes -> looksRetired (c.1) = true /\ c.2 = settle (c.1)) ->
  match apply_changes refuse changes cells with
  | Ok cells' => cells' = fmap (M := option) (fun v => if bool_decide (v ∈ changes.*1) then settle v else v) <$> cells
  | Err (UpdateRefused old) => exists cs, old ∈ changes.*1 /\ refuse old (settle old) cs = true
  | Err _ => False
  end.
Proof.
  induction changes as [|[old new] changes IH]; intros cells Hc; simpl.
  { symmetry. rewrite <- (list_fmap_id cells) at 2. apply list_fmap_ext. intros _ [v|] _; done. }
  destruct (Hc (old, new) ltac:(left)) as [Hold Hnew]. simpl in Hold, Hnew. subst new.
  destruct (refuse old (settle old) cells) eqn:Hr; [exists cells; split; [left|done]|].
  specialize (IH (update_cells old (settle old) cells) (fun c Hin => Hc c ltac:(by right))).
  destruct (apply_changes _ _ _) as [cells'|e].
  - rewrite IH. unfold update_cells. rewrite <- list_fmap_compose. apply list_fmap_ext. intros _ [v|] _; simpl; [|done].
    destruct (decide (v = old)) as [->|Hne].
    + rewrite (bool_decide_eq_true_2 (Some old = Some old)) by done. simpl.
      rewrite (bool_decide_eq_true_2 (old ∈ _)) by left. case_bool_decide as Hin; [|done]. by rewrite settle_idem.
    + rewrite (bool_decide_eq_false_2 (Some v = Some old)) by congruence. simpl. f_equal.
      change (list_fmap _ _ fst changes) with (changes.*1).
      rewrite (bool_decide_ext (v ∈ old :: changes.*1) (v ∈ changes.*1)); [done|]. rewrite elem_of_cons. naive_solver.
  - destruct e; try done. destruct IH as (cs & ? & ?). exists cs. split; [by right|done].
Qed.
End one.

(** Both forms of one identity are in the column. *)
Definition both_forms `{IdentityParser} (cells : list (option string)) : Prop :=
  exists r, looksRetired r = true /\ Some r ∈ cells /\ Some (settle r) ∈ cells.
Definition settle_cells `{IdentityParser} (cells : list (option string)) : list (option string) := fmap (M := option) settle <$> cells.

Lemma elem_sources cells v : v ∈ sources cells <-> Some v ∈ cells.
Proof.
  unfold sources. rewrite elem_of_remove_dups, list_elem_of_omap. split; [intros (x & Hx & Heq)|intros Hv; by exists (Some v)].
  simpl in Heq. by subst.
Qed.

Section column.
Context `{IdentityParser}.

Lemma changes_fst order v : v ∈ (changes_of order).*1 <-> v ∈ order /\ looksRetired v = true.
Proof.
  unfold changes_of. rewrite <- list_fmap_compose. rewrite list_elem_of_fmap. setoid_rewrite list_elem_of_In.
  setoid_rewrite List.filter_In. simpl. naive_solver.
Qed.
Lemma settle_apart order cells : order ≡ₚ sources cells -> NoDup (settle <$> order) -> ~ both_forms cells.
Proof.
  intros Hp Hn (r & Hr & H1%elem_sources & H2%elem_sources). rewrite <- Hp in H1, H2.
  apply list_elem_of_lookup in H1 as [i Hi]. apply list_elem_of_lookup in H2 as [j Hj].
  assert (i = j) as ->.
  { apply (NoDup_lookup (settle <$> order) i j (settle r)); [done|by rewrite list_lookup_fmap, Hi|].
    by rewrite list_lookup_fmap, Hj; simpl; rewrite settle_idem. }
  rewrite Hi in Hj. injection Hj as Heq. symmetry in Heq. apply settle_changes in Heq. congruence.
Qed.

(** What converting a column does, on every branch. *)
Lemma column_cases refuse order cells :
  order ≡ₚ sources cells ->
  match convertIdentityColumn refuse order (Some cells) with
  | Ok (column, n) => column = Some (settle_cells cells) /\ n = countRetired order (Some cells) /\ ~ both_forms cells
  | Err (Collision _ _ _) => both_forms cells
  | Err (UpdateRefused old) => ~ both_forms cells /\ looksRetired old = true /\ Some old ∈ cells
                               /\ exists cs, refuse old (settle old) cs = true
  | Err _ => False
  end.
Proof.
  intros Hp. unfold convertIdentityColumn.
  assert (Hn : NoDup order) by (rewrite Hp; apply NoDup_remove_dups).
  pose proof (collect_spec order ∅ Hn ltac:(by intros t p; rewrite lookup_empty)) as Hc.
  destruct (collect_changes order ∅) as [changes|e]; simpl.
  - destruct Hc as (-> & Hnd & _). pose proof (settle_apart _ _ Hp Hnd) as Hapart.
    assert (Hperm : sort_slice change_less (changes_of order) ≡ₚ changes_of order) by apply merge_sort_Permutation.
    assert (Hfst : forall v, v ∈ (sort_slice change_less (changes_of order)).*1 <-> v ∈ order /\ looksRetired v = true).
    { intros v. rewrite Hperm. apply changes_fst. }
    pose proof (apply_spec refuse (sort_slice change_less (changes_of order)) cells) as Ha.
    destruct (apply_changes _ _ _) as [cells'|e]; simpl.
    + split_and!; [|unfold changes_of; by rewrite length_fmap|done]. f_equal. rewrite Ha.
      * unfold settle_cells. apply list_fmap_ext. intros i [v|] Hi; simpl; [|done]. f_equal. case_bool_decide as Hv; [done|].
        symmetry. apply settle_other, Bool.not_true_iff_false. intros Hl. apply Hv, Hfst. split; [|done].
        rewrite Hp. apply elem_sources. by eapply list_elem_of_lookup_2.
      * intros c. rewrite Hperm. unfold changes_of. intros (r & -> & Hr)%list_elem_of_fmap. simpl.
        apply list_elem_of_In, List.filter_In in Hr as [_ ?]. done.
    + destruct e; try (by destruct Ha; intros c; rewrite Hperm; unfold changes_of; intros (r & -> & Hr)%list_elem_of_fmap;
        apply list_elem_of_In, List.filter_In in Hr as [_ ?]).
      destruct Ha as (cs & Hin%Hfst & Href).
      { intros c. rewrite Hperm. unfold changes_of. intros (r & -> & Hr)%list_elem_of_fmap.
        apply list_elem_of_In, List.filter_In in Hr as [_ ?]. done. }
      split_and!; [done|apply Hin| |by exists cs]. apply elem_sources. rewrite <- Hp. apply Hin.
  - destruct e; try done. destruct Hc as (Hne & Hp1 & Hr1 & Hr & [Hin|Hlk]); [|by rewrite lookup_empty in Hlk].
    rewrite <- Hr1 in Hp1. apply settle_meets in Hp1 as [[Hl Hs]|[Hl Hs]]; [| |done].
    + exists first. rewrite <- !elem_sources, <- Hp, Hs. done.
    + exists second. rewrite <- !elem_sources, <- Hp, Hs. done.
Qed.
End column.

(** * The structured documents *)
Section documents.
Context `{IdentityParser}.

Definition settle_record (r : ReviewCycleRecord) : ReviewCycleRecord := with_slice r (settle (rc_SliceId r)).
Definition settle_progress (p : SliceProgressSignal) : SliceProgressSignal :=
  with_ids p (settle (sps_SliceId p)) (settle (sps_LeafTaskId p)).
Definition settle_cycle (c : string * list ReviewCycleRecord) : string * list ReviewCycleRecord :=
  (settle (c.1), settle_record <$> c.2).
(** Every declared identity of the state in its slash form; the epoch's own
    identifier and every other field as they were. *)
Definition settle_epoch (st : EpochState) : EpochState :=
  with_identities st (list_to_map (settle_cycle <$> map_to_list (es_ReviewCycles st))) (settle_progress <$> es_SliceProgress st).
Fixpoint settle_node (node : json) : json :=
  match node with
  | JString _ | JLiteral _ => node
  | JArray elements => JArray (map settle_node elements)
  | JObject members =>
      JObject (map (fun m => (m.1, match m.2 with
                                   | JString text => JString (if isIdentityKey (m.1) then settle text else text)
                                   | _ => settle_node (m.2)
                                   end)) members)
  end.

Lemma possible_ok v : possible v = Ok (settle v).
Proof. unfold possible. by rewrite possible_settles. Qed.
Lemma eqb_settle v : negb (String.eqb (settle v) v) = false <-> settle v = v.
Proof. rewrite negb_false_iff. apply String.eqb_eq. Qed.

(** The flag of each loop says whether anything differs. *)
Lemma elements_settle elements : exists changed,
  convert_elements elements = Ok (settle <$> elements, changed) /\ (changed = false <-> settle <$> elements = elements).
Proof.
  induction elements as [|e rest (changed & IH & Hc)]; [by exists false|]. simpl. rewrite possible_settles. simpl. rewrite IH. simpl.
  eexists. split; [done|]. rewrite orb_false_iff, eqb_settle, Hc. split; [intros [He Hr]; f_equal; done|]. intros Heq. by injection Heq.
Qed.
Lemma records_settle records : exists changed,
  convert_records records = Ok (settle_record <$> records, changed) /\ (changed = false <-> settle_record <$> records = records).
Proof.
  induction records as [|r rest (changed & IH & Hc)]; [by exists false|]. simpl. rewrite possible_ok. simpl. rewrite IH. simpl.
  eexists. split; [done|]. rewrite orb_false_iff, eqb_settle, Hc. split.
  - intros [Hr Hrest]. f_equal; [|exact Hrest]. unfold settle_record. rewrite Hr. by destruct r.
  - intros Heq. injection Heq as Hr Hrest. split; [by rewrite <- Hr at 2|done].
Qed.
Lemma progress_settle progress : exists changed,
  convert_progress progress = Ok (settle_progress <$> progress, changed) /\ (changed = false <-> settle_progress <$> progress = progress).
Proof.
  induction progress as [|p rest (changed & IH & Hc)]; [by exists false|]. simpl. rewrite !possible_ok. simpl. rewrite IH. simpl.
  eexists. split; [done|]. rewrite !orb_false_iff, !eqb_settle, Hc. split.
  - intros [[Hs Hl] Hrest]. f_equal; [|exact Hrest]. unfold settle_progress. rewrite Hs, Hl. by destruct p.
  - intros Heq. injection Heq as Hp Hrest. split_and!; [by rewrite <- Hp at 2..|done].
Qed.

Lemma cycles_settle order : forall next,
  NoDup order.*1 -> (forall k x, next !! k = Some x -> settle k = k) ->
  match convert_cycles order next with
  | Ok (m, changed) =>
      NoDup (settle <$> order.*1) /\ (forall k, k ∈ order.*1 -> next !! settle k = None)
      /\ m = list_to_map (settle_cycle <$> order) ∪ next
      /\ (changed = false <-> settle_cycle <$> order = order)
  | Err _ => exists k, k ∈ order.*1 /\ (is_Some (next !! settle k) \/ exists k', k' ∈ order.*1 /\ k' <> k /\ settle k' = settle k)
  end.
Proof.
  induction order as [|[key records] order IH]; intros next Hn Hnext; simpl.
  { split_and!; [constructor|by intros k ?%elem_of_nil|by rewrite (left_id_L ∅ _)|done]. }
  apply NoDup_cons in Hn as [Hkey Hn]. rewrite possible_ok. simpl. destruct (next !! settle key) as [x|] eqn:Hk.
  { exists key. split; [left|left; eauto]. }
  destruct (records_settle records) as (changed & -> & Hrec). simpl.
  specialize (IH (<[settle key := settle_record <$> records]> next) Hn).
  assert (Hnext' : forall k x, <[settle key := settle_record <$> records]> next !! k = Some x -> settle k = k).
  { intros k x. destruct (decide (k = settle key)) as [->|Hne]; [intros _; apply settle_idem|].
    rewrite lookup_insert_ne by done. apply Hnext. }
  specialize (IH Hnext'). destruct (convert_cycles order _) as [[m more]|e]; simpl.
  - destruct IH as (Hnd & Hfree & -> & Hmore). split_and!.
    + constructor; [|done]. intros (k & Hks & Hin)%list_elem_of_fmap. specialize (Hfree k Hin). rewrite <- Hks, lookup_insert_eq in Hfree. done.
    + intros k [->|Hin]%elem_of_cons; [done|]. specialize (Hfree k Hin). by apply lookup_insert_None in Hfree as [? _].
    + rewrite <- insert_union_r, <- insert_union_l; [done|]. apply not_elem_of_list_to_map_1. rewrite <- list_fmap_compose.
      intros (c & Heq & Hin)%list_elem_of_fmap. simpl in Heq.
      specialize (Hfree (c.1) (list_elem_of_fmap_2 _ _ _ Hin)). rewrite <- Heq, lookup_insert_eq in Hfree. done.
    + rewrite !orb_false_iff, eqb_settle, Hrec, Hmore. split.
      * intros [[Hr Hk'] Ho]. f_equal; [|done]. unfold settle_cycle. simpl. by rewrite Hr, Hk'.
      * intros Heq. injection Heq as Hkk Hrr Horder. done.
  - destruct IH as (k & Hin & [[x Hx]|(k' & Hin' & Hne & Heq)]).
    + destruct (decide (settle key = settle k)) as [Heq|Hne].
      * exists k. split; [by right|]. right. exists key. split_and!; [left|by intros ->|done].
      * rewrite lookup_insert_ne in Hx by done. exists k. split; [by right|]. left. eauto.
    + exists k. split; [by right|]. right. exists k'. split_and!; [by right|done|done].
Qed.
End documents.

Section documents_exact.
Context `{IdentityParser}.

Lemma cycles_same (order : list (string * list ReviewCycleRecord)) :
  settle_cycle <$> order = order <-> forall c, c ∈ order -> settle_cycle c = c.
Proof.
  induction order as [|c order IH]; [split; [by intros _ c ?%elem_of_nil|done]|]. rewrite fmap_cons. split.
  - intros Heq. injection Heq as Hc Ho. intros x [->|Hx]%elem_of_cons; [done|]. by apply IH.
  - intros Hall. f_equal; [apply Hall; left|]. apply IH. intros x Hx. apply Hall. by right.
Qed.
Lemma with_identities_same st cycles progress :
  with_identities st cycles progress = st <-> cycles = es_ReviewCycles st /\ progress = es_SliceProgress st.
Proof. destruct st; unfold with_identities; simpl. split; [intros Heq; by injection Heq|by intros [-> ->]]. Qed.

Lemma cycles_keys (order : list (string * list ReviewCycleRecord)) : (settle_cycle <$> order).*1 = settle <$> order.*1.
Proof. by rewrite <- !list_fmap_compose. Qed.
Lemma cycles_map_same (cycles : gmap string (list ReviewCycleRecord)) (order : list (string * list ReviewCycleRecord)) :
  order ≡ₚ map_to_list cycles -> NoDup (settle <$> order.*1) ->
  settle_cycle <$> order = order <-> list_to_map (settle_cycle <$> order) = cycles.
Proof.
  intros Hp Hn.
  assert (Hnd : NoDup order.*1) by (rewrite Hp; apply NoDup_fst_map_to_list).
  assert (Hget : forall c, c ∈ order -> cycles !! c.1 = Some (c.2)).
  { intros [k r] Hc. rewrite Hp in Hc. by apply elem_of_map_to_list in Hc. }
  split.
  - intros ->. rewrite <- (list_to_map_to_list cycles). by apply list_to_map_proper.
  - intros Hm. apply cycles_same. intros c Hc.
    assert (Hnew : forall d, d ∈ order -> cycles !! settle (d.1) = Some (settle_record <$> d.2)).
    { intros d Hd. rewrite <- Hm. apply elem_of_list_to_map_1; [by rewrite cycles_keys|].
      apply (list_elem_of_fmap_2 settle_cycle order d Hd). }
    assert (Hk : settle (c.1) = c.1).
    { pose proof (Hget c Hc) as Hcc. rewrite <- Hm in Hcc. apply elem_of_list_to_map_2 in Hcc.
      apply list_elem_of_fmap in Hcc as (d & Hd & _). unfold settle_cycle in Hd. injection Hd as Hd _. rewrite Hd. apply settle_idem. }
    pose proof (Hnew c Hc) as Hr. rewrite Hk, (Hget c Hc) in Hr. injection Hr as Hr. unfold settle_cycle. rewrite Hk, <- Hr. by destruct c.
Qed.

Lemma epoch_cases order st :
  order ≡ₚ map_to_list (es_ReviewCycles st) ->
  match convertEpochState order st with
  | Ok (st', changed) => st' = settle_epoch st /\ (changed = false <-> st' = st)
  | Err _ => exists k, looksRetired k = true /\ is_Some (es_ReviewCycles st !! k) /\ is_Some (es_ReviewCycles st !! settle k)
  end.
Proof.
  intros Hp. unfold convertEpochState, settle_epoch. destruct (progress_settle (es_SliceProgress st)) as (pc & Hpr & Hpc).
  destruct (decide (es_ReviewCycles st = ∅)) as [He|Hne].
  { rewrite bool_decide_eq_true_2 by done. simpl. rewrite Hpr. simpl. rewrite He, map_to_list_empty. simpl. split; [done|].
    rewrite Hpc, with_identities_same, He. naive_solver. }
  rewrite bool_decide_eq_false_2 by done.
  assert (Hnd : NoDup order.*1) by (rewrite Hp; apply NoDup_fst_map_to_list).
  pose proof (cycles_settle order ∅ Hnd ltac:(intros k x; by rewrite lookup_empty)) as Hc.
  destruct (convert_cycles order ∅) as [[m changed]|e]; simpl.
  - destruct Hc as (Hn & _ & -> & Hch). rewrite Hpr. simpl. rewrite (right_id_L ∅ (∪)).
    assert (Hm : list_to_map (settle_cycle <$> order) = list_to_map (settle_cycle <$> map_to_list (es_ReviewCycles st)) :> gmap _ _).
    { apply list_to_map_proper; [by rewrite cycles_keys|by rewrite Hp]. }
    rewrite <- Hm. split; [done|]. rewrite orb_false_iff, Hch, Hpc, with_identities_same. by rewrite (cycles_map_same _ _ Hp Hn).
  - destruct Hc as (k & Hk & [[x Hx]|(k' & Hk' & Hne' & Heq)]); [by rewrite lookup_empty in Hx|].
    assert (Hin : forall k, k ∈ order.*1 -> is_Some (es_ReviewCycles st !! k)).
    { intros j ([j' r] & -> & Hj)%list_elem_of_fmap. rewrite Hp in Hj. apply elem_of_map_to_list in Hj. by exists r. }
    apply settle_meets in Heq as [[Hl Hs]|[Hl Hs]]; [exists k'; rewrite Hs; auto|exists k; rewrite Hs; auto|done].
Qed.

Lemma node_settles node : exists changed,
  convertPayloadNode node = Ok (settle_node node, changed) /\ (changed = false <-> settle_node node = node).
Proof.
  induction node as [s|t|js IH|ms IH] using json_nested_ind; simpl; [by exists false|by exists false| |].
  - match goal with |- context [(?f js)] => set (go := f) end.
    assert (Hgo : exists changed, go js = Ok (map settle_node js, changed) /\ (changed = false <-> map settle_node js = js)).
    { induction IH as [|e rest (c & Hc & Hcc) _ (m & Hm & Hmm)]; [by exists false|]. simpl. rewrite Hc. simpl.
      fold go. rewrite Hm. simpl. eexists. split; [done|]. rewrite orb_false_iff, Hcc, Hmm.
      split; [intros [He Hr]; by f_equal|intros Heq; by injection Heq]. }
    destruct Hgo as (c & -> & Hc). simpl. exists c. split; [done|]. rewrite Hc. split; [by intros ->|by intros [= ->]].
  - match goal with |- context [(?f ms)] => set (go := f) end.
    set (sm := fun m : string * json => (m.1, match m.2 with
      | JString text => JString (if isIdentityKey (m.1) then settle text else text) | _ => settle_node (m.2) end)).
    assert (Hgo : exists changed, go ms = Ok (map sm ms, changed) /\ (changed = false <-> map sm ms = ms)).
    { induction IH as [|[key value] rest (c & Hc & Hcc) _ (m & Hm & Hmm)]; [by exists false|]. simpl in *. fold go. rewrite Hm.
      assert (Hone : exists c1, match value with
          | JString text => if isIdentityKey key then t ← possible text; Ok (JString t, negb (String.eqb t text)) else convertPayloadNode value
          | _ => convertPayloadNode value end = Ok ((sm (key, value)).2, c1) /\ (c1 = false <-> (sm (key, value)).2 = value)).
      { unfold sm. simpl. destruct value as [text|t|l|l]; try (by exists c). destruct (isIdentityKey key); [|by exists c].
        rewrite possible_ok. simpl. eexists. split; [done|]. rewrite eqb_settle. split; [by intros ->|by intros [= ->]]. }
      destruct Hone as (c1 & -> & Hc1). eexists. split; [done|]. cbn [snd fst]. rewrite orb_false_iff, Hc1, Hmm.
      assert (Hpair : sm (key, value) = (key, (sm (key, value)).2)) by done. cbn [map]. rewrite Hpair. cbn [snd].
      split; [intros [He Hr]; by rewrite Hr, He|intros Heq; by injection Heq]. }
    destruct Hgo as (c & -> & Hc). simpl. exists c. split; [done|]. fold sm. rewrite Hc. split; [by intros ->|by intros [= ->]].
Qed.
End documents_exact.

(** * The whole store *)
Section whole.
Context `{IdentityParser} `{StringArrays} `{EpochCodec} `{PayloadCodec}.
Context (o : ConvertOracle).

(** The orders of the database list what there is. *)
Record lawful : Prop := {
  la_order : forall name l, co_order o name l ≡ₚ l;
  la_cycles : forall st, co_cycles o st ≡ₚ map_to_list (es_ReviewCycles st);
}.

Lemma column_of_set {A} (cols : list ((string * string) * A)) name x other :
  column_of (set_column cols name x) other
  = if bool_decide (other = name) then (fun _ => x) <$> column_of cols name else column_of cols other.
Proof.
  unfold column_of, set_column. induction cols as [|[n y] cols IH]; simpl; [by case_bool_decide|].
  destruct (decide (n = name)) as [->|Hn].
  - rewrite (bool_decide_eq_true_2 (name = name)) by done. simpl. destruct (decide (other = name)) as [->|Ho].
    + by rewrite (bool_decide_eq_true_2 (name = name)).
    + rewrite (bool_decide_eq_false_2 (name = other)), (bool_decide_eq_false_2 (other = name)) in * by congruence. exact IH.
  - rewrite (bool_decide_eq_false_2 (n = name)) by done. simpl. destruct (decide (n = other)) as [->|Hno].
    + rewrite (bool_decide_eq_true_2 (other = other)), (bool_decide_eq_false_2 (other = name)) by done. done.
    + rewrite (bool_decide_eq_false_2 (n = other)) by done. exact IH.
Qed.

Lemma convert_column_ok name cols cols' n :
  lawful -> convert_column o name cols = Ok (cols', n) ->
  (forall other, column_of cols' other = if bool_decide (other = name) then settle_cells <$> column_of cols name else column_of cols other)
  /\ n = (countRetired (co_order o name (sources (default [] (column_of cols name)))) (column_of cols name)).
Proof.
  intros Hl. unfold convert_column. destruct (column_of cols name) as [cells|] eqn:Hc; cbn [from_option id].
  - pose proof (column_cases (co_column o name) (co_order o name (sources cells)) cells (la_order Hl _ _)) as Hcase.
    destruct (convertIdentityColumn _ _ _) as [[column k]|e]; simpl; [|done]. destruct Hcase as (-> & -> & _). intros [= <- <-].
    split; [|done]. intros other. by rewrite column_of_set, Hc.
  - intros [= <- <-]. split; [|done]. intros other. case_bool_decide as Ho; [by rewrite Ho|done].
Qed.
Lemma convert_columns_ok names : forall cols cols' n,
  lawful -> NoDup names -> convert_columns o names cols = Ok (cols', n) ->
  (forall other, column_of cols' other = if bool_decide (other ∈ names) then settle_cells <$> column_of cols other else column_of cols other)
  /\ n = sum_list ((fun name => countRetired (co_order o name (sources (default [] (column_of cols name)))) (column_of cols name)) <$> names).
Proof.
  induction names as [|name names IH]; intros cols cols' n Hl Hn; simpl; [by intros [= <- <-]|].
  apply NoDup_cons in Hn as [Hname Hn]. destruct (convert_column o name cols) as [[c1 k]|] eqn:Hc; simpl; [|done].
  destruct (convert_columns o names c1) as [[c2 m]|] eqn:Hm; simpl; [|done]. intros [= <- <-].
  destruct (convert_column_ok _ _ _ _ Hl Hc) as [Hone ->]. destruct (IH _ _ _ Hl Hn Hm) as [Htwo ->]. split.
  - intros other. rewrite Htwo. destruct (decide (other = name)) as [->|Hne].
    + rewrite (bool_decide_eq_false_2 (name ∈ names)), (bool_decide_eq_true_2 (name ∈ name :: names)) by (done || left).
      by rewrite Hone, (bool_decide_eq_true_2 (name = name)).
    + rewrite (bool_decide_ext (other ∈ name :: names) (other ∈ names)) by (rewrite elem_of_cons; naive_solver).
      by rewrite Hone, (bool_decide_eq_false_2 (other = name)).
  - f_equal. f_equal. apply list_fmap_ext. intros i other Hi. assert (other <> name) by (intros ->; by apply list_elem_of_lookup_2 in Hi).
    by rewrite Hone, bool_decide_eq_false_2.
Qed.

(** What conversion makes of one stored array, projection or payload: its text,
    when nothing declared in it is retired, and otherwise the encoding of the
    document with every declared identity settled. *)
Definition array_settles (raw raw' : string) : Prop :=
  match UnmarshalStrings raw with
  | None => raw' = raw /\ looksRetired raw = false
  | Some elements =>
      raw' = raw /\ settle <$> elements = elements
      \/ raw' = MarshalStrings (settle <$> elements) /\ settle <$> elements <> elements
  end.
Definition epoch_settles (text text' : string) : Prop :=
  exists st, DecodeEpoch text = Some st
  /\ (text' = text /\ settle_epoch st = st \/ text' = EncodeEpoch (settle_epoch st) /\ settle_epoch st <> st).
Definition payload_settles (text text' : string) : Prop :=
  exists doc, DecodeAny text = Some doc
  /\ (text' = text /\ settle_node doc = doc \/ text' = EncodeAny (settle_node doc) /\ settle_node doc <> doc).
Definition cell_settles (cell cell' : option string) : Prop :=
  match cell, cell' with Some raw, Some raw' => array_settles raw raw' | None, None => True | _, _ => False end.
(** The rows of a table, each under the identity it had. *)
Definition rows_settle {K A} (R : A -> A -> Prop) (rows rows' : list (K * A)) : Prop :=
  Forall2 (fun r r' => r'.1 = r.1 /\ R (r.2) (r'.2)) rows rows'.
Definition table_settles {A} (R : A -> A -> Prop) (table table' : option A) : Prop :=
  match table, table' with Some x, Some x' => R x x' | None, None => True | _, _ => False end.
Definition array_row_count (column : option (list (Z * option string))) : nat :=
  match column with None => 0%nat | Some rows => length (List.filter identityArrayWouldChange (omap id (snd <$> rows))) end.

Lemma array_value_cases raw t c :
  convertIdentityArrayValue raw = Ok (t, c) ->
  array_settles raw t /\ (c = false -> t = raw) /\ identityArrayWouldChange raw = c.
Proof.
  intros Hv. unfold identityArrayWouldChange. rewrite Hv. revert Hv. unfold convertIdentityArrayValue, array_settles.
  destruct (UnmarshalStrings raw) as [elements|].
  - destruct (elements_settle elements) as (changed & -> & Hc). destruct changed; intros [= <- <-]; split_and!; try done.
    + right. split; [done|]. intros Heq. by apply Hc in Heq.
    + left. split; [done|]. by apply Hc.
  - destruct (looksRetired raw); [done|]. intros [= <- <-]. done.
Qed.

Lemma array_rows_spec refuse rows : forall rows' n,
  convert_array_rows refuse rows = Ok (rows', n) ->
  n = array_row_count (Some rows) /\ rows_settle cell_settles rows rows'.
Proof.
  unfold array_row_count. induction rows as [|[rowid [raw|]] rows IH]; intros rows' n; simpl.
  - intros [= <- <-]. split; [done|constructor].
  - destruct (convertIdentityArrayValue raw) as [[t c]|] eqn:Hv; simpl; [|done].
    destruct (array_value_cases _ _ _ Hv) as (Hs & Ht & ->).
    destruct c; simpl; [destruct (refuse rowid); [done|]|specialize (Ht eq_refl); subst t];
      (destruct (convert_array_rows refuse rows) as [[more k]|]; simpl; [|done]); intros [= <- <-];
      destruct (IH _ _ eq_refl) as [-> HF]; (split; [done|by constructor]).
  - destruct (convert_array_rows refuse rows) as [[more k]|]; simpl; [|done]. intros [= <- <-].
    destruct (IH _ _ eq_refl) as [-> HF]. split; [done|by constructor].
Qed.

Lemma convert_array_ok name cols cols' n :
  convert_array o name cols = Ok (cols', n) ->
  n = array_row_count (column_of cols name)
  /\ (forall other, other <> name -> column_of cols' other = column_of cols other)
  /\ table_settles (rows_settle cell_settles) (column_of cols name) (column_of cols' name).
Proof.
  unfold convert_array, convertIdentityArrayColumn. destruct (column_of cols name) as [rows|] eqn:Hc; simpl.
  - destruct (convert_array_rows _ rows) as [[rows' k]|] eqn:Hr; simpl; [|done]. intros [= <- <-].
    destruct (array_rows_spec _ _ _ _ Hr) as [-> HF]. split_and!; [done| |].
    + intros other Ho. by rewrite column_of_set, bool_decide_eq_false_2.
    + by rewrite column_of_set, bool_decide_eq_true_2, Hc.
  - intros [= <- <-]. split_and!; [done|done|]. by rewrite Hc.
Qed.

Lemma convert_arrays_ok names : forall cols cols' n,
  NoDup names -> convert_arrays o names cols = Ok (cols', n) ->
  n = sum_list ((fun name => array_row_count (column_of cols name)) <$> names)
  /\ (forall other, other ∉ names -> column_of cols' other = column_of cols other)
  /\ (forall name, name ∈ names -> table_settles (rows_settle cell_settles) (column_of cols name) (column_of cols' name)).
Proof.
  induction names as [|name names IH]; intros cols cols' n Hn; simpl.
  { intros [= <- <-]. split_and!; [done|done|by intros name ?%elem_of_nil]. }
  apply NoDup_cons in Hn as [Hname Hn]. destruct (convert_array o name cols) as [[c1 k]|] eqn:Hc; simpl; [|done].
  destruct (convert_arrays o names c1) as [[c2 m]|] eqn:Hm; simpl; [|done]. intros [= <- <-].
  destruct (convert_array_ok _ _ _ _ Hc) as (-> & Hsame & Hone). destruct (IH _ _ _ Hn Hm) as (-> & Hrest & Hall). split_and!.
  - f_equal. f_equal. apply list_fmap_ext. intros i other Hi. rewrite Hsame; [done|]. intros ->. by apply list_elem_of_lookup_2 in Hi.
  - intros other [Ho Ho']%not_elem_of_cons. by rewrite Hrest, Hsame.
  - intros other [->|Ho]%elem_of_cons; [by rewrite Hrest|]. rewrite <- Hsame; [by apply Hall|]. by intros ->.
Qed.

Lemma filter_length_sources (l : list string) p :
  (length (List.filter p (remove_dups l)) <= length (List.filter p l))%nat
  /\ ((0 < length (List.filter p l))%nat -> (0 < length (List.filter p (remove_dups l)))%nat).
Proof.
  induction l as [|x l [IH1 IH2]]; [done|]. simpl. destruct (decide_rel _ x l) as [Hin|Hin]; simpl.
  - split; [destruct (p x); simpl; lia|]. destruct (p x) eqn:Hp; [|done]. intros _. apply IH2.
    clear -Hin Hp. induction l as [|y l IHl]; [by apply elem_of_nil in Hin|]. simpl.
    apply elem_of_cons in Hin as [<-|Hin]; [rewrite Hp; simpl; lia|]. destruct (p y); simpl; [lia|by apply IHl].
  - destruct (p x); simpl; [lia|done].
Qed.

Lemma epoch_rows_spec refuse rows rows' n :
  lawful -> convert_epoch_rows (co_cycles o) refuse rows = Ok (rows', n) ->
  count_epoch_rows (co_cycles o) rows = Ok n /\ rows_settle epoch_settles rows rows'.
Proof.
  intros Hl. revert rows' n. induction rows as [|[id text] rows IH]; intros rows' n; simpl; [intros [= <- <-]; split; [done|constructor]|].
  destruct (DecodeEpoch text) as [st|] eqn:Hd; [|done]. pose proof (epoch_cases _ st (la_cycles Hl st)) as Hc.
  destruct (convertEpochState _ _) as [[st' c]|]; simpl; [|done]. destruct Hc as [-> Hc].
  destruct c; simpl; [destruct (refuse id); [done|]|];
    (destruct (convert_epoch_rows _ refuse rows) as [[more k]|]; simpl; [|done]); intros [= <- <-];
    destruct (IH _ _ eq_refl) as [-> HF]; simpl; (split; [done|]); constructor; try done; simpl; split; try done; exists st;
    (split; [done|]); [right|left]; split; try done; [|by apply Hc]. intros Heq. by apply Hc in Heq.
Qed.
Lemma payload_rows_spec refuse rows : forall rows' n,
  convert_payload_rows refuse rows = Ok (rows', n) ->
  count_payload_rows rows = Ok n
  /\ rows_settle payload_settles rows rows'.
Proof.
  induction rows as [|[id text] rows IH]; intros rows' n; simpl; [intros [= <- <-]; split; [done|constructor]|].
  destruct (DecodeAny text) as [doc|] eqn:Hd; [|done]. destruct (node_settles doc) as (c & -> & Hc). simpl.
  destruct c; simpl; [destruct (refuse id); [done|]|];
    (destruct (convert_payload_rows refuse rows) as [[more k]|]; simpl; [|done]); intros [= <- <-];
    destruct (IH _ _ eq_refl) as [-> HF]; simpl; (split; [done|]); constructor; try done; simpl; split; try done; exists doc;
    (split; [done|]); [right|left]; split; try done; [|by apply Hc]. intros Heq. by apply Hc in Heq.
Qed.

Lemma sum_positive counts : sum_list_with snd (positive counts) = sum_list_with snd counts.
Proof.
  induction counts as [|[name k] counts IH]; [done|]. unfold positive in *. simpl. destruct (Nat.eqb_spec k 0) as [->|]; simpl; lia.
Qed.
Lemma sum_map {A} (f : A -> (string * string) * nat) l : sum_list_with snd (map f l) = sum_list ((fun x => (f x).2) <$> l).
Proof.
  induction l as [|x l IH]; [done|]. change (sum_list_with snd (map f (x :: l))) with ((f x).2 + sum_list_with snd (map f l))%nat.
  by rewrite IH.
Qed.
Lemma exists_sum counts : existsb (fun c : (string * string) * nat => (0 <? c.2)%nat) counts = (0 <? sum_list_with snd counts)%nat.
Proof.
  induction counts as [|[name k] counts IH]; [done|]. simpl. rewrite IH. apply eq_true_iff_eq. rewrite orb_true_iff, !Nat.ltb_lt. lia.
Qed.
Definition declared (name : string * string) : Prop := name ∈ pastureIdentityColumns \/ name = context_column.
(** Every declared identity of the store is settled, and nothing else differs. *)
Record converted_tables (t t' : Tables) : Prop := {
  ct_columns : forall name, column_of (tb_columns t') name
    = if bool_decide (declared name) then settle_cells <$> column_of (tb_columns t) name else column_of (tb_columns t) name;
  ct_arrays : forall name, if bool_decide (name ∈ pastureIdentityArrayColumns)
    then table_settles (rows_settle cell_settles) (column_of (tb_arrays t) name) (column_of (tb_arrays t') name)
    else column_of (tb_arrays t') name = column_of (tb_arrays t) name;
  ct_epochs : table_settles (rows_settle epoch_settles) (tb_epochs t) (tb_epochs t');
  ct_payloads : table_settles (rows_settle payload_settles) (tb_payloads t) (tb_payloads t');
}.
(** The rows of the array columns that change, and their distinct values. *)
Definition array_rows (t : Tables) : nat :=
  sum_list ((fun name => array_row_count (column_of (tb_arrays t) name)) <$> pastureIdentityArrayColumns).
Definition array_values (t : Tables) : nat :=
  sum_list ((fun name => countRetiredArray (column_of (tb_arrays t) name)) <$> pastureIdentityArrayColumns).

Lemma sum_list_cons x l : sum_list (x :: l) = (x + sum_list l)%nat.
Proof. done. Qed.

Lemma arrays_announced t :
  (array_values t <= array_rows t)%nat /\ ((0 < array_rows t)%nat -> (0 < array_values t)%nat).
Proof.
  unfold array_values, array_rows. induction pastureIdentityArrayColumns as [|name names [IH1 IH2]]; [done|]. rewrite !fmap_cons, !sum_list_cons.
  enough ((countRetiredArray (column_of (tb_arrays t) name) <= array_row_count (column_of (tb_arrays t) name))%nat
    /\ ((0 < array_row_count (column_of (tb_arrays t) name))%nat -> (0 < countRetiredArray (column_of (tb_arrays t) name))%nat))
    as [Hone Htwo] by (split; lia).
  unfold array_row_count, countRetiredArray, sources. destruct (column_of _ _) as [rows|]; [|done]. apply filter_length_sources.
Qed.

Lemma convert_parts t t' n :
  lawful -> convertPastureIdentities o t = Ok (t', n) ->
  converted_tables t t'
  /\ exists f g, countEpochProjectionChanges (co_cycles o) (tb_epochs t) = Ok f /\ countAuditPayloadChanges (tb_payloads t) = Ok g
     /\ n = (sum_list ((fun name => (count_column o t name).2) <$> pastureIdentityColumns) + array_rows t
             + (count_column o t context_column).2 + f + g)%nat.
Proof.
  intros Hl. unfold convertPastureIdentities, mbind, result_bind.
  destruct (convert_columns o _ _) as [[cols s]|] eqn:Hs; [|done].
  destruct (convert_arrays o _ _) as [[arrays a]|] eqn:Ha; [|done].
  destruct (convert_column o context_column _) as [[cols2 e]|] eqn:He; [|done].
  destruct (convertEpochProjection _ _ _) as [[epochs f]|] eqn:Hf; [|done].
  destruct (convertAuditPayloads _ _) as [[payloads g]|] eqn:Hg; [|done]. cbn [fst snd]. intros [= <- <-].
  assert (Hnames : NoDup pastureIdentityColumns) by (apply (bool_decide_unpack _); vm_compute; done).
  assert (Hanames : NoDup pastureIdentityArrayColumns) by (apply (bool_decide_unpack _); vm_compute; done).
  assert (Hctx : context_column ∉ pastureIdentityColumns) by (apply (bool_decide_unpack _); vm_compute; done).
  destruct (convert_columns_ok _ _ _ _ Hl Hnames Hs) as [Hcols ->]. destruct (convert_column_ok _ _ _ _ Hl He) as [Hcols2 ->].
  destruct (convert_arrays_ok _ _ _ _ Hanames Ha) as (-> & Harest & Haall).
  assert (Hfg : countEpochProjectionChanges (co_cycles o) (tb_epochs t) = Ok f
    /\ table_settles (rows_settle epoch_settles) (tb_epochs t) epochs).
  { unfold convertEpochProjection in Hf. destruct (tb_epochs t) as [rows|]; [|by injection Hf as <- <-].
    destruct (convert_epoch_rows _ _ rows) as [[rows' k]|] eqn:Hr; [|done]. injection Hf as <- <-. by apply (epoch_rows_spec (co_epoch o) rows rows' k Hl). }
  assert (Hgg : countAuditPayloadChanges (tb_payloads t) = Ok g
    /\ table_settles (rows_settle payload_settles) (tb_payloads t) payloads).
  { unfold convertAuditPayloads in Hg. destruct (tb_payloads t) as [rows|]; [|by injection Hg as <- <-].
    destruct (convert_payload_rows _ rows) as [[rows' k]|] eqn:Hr; [|done]. injection Hg as <- <-. by apply payload_rows_spec in Hr. }
  destruct Hfg as [Hf' Hfs], Hgg as [Hg' Hgs]. split; [split; cbn [tb_columns tb_arrays tb_epochs tb_payloads]; try done|].
  - intros name. rewrite Hcols2, !Hcols. unfold declared. destruct (decide (name = context_column)) as [->|Hn].
    + rewrite (bool_decide_eq_true_2 (context_column = context_column)), (bool_decide_eq_false_2 (context_column ∈ _)) by done.
      by rewrite bool_decide_eq_true_2 by (by right).
    + rewrite (bool_decide_eq_false_2 (name = context_column)) by done.
      rewrite (bool_decide_ext (name ∈ _ \/ name = context_column) (name ∈ pastureIdentityColumns)) by naive_solver. done.
  - intros name. case_bool_decide; [by apply Haall|by apply Harest].
  - exists f, g. split_and!; [done|done|]. by rewrite Hcols, bool_decide_eq_false_2.
Qed.
End whole.

(** * Properties *)
Section properties.
Context `{IdentityParser}.

(** C34: A retired identity is rewritten without touching its namespace or its
    identifier.  Recognising a value and converting it never disagree, the slash
    form is never taken for a retired one, and it determines the value it came
    from. *)
Theorem identity_conversion raw :
  looksRetired raw = true ->
  exists ns u t, to_bytes raw = ns ++ dashes ++ u /\ ns <> [] /\ slash ∉ u /\ to_bytes t = ns ++ slash :: u
  /\ convertRetiredIdentity raw = Ok t /\ convertPossibleIdentity raw = Ok t
  /\ looksRetired t = false /\ convertPossibleIdentity t = Ok t
  /\ forall other, looksRetired other = true -> convertRetiredIdentity other = Ok t -> other = raw.
Proof.
  intros Hl. pose proof (proj1 (looks_spec raw) Hl) as (t & (ns & u & Hraw & Hns & _ & Hu & -> & _) & Ht).
  exists ns, u, (settle raw). split_and!; try done.
  - by rewrite Ht, to_of_bytes.
  - by apply convert_settles.
  - apply possible_settles.
  - apply settle_settled.
  - by rewrite possible_settles, settle_idem.
  - intros other Ho. rewrite (convert_settles other Ho). intros [= Heq]. by apply settle_inj.
Qed.

Lemma settled_once order cells : order ≡ₚ sources (settle_cells cells) -> List.filter looksRetired order = [].
Proof.
  intros Hp. assert (Hall : forall v, v ∈ order -> looksRetired v = false).
  { intros v. rewrite Hp, elem_sources. unfold settle_cells. intros ([w|] & Hv & _)%list_elem_of_fmap; [|done].
    simpl in Hv. injection Hv as ->. apply settle_settled. }
  clear Hp. induction order as [|v order IH]; [done|]. simpl. rewrite (Hall v) by left. apply IH. intros w Hw. apply Hall. by right.
Qed.
Lemma settle_cells_idem cells : settle_cells (settle_cells cells) = settle_cells cells.
Proof. unfold settle_cells. rewrite <- list_fmap_compose. apply list_fmap_ext. intros _ [v|] _; simpl; [by rewrite settle_idem|done]. Qed.

(** C35: A column is converted exactly, or not at all.  Success rewrites every
    cell to its slash form, whatever the order the database lists the values in
    and however the updates follow each other, and counts the retired values; a
    second conversion changes nothing.  A collision is reported exactly when one
    identity is there in both forms, before anything is written; the only other
    failure is an update the table refuses. *)
Theorem convertIdentityColumn_exact refuse order cells :
  order ≡ₚ sources cells ->
  match convertIdentityColumn refuse order (Some cells) with
  | Ok (column, n) =>
      column = Some (settle_cells cells) /\ n = length (List.filter looksRetired order) /\ ~ both_forms cells
      /\ forall refuse' order', order' ≡ₚ sources (settle_cells cells) -> convertIdentityColumn refuse' order' column = Ok (column, 0%nat)
  | Err (Collision _ _ _) => both_forms cells
  | Err (UpdateRefused old) => ~ both_forms cells /\ looksRetired old = true /\ Some old ∈ cells
                               /\ exists cs, refuse old (settle old) cs = true
  | Err _ => False
  end.
Proof.
  intros Hp. pose proof (column_cases refuse order cells Hp) as Hc.
  destruct (convertIdentityColumn refuse order (Some cells)) as [[column n]|e]; [|exact Hc].
  destruct Hc as (-> & -> & Hb). split_and!; [done..|]. intros refuse' order' Hp'.
  pose proof (column_cases refuse' order' _ Hp') as Hc. pose proof (settled_once _ _ Hp') as Hnone.
  assert (Hforms : ~ both_forms (settle_cells cells)).
  { intros (r & Hr & Hin & _). apply list_elem_of_fmap in Hin as ([w|] & Hw & _); [|done]. simpl in Hw. injection Hw as ->.
    by rewrite settle_settled in Hr. }
  destruct (convertIdentityColumn refuse' order' _) as [[c k]|e].
  - destruct Hc as (-> & -> & _). rewrite settle_cells_idem. unfold countRetired. by rewrite Hnone.
  - destruct e; try done. destruct Hc as (_ & Hr & Hin & _). apply list_elem_of_fmap in Hin as ([w|] & Hw & _); [|done].
    simpl in Hw. injection Hw as ->. by rewrite settle_settled in Hr.
Qed.

(** The epoch projection is converted the same whatever order the map of
    review cycles is walked in.  Success gives every declared slice and task
    identity its slash form and leaves every other field, and the flag is set
    exactly when the state differs; it fails exactly on a map that has one slice
    under both forms. *)
Theorem convertEpochState_exact order st :
  order ≡ₚ map_to_list (es_ReviewCycles st) ->
  match convertEpochState order st with
  | Ok (st', changed) =>
      st' = settle_epoch st /\ (changed = false <-> st' = st) /\ es_EpochId st' = es_EpochId st
      /\ forall order', order' ≡ₚ map_to_list (es_ReviewCycles st) ->
           match convertEpochState order' st with Ok (again, _) => again = st' | Err _ => exists k, looksRetired k = true
             /\ is_Some (es_ReviewCycles st !! k) /\ is_Some (es_ReviewCycles st !! settle k) end
  | Err _ => exists k, looksRetired k = true /\ is_Some (es_ReviewCycles st !! k) /\ is_Some (es_ReviewCycles st !! settle k)
  end.
Proof.
  intros Hp. pose proof (epoch_cases order st Hp) as Hc. destruct (convertEpochState order st) as [[st' changed]|]; [|exact Hc].
  destruct Hc as [-> Hc]. split_and!; [done..|]. intros order' Hp'. pose proof (epoch_cases order' st Hp') as Hc'.
  destruct (convertEpochState order' st) as [[again c]|]; [by destruct Hc'|exact Hc'].
Qed.

(** Only strings under declared keys change in a payload, and once. *)
Theorem payload_conversion_exact node : exists changed,
  convertPayloadNode node = Ok (settle_node node, changed) /\ (changed = false <-> settle_node node = node)
  /\ settle_node (settle_node node) = settle_node node.
Proof.
  destruct (node_settles node) as (c & Hn & Hc). exists c. split_and!; [done..|]. clear.
  induction node as [s|t|js IH|ms IH] using json_nested_ind; simpl; [done|done| |]; f_equal; rewrite map_map.
  - induction IH as [|e rest He _ IHr]; [done|]. simpl. by rewrite He, IHr.
  - induction IH as [|[key value] rest He _ IHr]; [done|]. cbn [map]. rewrite IHr. f_equal. cbn [fst snd] in *. f_equal.
    destruct value; cbn [settle_node] in *; [|done..]. destruct (isIdentityKey key); [by rewrite settle_idem|done].
Qed.
End properties.

Section parity.
Context `{IdentityParser} `{StringArrays} `{EpochCodec} `{PayloadCodec}.

(** The count a preview announces for a column. *)
Definition announced_in (p : Preview) (name : string * string) : nat := default 0%nat (column_of (pv_Columns p) name).
(** Everything it announces of the columns and documents that pasture owns. *)
Definition own_announced (p : Preview) : nat :=
  (sum_list (announced_in p <$> pastureIdentityColumns ++ pastureIdentityArrayColumns ++ [context_column])
   + pv_EpochProjectionRows p + pv_AuditPayloadRows p)%nat.
Definition retired_values (cells : list (option string)) : nat := length (List.filter looksRetired (sources cells)).
(** The library's own conversion has something to rewrite. *)
Definition dependency_retired (d : DependencyTables) : Prop :=
  exists name v, looksRetired v = true
  /\ (name ∈ previewDependencyColumns /\ Some v ∈ default [] (column_of (dp_columns d) name)
      \/ name ∈ previewDependencyContextColumns
         /\ exists kind, kind ∈ contextIdentityConvertedKinds /\ (kind, Some v) ∈ default [] (column_of (dp_contexts d) name)).

Lemma filter_perm {A} (p : A -> bool) l l' : l ≡ₚ l' -> length (List.filter p l) = length (List.filter p l').
Proof. induction 1 as [|x l l' _ IH|x y l|l l' l'' _ IH1 _ IH2]; simpl; [done|destruct (p x); simpl; lia|destruct (p x), (p y); done|lia]. Qed.
Lemma count_retired o name column : lawful o ->
  countRetired (co_order o name (sources (default [] column))) column = retired_values (default [] column).
Proof. intros Hl. destruct column as [cells|]; [|done]. apply filter_perm, (la_order o Hl). Qed.
Lemma retired_values_pos cells : (0 < retired_values cells)%nat <-> exists v, looksRetired v = true /\ Some v ∈ cells.
Proof.
  unfold retired_values. setoid_rewrite <- elem_sources. induction (sources cells) as [|v l IH]; simpl.
  - split; [lia|]. by intros (v & _ & ?%elem_of_nil).
  - setoid_rewrite elem_of_cons. destruct (looksRetired v) eqn:Hv; simpl; [split; [eauto|lia]|].
    rewrite IH. split; [naive_solver|]. intros (w & Hw & [->|?]); [congruence|eauto].
Qed.
Lemma settle_cells_changes cells : settle_cells cells <> cells <-> (0 < retired_values cells)%nat.
Proof.
  unfold settle_cells. split.
  - intros Hne. destruct (decide (0 < retired_values cells)%nat) as [|Hz]; [done|]. rewrite retired_values_pos in Hz.
    assert (Hall : forall v, Some v ∈ cells -> looksRetired v = false).
    { intros v Hin. apply Bool.not_true_iff_false. intros Hv. apply Hz. by exists v. }
    destruct Hne. clear Hz. induction cells as [|[v|] cells IH]; [done| |]; rewrite fmap_cons; simpl.
    + rewrite (settle_other v) by (apply Hall; left). f_equal. apply IH. intros w Hw. apply Hall. by right.
    + f_equal. apply IH. intros w Hw. apply Hall. by right.
  - intros (v & Hv & [i Hi]%list_elem_of_lookup)%retired_values_pos Heq. apply (f_equal (lookup i)) in Heq.
    rewrite list_lookup_fmap, Hi in Heq. simpl in Heq. injection Heq as Heq. apply settle_changes in Heq. congruence.
Qed.

Lemma column_of_positive counts name k :
  NoDup counts.*1 -> (name, k) ∈ counts -> default 0%nat (column_of (positive counts) name) = k.
Proof.
  intros Hn Hin. unfold positive, column_of. induction counts as [|[m j] counts IH]; [by apply elem_of_nil in Hin|].
  apply NoDup_cons in Hn as [Hm Hn]. apply elem_of_cons in Hin as [[= <- <-]|Hin]; simpl.
  - destruct (Nat.eqb_spec k 0) as [->|Hk]; simpl; [|by rewrite bool_decide_eq_true_2].
    destruct (List.find _ _) as [[m j]|] eqn:Hf; [|done]. exfalso. apply Hm.
    apply List.find_some in Hf as [Hf Hd]. apply bool_decide_eq_true in Hd. simpl in Hd. subst m.
    apply List.filter_In in Hf as [Hf _]. apply list_elem_of_In in Hf. by apply (list_elem_of_fmap_2 fst) in Hf.
  - assert (m <> name) by (intros ->; apply Hm; by apply (list_elem_of_fmap_2 fst) in Hin).
    destruct (j =? 0)%nat; simpl; [by apply IH|]. rewrite bool_decide_eq_false_2 by done. by apply IH.
Qed.
Lemma sum_list_pos {A} (f : A -> nat) l : (0 < sum_list (f <$> l))%nat <-> exists x, x ∈ l /\ (0 < f x)%nat.
Proof.
  induction l as [|x l IH]; [split; [by intros ?%Nat.lt_irrefl|by intros (x & ?%elem_of_nil & _)]|].
  rewrite fmap_cons, sum_list_cons. setoid_rewrite elem_of_cons. split.
  - intros Hs. destruct (f x) eqn:Hx; [|exists x; split; [by left|lia]]. apply IH in Hs as (y & ? & ?); eauto.
  - intros (y & [->|Hy] & Hp); [lia|]. assert (0 < sum_list (f <$> l))%nat by (apply IH; eauto). lia.
Qed.

Lemma counts_keys o d t : (column_counts o d t).*1 = pastureIdentityColumns ++ previewDependencyColumns
  ++ pastureIdentityArrayColumns ++ previewDependencyContextColumns ++ [context_column].
Proof.
  unfold column_counts. change (fmap fst) with (map (@fst (string * string) nat)). by rewrite !map_app, !map_map.
Qed.

(** What a preview announces for each column. *)
Lemma announced_values o d t f g :
  lawful o -> let p := mk_Preview (positive (column_counts o d t)) f g in
  (forall name, declared name -> announced_in p name = retired_values (default [] (column_of (tb_columns t) name)))
  /\ (forall name, name ∈ previewDependencyColumns ->
       announced_in p name = retired_values (default [] (column_of (dp_columns d) name)))
  /\ (forall name, name ∈ previewDependencyContextColumns ->
       announced_in p name = retired_values (converted_contexts (default [] (column_of (dp_contexts d) name))))
  /\ (forall name, name ∈ pastureIdentityArrayColumns -> announced_in p name = countRetiredArray (column_of (tb_arrays t) name)).
Proof.
  intros Hl p. assert (Hn : NoDup (column_counts o d t).*1).
  { rewrite counts_keys. apply (bool_decide_unpack _). vm_compute. done. }
  assert (Hin : forall name k, (name, k) ∈ column_counts o d t -> announced_in p name = k) by (intros name k; by apply column_of_positive).
  unfold column_counts in Hin. setoid_rewrite elem_of_app in Hin. setoid_rewrite elem_of_app in Hin. setoid_rewrite elem_of_app in Hin.
  setoid_rewrite elem_of_app in Hin.
  assert (Hmap : forall (c : string * string -> (string * string) * nat) names name k,
    name ∈ names -> c name = (name, k) -> (name, k) ∈ map c names).
  { intros c names name k Hname <-. by apply (list_elem_of_fmap_2 c). }
  split_and!; intros name Hname.
  - rewrite <- (count_retired o name) by done. apply Hin. destruct Hname as [Hname| ->]; [left; by eapply Hmap|].
    do 4 right. apply list_elem_of_singleton. done.
  - rewrite <- (count_retired o name) by done. apply Hin. right. left. by eapply Hmap.
  - assert (converted_contexts (default [] (column_of (dp_contexts d) name))
      = default [] (option_map converted_contexts (column_of (dp_contexts d) name))) as -> by (by destruct (column_of _ _)).
    rewrite <- (count_retired o name) by done. apply Hin. do 3 right. left. by eapply Hmap.
  - apply Hin. do 2 right. left. by eapply Hmap.
Qed.

Lemma announced_own_sum o t (f : string * string -> nat) :
  lawful o -> (forall name, declared name -> f name = retired_values (default [] (column_of (tb_columns t) name))) ->
  sum_list (f <$> pastureIdentityColumns) = sum_list ((fun name => (count_column o t name).2) <$> pastureIdentityColumns).
Proof.
  intros Hl Hf. f_equal. apply list_fmap_ext. intros i name Hi%list_elem_of_lookup_2. rewrite Hf by (by left).
  unfold count_column, count_in. cbn [snd]. by rewrite count_retired.
Qed.
Lemma announced_array_sum t (f : string * string -> nat) :
  (forall name, name ∈ pastureIdentityArrayColumns -> f name = countRetiredArray (column_of (tb_arrays t) name)) ->
  sum_list (f <$> pastureIdentityArrayColumns) = array_values t.
Proof. intros Hf. unfold array_values. f_equal. apply list_fmap_ext. intros i name Hi%list_elem_of_lookup_2. by apply Hf. Qed.

Lemma counts_sum o d t : lawful o ->
  sum_list_with snd (column_counts o d t)
  = (sum_list ((fun name => (count_column o t name).2) <$> pastureIdentityColumns)
     + sum_list ((fun name => retired_values (default [] (column_of (dp_columns d) name))) <$> previewDependencyColumns)
     + array_values t
     + sum_list ((fun name => retired_values (converted_contexts (default [] (column_of (dp_contexts d) name))))
                 <$> previewDependencyContextColumns)
     + (count_column o t context_column).2)%nat.
Proof.
  intros Hl. unfold column_counts. rewrite !sum_list_with_app, !sum_map. cbn [sum_list_with].
  assert (Hdep : forall name, (count_in o (dp_columns d) name).2 = retired_values (default [] (column_of (dp_columns d) name)))
    by (intros name; unfold count_in; cbn [snd]; by rewrite count_retired).
  assert (Hctx : forall name, (countRetiredContext o d name).2
    = retired_values (converted_contexts (default [] (column_of (dp_contexts d) name)))).
  { intros name. unfold countRetiredContext. cbn [snd]. rewrite count_retired by done. by destruct (column_of _ _). }
  rewrite (list_fmap_ext _ _ previewDependencyColumns (fun _ name _ => Hdep name)).
  rewrite (list_fmap_ext _ _ previewDependencyContextColumns (fun _ name _ => Hctx name)).
  unfold array_values, count_array. cbn [snd]. lia.
Qed.

Lemma dependency_sums d :
  dependency_retired d <->
  (0 < sum_list ((fun name => retired_values (default [] (column_of (dp_columns d) name))) <$> previewDependencyColumns)
     + sum_list ((fun name => retired_values (converted_contexts (default [] (column_of (dp_contexts d) name))))
                 <$> previewDependencyContextColumns))%nat.
Proof.
  assert (Hor : forall a b, (0 < a + b)%nat <-> (0 < a)%nat \/ (0 < b)%nat) by lia.
  rewrite Hor, !sum_list_pos. setoid_rewrite retired_values_pos. unfold dependency_retired, converted_contexts.
  assert (Hctx : forall rows v, Some v ∈ snd <$> List.filter (fun row : string * option string => one_of (row.1) contextIdentityConvertedKinds) rows
    <-> exists kind, kind ∈ contextIdentityConvertedKinds /\ (kind, Some v) ∈ rows).
  { intros rows v. rewrite list_elem_of_fmap. split.
    - intros ([kind c] & Hc & [Hin Hk]%list_elem_of_In%List.filter_In). cbn [fst snd] in *. subst c.
      exists kind. split; [by apply one_of_spec|by apply list_elem_of_In].
    - intros (kind & Hk%one_of_spec & Hin). exists (kind, Some v). split; [done|].
      apply list_elem_of_In, List.filter_In. split; [by apply list_elem_of_In|done]. }
  setoid_rewrite Hctx. naive_solver.
Qed.

(** C36: What the dry run announces, against what the conversion does.  Whenever the
    conversion of a store succeeds its preview succeeds, and
    - the conversion settles every declared identity and changes nothing else;
    - the changes it makes are those the preview announces of pasture's own columns
      and documents, plus the repetitions of identity arrays: an array column is
      announced by its distinct values and rewritten row by row;
    - of pasture's columns exactly those are announced that are rewritten;
    - of the library's columns, which the library's own conversion rewrites, exactly
      the distinct retired values are announced, of context rows those under a kind
      that converts;
    - the preview says that something would change exactly when the conversion
      changes something, or the library's columns hold a retired identity. *)
Theorem preview_parity o d t t' n :
  lawful o -> convertPastureIdentities o t = Ok (t', n) ->
  exists p, preview o true d t = Ok p
  /\ converted_tables t t'
  /\ n = (own_announced p + (array_rows t - array_values t))%nat /\ (array_values t <= array_rows t)%nat
  /\ (forall name, declared name ->
       (0 < announced_in p name)%nat <-> column_of (tb_columns t') name <> column_of (tb_columns t) name)
  /\ (forall name, name ∈ previewDependencyColumns ->
       announced_in p name = retired_values (default [] (column_of (dp_columns d) name)))
  /\ (forall name, name ∈ previewDependencyContextColumns ->
       announced_in p name = retired_values (converted_contexts (default [] (column_of (dp_contexts d) name))))
  /\ (WouldChange p = true <-> (0 < n)%nat \/ dependency_retired d).
Proof.
  intros Hl Hc. destruct (convert_parts o t t' n Hl Hc) as (Htab & f & g & Hf & Hg & ->).
  destruct (arrays_announced t) as [Hle Hpos].
  exists (mk_Preview (positive (column_counts o d t)) f g).
  destruct (announced_values o d t f g Hl) as (Hown & Hdep & Hctx & Harr).
  split_and!; [|done| |done| |done|done|].
  - unfold preview, mbind, result_bind. cbn [negb]. by rewrite Hf, Hg.
  - unfold own_announced. cbn [pv_EpochProjectionRows pv_AuditPayloadRows]. rewrite !fmap_app, !sum_list_with_app.
    rewrite (announced_own_sum o t _ Hl Hown), (announced_array_sum t _ Harr). cbn [fmap list_fmap]. rewrite sum_list_cons. change (sum_list []) with 0%nat.
    rewrite (Hown context_column) by (by right). unfold count_column, count_in. cbn [snd]. rewrite (count_retired o) by done. lia.
  - intros name Hname. rewrite (Hown name Hname), (ct_columns _ _ Htab), bool_decide_eq_true_2 by done.
    destruct (column_of (tb_columns t) name) as [cells|]; simpl; [|split; [intros Hz; by vm_compute in Hz; lia|done]].
    rewrite <- settle_cells_changes. split; [by intros Hne [= Heq]|]. intros Hne Heq. apply Hne. by rewrite Heq.
  - unfold WouldChange. cbn [pv_Columns pv_EpochProjectionRows pv_AuditPayloadRows].
    rewrite exists_sum, sum_positive, dependency_sums, (counts_sum o d t Hl), !orb_true_iff, !Nat.ltb_lt. fold (array_values t). lia.
Qed.
End parity.

(** ** Witnesses: a parser that wants both parts, documents of one identity *)
Definition two_parts : IdentityParser := fun s =>
  let i := LastIndexByte s slash in (0 <? i) && (i + 1 <? Z.of_nat (length s)).
#[local] Existing Instance two_parts.
Definition single_strings : StringArrays := {| UnmarshalStrings s := Some [s]; MarshalStrings l := default "" (head l) |}.
Definition cycled (epoch slice : string) : EpochState :=
  with_identities (sm_state (NewEpochStateMachine epoch None))
    {[slice := [{| rc_SliceId := slice; rc_Round := 1; rc_Votes := ∅; rc_FindingCounts := ∅; rc_Timestamp := 0 |}]]} [].
Definition slice_states : EpochCodec :=
  {| DecodeEpoch s := Some (cycled "e--9" s); EncodeEpoch st := default "" (head (map_to_list (es_ReviewCycles st)).*1) |}.
Definition task_payloads : PayloadCodec :=
  {| DecodeAny s := Some (JObject [("task_Id", JString s); ("note", JString s)]);
     EncodeAny j := match j with JObject ((_, JString s) :: _) => s | _ => "" end |}.
#[local] Existing Instances single_strings slice_states task_payloads.
Definition listed : ConvertOracle :=
  mk_ConvertOracle (fun _ => id) (fun st => map_to_list (es_ReviewCycles st)) (fun _ _ _ _ => false) (fun _ _ => false)
    (fun _ => false) (fun _ => false).
Definition old_store (arrays : list (Z * option string)) : Tables :=
  mk_Tables
    [(("audit_events", "agent_id"), [Some "a--b--1"; None; Some "a--b--1"; Some "plain"]);
     (("pasture_session_epoch_binding", "epoch_id"), [Some "e--9"]);
     (("pasture_session_epoch_binding", "binding_id"), [Some "b--1"]);
     (context_column, [Some "e--9"; Some "git-sha"])]
    [(("pasture_governed_allocation_audit", "child_task_id"), arrays)]
    (Some [("e--9", "s--1"); ("e--8", "s")]) (Some [(1, "t--1"); (2, "t")]).

Lemma listed_lawful : lawful listed.
Proof. split; [by intros|by intros]. Qed.

Lemma identity_conversion_witness : exists t,
  convertRetiredIdentity "a--b--1" = Ok t /\ to_bytes t = to_bytes "a--b" ++ slash :: to_bytes "1".
Proof.
  assert (Hl : looksRetired "a--b--1" = true) by (vm_compute; reflexivity).
  destruct (identity_conversion "a--b--1" Hl) as (ns & u & t & _ & _ & _ & _ & Hc & _).
  exists t. split; [exact Hc|]. vm_compute in Hc. injection Hc as <-. reflexivity.
Defined.

Lemma convertIdentityColumn_exact_witness :
  let cells := [Some "a--b--1"; None; Some "plain"; Some "a--b--1"] in
  convertIdentityColumn (fun _ _ _ => false) ["a--b--1"; "plain"] (Some cells)
  = Ok (Some [Some "a--b/1"; None; Some "plain"; Some "a--b/1"], 1%nat)
  /\ both_forms [Some "p--1"; Some "p/1"].
Proof.
  intros cells. split.
  - pose proof (convertIdentityColumn_exact (fun _ _ _ => false) ["a--b--1"; "plain"] cells) as Hc.
    assert (Hp : ["a--b--1"; "plain"] ≡ₚ sources cells).
    { change (sources cells) with ["plain"; "a--b--1"]. apply Permutation_swap. }
    specialize (Hc Hp). revert Hc. destruct (convertIdentityColumn _ _ _) as [[c n]|e] eqn:Hrun; intros Hc.
    + destruct Hc as (-> & -> & _). vm_compute. reflexivity.
    + vm_compute in Hrun. discriminate.
  - assert (Hp : ["p--1"; "p/1"] ≡ₚ sources [Some "p--1"; Some "p/1"]) by done.
    pose proof (convertIdentityColumn_exact (fun _ _ _ => false) ["p--1"; "p/1"] [Some "p--1"; Some "p/1"] Hp) as Hc.
    destruct (convertIdentityColumn _ _ _) as [[c n]|e] eqn:Hrun; [vm_compute in Hrun; discriminate|].
    vm_compute in Hrun. injection Hrun as <-. exact Hc.
Defined.

Lemma convertEpochState_exact_witness :
  match convertEpochState (map_to_list (es_ReviewCycles (cycled "e--9" "s--1"))) (cycled "e--9" "s--1") with
  | Ok (st, changed) => es_EpochId st = "e--9" /\ changed = true
  | Err _ => False
  end.
Proof.
  pose proof (convertEpochState_exact (map_to_list (es_ReviewCycles (cycled "e--9" "s--1"))) (cycled "e--9" "s--1") ltac:(done)) as Hc.
  destruct (convertEpochState _ _) as [[st changed]|e] eqn:Hrun; [|vm_compute in Hrun; discriminate].
  destruct Hc as (_ & _ & Hid & _). split; [exact Hid|]. vm_compute in Hrun. by injection Hrun.
Defined.

Definition old_dependency : DependencyTables :=
  mk_Dependency [(("tasks", "id"), [Some "t--1"; Some "t/2"])]
    [(("journal_decision_contexts", "context_identity"), [("task", Some "t--1"); ("git", Some "g--1")])].
Definition twice_stored : Tables := old_store [(1, Some "c--1"); (2, Some "c--1")].

Lemma preview_parity_witness : exists t' p,
  convertPastureIdentities listed twice_stored = Ok (t', 7%nat)
  /\ preview listed true old_dependency twice_stored = Ok p
  /\ 7%nat = (own_announced p + 1)%nat /\ announced_in p ("tasks", "id") = 1%nat
  /\ announced_in p ("journal_decision_contexts", "context_identity") = 1%nat
  /\ column_of (tb_columns t') context_column = Some [Some "e/9"; Some "git-sha"].
Proof.
  destruct (convertPastureIdentities listed twice_stored) as [[t' n]|e] eqn:Hrun;
    [|vm_compute in Hrun; discriminate].
  assert (n = 7%nat) as -> by (vm_compute in Hrun; by injection Hrun).
  destruct (preview_parity listed old_dependency _ t' 7 listed_lawful Hrun)
    as (p & Hp & Htab & Hn & _ & _ & Hdep & Hctx & _).
  exists t', p. split_and!; [done|exact Hp|exact Hn| | |].
  - rewrite (Hdep ("tasks", "id")); [by vm_compute|left].
  - rewrite (Hctx ("journal_decision_contexts", "context_identity")); [by vm_compute|left].
  - rewrite (ct_columns _ _ Htab context_column). vm_compute. reflexivity.
Defined.

(** An identity array that two rows hold is announced once and rewritten twice. *)
Example array_announced_by_value :
  array_values twice_stored = 1%nat /\ array_rows twice_stored = 2%nat.
Proof. vm_compute. done. Qed.
(** A store whose only retired identities are the library's. *)
Example dependency_only :
  let t := mk_Tables [] [] None None in
  match convertPastureIdentities listed t, preview listed true old_dependency t with
  | Ok (_, n), Ok p => n = 0%nat /\ WouldChange p = true
  | _, _ => False
  end.
Proof. vm_compute. done. Qed.
(** An epoch named by a retired identity: its context edge and its binding take
    the slash form, whatever the kind of the edge, and its projection keeps the
    old name. *)
Example epoch_left_behind :
  match convertPastureIdentities listed (old_store []) with
  | Ok (t', _) =>
      column_of (tb_columns t') context_column = Some [Some "e/9"; Some "git-sha"]
      /\ column_of (tb_columns t') ("pasture_session_epoch_binding", "epoch_id") = Some [Some "e/9"]
      /\ option_map (map fst) (tb_epochs t') = Some ["e--9"; "e--8"]
  | Err _ => False
  end.
Proof. vm_compute. done. Qed.
