(* ===== verification/IdCutover.v ===== *)
(** IdCutover: the identity-format cutover of a store (internal/idmigrate/
    cutover_state.go, idmigrate.go, inventory.go, backup.go, pipeline.go,
    refusal.go, internal/audit/migrate_v9_v10.go, the two frontends of
    internal/tasks/open_unified.go and internal/handlers/migrate_ids.go).

    The state machine over marker, receipt and version decides; the pipeline
    archives the store, catches its schema up, and converts it in one
    transaction that ends with the marker, the receipt and the schema ceiling.
    The tables of the provenance library and the lifecycle replay are an
    interface, other processes act between the phases. *)

From Stdlib Require Import ZArith Lia Ascii String.
From stdpp Require Import base tactics list strings gmap pretty.
From S2P Require Import Prelude GoStrings Vocabulary EpochFSM JsonMembers AuditWriter SchemaMigrate IdConvert.
Local Open Scope string_scope.
Local Open Scope list_scope.
Local Open Scope Z_scope.

(** ** What the store holds *)

(** The identity formats InspectIDFormat reports. *)
Inductive IDFormat := IDFormatEmpty | IDFormatRetired | IDFormatSlash.
#[export] Instance IDFormat_eq_dec : EqDecision IDFormat.
Proof. solve_decision. Defined.
Record blobRow := mk_blobRow { body : string; byteCount : Z; writtenAt : Z }.
#[export] Instance blobRow_eq_dec : EqDecision blobRow.
Proof. solve_decision. Defined.

(** The part of the store the library and the lifecycle projection own: format
    and population, the payload blobs, and the steps of the conversion that run
    in the caller's transaction; [None] is their error. *)
Class Owner := {
  Shared : Type;
  FormatName : IDFormat -> string;
  InspectIDFormat : Shared -> option (IDFormat * bool);
  RawBlobs : Shared -> gmap string blobRow;
  EnsureSchemaInTx : Shared -> option Shared;
  ConvertIDsInTx : Shared -> option (Shared * (nat * nat * nat));
  VerifyIDConversionInTx : Shared -> bool;
  RebuildOccurrencesInTx : Shared -> option Shared;
  CompareOccurrencesToEvidence : Shared -> bool;
  PublishIDFormatInTx : Shared -> option Shared;
}.

Record Receipt := mk_Receipt {
  MarkerFormat : string; FloorVersion : Z; ArchivePath : string; ArchiveSHA256 : string; CutoverAt : Z;
}.

Section store.
Context `{Owner}.
(** Everything but the version rows; [cd_runtime] are the row counts of the
    tables of the workflow engine that are present. *)
Record CutData := mk_CutData {
  cd_shared : Shared;
  cd_receipt : option Receipt;
  cd_runtime : list (string * nat);
  cd_tables : Tables;
}.
End store.
(** The data change of the schema steps but the identity ceiling. *)
Class SchemaSteps `{Owner} := schema_step : Z -> Z -> CutData -> option CutData.

(** ** The identity ceiling (migrate_v9_v10.go) *)
Definition IdentityFormatSchemaVersion : Z := 10.
Section ceiling.
Context `{SchemaSteps}.
Definition raiseIdentityCeiling (d : CutData) : option CutData :=
  match InspectIDFormat (cd_shared d) with
  | None => None
  | Some (format, populated) =>
      if populated && negb (bool_decide (format = IDFormatSlash)) then None else Some d
  end.
#[export] Instance store_step : StepBody CutData :=
  fun from now d => if from =? IdentityFormatSchemaVersion - 1 then raiseIdentityCeiling d else schema_step from now d.
Definition RaiseIDFormatCeilingInTx (now : Z) (s : Database CutData) : result MigrateError (Database CutData) :=
  match InspectIDFormat (cd_shared (db_data s)) with
  | None => Err VersionUnreadable
  | Some (format, populated) =>
      if populated && negb (bool_decide (format = IDFormatSlash)) then Err StepRefused
      else ApplyCeilingInTx (readVersion s) now s
  end.
End ceiling.

(** ** The state machine (cutover_state.go) *)
Inductive Outcome := OutcomeNormal | OutcomeCutover | OutcomeRefusePopulated | OutcomeRefuseUnbackedMark | OutcomeNewerSchema.
#[export] Instance Outcome_eq_dec : EqDecision Outcome.
Proof. solve_decision. Defined.
Inductive EvidenceVerdict := EvidenceNormal | EvidenceRefuseUnbackedMark | EvidenceNewerSchema | EvidenceMarkerless.
Record CutoverState := mk_State {
  st_FileExists : bool;
  st_Format : IDFormat;
  st_MarkerPresent : bool;
  st_ReceiptPresent : bool;
  st_ReceiptMatches : bool;
  st_RecordedVersion : Z;
  st_Populated : bool;
  st_Outcome : Outcome;
}.
Definition verdict_of (st : CutoverState) : EvidenceVerdict :=
  match st_Outcome st with
  | OutcomeNormal => EvidenceNormal
  | OutcomeRefuseUnbackedMark => EvidenceRefuseUnbackedMark
  | OutcomeNewerSchema => EvidenceNewerSchema
  | _ => EvidenceMarkerless
  end.

Inductive CutoverError :=
  | StateUnreadable | FormatUnreadable | UnbackedMark | PopulatedRefused | SchemaNewer (version : Z)
  | CutoverGuidance | ArchiveFailed | TrailRefused | HandleRefused | CatchUpFailed (e : MigrateError) | NoStore
  | PinFailed | PauseFailed | BeginFailed | CommitRefused | RestoreFailed
  | RuntimeState (table : string) (rows : nat) | SchemaIncomplete | DependencyFailed | PastureFailed (e : ConvertError)
  | VerifyFailed | ReplayFailed | CompareFailed | BlobCount | BlobMissing (digest : string) | BlobChanged (digest : string)
  | PublishFailed | ReceiptRefused | CeilingFailed (e : MigrateError).

Section machine.
Context `{Owner}.
(** [readable] is whether the version and the receipt can be read; [None] is a
    store without a file. *)
Definition evaluateCutover (readable : bool) (store : option (Database CutData)) : result CutoverError CutoverState :=
  match store with
  | None => Ok (mk_State false IDFormatEmpty false false false 0 false OutcomeCutover)
  | Some s =>
      if negb readable then Err StateUnreadable
      else
        let version := readVersion s in
        if MaxKnownSchemaVersion <? version then Ok (mk_State true IDFormatEmpty false false false version false OutcomeNewerSchema)
        else match InspectIDFormat (cd_shared (db_data s)) with
        | None => Err FormatUnreadable
        | Some (format, populated) =>
            let marker := bool_decide (format = IDFormatSlash) in
            let receipt := cd_receipt (db_data s) in
            let present := bool_decide (is_Some receipt) in
            let matched := match receipt with Some r => marker && String.eqb (MarkerFormat r) (FormatName format) | None => false end in
            let floor := match receipt with Some r => FloorVersion r | None => 0 end in
            let outcome :=
              if marker && matched && (floor <=? version) then OutcomeNormal
              else if marker then OutcomeRefuseUnbackedMark
              else if present then OutcomeRefuseUnbackedMark
              else if populated then OutcomeRefusePopulated
              else OutcomeCutover in
            Ok (mk_State true format marker present matched version populated outcome)
        end
  end.
(** OutcomeRefusal: the one mapping from verdicts to refusals. *)
Definition OutcomeRefusal (st : CutoverState) (populatedConvertible : bool) : option CutoverError :=
  match st_Outcome st with
  | OutcomeRefusePopulated => if populatedConvertible then None else Some PopulatedRefused
  | OutcomeRefuseUnbackedMark => Some UnbackedMark
  | OutcomeNewerSchema => Some (SchemaNewer (st_RecordedVersion st))
  | _ => None
  end.

(** ** The raw evidence (inventory.go) *)
Fixpoint compare_rows (before : list (string * blobRow)) (after : gmap string blobRow) : result CutoverError unit :=
  match before with
  | [] => Ok tt
  | (digest, want) :: rest =>
      match after !! digest with
      | None => Err (BlobMissing digest)
      | Some got =>
          if negb (byteCount got =? byteCount want) || negb (writtenAt got =? writtenAt want) || negb (String.eqb (body got) (body want))
          then Err (BlobChanged digest) else compare_rows rest after
      end
  end.
Definition compareBlobInventories (before after : gmap string blobRow) : result CutoverError unit :=
  if negb (size before =? size after)%nat then Err BlobCount else compare_rows (map_to_list before) after.
Definition runtimeStateTables : list string :=
  ["workflow_status"; "operation_outputs"; "workflow_events"; "workflow_events_history"; "streams"; "notifications";
   "event_dispatch_kv"; "workflow_schedules"].
Definition row_count (present : list (string * nat)) (table : string) : option nat :=
  snd <$> List.find (fun t => String.eqb (t.1) table) present.
Fixpoint refuse_rows (present : list (string * nat)) (tables : list string) : result CutoverError unit :=
  match tables with
  | [] => Ok tt
  | table :: rest =>
      match row_count present table with
      | None => refuse_rows present rest
      | Some rows => if (0 <? rows)%nat then Err (RuntimeState table rows) else refuse_rows present rest
      end
  end.
Definition refuseRuntimeState (present : list (string * nat)) : result CutoverError unit := refuse_rows present runtimeStateTables.
End machine.

(** ** The conversion transaction (idmigrate.go) *)
(** What phase P1 recorded: [ar_Marker] is the marker the archive itself carries. *)
Record Archive := mk_Archive { ar_Path : string; ar_SHA256 : string; ar_Skipped : bool; ar_Marker : bool }.
Record Report := mk_Report {
  rp_AlreadyCurrent : bool;
  rp_ReceiptWritten : bool;
  rp_FloorVersion : Z;
  rp_Changed : nat * nat * nat;
  rp_PastureRows : nat;
  rp_Reclaimed : nat;
}.

Section convert.
Context `{SchemaSteps} `{IdentityParser} `{StringArrays} `{EpochCodec} `{PayloadCodec}.

(** The answers of the database and the other processes, whose last commits come
    before BEGIN IMMEDIATE is granted: a commit that reports an error may be
    durable, and restoring the foreign keys may fail after a commit. *)
Record ConvertEnv := mk_ConvertEnv {
  cv_pinned : bool;
  cv_paused : bool;
  cv_others : Database CutData -> Database CutData;
  cv_begun : bool;
  cv_readable : bool;
  cv_oracle : ConvertOracle;
  cv_inserted : bool;
  cv_receiptAt : Z;
  cv_ceilingAt : Z;
  cv_commit : option bool;
  cv_restored : bool;
}.

(** The singleton row is inserted, never overwritten. *)
Definition writeReceipt (inserted : bool) (r : Receipt) (d : CutData) : result CutoverError CutData :=
  match cd_receipt d with
  | None => if inserted then Ok (mk_CutData (cd_shared d) (Some r) (cd_runtime d) (cd_tables d)) else Err ReceiptRefused
  | Some _ => Err ReceiptRefused
  end.
Definition lift {E A} (e : E) (x : option A) : result E A := match x with Some a => Ok a | None => Err e end.
Definition relabel {E F A} (f : E -> F) (x : result E A) : result F A := match x with Ok a => Ok a | Err e => Err (f e) end.
Definition check {E} (b : bool) (e : E) : result E unit := if b then Ok tt else Err e.

(** P3b to P3k, on a store whose evidence is markerless. *)
Definition convertMarkerless (en : ConvertEnv) (ar : Archive) (s : Database CutData) : result CutoverError (Database CutData * Report) :=
  let d := db_data s in
  _ ← refuseRuntimeState (cd_runtime d);
  let before := RawBlobs (cd_shared d) in
  complete ← lift SchemaIncomplete (EnsureSchemaInTx (cd_shared d));
  dependency ← lift DependencyFailed (ConvertIDsInTx complete);
  pasture ← relabel PastureFailed (convertPastureIdentities (cv_oracle en) (cd_tables d));
  _ ← check (VerifyIDConversionInTx (dependency.1)) VerifyFailed;
  replayed ← lift ReplayFailed (RebuildOccurrencesInTx (dependency.1));
  _ ← check (CompareOccurrencesToEvidence replayed) CompareFailed;
  _ ← compareBlobInventories before (RawBlobs replayed);
  marked ← lift PublishFailed (PublishIDFormatInTx replayed);
  let receipt := mk_Receipt (FormatName IDFormatSlash) IdentityFormatSchemaVersion (ar_Path ar) (ar_SHA256 ar) (cv_receiptAt en) in
  receipted ← writeReceipt (cv_inserted en) receipt (mk_CutData marked (cd_receipt d) (cd_runtime d) (pasture.1));
  raised ← relabel CeilingFailed (RaiseIDFormatCeilingInTx (cv_ceilingAt en) (mk_Database (db_meta s) receipted));
  Ok (raised, mk_Report false true IdentityFormatSchemaVersion (dependency.2) (pasture.2) 0).
Definition runConversion (en : ConvertEnv) (ar : Archive) (s : Database CutData) : result CutoverError (Database CutData * Report) :=
  st ← evaluateCutover (cv_readable en) (Some s);
  match verdict_of st with
  | EvidenceNormal => Ok (s, mk_Report true false 0 (0, 0, 0)%nat 0 0)
  | EvidenceRefuseUnbackedMark => Err UnbackedMark
  | EvidenceNewerSchema => Err (SchemaNewer (st_RecordedVersion st))
  | EvidenceMarkerless => convertMarkerless en ar s
  end.

Definition restoreFK {A} (en : ConvertEnv) (r : result CutoverError A) : result CutoverError A :=
  match r with Ok a => if cv_restored en then Ok a else Err RestoreFailed | Err e => Err e end.
Definition Convert (en : ConvertEnv) (ar : Archive) (s0 : Database CutData) : Database CutData * result CutoverError Report :=
  let s := cv_others en s0 in
  if negb (cv_pinned en) then (s, Err PinFailed)
  else if negb (cv_paused en) then (s, Err PauseFailed)
  else if negb (cv_begun en) then (s, restoreFK en (Err BeginFailed))
  else match runConversion en ar s with
  | Err e => (s, restoreFK en (Err e))
  | Ok (s', report) =>
      match cv_commit en with
      | Some durable => (if durable then s' else s, restoreFK en (Err CommitRefused))
      | None => (s', restoreFK en (Ok report))
      end
  end.
End convert.

(** ** The archive (backup.go) *)
Inductive ArchiveStage := OpeningSource | Staging | Flushing | Verifying | Checksumming | Clearing | FlushingDirectory.

Section archive.
Context `{Owner} (fileSHA256 : Database CutData -> string).

(** A store file and the archives beside it, by path; an archive is the committed
    content it was copied from. *)
Record Disk := mk_Disk { dk_store : option (Database CutData); dk_files : gmap string (Database CutData) }.

(** Which steps fail, which names cannot be inspected or linked, what other
    processes committed before the copy, and the archives they published between
    the choice of the name and the link. *)
Record ArchiveEnv := mk_ArchiveEnv {
  ae_fails : ArchiveStage -> bool;
  ae_uninspected : string -> bool;
  ae_committed : Database CutData -> Database CutData;
  ae_published : gmap string (Database CutData) -> gmap string (Database CutData);
  ae_unlinked : string -> bool;
}.

Definition archive_name (stem : string) (attempt : nat) : string :=
  match attempt with O => stem | S _ => stem +:+ "-" +:+ pretty attempt end.
(** Both loops over the numbered names: the answer for a name is taken, free, or
    a failure. [None] is exhausted fuel. *)
Fixpoint first_name (answer : string -> option bool) (stem : string) (fuel attempt : nat) : option (result CutoverError string) :=
  match fuel with
  | O => None
  | S fuel' =>
      match answer (archive_name stem attempt) with
      | None => Some (Err ArchiveFailed)
      | Some true => Some (Ok (archive_name stem attempt))
      | Some false => first_name answer stem fuel' (S attempt)
      end
  end.
Definition uniqueBackupPath (en : ArchiveEnv) (stem : string) (files : gmap string (Database CutData)) : option (result CutoverError string) :=
  first_name (fun name => if ae_uninspected en name then None else Some (bool_decide (files !! name = None)))
    stem (S (size files)) 0.
Definition publishArchive (en : ArchiveEnv) (final : string) (files : gmap string (Database CutData)) : option (result CutoverError string) :=
  first_name (fun name => if bool_decide (files !! name = None) then (if ae_unlinked en name then None else Some true) else Some false)
    final (S (size files)) 0.

(** The store is unchanged but for what others committed to it. *)
Definition ArchiveStore (en : ArchiveEnv) (stem : string) (k : Disk) : option (Disk * result CutoverError Archive) :=
  match dk_store k with
  | None => Some (k, Ok (mk_Archive "" "" true false))
  | Some s0 =>
      let content := ae_committed en s0 in
      let k1 := mk_Disk (Some content) (dk_files k) in
      if ae_fails en OpeningSource then Some (k1, Err ArchiveFailed)
      else match uniqueBackupPath en stem (dk_files k) with
      | None => None
      | Some (Err e) => Some (k1, Err e)
      | Some (Ok final) =>
          if ae_fails en Staging || ae_fails en Flushing || ae_fails en Verifying then Some (k1, Err ArchiveFailed)
          else match InspectIDFormat (cd_shared (db_data content)) with
          | None => Some (k1, Err FormatUnreadable)
          | Some (format, _) =>
              if ae_fails en Checksumming then Some (k1, Err ArchiveFailed)
              else
                let files := ae_published en (dk_files k) in
                match publishArchive en final files with
                | None => None
                | Some (Err e) => Some (mk_Disk (Some content) files, Err e)
                | Some (Ok path) =>
                    let k2 := mk_Disk (Some content) (<[path := content]> files) in
                    if ae_fails en Clearing || ae_fails en FlushingDirectory then Some (k2, Err ArchiveFailed)
                    else Some (k2, Ok (mk_Archive path (fileSHA256 content) false (bool_decide (format = IDFormatSlash))))
                end
          end
      end
  end.
End archive.

(** ** The pipeline and its frontends (pipeline.go, open_unified.go,
    migrate_ids.go, handlers/migrate.go) *)
Section pipeline.
Context `{SchemaSteps} `{IdentityParser} `{StringArrays} `{EpochCodec} `{PayloadCodec}.
Context (fileSHA256 : Database CutData -> string).

(** [pe_opened] is what opening the audit trail makes of the file before its
    migrations: it creates the file and the empty audit tables. *)
Record PipelineEnv := mk_PipelineEnv {
  pe_readable : bool;
  pe_stem : string;
  pe_archive : ArchiveEnv;
  pe_version : bool;
  pe_opened : option (Database CutData) -> option (Database CutData);
  pe_migrate : MigrateEnv CutData;
  pe_handles : bool;
  pe_convert : ConvertEnv;
}.

Record CatchUpResult := mk_CatchUp { cu_Archive : Archive; cu_AppliedCatchUpSteps : Z }.
(** RecordedSchemaVersionPath: 1 where the version cannot be read. *)
Definition RecordedSchemaVersionPath (readable : bool) (store : option (Database CutData)) : Z :=
  match store with Some s => if readable then readVersion s else 1 | None => 1 end.
Definition RunCatchUp (fuel : nat) (en : PipelineEnv) (k : Disk) : option (Disk * result CutoverError CatchUpResult) :=
  match ArchiveStore fileSHA256 (pe_archive en) (pe_stem en) k with
  | None => None
  | Some (k1, Err e) => Some (k1, Err e)
  | Some (k1, Ok archive) =>
      let beforeVersion := RecordedSchemaVersionPath (pe_version en) (dk_store k1) in
      match pe_opened en (dk_store k1) with
      | None => Some (k1, Err TrailRefused)
      | Some s =>
          match MigrateContextToCeiling fuel (pe_migrate en) (IdentityFormatSchemaVersion - 1) s with
          | None => None
          | Some (s', Err e) => Some (mk_Disk (Some s') (dk_files k1), Err (CatchUpFailed e))
          | Some (s', Ok _) =>
              let applied := RecordedSchemaVersionPath (pe_version en) (Some s') - beforeVersion in
              Some (mk_Disk (Some s') (dk_files k1), Ok (mk_CatchUp archive (Z.max 0 applied)))
          end
      end
  end.

(** P1 to P3, as both frontends run them: archive, catch-up, handle, conversion. *)
Definition runAutoCutover (fuel : nat) (en : PipelineEnv) (k : Disk) : option (Disk * result CutoverError Report) :=
  match RunCatchUp fuel en k with
  | None => None
  | Some (k1, Err e) => Some (k1, Err e)
  | Some (k1, Ok cu) =>
      match dk_store k1 with
      | None => Some (k1, Err HandleRefused)
      | Some s =>
          if negb (pe_handles en) then Some (k1, Err HandleRefused)
          else let '(s', r) := Convert (pe_convert en) (cu_Archive cu) s in Some (mk_Disk (Some s') (dk_files k1), r)
      end
  end.

(** The guard of a normal open, up to the store it hands to the tracker. *)
Definition openTaskTracker (fuel : nat) (en : PipelineEnv) (k : Disk) : option (Disk * result CutoverError (option Report)) :=
  match evaluateCutover (pe_readable en) (dk_store k) with
  | Err e => Some (k, Err e)
  | Ok st =>
      match OutcomeRefusal st false with
      | Some e => Some (k, Err e)
      | None =>
          if bool_decide (st_Outcome st = OutcomeCutover) then
            match runAutoCutover fuel en k with Some (k', r) => Some (k', r ≫= fun report => Ok (Some report)) | None => None end
          else match pe_opened en (dk_store k) with
          | None => Some (k, Err TrailRefused)
          | Some s =>
              match MigrateContextToCeiling fuel (pe_migrate en) 0 s with
              | None => None
              | Some (s', Err e) => Some (mk_Disk (Some s') (dk_files k), Err (CatchUpFailed e))
              | Some (s', Ok _) => Some (mk_Disk (Some s') (dk_files k), if pe_handles en then Ok None else Err HandleRefused)
              end
          end
      end
  end.
(** pasture migrate ids, up to the commit of the conversion. *)
Definition runMigrateIDsApply (fuel : nat) (en : PipelineEnv) (k : Disk) : option (Disk * result CutoverError (option Report)) :=
  match dk_store k with
  | None => Some (k, Err NoStore)
  | Some _ =>
      match evaluateCutover (pe_readable en) (dk_store k) with
      | Err e => Some (k, Err e)
      | Ok st =>
          if bool_decide (st_Outcome st = OutcomeNormal) then Some (k, Ok None)
          else match OutcomeRefusal st true with
          | Some e => Some (k, Err e)
          | None => match runAutoCutover fuel en k with Some (k', r) => Some (k', r ≫= fun report => Ok (Some report)) | None => None end
          end
      end
  end.
(** The refusals of plain pasture migrate before any step runs. *)
Definition plainMigrateRefusal (st : CutoverState) : CutoverError :=
  match OutcomeRefusal st false with Some e => e | None => CutoverGuidance end.
Definition migrate_admits (readable : bool) (store : option (Database CutData)) : result CutoverError bool :=
  match store with
  | None => Ok false
  | Some _ =>
      match evaluateCutover readable store with
      | Err e => Err e
      | Ok st => if bool_decide (st_Outcome st = OutcomeNormal) then Ok true else Err (plainMigrateRefusal st)
      end
  end.
End pipeline.

(** * What the conversion relies on *)

(** The library's marker phase, and the schema steps past the ceiling, which add
    session cache columns and tables without a declared identity
    (migrate_v10_v11.go, migrate_v11_v12.go, migrate_v12_v13.go). *)
Class CutoverLaws `{SchemaSteps} : Prop := {
  publish_marks a b : PublishIDFormatInTx a = Some b ->
    (exists populated, InspectIDFormat b = Some (IDFormatSlash, populated)) /\ RawBlobs b = RawBlobs a;
  late_steps from now d d' : IdentityFormatSchemaVersion <= from -> schema_step from now d = Some d' ->
    cd_shared d' = cd_shared d /\ cd_receipt d' = cd_receipt d /\ cd_tables d' = cd_tables d;
}.

(** * The blob comparison *)
Lemma compare_rows_ok rows after : compare_rows rows after = Ok tt <-> forall digest row, (digest, row) ∈ rows -> after !! digest = Some row.
Proof.
  induction rows as [|[digest want] rows IH]; simpl.
  { split; [by intros _ digest row ?%elem_of_nil|done]. }
  destruct (after !! digest) as [got|] eqn:Hd.
  2: { split; [done|]. intros Hall. specialize (Hall digest want ltac:(left)). congruence. }
  destruct (Z.eqb_spec (byteCount got) (byteCount want)) as [Hb|Hb], (Z.eqb_spec (writtenAt got) (writtenAt want)) as [Hw|Hw],
    (String.eqb_spec (body got) (body want)) as [Hs|Hs]; simpl;
    try (split; [done|]; intros Hall; specialize (Hall digest want ltac:(left)); congruence).
  rewrite IH. assert (got = want) as -> by (destruct got, want; simpl in *; congruence). split.
  - intros Hall d r [[= -> ->]|Hin]%elem_of_cons; [done|by apply Hall].
  - intros Hall d r Hin. apply Hall. by right.
Qed.
Lemma compareBlobInventories_ok before after : compareBlobInventories before after = Ok tt <-> before = after.
Proof.
  unfold compareBlobInventories. destruct (Nat.eqb_spec (size before) (size after)) as [Hs|Hs]; simpl.
  2: { split; [done|]. by intros ->. }
  rewrite compare_rows_ok. split.
  - intros Hall. apply map_subseteq_size_eq; [|lia]. apply map_subseteq_spec. intros d r Hr. apply Hall. by apply elem_of_map_to_list.
  - intros -> d r Hin. by apply elem_of_map_to_list in Hin.
Qed.
(** No row of serialized execution is left. *)
Definition drained (present : list (string * nat)) : Prop :=
  forall table rows, table ∈ runtimeStateTables -> row_count present table = Some rows -> rows = 0%nat.
Lemma refuse_rows_ok present tables :
  refuse_rows present tables = Ok tt <-> forall table rows, table ∈ tables -> row_count present table = Some rows -> rows = 0%nat.
Proof.
  induction tables as [|table rest IH]; simpl; [split; [by intros _ t n ?%elem_of_nil|done]|].
  destruct (row_count present table) as [n|] eqn:Hn.
  - destruct (Nat.ltb_spec 0 n) as [Hlt|].
    + split; [done|]. intros Hall. specialize (Hall table n ltac:(left) Hn). lia.
    + rewrite IH. split; intros Hall t m; [intros [->|Hin]%elem_of_cons Ht; [rewrite Hn in Ht; injection Ht as <-; lia|by eapply Hall]|].
      intros Hin. apply Hall. by right.
  - rewrite IH. split; intros Hall t m; [intros [->|Hin]%elem_of_cons Ht; [congruence|by eapply Hall]|].
    intros Hin. apply Hall. by right.
Qed.
Lemma refuseRuntimeState_ok present : refuseRuntimeState present = Ok tt <-> drained present.
Proof. apply refuse_rows_ok. Qed.

(** * The state machine *)
Section laws.
Context `{CutoverLaws} `{IdentityParser} `{StringArrays} `{EpochCodec} `{PayloadCodec}.

Definition normal (s : Database CutData) : Prop :=
  exists st, evaluateCutover true (Some s) = Ok st /\ st_Outcome st = OutcomeNormal.

Lemma evaluate_readable readable s st :
  evaluateCutover readable (Some s) = Ok st -> evaluateCutover true (Some s) = Ok st.
Proof. unfold evaluateCutover. by destruct readable. Qed.
Lemma evaluate_version readable s st :
  evaluateCutover readable (Some s) = Ok st -> st_Outcome st <> OutcomeNewerSchema -> readVersion s <= MaxKnownSchemaVersion.
Proof.
  unfold evaluateCutover. destruct readable; [|done]. simpl.
  destruct (Z.ltb_spec MaxKnownSchemaVersion (readVersion s)); [intros [= <-]; done|done].
Qed.
Lemma normal_iff s :
  normal s <-> readVersion s <= MaxKnownSchemaVersion
    /\ (exists populated, InspectIDFormat (cd_shared (db_data s)) = Some (IDFormatSlash, populated))
    /\ exists r, cd_receipt (db_data s) = Some r /\ MarkerFormat r = FormatName IDFormatSlash /\ FloorVersion r <= readVersion s.
Proof.
  unfold normal, evaluateCutover. cbn [negb]. split.
  - intros (st & He & Ho). destruct (Z.ltb_spec MaxKnownSchemaVersion (readVersion s)); [injection He as <-; done|].
    destruct (InspectIDFormat _) as [[format populated]|] eqn:Hf; [|done]. injection He as <-. cbn [st_Outcome] in Ho.
    destruct (bool_decide_reflect (format = IDFormatSlash)) as [->|]; [|by destruct (bool_decide (is_Some _)), populated].
    destruct (cd_receipt (db_data s)) as [r|]; [|done]. cbn [andb] in Ho.
    destruct (String.eqb_spec (MarkerFormat r) (FormatName IDFormatSlash)); [|done].
    destruct (Z.leb_spec (FloorVersion r) (readVersion s)); [|done]. split_and!; [done|by eexists|by exists r].
  - intros (Hv & (populated & ->) & r & -> & Hm & Hl). destruct (Z.ltb_spec MaxKnownSchemaVersion (readVersion s)); [lia|].
    eexists. split; [done|]. cbn [st_Outcome]. rewrite bool_decide_eq_true_2, Hm, String.eqb_refl by done.
    destruct (Z.leb_spec (FloorVersion r) (readVersion s)); [done|lia].
Qed.

(** * The ceiling *)
(** The steps past the ceiling leave all but the schema version in place. *)
Definition undisturbed (s s' : Database CutData) : Prop :=
  cd_shared (db_data s') = cd_shared (db_data s) /\ cd_receipt (db_data s') = cd_receipt (db_data s)
  /\ cd_tables (db_data s') = cd_tables (db_data s).
Lemma late_step step now s s' :
  step ∈ migrationSteps -> 9 <= step.1 -> readVersion s = step.1 -> apply_step step now s = Some s' ->
  readVersion s' = step.2 /\ undisturbed s s'.
Proof.
  intros Hin H9 Hv Ha. split; [by eapply step_version|]. destruct step as [from to]. destruct (known_step _ _ Hin) as [-> _].
  simpl in *. unfold apply_step in Ha. simpl in Ha. destruct (Z.eqb_spec from 1); [lia|].
  destruct (step_body from now (db_data s)) as [d|] eqn:Hd; [|done].
  assert (Hd' : cd_shared d = cd_shared (db_data s) /\ cd_receipt d = cd_receipt (db_data s) /\ cd_tables d = cd_tables (db_data s)).
  { unfold step_body, store_step in Hd. destruct (Z.eqb_spec from (IdentityFormatSchemaVersion - 1)).
    - unfold raiseIdentityCeiling in Hd. destruct (InspectIDFormat _) as [[]|]; [|done]. destruct (_ && _); [done|by injection Hd as <-].
    - apply (late_steps from now); [unfold IdentityFormatSchemaVersion in *; lia|done]. }
  unfold undisturbed. apply stamped in Ha as [_ ->]; [exact Hd'|]. erewrite readVersion_meta by reflexivity. simpl.
  erewrite <- (readVersion_meta s); [lia|done].
Qed.
Lemma late_loop now steps : forall base current s s',
  chain base steps -> steps ⊆ migrationSteps -> base <= current -> 9 <= current < MaxKnownSchemaVersion -> readVersion s = current ->
  apply_loop steps current now s = Ok s' ->
  readVersion s' = MaxKnownSchemaVersion /\ undisturbed s s'.
Proof.
  intros base current s s' Hch. revert current s. induction Hch as [|from rest Hch IH]; intros current s Hsub Hb Hc Hv Ha; [lia|].
  cbn [apply_loop fst snd] in Ha. assert (Hrest : rest ⊆ migrationSteps) by (intros x Hx; apply Hsub; by right).
  destruct (Z.ltb_spec from current); [eapply (IH current); [done|lia|done|done|exact Ha]|].
  destruct (Z.eqb_spec from current) as [->|]; [|lia]. cbn [negb] in Ha.
  destruct (apply_step _ now s) as [s2|] eqn:Hs; [|done].
  assert (Hin : (current, current + 1) ∈ migrationSteps) by (apply Hsub; by left).
  destruct (late_step _ _ _ _ Hin ltac:(simpl; lia) Hv Hs) as (Hv2 & Hsh & Hr & Ht). simpl in Hv2.
  destruct (Z.leb_spec MaxKnownSchemaVersion (current + 1)) as [Hm|Hm].
  - injection Ha as <-. split_and!; [|done..]. apply chain_bound in Hch. lia.
  - unfold undisturbed. rewrite <- Hsh, <- Hr, <- Ht. eapply (IH (current + 1)); [done|lia|lia|done|exact Ha].
Qed.
Lemma raised now s s' :
  9 <= readVersion s <= MaxKnownSchemaVersion -> RaiseIDFormatCeilingInTx now s = Ok s' ->
  readVersion s' = MaxKnownSchemaVersion /\ undisturbed s s'.
Proof.
  intros Hv. unfold RaiseIDFormatCeilingInTx. destruct (InspectIDFormat _) as [[format populated]|]; [|done].
  destruct (_ && _); [done|]. unfold ApplyCeilingInTx. destruct (Z.leb_spec MaxKnownSchemaVersion (readVersion s)).
  - intros [= <-]. split_and!; [lia|done..].
  - apply (late_loop now migrationSteps 1); [exact chain_all|done|lia|lia|done].
Qed.

(** * The conversion *)

(** The library's part of a conversion: its identities converted on the complete
    schema and verified, the occurrences replayed from the evidence and compared
    with it, and the marker published last. *)
Definition shared_converted (a b : Shared) : Prop :=
  exists complete dependency changed replayed,
    EnsureSchemaInTx a = Some complete /\ ConvertIDsInTx complete = Some (dependency, changed)
    /\ VerifyIDConversionInTx dependency = true /\ RebuildOccurrencesInTx dependency = Some replayed
    /\ CompareOccurrencesToEvidence replayed = true /\ PublishIDFormatInTx replayed = Some b.
(** What a committed conversion made of [s], recorded for the archive [ar]. *)
Definition converted (en : ConvertEnv) (ar : Archive) (s s' : Database CutData) : Prop :=
  normal s'
  /\ cd_receipt (db_data s') = Some (mk_Receipt (FormatName IDFormatSlash) IdentityFormatSchemaVersion (ar_Path ar) (ar_SHA256 ar) (cv_receiptAt en))
  /\ cd_receipt (db_data s) = None
  /\ RawBlobs (cd_shared (db_data s')) = RawBlobs (cd_shared (db_data s))
  /\ readVersion s' = MaxKnownSchemaVersion
  /\ drained (cd_runtime (db_data s))
  /\ shared_converted (cd_shared (db_data s)) (cd_shared (db_data s'))
  /\ exists n, convertPastureIdentities (cv_oracle en) (cd_tables (db_data s)) = Ok (cd_tables (db_data s'), n).
(** With every identity settled, in each of the declared places. *)
Definition fully_converted (en : ConvertEnv) (ar : Archive) (s s' : Database CutData) : Prop :=
  converted en ar s s' /\ converted_tables (cd_tables (db_data s)) (cd_tables (db_data s')).

Lemma bind_ok {E A B} (x : result E A) (f : A -> result E B) b : (x ≫= f) = Ok b -> exists a, x = Ok a /\ f a = Ok b.
Proof. destruct x as [a|e]; [by exists a|done]. Qed.
Lemma lift_ok {E A} (e : E) (x : option A) a : lift e x = Ok a -> x = Some a.
Proof. destruct x; [by intros [= ->]|done]. Qed.
Lemma relabel_ok {E F A} (f : E -> F) (x : result E A) a : relabel f x = Ok a -> x = Ok a.
Proof. destruct x; [by intros [= ->]|done]. Qed.
Lemma checked {E} b (e : E) u : check b e = Ok u -> b = true.
Proof. by destruct b. Qed.
Lemma writeReceipt_ok inserted r d d' :
  writeReceipt inserted r d = Ok d' -> cd_receipt d = None /\ d' = mk_CutData (cd_shared d) (Some r) (cd_runtime d) (cd_tables d).
Proof. unfold writeReceipt. destruct (cd_receipt d), inserted; [done..| |done]. by intros [= <-]. Qed.

Lemma convertMarkerless_ok en ar s s' report :
  9 <= readVersion s <= MaxKnownSchemaVersion -> convertMarkerless en ar s = Ok (s', report) ->
  converted en ar s s' /\ rp_AlreadyCurrent report = false /\ rp_ReceiptWritten report = true.
Proof.
  intros Hv Hc. unfold convertMarkerless in Hc.
  apply bind_ok in Hc as ([] & Hrt & Hc). apply bind_ok in Hc as (complete & He%lift_ok & Hc).
  apply bind_ok in Hc as ([dependency changed] & Hd%lift_ok & Hc). apply bind_ok in Hc as ([tables n] & Ht%relabel_ok & Hc).
  apply bind_ok in Hc as (_ & Hver%checked & Hc). apply bind_ok in Hc as (replayed & Hre%lift_ok & Hc).
  apply bind_ok in Hc as (_ & Hcmp%checked & Hc). apply bind_ok in Hc as ([] & Hb & Hc).
  apply bind_ok in Hc as (marked & Hp%lift_ok & Hc). apply bind_ok in Hc as (receipted & Hw & Hc).
  apply bind_ok in Hc as (out & Hr%relabel_ok & Hc). injection Hc as -> <-.
  destruct (publish_marks _ _ Hp) as [Hf Hblobs]. apply writeReceipt_ok in Hw as [Hnone ->].
  apply raised in Hr as (Hv' & Hsh & Hrc & Htab);
    [|erewrite readVersion_meta by reflexivity; erewrite <- (readVersion_meta s); [lia|done]].
  simpl in Hsh, Hrc, Htab, Hnone, Hver, Hre, Ht. apply compareBlobInventories_ok in Hb. apply refuseRuntimeState_ok in Hrt.
  split; [|done]. split_and!; try done.
  - apply normal_iff. rewrite Hv', Hsh, Hrc. split_and!; [lia|done|]. by eexists.
  - by rewrite Hsh, Hblobs, Hb.
  - rewrite Hsh. by exists complete, dependency, changed, replayed.
  - rewrite Htab. by exists n.
Qed.
Lemma runConversion_ok en ar s s' report :
  9 <= readVersion s -> runConversion en ar s = Ok (s', report) ->
  if rp_AlreadyCurrent report then s' = s /\ normal s else converted en ar s s' /\ rp_ReceiptWritten report = true.
Proof.
  intros Hv Hc. unfold runConversion in Hc. apply bind_ok in Hc as (st & He & Hc).
  assert (Hm : verdict_of st = EvidenceMarkerless -> readVersion s <= MaxKnownSchemaVersion).
  { intros Hm. apply (evaluate_version _ _ _ He). unfold verdict_of in Hm. by destruct (st_Outcome st). }
  destruct (verdict_of st) eqn:Hvd; [|done|done|].
  - injection Hc as <- <-. simpl. split; [done|]. exists st. split; [by eapply evaluate_readable|].
    unfold verdict_of in Hvd. by destruct (st_Outcome st).
  - apply convertMarkerless_ok in Hc as (Hco & -> & Hw); [done|]. specialize (Hm eq_refl). lia.
Qed.

Lemma Convert_safe en ar s0 s' r :
  9 <= readVersion (cv_others en s0) -> Convert en ar s0 = (s', r) ->
  let s := cv_others en s0 in
  (s' = s \/ (converted en ar s s' /\ ~ normal s))
  /\ match r with
     | Ok report => if rp_AlreadyCurrent report then s' = s /\ normal s
                    else converted en ar s s' /\ rp_ReceiptWritten report = true
     | Err e => s' = s \/ e = CommitRefused \/ e = RestoreFailed
     end.
Proof.
  intros Hv Hc s. unfold Convert in Hc. fold s in Hv, Hc.
  destruct (cv_pinned en); [|injection Hc as <- <-; by split; left]. destruct (cv_paused en); [|injection Hc as <- <-; by split; left].
  destruct (cv_begun en); [|injection Hc as <- <-; by split; left]. cbn [negb] in Hc.
  destruct (runConversion en ar s) as [[s2 report]|e] eqn:Hr; [|injection Hc as <- <-; by split; left].
  apply runConversion_ok in Hr; [|done].
  assert (Hs2 : s2 = s \/ (converted en ar s s2 /\ ~ normal s)).
  { destruct (rp_AlreadyCurrent report); [by left; apply Hr|right]. destruct Hr as [Hco _]. split; [done|].
    destruct Hco as (_ & _ & Hnone & _). rewrite normal_iff, Hnone. by intros (_ & _ & ? & ? & _). }
  destruct (cv_commit en) as [durable|].
  - injection Hc as <- <-. split; [destruct durable; [done|by left]|]. right. by left.
  - injection Hc as <- <-. split; [done|]. unfold restoreFK. destruct (cv_restored en); [done|]. right. by right.
Qed.

Lemma Convert_normal en ar s : normal (cv_others en s) -> (Convert en ar s).1 = cv_others en s.
Proof.
  intros (st & He & Ho). unfold Convert. destruct (cv_pinned en), (cv_paused en), (cv_begun en); try done. cbn [negb].
  unfold runConversion. destruct (cv_readable en).
  - rewrite He. cbn [mbind result_bind]. unfold verdict_of. rewrite Ho. by destruct (cv_commit en) as [[]|].
  - by destruct (cv_commit en).
Qed.

Lemma converted_settles en ar s s' : lawful (cv_oracle en) -> converted en ar s s' -> fully_converted en ar s s'.
Proof. intros Hl Hc. split; [done|]. destruct Hc as (_ & _ & _ & _ & _ & _ & _ & n & Ht). by apply (convert_parts _ _ _ n Hl) in Ht as []. Qed.

(** C30: the conversion leaves the store exactly as it found it or fully
    converted: every declared identity of the store's own columns, arrays, epoch
    documents and payloads in its slash form and nothing else of them changed, the
    library's identities converted, verified, replayed and compared with the
    evidence, the marker, the receipt of this run's archive and the schema ceiling
    together, every raw payload blob byte for byte, and only where no runtime state
    and no earlier receipt was left. A report of success is one of the two; an
    error with a changed store is the commit's own or the restoration of the
    foreign keys after it. What it converted no later conversion touches. *)
Theorem convert_atomic en ar s0 s' r :
  lawful (cv_oracle en) -> 9 <= readVersion (cv_others en s0) -> Convert en ar s0 = (s', r) ->
  let s := cv_others en s0 in
  (s' = s \/ (fully_converted en ar s s' /\ ~ normal s))
  /\ match r with
     | Ok report => if rp_AlreadyCurrent report then s' = s /\ normal s
                    else fully_converted en ar s s' /\ rp_ReceiptWritten report = true
     | Err e => s' = s \/ e = CommitRefused \/ e = RestoreFailed
     end
  /\ forall en2 ar2, normal s' -> cv_others en2 s' = s' -> (Convert en2 ar2 s').1 = s'.
Proof.
  intros Hl Hv Hc s. destruct (Convert_safe en ar s0 s' r Hv Hc) as [Ha Hr]. split_and!.
  - destruct Ha as [Ha|[Ha Hn]]; [by left|right]. split; [by apply converted_settles|done].
  - destruct r as [report|e]; [|done]. destruct (rp_AlreadyCurrent report); [done|]. destruct Hr. split; [by apply converted_settles|done].
  - intros en2 ar2 Hn Hq. rewrite Convert_normal; rewrite Hq; done.
Qed.
End laws.

(** * The archive *)
Section archived.
Context `{Owner} (fileSHA256 : Database CutData -> string).

Lemma not_suffixed stem rest : stem <> stem +:+ String "-" rest.
Proof. induction stem as [|a stem IH]; [done|]. by intros [= ?%IH]. Qed.
Lemma archive_name_inj stem i j : archive_name stem i = archive_name stem j -> i = j.
Proof.
  unfold archive_name. destruct i as [|i], j as [|j]; [done|by intros ?%not_suffixed|by intros ?%symmetry%not_suffixed|].
  intros Heq. by simplify_eq.
Qed.
(** Only the names of files are taken, so the loop ends within their number. *)
Lemma first_name_ends answer stem (files : gmap string (Database CutData)) :
  (forall name, answer name = Some false -> is_Some (files !! name)) ->
  exists r, first_name answer stem (S (size files)) 0 = Some r.
Proof.
  intros Ht. destruct (first_name _ _ _ _) as [r|] eqn:Hn; [by exists r|exfalso].
  assert (Hall : forall fuel n, first_name answer stem fuel n = None -> forall i, (n <= i < n + fuel)%nat -> is_Some (files !! archive_name stem i)).
  { induction fuel as [|fuel IH]; intros n Hf i Hi; [lia|]. simpl in Hf. destruct (answer _) as [[]|] eqn:Ha; [done| |done].
    destruct (decide (i = n)) as [->|]; [by apply Ht|]. apply (IH (S n) Hf). lia. }
  specialize (Hall _ _ Hn). assert (Hsub : list_to_set (archive_name stem <$> seq 0 (S (size files))) ⊆ dom files).
  { intros name Hin. apply elem_of_list_to_set, list_elem_of_fmap in Hin as (i & -> & Hi). apply elem_of_dom, Hall.
    apply elem_of_seq in Hi. lia. }
  apply subseteq_size in Hsub. rewrite size_list_to_set, length_fmap, length_seq, size_dom in Hsub; [lia|].
  apply NoDup_fmap_2_strong; [|apply NoDup_seq]. intros i j _ _. apply archive_name_inj.
Qed.
Lemma first_name_Ok answer stem fuel : forall n name, first_name answer stem fuel n = Some (Ok name) -> answer name = Some true.
Proof.
  induction fuel as [|fuel IH]; intros n name; [done|]. simpl. destruct (answer _) as [[]|] eqn:Ha; [|apply IH|done].
  by intros [= <-].
Qed.
Lemma uniqueBackupPath_ends en stem files : exists r, uniqueBackupPath en stem files = Some r.
Proof.
  apply first_name_ends. intros name. destruct (ae_uninspected en name); [done|]. intros [= Hb].
  apply bool_decide_eq_false in Hb. by apply not_eq_None_Some.
Qed.
Lemma publishArchive_ends en final files : exists r, publishArchive en final files = Some r.
Proof.
  apply first_name_ends. intros name. destruct (bool_decide_reflect (files !! name = None)) as [|Hb]; [by destruct (ae_unlinked en name)|].
  intros _. by apply not_eq_None_Some.
Qed.
Lemma publishArchive_free en final files path : publishArchive en final files = Some (Ok path) -> files !! path = None.
Proof. intros Hp%first_name_Ok. by destruct (bool_decide_reflect (files !! path = None)). Qed.

(** What one archive attempt leaves: the store as the others committed it, the
    files of before, and on success a new file with the store's content. *)
Definition archived (en : ArchiveEnv) (k k' : Disk) (r : result CutoverError Archive) : Prop :=
  dk_store k' = ae_committed en <$> dk_store k /\ dk_files k ⊆ dk_files k'
  /\ match r with
     | Err _ => True
     | Ok ar =>
         match dk_store k' with
         | None => ar = mk_Archive "" "" true false
         | Some content =>
             ar_Skipped ar = false /\ dk_files k' !! ar_Path ar = Some content /\ dk_files k !! ar_Path ar = None
             /\ ar_SHA256 ar = fileSHA256 content
             /\ exists format populated, InspectIDFormat (cd_shared (db_data content)) = Some (format, populated)
                                         /\ ar_Marker ar = bool_decide (format = IDFormatSlash)
         end
     end.
Lemma ArchiveStore_archived en stem k :
  dk_files k ⊆ ae_published en (dk_files k) -> exists k' r, ArchiveStore fileSHA256 en stem k = Some (k', r) /\ archived en k k' r.
Proof.
  intros Hg. unfold ArchiveStore, archived. destruct k as [[s0|] files]; simpl in *; [|by do 2 eexists].
  destruct (ae_fails en OpeningSource); [by do 2 eexists|].
  destruct (uniqueBackupPath_ends en stem files) as [[final|e] ->]; [|by do 2 eexists].
  destruct (_ || _); [by do 2 eexists|]. destruct (InspectIDFormat _) as [[format populated]|] eqn:Hf; [|by do 2 eexists].
  destruct (ae_fails en Checksumming); [by do 2 eexists|].
  destruct (publishArchive_ends en final (ae_published en files)) as [[path|e] Hp]; rewrite Hp; [|by do 2 eexists].
  apply publishArchive_free in Hp. assert (Hnew : ae_published en files ⊆ <[path := ae_committed en s0]> (ae_published en files)) by by apply insert_subseteq.
  assert (Hold : files !! path = None) by (by eapply lookup_weaken_None).
  destruct (_ || _); do 2 eexists; (split; [done|]); simpl; (split; [done|]); (split; [by etrans|]); [done|].
  split_and!; [done|apply lookup_insert_eq|done|done|by do 2 eexists].
Qed.
End archived.

(** * The pipeline *)
Section pipeline_laws.
Context `{CutoverLaws} `{IdentityParser} `{StringArrays} `{EpochCodec} `{PayloadCodec}.
Context (fileSHA256 : Database CutData -> string).

(** The other processes only add archives, and to the schema only run the steps
    of this build beside writes of any data; an opened file has a version. *)
Definition any_write (_ _ : CutData) : Prop := True.
Definition fair (en : PipelineEnv) : Prop :=
  (forall files, files ⊆ ae_published (pe_archive en) files)
  /\ (forall n, respectful any_write (se_others (me_steps (pe_migrate en) n)))
  /\ respectful any_write (cv_others (pe_convert en))
  /\ (forall store s, pe_opened en store = Some s -> 1 <= readVersion s).

(** No content is lost: the store is as the others left it, or that content is in
    an archive that was not there before. *)
Definition kept (en : PipelineEnv) (k k' : Disk) : Prop :=
  dk_files k ⊆ dk_files k'
  /\ match ae_committed (pe_archive en) <$> dk_store k with
     | None => True
     | Some content =>
         dk_store k' = dk_store k \/ dk_store k' = Some content
         \/ exists path, dk_files k' !! path = Some content /\ dk_files k !! path = None
     end.
Definition backed (en : PipelineEnv) (k k' : Disk) (rc : Receipt) : Prop :=
  match ae_committed (pe_archive en) <$> dk_store k with
  | None => ArchivePath rc = ""
  | Some content =>
      dk_files k' !! ArchivePath rc = Some content /\ dk_files k !! ArchivePath rc = None /\ ArchiveSHA256 rc = fileSHA256 content
  end.
(** A reported cutover: the store is in order, and unless a rival finished first
    its receipt names this run's archive of what was there before. *)
Definition cut_over (en : PipelineEnv) (k k' : Disk) (report : Report) : Prop :=
  exists s', dk_store k' = Some s' /\ normal s'
    /\ (rp_AlreadyCurrent report = false ->
        exists rc, cd_receipt (db_data s') = Some rc /\ readVersion s' = MaxKnownSchemaVersion /\ backed en k k' rc).

Lemma store_kept_refl en k : kept en k k.
Proof. split; [done|]. destruct (dk_store k); simpl; [by left|done]. Qed.
Lemma archived_kept en k k' r : archived fileSHA256 (pe_archive en) k k' r -> kept en k k'.
Proof. intros (Hs & Hf & _). split; [done|]. rewrite Hs. destruct (dk_store k); simpl; [by right; left|done]. Qed.
Lemma archive_kept en k k1 ar store :
  archived fileSHA256 (pe_archive en) k k1 (Ok ar) -> kept en k (mk_Disk store (dk_files k1)).
Proof.
  intros (Hs & Hf & Ha). split; [done|]. rewrite Hs in Ha. destruct (dk_store k); simpl in *; [|done].
  right. right. exists (ar_Path ar). naive_solver.
Qed.
Lemma RunCatchUp_kept fuel en k k1 r :
  fair en -> RunCatchUp fileSHA256 fuel en k = Some (k1, r) ->
  kept en k k1
  /\ forall cu, r = Ok cu -> exists k0 s, archived fileSHA256 (pe_archive en) k k0 (Ok (cu_Archive cu)) /\ k1 = mk_Disk (Some s) (dk_files k0)
                            /\ 9 <= readVersion s.
Proof.
  intros (Hg & Hre & _ & Hv). unfold RunCatchUp.
  destruct (ArchiveStore_archived fileSHA256 (pe_archive en) (pe_stem en) k (Hg _)) as (k0 & [ar|e] & -> & Ha);
    [|intros [= <- <-]; split; [by eapply archived_kept|done]].
  destruct (pe_opened en (dk_store k0)) as [s|] eqn:Ho; [|intros [= <- <-]; split; [by eapply archived_kept|done]].
  destruct (MigrateContextToCeiling _ _ _ s) as [[s' [[]|e]]|] eqn:Hm; [|intros [= <- <-]; split; [by eapply archive_kept|done]|done].
  intros [= <- <-]. split; [by eapply archive_kept|]. intros cu [= <-]. exists k0, s'. split_and!; [done..|].
  apply (migrator_evolves any_write) in Hm as (l & _ & Hc & _); [exact Hc|done|by eapply Hv].
Qed.
Lemma runAutoCutover_kept fuel en k k' r :
  fair en -> runAutoCutover fileSHA256 fuel en k = Some (k', r) ->
  kept en k k' /\ forall report, r = Ok report -> cut_over en k k' report.
Proof.
  intros Hfair. unfold runAutoCutover. destruct (RunCatchUp _ _ _ _) as [[k1 [cu|e]]|] eqn:Hc; [| |done].
  2: { intros [= <- <-]. apply RunCatchUp_kept in Hc as [Hk _]; done. }
  apply RunCatchUp_kept in Hc as [Hk Hcu]; [|done]. destruct (Hcu cu eq_refl) as (k0 & s & Ha & -> & H9). simpl.
  destruct (pe_handles en); simpl; [|intros [= <- <-]; by split].
  destruct (Convert _ _ _) as [s' r'] eqn:Hv. intros [= <- <-]. split; [by eapply archive_kept|].
  intros report ->. destruct Hfair as (_ & _ & Hre & _). destruct (Hre s) as (l & Hev%evolves_le).
  apply Convert_safe in Hv as [_ Hr]; [|lia]. destruct (rp_AlreadyCurrent report) eqn:Hac.
  - destruct Hr as [-> Hn]. eexists. split_and!; [done|done|by rewrite Hac].
  - destruct Hr as [(Hn & Hrc & _ & _ & Hver & _ & _ & _) _]. eexists. split_and!; [done|done|]. intros _. eexists. split_and!; [done|done|].
    unfold backed. simpl. destruct Ha as (Hs & _ & Hp). rewrite Hs in Hp. destruct (dk_store k); simpl in *; [naive_solver|by rewrite Hp].
Qed.

(** C31: no cutover loses a store. Whichever frontend finds a store whose evidence
    is incomplete, and whatever fails or races: no archive is overwritten, the
    store is as the others left it or its content of before is in an archive made
    by this run, and a refused store is not touched. A reported cutover leaves the
    store in order, with a receipt that names that archive and its checksum. *)
Theorem cutover_backed (command : bool) fuel en k k' r st :
  fair en -> evaluateCutover (pe_readable en) (dk_store k) = Ok st -> st_Outcome st <> OutcomeNormal ->
  (if command then runMigrateIDsApply fileSHA256 fuel en k else openTaskTracker fileSHA256 fuel en k) = Some (k', r) ->
  kept en k k'
  /\ (forall e, OutcomeRefusal st command = Some e -> k' = k /\ r = Err (if dk_store k is None then NoStore else e))
  /\ match r with
     | Ok None => False
     | Ok (Some report) => cut_over en k k' report
     | Err _ => True
     end.
Proof.
  intros Hfair He Hn Hrun.
  assert (Hauto : forall x, match runAutoCutover fileSHA256 fuel en k with
                            | Some (k1, r1) => Some (k1, r1 ≫= fun report => Ok (Some report)) | None => None end = Some (k', x) ->
                  kept en k k' /\ match x with Ok None => False | Ok (Some report) => cut_over en k k' report | Err _ => True end).
  { intros x. destruct (runAutoCutover _ _ _ _) as [[k1 r1]|] eqn:Ha; [|done]. intros [= <- <-].
    apply runAutoCutover_kept in Ha as [Hk Hc]; [|done]. split; [done|]. destruct r1; [by apply Hc|done]. }
  destruct command.
  - unfold runMigrateIDsApply in Hrun. rewrite He in Hrun. destruct (dk_store k) as [s|] eqn:Hs.
    + rewrite bool_decide_eq_false_2 in Hrun by done. destruct (OutcomeRefusal st true) as [e|] eqn:Hr.
      * injection Hrun as <- <-. split_and!; [apply store_kept_refl|by intros e' [= <-]|done].
      * destruct (Hauto _ Hrun) as [Hk Hm]. by split_and!.
    + injection Hrun as <- <-. split_and!; [apply store_kept_refl|done|done].
  - unfold openTaskTracker in Hrun. rewrite He in Hrun. destruct (OutcomeRefusal st false) as [e|] eqn:Hr.
    + injection Hrun as <- <-. split_and!; [apply store_kept_refl| |done]. intros e' [= <-]. split; [done|].
      destruct (dk_store k); [done|]. by injection He as <-.
    + rewrite bool_decide_eq_true_2 in Hrun; [|unfold OutcomeRefusal in Hr; by destruct (st_Outcome st)].
      destruct (Hauto _ Hrun) as [Hk Hm]. by split_and!.
Qed.
End pipeline_laws.

(** ** Witnesses: a store of three facts, whose steps change nothing *)
Record toy_shared := mk_toy { ts_format : IDFormat; ts_populated : bool; ts_blobs : gmap string blobRow }.
#[local] Instance toy_owner : Owner :=
  {| Shared := toy_shared;
     FormatName f := match f with IDFormatEmpty => "empty" | IDFormatRetired => "retired" | IDFormatSlash => "slash" end;
     InspectIDFormat s := Some (ts_format s, ts_populated s);
     RawBlobs := ts_blobs;
     EnsureSchemaInTx := Some;
     ConvertIDsInTx s := Some (s, (1, 0, 0)%nat);
     VerifyIDConversionInTx _ := true;
     RebuildOccurrencesInTx := Some;
     CompareOccurrencesToEvidence _ := true;
     PublishIDFormatInTx s := Some (mk_toy IDFormatSlash (ts_populated s) (ts_blobs s)) |}.
#[local] Instance toy_steps : SchemaSteps := fun _ _ d => Some d.
#[local] Instance toy_laws : CutoverLaws.
Proof. split; [intros a b [= <-]; split; [by eexists|done]|by intros from now d d' _ [= <-]]. Qed.
#[local] Existing Instances two_parts single_strings slice_states task_payloads.

Definition legacy_store (version : Z) : Database CutData :=
  mk_Database (Some [(2, 0); (version, 0)])
    (mk_CutData (mk_toy IDFormatRetired true {["d1" := mk_blobRow "raw" 3 7]}) None [("workflow_status", 0%nat)]
       (old_store [(1, Some "c--1"); (2, None)])).
Definition quiet_convert : ConvertEnv := mk_ConvertEnv true true id true true listed true 70 80 None true.
Definition quiet_pipeline (stem : string) : PipelineEnv :=
  mk_PipelineEnv true stem (mk_ArchiveEnv (fun _ => false) (fun _ => false) id id (fun _ => false)) true
    (fun store => match store with Some s => if 1 <=? readVersion s then Some s else None | None => None end)
    (alone 7) true quiet_convert.

Lemma if_false {P Q : Prop} b : b = false -> (if b then P else Q) -> Q.
Proof. by intros ->. Qed.

Lemma convert_atomic_witness : exists s' report,
  Convert quiet_convert (mk_Archive "a" "sum" false false) (legacy_store 9) = (s', Ok report)
  /\ rp_PastureRows report = 6%nat /\ normal s' /\ readVersion s' = 13
  /\ option_map ArchiveSHA256 (cd_receipt (db_data s')) = Some "sum"
  /\ RawBlobs (cd_shared (db_data s')) !! "d1" = Some (mk_blobRow "raw" 3 7)
  /\ column_of (tb_columns (cd_tables (db_data s'))) context_column = Some [Some "e/9"; Some "git-sha"].
Proof.
  assert (Hrows : match (Convert quiet_convert (mk_Archive "a" "sum" false false) (legacy_store 9)).2 with
                  | Ok report => rp_AlreadyCurrent report = false /\ rp_PastureRows report = 6%nat | Err _ => False end)
    by (vm_compute; split; reflexivity).
  destruct (Convert quiet_convert (mk_Archive "a" "sum" false false) (legacy_store 9)) as [s' r] eqn:Hrun. cbn [snd] in Hrows.
  assert (H9 : 9 <= readVersion (cv_others quiet_convert (legacy_store 9))) by done.
  pose proof (convert_atomic quiet_convert (mk_Archive "a" "sum" false false) (legacy_store 9) s' r listed_lawful H9 Hrun)
    as (_ & Hr & _).
  destruct r as [report|e]; [|destruct Hrows]. destruct Hrows as [Hac Hrows].
  apply (if_false _ Hac) in Hr. destruct Hr as [[(Hn & Hrc & _ & Hb & Hv & _) Ht] _]. exists s', report.
  split_and!; [reflexivity|exact Hrows|exact Hn|exact Hv|rewrite Hrc; reflexivity| |].
  - apply (f_equal (lookup "d1")) in Hb. rewrite Hb. apply lookup_singleton_eq.
  - rewrite (ct_columns _ _ Ht context_column). vm_compute. reflexivity.
Defined.

Lemma quiet_fair stem : fair (quiet_pipeline stem).
Proof.
  split_and!; [done|intros n; exact (fun s => ex_intro _ [] (ev_here _ s))|exact (fun s => ex_intro _ [] (ev_here _ s))|].
  intros [s0|] s; simpl; [|done]. destruct (Z.leb_spec 1 (readVersion s0)); [by intros [= <-]|done].
Qed.
(** The operator converts a populated store of version 7 beside an older archive
    of the same second. *)
Lemma cutover_backed_witness : exists k' report s' rc,
  runMigrateIDsApply (fun _ => "sum") 22 (quiet_pipeline "b") (mk_Disk (Some (legacy_store 7)) {["b" := legacy_store 2]})
  = Some (k', Ok (Some report))
  /\ dk_store k' = Some s' /\ normal s' /\ cd_receipt (db_data s') = Some rc /\ ArchivePath rc = "b-1"
  /\ dk_files k' !! "b" = Some (legacy_store 2) /\ dk_files k' !! "b-1" = Some (legacy_store 7).
Proof.
  set (k := mk_Disk (Some (legacy_store 7)) {["b" := legacy_store 2]}).
  set (run := runMigrateIDsApply (fun _ => "sum") 22 (quiet_pipeline "b") k).
  assert (Hpath : option_map (fun x => (match x.2 with Ok (Some report) => negb (rp_AlreadyCurrent report) | _ => false end,
                                        option_map ArchivePath (dk_store x.1 ≫= fun s => cd_receipt (db_data s)))) run
                  = Some (true, Some "b-1")) by (vm_compute; reflexivity).
  destruct run as [[k' r]|] eqn:Hrun; [|discriminate]. cbn [option_map fst snd] in Hpath. injection Hpath as Hok Hpath.
  destruct (evaluateCutover true (dk_store k)) as [st|e] eqn:He; [|vm_compute in He; discriminate].
  assert (Hst : st_Outcome st = OutcomeRefusePopulated) by (vm_compute in He; injection He as <-; reflexivity).
  destruct (cutover_backed (fun _ => "sum") true 22 (quiet_pipeline "b") k k' r st (quiet_fair "b") He ltac:(by rewrite Hst) Hrun)
    as ([Hf _] & _ & Hc).
  destruct r as [[report|]|e]; [|discriminate..]. destruct (rp_AlreadyCurrent report) eqn:Hac; [discriminate|].
  destruct Hc as (s' & Hs & Hn & Hrc). destruct (Hrc Hac) as (rc & Hrc' & _ & Hb & _).
  rewrite Hs in Hpath. cbn in Hpath. rewrite Hrc' in Hpath. injection Hpath as Hp. rewrite Hp in Hb.
  exists k', report, s', rc. split_and!; [reflexivity|exact Hs|exact Hn|exact Hrc'|exact Hp| |exact Hb].
  eapply lookup_weaken; [|exact Hf]. apply lookup_singleton_eq.
Defined.
